(** * MetaDepot: listing compilation and incremental depot synchronisation

    A shallow embedding of the TypeScript sources of MetaDepot
    ([lib/data.ts], [lib/depot.ts], [lib/listing.ts], [lib/versions.ts],
    [lib/meta-api.ts] and [index.ts]) and the properties of its
    specification, stated and proved over that embedding.

    Conventions of the embedding:
    - a JavaScript string is a [string]; its characters are the bytes of its
      UTF-8 encoding, so [Buffer.from(s, "utf8")] is the identity and every
      operation of the sources that looks for an ASCII character (["/"],
      the character class of [isSafePath]) reads the same on both views;
    - a call that can throw, or stop the process, is a computation in the
      monad [M St], which threads the state and carries the completion;
    - the runtime's libraries (hashing, compression, JSON, paths, collation,
      the HTTP server behind [fetch]) are the fields of [Platform] and
      [Network], the service behind the client of the version metadata those
      of [Versions.Client], and the program is verified against any
      implementation of them;
    - the run of [index.ts] takes the answers of the version metadata
      service, which [lib/versions.ts] and [lib/data.ts] produce, as the
      fields of [MetaApi];
    - a request is answered when it is made, and an asynchronous call
      completes before the next statement of its caller starts; the
      exception is the calls of [fetchDetails] that [Promise.all] awaits
      together in [lib/data.ts], which take their turns in the order of a
      schedule, and the schedule is a parameter of the assembly;
    - the folder of a local depot is a tree of files and directories, and
      [fs.readFile], [fs.mkdir] and [fs.writeFile] fail on it as Node's do
      (ENOENT, ENOTDIR, EISDIR, EEXIST).

    Left out: [getPublicURL] and the public base URL, which the program
    never reads; the first statements of [index.ts] (the command line and
    the two lists of versions, which the run takes as arguments); and the
    limit on the number of concurrent requests to the version metadata
    service, which delays the requests and keeps their order. *)

From Stdlib Require Import ZArith String Ascii List Lia Permutation Sorted.
From stdpp Require Import base tactics option list gmap strings pretty.

Local Open Scope string_scope.
Local Open Scope Z_scope.

(** ** JavaScript preliminaries *)

Module JS.

(** How a call ends: it returns, it throws, or it stops the process
    ([process.exit(code)]). *)
Inductive Completion (A : Type) : Type :=
| Normal (a : A)
| Throw (message : string)
| ProcessExit (code : Z).
Arguments Normal {A} a.
Arguments Throw {A} message.
Arguments ProcessExit {A} code.

(** A settled promise: fulfilled with a value, or rejected with an error. *)
Inductive Promise (A : Type) : Type :=
| Fulfilled (a : A)
| Rejected (message : string).
Arguments Fulfilled {A} a.
Arguments Rejected {A} message.

(** State and completion: the effects of a call stay when it throws. *)
Definition M (St A : Type) : Type := St -> Completion A * St.

#[global] Instance M_ret St : MRet (M St) := fun A a s => (Normal a, s).

#[global] Instance M_bind St : MBind (M St) := fun A B f m s =>
  match m s with
  | (Normal a, s') => f a s'
  | (Throw e, s') => (Throw e, s')
  | (ProcessExit c, s') => (ProcessExit c, s')
  end.

(** A completion computed without touching the state. *)
Definition complete {St A} (c : Completion A) : M St A := fun s => (c, s).

Definition throw {St A} (message : string) : M St A := fun s => (Throw message, s).
Definition process_exit {St A} (code : Z) : M St A := fun s => (ProcessExit code, s).
Definition gets {St A} (f : St -> A) : M St A := fun s => (Normal (f s), s).
Definition modify {St} (f : St -> St) : M St unit := fun s => (Normal tt, f s).

(** [await p]: the value of a fulfilled promise, or its rejection thrown. *)
Definition await {St A} (p : Promise A) : M St A := fun s =>
  match p with
  | Fulfilled a => (Normal a, s)
  | Rejected e => (Throw e, s)
  end.

(** The call of an [async] function: what its body throws rejects the
    promise it returns. *)
Definition async {St A} (body : M St A) : M St (Promise A) := fun s =>
  match body s with
  | (Normal a, s') => (Normal (Fulfilled a), s')
  | (Throw e, s') => (Normal (Rejected e), s')
  | (ProcessExit c, s') => (ProcessExit c, s')
  end.

(** [p.then(f)]: [f] runs on the value of a fulfilled [p]; what it throws
    rejects the resulting promise, and the promise it returns is adopted. *)
Definition then_ {St A B} (p : Promise A) (f : A -> M St (Promise B))
  : M St (Promise B) := fun s =>
  match p with
  | Fulfilled a =>
      match f a s with
      | (Normal q, s') => (Normal q, s')
      | (Throw e, s') => (Normal (Rejected e), s')
      | (ProcessExit c, s') => (ProcessExit c, s')
      end
  | Rejected e => (Normal (Rejected e), s)
  end.

(** [for (const x of l) body(x)]. *)
Fixpoint for_of {St A} (l : list A) (body : A -> M St unit) : M St unit :=
  match l with
  | [] => mret tt
  | x :: l' => body x;; for_of l' body
  end.

(** [Promise.all(ps)] on settled promises: the values, or the first rejection. *)
Fixpoint Promise_all {A} (ps : list (Promise A)) : Promise (list A) :=
  match ps with
  | [] => Fulfilled []
  | Fulfilled a :: ps' =>
      match Promise_all ps' with
      | Fulfilled l => Fulfilled (a :: l)
      | Rejected e => Rejected e
      end
  | Rejected e :: _ => Rejected e
  end.

(** *** Strings *)

(** [s.length]. *)
Definition length (s : string) : Z := Z.of_nat (String.length s).

(** [s.lastIndexOf(c)] for a one-character [c]: the index of the last
    occurrence, or -1. *)
Fixpoint lastIndexOf (c : ascii) (s : string) : Z :=
  match s with
  | EmptyString => -1
  | String a s' =>
      let r := lastIndexOf c s' in
      if 0 <=? r then r + 1 else if Ascii.eqb a c then 0 else -1
  end.

(** [s.substring(start, end)]: both indices are clamped to [0, s.length] and
    swapped when [start > end]. *)
Definition substring (s : string) (start end_ : Z) : string :=
  let clamp i := Z.to_nat (Z.max 0 (Z.min i (length s))) in
  let a := clamp start in
  let b := clamp end_ in
  String.substring (Nat.min a b) (Nat.max a b - Nat.min a b) s.

(** [s.split(c)] for a one-character separator [c]. *)
Fixpoint split (c : ascii) (s : string) : list string :=
  match s with
  | EmptyString => [EmptyString]
  | String a s' =>
      if Ascii.eqb a c then EmptyString :: split c s'
      else match split c s' with
           | [] => [String a EmptyString]
           | p :: ps => String a p :: ps
           end
  end.

(** [s.endsWith(c)] for a one-character [c]. *)
Fixpoint endsWith (c : ascii) (s : string) : bool :=
  match s with
  | EmptyString => false
  | String a EmptyString => Ascii.eqb a c
  | String _ s' => endsWith c s'
  end.

(** Truthiness of a string or of an optional one ([undefined] is falsy, and
    so is the empty string). *)
Definition truthy (s : string) : bool := negb (String.eqb s "").
Definition truthy_opt (o : option string) : bool :=
  match o with Some s => truthy s | None => false end.

(** *** Arrays *)

(** [Array.prototype.sort(cmp)] for a consistent comparator: the sort is
    stable, so its result is the one of the stable insertion sort. *)
Fixpoint sort_insert {A} (cmp : A -> A -> Z) (x : A) (l : list A) : list A :=
  match l with
  | [] => [x]
  | y :: l' => if cmp x y <=? 0 then x :: l else y :: sort_insert cmp x l'
  end.

Definition Array_sort {A} (cmp : A -> A -> Z) (l : list A) : list A :=
  foldr (sort_insert cmp) [] l.

(** *** Plain objects used as records from string keys *)

(** The own properties of an object, in creation order. *)
Definition JSObject (V : Type) : Type := list (string * V).

(** The properties every plain object inherits from [Object.prototype]. *)
Definition Object_prototype_keys : list string :=
  [ "constructor"; "__defineGetter__"; "__defineSetter__"; "hasOwnProperty";
    "__lookupGetter__"; "__lookupSetter__"; "isPrototypeOf";
    "propertyIsEnumerable"; "toString"; "valueOf"; "__proto__";
    "toLocaleString" ].

Definition hasOwn {V} (k : string) (o : JSObject V) : bool :=
  existsb (fun kv => String.eqb k (fst kv)) o.

Definition inherited (k : string) : bool :=
  existsb (String.eqb k) Object_prototype_keys.

(** [k in o]: an own or an inherited property. *)
Definition has_property {V} (k : string) (o : JSObject V) : bool :=
  hasOwn k o || inherited k.

(** [o[k] = v] for a key that is an own property or is not inherited: the
    value of an own property is replaced in place, a new property is added
    last. *)
Fixpoint set_property {V} (k : string) (v : V) (o : JSObject V) : JSObject V :=
  match o with
  | [] => [(k, v)]
  | (k', v') :: o' =>
      if String.eqb k k' then (k, v) :: o' else (k', v') :: set_property k v o'
  end.

(** What [o[k]] evaluates to. *)
Inductive Property (V : Type) : Type :=
| Own (v : V)
| Inherited
| Undefined.
Arguments Own {V} v.
Arguments Inherited {V}.
Arguments Undefined {V}.

Fixpoint get_own {V} (k : string) (o : JSObject V) : option V :=
  match o with
  | [] => None
  | (k', v) :: o' => if String.eqb k k' then Some v else get_own k o'
  end.

Definition get_property {V} (k : string) (o : JSObject V) : Property V :=
  match get_own k o with
  | Some v => Own v
  | None => if inherited k then Inherited else Undefined
  end.

(** [Object.fromEntries(entries)]: a later entry replaces an earlier one of
    the same key. *)
Definition Object_fromEntries {V} (entries : list (string * V)) : JSObject V :=
  fold_left (fun o kv => set_property (fst kv) (snd kv) o) entries [].

(** An array index: a canonical decimal numeral below 2^32 - 1. *)
Definition digit_value (a : ascii) : option Z :=
  let n := Z.of_nat (nat_of_ascii a) in
  if (48 <=? n) && (n <=? 57) then Some (n - 48) else None.

Fixpoint decimal_value (acc : Z) (s : string) : option Z :=
  match s with
  | EmptyString => Some acc
  | String a s' =>
      match digit_value a with
      | Some d => decimal_value (10 * acc + d) s'
      | None => None
      end
  end.

Definition array_index (k : string) : option Z :=
  match k with
  | EmptyString => None
  | String a s' =>
      if Ascii.eqb a "0" && negb (String.eqb s' "") then None
      else if Nat.ltb 10 (String.length k) then None
      else match decimal_value 0 k with
           | Some n => if n <? 4294967295 then Some n else None
           | None => None
           end
  end.

(** The order in which the own properties are enumerated: array indices in
    ascending order, then the other keys in creation order. *)
Definition own_properties {V} (o : JSObject V) : list (string * V) :=
  let indexed :=
    omap (fun kv => match array_index (fst kv) with
                    | Some i => Some (i, kv)
                    | None => None
                    end) o in
  map snd (Array_sort (fun a b => fst a - fst b) indexed)
  ++ filter (fun kv => array_index (fst kv) = None) o.

(** [Object.values(o)]. *)
Definition Object_values {V} (o : JSObject V) : list V :=
  map snd (own_properties o).

(** *** JSON values *)

(** The values that JSON represents (numbers are the integers the program
    produces: byte lengths). *)
#[warnings="-register-all"]
Inductive JSValue : Type :=
| JNull
| JBool (b : bool)
| JNumber (n : Z)
| JString (s : string)
| JArray (items : list JSValue)
| JObject (props : list (string * JSValue)).

End JS.

Import JS.

(** ** [lib/data.ts] *)

Module Data.

Definition in_range (lo hi c : ascii) : bool :=
  Nat.leb (nat_of_ascii lo) (nat_of_ascii c)
  && Nat.leb (nat_of_ascii c) (nat_of_ascii hi).

(** The character class [0-9a-zA-Z_. -] of the pattern of [isSafePath]. *)
Definition safe_class (c : ascii) : bool :=
  in_range "0" "9" c || in_range "a" "z" c || in_range "A" "Z" c
  || Ascii.eqb c "_" || Ascii.eqb c "." || Ascii.eqb c " " || Ascii.eqb c "-".

(** [version.match(/[^0-9a-zA-Z_. -]/)]: the first character outside the
    class, or [null]. *)
Fixpoint match_unsafe (version : string) : option ascii :=
  match version with
  | EmptyString => None
  | String a s' => if safe_class a then match_unsafe s' else Some a
  end.

(** [export function isSafePath(version: string)]. *)
Definition isSafePath (version : string) : bool :=
  negb (bool_decide (is_Some (match_unsafe version))).

End Data.

(** ** The data model of [lib/listing.ts] *)

(** [Buffer]: a sequence of bytes. *)
Abbreviation Buffer := string (only parsing).

(** [Buffer.from(s, "utf8")] and [buffer.toString("utf-8")]. *)
Definition Buffer_from (s : string) : Buffer := s.
Definition Buffer_toString (b : Buffer) : string := b.

(** [type CompressionType = "gzip" | "brotli"]. *)
Inductive CompressionType : Type := Gzip | Brotli.

#[global] Instance CompressionType_eq_dec : EqDecision CompressionType.
Proof. solve_decision. Defined.

(** [interface FileDescriptor]. *)
Record FileDescriptor : Type := {
  url : string;
  size : Z;
  sha256 : string;
}.

(** [interface ListingDescriptor extends FileDescriptor,
    Record<CompressionType, FileDescriptor>]: the fields of the uncompressed
    representation are those of [uncompressed]. *)
Record ListingDescriptor : Type := {
  name : string;
  last_modified : string;
  uncompressed : FileDescriptor;
  brotli : FileDescriptor;
  gzip : FileDescriptor;
}.

(** A descriptor as the JavaScript object it is, properties in the order in
    which the object literal of [writeListingAsync] creates them. *)
Definition FileDescriptor_properties (f : FileDescriptor) : list (string * JSValue) :=
  [("url", JString (url f)); ("size", JNumber (size f)); ("sha256", JString (sha256 f))].

Definition ListingDescriptor_toJS (l : ListingDescriptor) : JSValue :=
  JObject ([("name", JString (name l)); ("last_modified", JString (last_modified l))]
           ++ FileDescriptor_properties (uncompressed l)
           ++ [("brotli", JObject (FileDescriptor_properties (brotli l)));
               ("gzip", JObject (FileDescriptor_properties (gzip l)))]).

(** [const compressionExtensions: Record<CompressionType, string>]. *)
Definition compressionExtensions : JSObject string :=
  [("brotli", "br"); ("gzip", "gz")].

Definition CompressionType_tag (t : CompressionType) : string :=
  match t with Brotli => "brotli" | Gzip => "gzip" end.

(** [compressionExtensions[type]]. *)
Definition compressionExtension (t : CompressionType) : string :=
  match get_own (CompressionType_tag t) compressionExtensions with
  | Some e => e
  | None => "undefined"
  end.

(** [const DEPOT_INDEX_PATH]. *)
Definition DEPOT_INDEX_PATH : string := ".depot-index.json".

(** ** The runtime *)

(** The libraries and the environment the program runs on. *)
Class Platform : Type := {
  (** [crypto.createHash("sha256").update(buffer).digest("hex")] *)
  sha256_hex : Buffer -> string;
  (** [promisify(zlib.brotliCompress)] and [zopfli.gzip] *)
  brotliCompress : Buffer -> Buffer;
  gzipCompress : Buffer -> Buffer;
  (** [JSON.stringify(value, undefined, indent)] *)
  JSON_stringify : JSValue -> option Z -> string;
  (** [JSON.parse(text)] read at the type [ListingDescriptor[]] that
      [getJSON] is called at: a syntax error is thrown, a falsy document
      ([null], [false], [0], the empty string) is [None]. *)
  JSON_parse_index : string -> Completion (option (list ListingDescriptor));
  (** [path.join(a, b)] and [path.dirname(p)] *)
  path_join : string -> string -> string;
  path_dirname : string -> string;
  (** [a.localeCompare(b)] *)
  localeCompare : string -> string -> Z;
  (** [process.env.FORMAT_OUTPUT] *)
  FORMAT_OUTPUT : option string;
  (** what the identifier [name] is bound to in the global scope, if it is *)
  global_name : option string;
}.

(** ** [lib/depot.ts] *)

Module Depot.

(** [abstract class DepotManager]: the two abstract methods, over the state
    [D] of the variant. *)
Class DepotManager (D : Type) : Type := {
  download : string -> M D (option Buffer);
  upload : string -> Buffer -> M D unit;
}.

(** [async getJSON<T>(relativePath)] at [T = ListingDescriptor[]]. *)
Definition getJSON {rt : Platform} {D} {dm : DepotManager D} (relativePath : string)
  : M D (option (list ListingDescriptor)) :=
  content ← download relativePath;
  match content with
  | None => mret None
  | Some content => complete (JSON_parse_index (Buffer_toString content))
  end.

(** *** The disk of the local depot *)

(** What the disk holds under a path: a regular file with its content, or
    a directory. *)
Inductive Entry : Type :=
| File (content : Buffer)
| Directory.

Abbreviation Disk := (gmap string Entry) (only parsing).

(** An error of [node:fs], with its [code]. *)
Record SystemError : Type := {
  code : string;
  message : string;
}.

Definition EEXIST (syscall path : string) : SystemError :=
  {| code := "EEXIST";
     message := "EEXIST: file already exists, " +:+ syscall +:+ " '" +:+ path +:+ "'" |}.

Definition EISDIR (syscall : string) : SystemError :=
  {| code := "EISDIR";
     message := "EISDIR: illegal operation on a directory, " +:+ syscall |}.

Definition ENOENT (syscall path : string) : SystemError :=
  {| code := "ENOENT";
     message := "ENOENT: no such file or directory, " +:+ syscall +:+ " '" +:+ path +:+ "'" |}.

Definition ENOTDIR (syscall path : string) : SystemError :=
  {| code := "ENOTDIR";
     message := "ENOTDIR: not a directory, " +:+ syscall +:+ " '" +:+ path +:+ "'" |}.

Section Disk.
Context {rt : Platform}.

(** A path that is its own directory: ["."], or the root. It is a
    directory that is always there. *)
Definition is_root (path : string) : bool := String.eqb (path_dirname path) path.

(** The directories above [path], the nearest first, up to the one that
    is its own directory. *)
Fixpoint parents (fuel : nat) (path : string) : list string :=
  match fuel with
  | O => []
  | S fuel' =>
      let dir := path_dirname path in
      if is_root dir then [] else dir :: parents fuel' dir
  end.

Definition ancestors (path : string) : list string := parents (String.length path) path.

Definition is_file (disk : Disk) (path : string) : bool :=
  match disk !! path with Some (File _) => true | _ => false end.

Definition is_directory (disk : Disk) (path : string) : bool :=
  is_root path || match disk !! path with Some Directory => true | _ => false end.

(** [fs.readFile(path)]. *)
Definition readFile (path : string) (disk : Disk) : SystemError + Buffer :=
  if is_root path then inl (EISDIR "read")
  else match disk !! path with
       | Some (File content) => inr content
       | Some Directory => inl (EISDIR "read")
       | None =>
           if existsb (is_file disk) (ancestors path) then inl (ENOTDIR "open" path)
           else inl (ENOENT "open" path)
       end.

(** [fs.mkdir(dir, { recursive: true })]: nothing to do for a directory
    that is there; a file in the way is an error; otherwise the directory
    is made, with those above it that are missing. *)
Definition mkdir_recursive (dir : string) (disk : Disk) : SystemError + Disk :=
  if is_directory disk dir then inr disk
  else if is_file disk dir then inl (EEXIST "mkdir" dir)
  else if existsb (is_file disk) (ancestors dir) then inl (ENOTDIR "mkdir" dir)
  else inr (foldr (fun a m => <[a := Directory]> m) disk (dir :: ancestors dir)).

(** [fs.writeFile(path, content)]: the file is made or replaced in a
    directory that is there. *)
Definition writeFile (path : string) (content : Buffer) (disk : Disk)
  : SystemError + Disk :=
  if is_directory disk path then inl (EISDIR ("open '" +:+ path +:+ "'"))
  else if is_directory disk (path_dirname path) then inr (<[path := File content]> disk)
  else if existsb (is_file disk) (ancestors path) then inl (ENOTDIR "open" path)
  else inl (ENOENT "open" path).

End Disk.

(** *** [class LocalDepotManager] *)

(** The field of the instance, and the disk that it reads and writes. *)
Record LocalDepotManager : Type := {
  basePath : string;
  disk : Disk;
}.

(** The regular files of the disk, with their content. *)
Definition files (d : LocalDepotManager) : gmap string string :=
  omap (fun entry => match entry with File content => Some content | Directory => None end)
    (disk d).

Definition Local_download {rt : Platform} (relativePath : string)
  : M LocalDepotManager (option Buffer) :=
  fun d =>
    let p := path_join (basePath d) relativePath in
    match readFile p (disk d) with
    | inr content => (Normal (Some content), d)
    | inl e =>
        if String.eqb (code e) "ENOENT" then (Normal None, d)
        else (Throw (message e), d)
    end.

Definition Local_upload {rt : Platform} (relativePath : string) (content : Buffer)
  : M LocalDepotManager unit :=
  fun d =>
    let p := path_join (basePath d) relativePath in
    match mkdir_recursive (path_dirname p) (disk d) with
    | inl e => (Throw (message e), d)
    | inr made =>
        match writeFile p content made with
        | inl e => (Throw (message e), {| basePath := basePath d; disk := made |})
        | inr written => (Normal tt, {| basePath := basePath d; disk := written |})
        end
    end.

#[global] Instance Local_DepotManager {rt : Platform} : DepotManager LocalDepotManager := {
  download := Local_download;
  upload := Local_upload;
}.

(** *** [class WebDAVDepotManager] *)

Inductive Method : Type := GET | PUT | MKCOL.

#[global] Instance Method_eq_dec : EqDecision Method.
Proof. solve_decision. Defined.

(** The argument of [fetch]: the URL, the method, the two headers the
    program sets, and the body. *)
Record Request : Type := {
  method : Method;
  requestUrl : string;
  authorization : option string;
  contentType : option string;
  body : option string;
}.

Record Response : Type := {
  status : Z;
  statusText : string;
  responseBody : string;
}.

(** [response.ok]. *)
Definition ok (r : Response) : bool := (200 <=? status r) && (status r <=? 299).

(** What [fetch] settles to: a response, or a failure of the transport
    with its [cause.code]. *)
Inductive FetchResult : Type :=
| Responds (response : Response)
| Fails (causeCode : option string) (message : string).

(** The remote end: a server that answers requests and changes state, and
    [new URL(relative, base).toString()]. *)
Class Network : Type := {
  Server : Type;
  serve : Request -> Server -> FetchResult * Server;
  URL_resolve : string -> string -> string;
}.

(** One call of [fetch]: the relative path it is about, the request, and
    what came back. *)
Record Exchange : Type := {
  target : string;
  request : Request;
  result : FetchResult;
}.

(** The fields of the instance, the state of the server it talks to, and
    the calls of [fetch] it has made so far, oldest first. *)
Record WebDAVDepotManager {net : Network} : Type := {
  webdavUrl : string;
  authHeader : option string;
  createdDirectories : gset string;
  server : Server;
  exchanges : list Exchange;
}.

Record WebDAVDepotConfig : Type := {
  config_webdavUrl : string;
  config_token : option string;
}.

(** [constructor(config: WebDAVDepotConfig)], talking to [srv]. *)
Definition new_WebDAVDepotManager {net : Network} (config : WebDAVDepotConfig) (srv : Server)
  : WebDAVDepotManager := {|
  webdavUrl :=
    if endsWith "/" (config_webdavUrl config) then config_webdavUrl config
    else config_webdavUrl config +:+ "/";
  authHeader :=
    match config_token config with
    | Some token => if truthy token then Some ("Bearer " +:+ token) else None
    | None => None
    end;
  createdDirectories := ∅;
  server := srv;
  exchanges := [];
|}.

Section WebDAV.
Context {net : Network}.

(** [await fetch(url, init)], recorded in [exchanges]. *)
Definition fetch (relativePath : string) (req : Request)
  : M WebDAVDepotManager FetchResult := fun d =>
  let (r, srv) := serve req (server d) in
  (Normal r,
   {| webdavUrl := webdavUrl d;
      authHeader := authHeader d;
      createdDirectories := createdDirectories d;
      server := srv;
      exchanges := exchanges d ++ [{| target := relativePath; request := req; result := r |}] |}).

(** [this.createdDirectories.add(path)]. *)
Definition createdDirectories_add (path : string) : M WebDAVDepotManager unit :=
  modify (fun d =>
   {| webdavUrl := webdavUrl d;
      authHeader := authHeader d;
      createdDirectories := {[path]} ∪ createdDirectories d;
      server := server d;
      exchanges := exchanges d |}).

Definition status_line (r : Response) : string :=
  pretty (status r) +:+ " " +:+ statusText r.

Definition WebDAV_download (relativePath : string)
  : M WebDAVDepotManager (option Buffer) :=
  base ← gets webdavUrl;
  auth ← gets authHeader;
  let fileUrl := URL_resolve relativePath base in
  r ← fetch relativePath
        {| method := GET; requestUrl := fileUrl; authorization := auth;
           contentType := None; body := None |};
  match r with
  | Responds response =>
      if status response =? 404 then mret None
      else if negb (ok response) then
        throw ("WebDAV GET " +:+ fileUrl +:+ " failed: " +:+ status_line response)
      else mret (Some (responseBody response))
  | Fails cause message =>
      if bool_decide (cause = Some "ENOTFOUND" ∨ cause = Some "ECONNREFUSED")
      then throw ("Cannot connect to WebDAV server: " +:+ base)
      else throw message
  end.

(** The body of the loop of [ensureDirectoryExists] for one value of
    [currentPath]: nothing for a path already created, the request
    otherwise. *)
Definition ensurePrefix (currentPath : string) : M WebDAVDepotManager unit :=
  created ← gets createdDirectories;
  if bool_decide (currentPath ∈ created) then mret tt
  else
    base ← gets webdavUrl;
    auth ← gets authHeader;
    r ← fetch currentPath
          {| method := MKCOL; requestUrl := URL_resolve currentPath base;
             authorization := auth; contentType := None; body := None |};
    match r with
    | Responds response =>
        if (status response =? 201) || (status response =? 405)
        then createdDirectories_add currentPath
        else throw ("WebDAV MKCOL failed: " +:+ status_line response)
    | Fails _ message => throw message
    end.

(** The loop of [ensureDirectoryExists] over the remaining [parts], with
    the value of [currentPath] on entry. *)
Fixpoint ensureParts (parts : list string) (currentPath : string)
  : M WebDAVDepotManager unit :=
  match parts with
  | [] => mret tt
  | part :: parts' =>
      let currentPath := currentPath +:+ part +:+ "/" in
      ensurePrefix currentPath;;
      ensureParts parts' currentPath
  end.

(** [private async ensureDirectoryExists(dirPath)]. *)
Definition ensureDirectoryExists (dirPath : string) : M WebDAVDepotManager unit :=
  created ← gets createdDirectories;
  if bool_decide (dirPath ∈ created) then mret tt
  else ensureParts (List.filter (fun p => 0 <? length p) (split "/" dirPath)) "".

Definition WebDAV_upload (relativePath : string) (content : Buffer)
  : M WebDAVDepotManager unit :=
  let dirname := substring relativePath 0 (lastIndexOf "/" relativePath) in
  (if truthy dirname then ensureDirectoryExists dirname else mret tt);;
  base ← gets webdavUrl;
  auth ← gets authHeader;
  r ← fetch relativePath
        {| method := PUT; requestUrl := URL_resolve relativePath base;
           authorization := auth;
           contentType := Some "application/octet-stream";
           body := Some content |};
  match r with
  | Responds response =>
      if negb (ok response) then throw ("WebDAV PUT failed: " +:+ status_line response)
      else mret tt
  | Fails _ message => throw message
  end.

#[global] Instance WebDAV_DepotManager : DepotManager WebDAVDepotManager := {
  download := WebDAV_download;
  upload := WebDAV_upload;
}.

End WebDAV.

End Depot.

Import Depot.

(** ** [lib/listing.ts] *)

Module Listing.

Inductive LogLevel : Type := LogDebug | LogInfo | LogError.

(** One call of [console.debug], [console.info] or [console.error]: the
    format and its arguments. *)
Record LogEntry : Type := {
  level : LogLevel;
  format : string;
  arguments : list string;
}.

(** The readonly fields of a [ListingsBuilder] that hold values. *)
Record ListingsBuilder : Type := {
  destinationFolder : string;
  referenceDate : string;
}.

(** What a run changes: the object [this.listings], the local file system
    (a map from paths to contents), the console, the depot ([D] is the state
    of its variant), and the calls of [depot.upload] made so far, oldest
    first. *)
Record State (D : Type) : Type := {
  listings : JSObject (Promise ListingDescriptor);
  fs : gmap string string;
  console : list LogEntry;
  depot : D;
  uploads : list (string * string);
}.
Arguments listings {D} _.
Arguments fs {D} _.
Arguments console {D} _.
Arguments depot {D} _.
Arguments uploads {D} _.

Section Builder.
Context {rt : Platform} {D : Type} {dm : DepotManager D}.

Definition set_listings (f : JSObject (Promise ListingDescriptor) -> JSObject (Promise ListingDescriptor))
  (s : State D) : State D :=
  {| listings := f (listings s); fs := fs s; console := console s;
     depot := depot s; uploads := uploads s |}.

Definition set_fs (f : gmap string string -> gmap string string) (s : State D) : State D :=
  {| listings := listings s; fs := f (fs s); console := console s;
     depot := depot s; uploads := uploads s |}.

Definition set_console (f : list LogEntry -> list LogEntry) (s : State D) : State D :=
  {| listings := listings s; fs := fs s; console := f (console s);
     depot := depot s; uploads := uploads s |}.

(** [console.debug], [console.info], [console.error]. *)
Definition console_log (l : LogLevel) (fmt : string) (args : list string)
  : M (State D) unit :=
  modify (set_console (fun c => (c ++ [{| level := l; format := fmt; arguments := args |}])%list)).

(** [fs.writeFile(path, content)], the missing directories created first. *)
Definition fs_writeFile (path : string) (content : Buffer) : M (State D) unit :=
  modify (set_fs (fun m => <[path := content]> m)).

(** [fs.readFile(path)]. *)
Definition fs_readFile (path : string) : M (State D) Buffer :=
  m ← gets fs;
  match m !! path with
  | Some content => mret content
  | None => throw ("ENOENT: no such file or directory, open '" +:+ path +:+ "'")
  end.

(** [depot.download] and [depot.upload] from the run; a call of [upload] is
    recorded in [uploads]. *)
Definition on_depot {A} (m : M D A) : M (State D) A := fun s =>
  let (r, d) := m (depot s) in
  (r, {| listings := listings s; fs := fs s; console := console s;
         depot := d; uploads := uploads s |}).

Definition depot_upload (relativePath : string) (content : Buffer) : M (State D) unit :=
  modify (fun s =>
    {| listings := listings s; fs := fs s; console := console s;
       depot := depot s; uploads := (uploads s ++ [(relativePath, content)])%list |});;
  on_depot (upload relativePath content).

(** The value of the identifier [name], which no scope of the module
    binds: the global one, or a [ReferenceError]. *)
Definition the_global_name : M (State D) string :=
  match global_name with
  | Some v => mret v
  | None => throw "ReferenceError: name is not defined"
  end.

(** [async function compress(buffer)]: the [Map], entries in insertion
    order. *)
Definition compress (buffer : Buffer) : list (CompressionType * Buffer) :=
  [(Brotli, brotliCompress buffer); (Gzip, gzipCompress buffer)].

(** [compressed.get(type)!]. *)
Definition Map_get (type : CompressionType) (m : list (CompressionType * Buffer)) : Buffer :=
  match List.find (fun e => bool_decide (fst e = type)) m with
  | Some e => snd e
  | None => ""
  end.

Section Methods.
Variable self : ListingsBuilder.

Definition buildUrl (filename : string) : string := filename.

Definition buildFileDescriptor (filename : string) (buffer : Buffer) : FileDescriptor :=
  {| url := buildUrl filename;
     size := length buffer;
     sha256 := sha256_hex buffer |}.

(** [private async writeListingAsync(name, content)]. *)
Definition writeListingAsync (name : string) (content : Promise JSValue)
  : M (State D) (Promise ListingDescriptor) :=
  async (
    content ← await content;
    let json := JSON_stringify content (if truthy_opt FORMAT_OUTPUT then Some 2 else None) in
    let buffer := Buffer_from json in
    let jsonPath := path_join (destinationFolder self) (name +:+ ".json") in
    fs_writeFile jsonPath buffer;;
    let compressed := compress buffer in
    for_of compressed (fun entry =>
      fs_writeFile (jsonPath +:+ "." +:+ compressionExtension (fst entry)) (snd entry));;
    mret {| name := name;
            last_modified := referenceDate self;
            uncompressed := buildFileDescriptor (name +:+ ".json") buffer;
            brotli := buildFileDescriptor (name +:+ ".json.br") (Map_get Brotli compressed);
            gzip := buildFileDescriptor (name +:+ ".json.gz") (Map_get Gzip compressed) |}).

(** [writeListing(name, content)]. *)
Definition writeListing (name : string) (content : Promise JSValue)
  : M (State D) (Promise ListingDescriptor) :=
  registered ← gets listings;
  if has_property name registered then
    throw ("Listing " +:+ name +:+ " has already been written.")
  else
    p ← writeListingAsync name content;
    modify (set_listings (set_property name p));;
    mret p.

(** [async finish()]. *)
Definition finish : M (State D) unit :=
  registered ← gets listings;
  await (Promise_all (Object_values registered));;
  files ← await (Promise_all (Object_values registered));
  p ← writeListingAsync "index" (Fulfilled (JArray (map ListingDescriptor_toJS files)));
  await p;;
  mret tt.

(** The test of the loop of [syncWithDepot]: the listing is skipped. *)
Definition same_content (existingListing : Property ListingDescriptor)
  (listing : ListingDescriptor) : bool :=
  match existingListing with
  | Own e =>
      String.eqb (sha256 (uncompressed e)) (sha256 (uncompressed listing))
      && (size (uncompressed e) =? size (uncompressed listing))
  | Inherited => false
  | Undefined => false
  end.

(** [["json", ...Object.values(compressionExtensions).map((e) => `json.${e}`)]]. *)
Definition extensionsToUpload : list string :=
  "json" :: map (fun e => "json." +:+ e) (Object_values compressionExtensions).

(** The body of the loop over [extensionsToUpload]: one artifact is read
    back from the destination folder and uploaded. *)
Definition uploadArtifact (listing : ListingDescriptor) (extension : string)
  : M (State D) unit :=
  let filename := name listing +:+ "." +:+ extension in
  content ← fs_readFile (path_join (destinationFolder self) filename);
  depot_upload filename content;;
  console_log LogInfo "Uploaded %s" [filename].

(** The body of the loop of [syncWithDepot] over the listings. *)
Definition syncListing (existingListings : JSObject ListingDescriptor)
  (listing : ListingDescriptor) : M (State D) unit :=
  let existingListing := get_property (name listing) existingListings in
  if same_content existingListing listing then
    skipped ← the_global_name;
    console_log LogDebug
      "Skipping upload of listing %s since it's sha256 checksum matches (%s)"
      [skipped;
       match existingListing with Own e => sha256 (uncompressed e) | _ => "undefined" end]
  else
    for_of extensionsToUpload (uploadArtifact listing).

(** The part of [syncWithDepot] after the baseline is known. *)
Definition syncWithBaseline (depotIndex : list ListingDescriptor) : M (State D) unit :=
  let existingListings := Object_fromEntries (map (fun e => (name e, e)) depotIndex) in
  registered ← gets listings;
  listings ← await (Promise_all (Object_values registered));
  for_of listings (syncListing existingListings);;
  let newDepotIndex :=
    Array_sort (fun a b => localeCompare (name a) (name b)) listings in
  depot_upload DEPOT_INDEX_PATH
    (Buffer_from (JSON_stringify (JArray (map ListingDescriptor_toJS newDepotIndex)) None)).

(** [async syncWithDepot(depot, fullResync)]. *)
Definition syncWithDepot (fullResync : bool) : M (State D) unit :=
  depotIndex ← on_depot (getJSON DEPOT_INDEX_PATH);
  depotIndex ← match depotIndex with
               | Some depotIndex => mret depotIndex
               | None =>
                   if negb fullResync then
                     console_log LogInfo
                       "Depot is empty. Full resync required, pass --full-resync" [];;
                     process_exit 1
                   else mret []
               end;
  syncWithBaseline depotIndex.

End Methods.
End Builder.

End Listing.

Import Listing.

(** ** [index.ts] *)

Module Main.

(** [NeoForgeVersionDetails], the one field the program reads. *)
Record NeoForgeVersionDetails : Type := {
  release_notes : JSValue;
}.

(** What the version metadata service answers, as settled promises:
    [versions.getNeoForgeDetails(version)], and the two documents that
    [buildMinecraftVersionsWithNeoForge(versions, minecraftVersions,
    releasesOnly)] assembles from its answers. *)
Class MetaApi : Type := {
  getNeoForgeDetails : string -> Promise NeoForgeVersionDetails;
  buildMinecraftVersionsWithNeoForge : bool -> Promise JSValue;
}.

Section Run.
Context {rt : Platform} {api : MetaApi} {D : Type} {dm : DepotManager D}.

(** [async function buildNeoForgeListing(version)]. *)
Definition buildNeoForgeListing (version : string) : Promise JSValue :=
  match getNeoForgeDetails version with
  | Fulfilled details => Fulfilled (JObject [("release_notes", release_notes details)])
  | Rejected e => Rejected e
  end.

(** The callback of [neoforgeVersions.map]: [undefined] for a version that
    is skipped, the promise of its listing otherwise. *)
Definition neoforgeListing (listingsBuilder : ListingsBuilder) (version : string)
  : M (State D) (option (Promise ListingDescriptor)) :=
  if negb (Data.isSafePath version) then
    console_log LogError
      "Cannot build listing for %s since it's not a safe path name." [version];;
    mret None
  else
    p ← then_ (buildNeoForgeListing version) (fun listing =>
          writeListing listingsBuilder ("neoforge/" +:+ version) (Fulfilled listing));
    mret (Some p).

(** [array.map(f)] for a callback with effects. *)
Fixpoint Array_map {St A B} (f : A -> M St B) (l : list A) : M St (list B) :=
  match l with
  | [] => mret []
  | x :: l' => y ← f x; ys ← Array_map f l'; mret (y :: ys)
  end.

(** [await Promise.all(neoforgeVersions.map(...))]: an entry that is not a
    promise is passed through. *)
Definition buildNeoForgeListings (listingsBuilder : ListingsBuilder)
  (neoforgeVersions : list string) : M (State D) unit :=
  results ← Array_map (neoforgeListing listingsBuilder) neoforgeVersions;
  await (Promise_all (omap id results));;
  mret tt.

(** The module body from the construction of the builder on; [now] is
    [new Date().toISOString()], and the file system of the state is the
    content of the destination folder, emptied first. *)
Definition main (now : string) (neoforgeVersions : list string) (fullResync : bool)
  : M (State D) unit :=
  let destinationFolder := "output" in
  modify (set_fs (fun _ => ∅));;
  let listingsBuilder := {| destinationFolder := destinationFolder; referenceDate := now |} in
  modify (set_listings (fun _ => []));;
  writeListing listingsBuilder "minecraft-releases-with-neoforge"
    (buildMinecraftVersionsWithNeoForge true);;
  writeListing listingsBuilder "minecraft-versions-with-neoforge"
    (buildMinecraftVersionsWithNeoForge false);;
  buildNeoForgeListings listingsBuilder neoforgeVersions;;
  finish listingsBuilder;;
  syncWithDepot listingsBuilder fullResync.

End Run.

End Main.

Import Main.

(** ** The vocabulary of the specification *)

Module Spec.

(** An ASCII letter or digit. *)
Definition alphanumeric (c : ascii) : Prop :=
  let n := nat_of_ascii c in
  (48 <= n <= 57)%nat \/ (65 <= n <= 90)%nat \/ (97 <= n <= 122)%nat.

(** The allow-list of the path-safety check: alphanumerics, underscore,
    period, hyphen, space. *)
Definition allowed (c : ascii) : Prop :=
  alphanumeric c \/ c = "_"%char \/ c = "."%char \/ c = "-"%char \/ c = " "%char.

(** The characters of a string. *)
Definition characters (s : string) : list ascii := list_ascii_of_string s.

(** The path of the uncompressed artifact of the listing [name] in the
    destination folder, as [writeListingAsync] computes it. *)
Definition jsonPath {rt : Platform} (self : ListingsBuilder) (name : string) : string :=
  path_join (destinationFolder self) (name +:+ ".json").

(** The three artifact names of a listing. *)
Definition artifactNames (l : ListingDescriptor) : list string :=
  [name l +:+ ".json"; name l +:+ ".json.br"; name l +:+ ".json.gz"].

(** The baseline holds an entry of the same name, hash and size. *)
Definition unchanged (baseline : list ListingDescriptor) (l : ListingDescriptor) : Prop :=
  exists e, In e baseline /\ name e = name l
            /\ sha256 (uncompressed e) = sha256 (uncompressed l)
            /\ size (uncompressed e) = size (uncompressed l).

(** The descriptor [f] describes the file at [path]: its hash and its size
    are those of the bytes there. *)
Definition describes {rt : Platform} (files : gmap string string) (path : string)
  (f : FileDescriptor) : Prop :=
  exists bytes, files !! path = Some bytes
                /\ sha256 f = sha256_hex bytes /\ size f = length bytes.

(** The segments of the directory part of a relative path, and the
    ancestor prefixes the remote depot creates for it: [a/], [a/b/], ... *)
Definition directorySegments (relativePath : string) : list string :=
  List.filter (fun p => negb (String.eqb p "")) (removelast (split "/" relativePath)).

Fixpoint prefixesFrom (currentPath : string) (parts : list string) : list string :=
  match parts with
  | [] => []
  | part :: parts' =>
      (currentPath +:+ part +:+ "/") :: prefixesFrom (currentPath +:+ part +:+ "/") parts'
  end.

Definition ancestorPrefixes (relativePath : string) : list string :=
  prefixesFrom "" (directorySegments relativePath).

(** The depot accepts every upload. *)
Definition accepts_uploads (D : Type) {dm : DepotManager D} : Prop :=
  forall relativePath content d, (upload relativePath content d).1 = Normal tt.

(** The call of [depot.upload] carries the artifact [filename] with the
    content that the file of that name has in the destination folder. *)
Definition read_back {rt : Platform} (self : ListingsBuilder) (files : gmap string string)
  (call : string * string) (filename : string) : Prop :=
  call.1 = filename
  /\ files !! path_join (destinationFolder self) filename = Some call.2.

(** The artifacts of the listings are in the destination folder. *)
Definition artifacts_present {rt : Platform} (self : ListingsBuilder)
  (files : gmap string string) (ls : list ListingDescriptor) : Prop :=
  forall l filename, In l ls -> In filename (artifactNames l) ->
    is_Some (files !! path_join (destinationFolder self) filename).

(** The call of [depot.upload] carries an artifact of one of the listings,
    read back from the destination folder. *)
Definition artifact_call {rt : Platform} (self : ListingsBuilder)
  (files : gmap string string) (ls : list ListingDescriptor) (call : string * string) : Prop :=
  exists l filename, In l ls /\ In filename (artifactNames l)
                     /\ read_back self files call filename.

(** The calls of [depot.upload] made on the depot one after the other, as
    long as they return; and the depot after the calls, whatever they
    returned. *)
Definition deliver {D : Type} {dm : DepotManager D} (calls : list (string * string))
  : M D unit :=
  for_of calls (fun call => upload call.1 call.2).

Definition after_uploads {D : Type} {dm : DepotManager D} (calls : list (string * string))
  (d : D) : D :=
  fold_left (fun d call => (upload call.1 call.2 d).2) calls d.

(** What the uploads of the artifacts [names] have done from [s] to [s'],
    with the completion [r] and the calls [calls] of [depot.upload]: the
    calls are for the first of the names, in order, each with the file read
    back from the destination folder; the depot is what the calls have made
    of it; and on return there is a call for every name and the depot has
    accepted each of them. *)
Definition uploaded_artifacts {rt : Platform} {D : Type} {dm : DepotManager D}
  (self : ListingsBuilder) (names : list string) (s : State D) (r : Completion unit)
  (s' : State D) (calls : list (string * string)) : Prop :=
  uploads s' = (uploads s ++ calls)%list
  /\ fs s' = fs s /\ listings s' = listings s
  /\ depot s' = after_uploads calls (depot s)
  /\ (exists done later,
        names = (done ++ later)%list /\ Forall2 (read_back self (fs s)) calls done)
  /\ (r = Normal tt ->
      Forall2 (read_back self (fs s)) calls names
      /\ deliver calls (depot s) = (Normal tt, depot s')).

(** The test of the sync on a listing, against an indexed baseline. *)
Definition skips (existing : JSObject ListingDescriptor) (l : ListingDescriptor) : bool :=
  same_content (get_property (name l) existing) l.

(** The artifacts that a sync has to upload: those of the listings it does
    not skip. *)
Definition artifactsToUpload (existing : JSObject ListingDescriptor)
  (ls : list ListingDescriptor) : list string :=
  flat_map (fun l => if skips existing l then [] else artifactNames l) ls.

(** The state after the index was looked for in the depot. *)
Definition after_download {D} (d' : D) (s : State D) : State D :=
  {| listings := listings s; fs := fs s; console := console s;
     depot := d'; uploads := uploads s |}.

(** The message that tells the operator to ask for a full resync. *)
Definition resync_instruction : LogEntry :=
  {| level := LogInfo;
     format := "Depot is empty. Full resync required, pass --full-resync";
     arguments := [] |}.

(** What a step of the sync leaves alone: the local files and the
    registry. *)
Definition preserves {D} (s s' : State D) : Prop :=
  fs s' = fs s /\ listings s' = listings s.

(** The order of the published index: by [localeCompare] on the names. *)
Definition name_le {rt : Platform} (a b : ListingDescriptor) : Prop :=
  localeCompare (name a) (name b) <= 0.

(** The document published as the index of the listings [ls]. *)
Definition indexDocument {rt : Platform} (ls : list ListingDescriptor) : string :=
  Buffer_from
    (JSON_stringify
       (JArray (map ListingDescriptor_toJS
                  (Array_sort (fun a b => localeCompare (name a) (name b)) ls)))
       None).

(** The baseline as the loop of the sync looks entries up in it. *)
Definition indexed (baseline : list ListingDescriptor) : JSObject ListingDescriptor :=
  Object_fromEntries (map (fun e => (name e, e)) baseline).

(** Two states of a run that differ at most in what the console shows. *)
Definition same_but_console {D} (s1 s2 : State D) : Prop :=
  listings s1 = listings s2 /\ fs s1 = fs s2 /\ depot s1 = depot s2
  /\ uploads s1 = uploads s2.

(** The message logged for a version that is skipped. *)
Definition skipped_version (version : string) : LogEntry :=
  {| level := LogError;
     format := "Cannot build listing for %s since it's not a safe path name.";
     arguments := [version] |}.

(** The status of a create-collection request that counts as success. *)
Definition created_or_exists (r : FetchResult) : Prop :=
  exists response, r = Responds response /\ (status response = 201 \/ status response = 405).

(** The exchange is a create-collection request for the prefix [p]. *)
Definition mkcol_for (p : string) (e : Exchange) : Prop :=
  method (request e) = MKCOL /\ target e = p.

(** The exchange is the upload of [content] to [relativePath]. *)
Definition put_of (relativePath content : string) (e : Exchange) : Prop :=
  method (request e) = PUT /\ target e = relativePath
  /\ body (request e) = Some content.

(** The calls a client makes on a remote depot, and the life of an
    instance: it is constructed, then called any number of times, whatever
    the calls return. *)
Inductive DepotCall : Type :=
| CallUpload (relativePath content : string)
| CallDownload (relativePath : string).

Definition perform {net : Network} (d : WebDAVDepotManager) (c : DepotCall)
  : WebDAVDepotManager :=
  match c with
  | CallUpload relativePath content => (WebDAV_upload relativePath content d).2
  | CallDownload relativePath => (WebDAV_download relativePath d).2
  end.

Definition lifetime {net : Network} (config : WebDAVDepotConfig) (srv : Server)
  (calls : list DepotCall) : WebDAVDepotManager :=
  fold_left perform calls (new_WebDAVDepotManager config srv).

(** In the exchanges so far, a create-collection request that succeeded
    for a prefix has left the prefix in the set of the instance, and no
    request for that prefix follows it. *)
Definition created_once {net : Network} (d : WebDAVDepotManager) : Prop :=
  forall l1 e l2 p,
    exchanges d = (l1 ++ e :: l2)%list ->
    mkcol_for p e -> created_or_exists (result e) ->
    p ∈ createdDirectories d /\ Forall (fun e' => ~ mkcol_for p e') l2.

(** What making sure of the [prefixes] did, from the instance [d] to the
    instance [d'] with the completion [r] and the exchanges [new]: every
    exchange is a create-collection request for one of the prefixes that
    was not in the set; the set has grown by the prefixes whose request
    succeeded; on return every request has succeeded and every prefix is in
    the set; and anything but a return is a throw. *)
Definition ensured {net : Network} (prefixes : list string) (d : WebDAVDepotManager)
  (r : Completion unit) (d' : WebDAVDepotManager) (new : list Exchange) : Prop :=
  exchanges d' = (exchanges d ++ new)%list
  /\ Forall (fun e => method (request e) = MKCOL /\ In (target e) prefixes
                      /\ target e ∉ createdDirectories d) new
  /\ (forall p, p ∈ createdDirectories d'
                <-> p ∈ createdDirectories d
                    \/ exists e, In e new /\ target e = p /\ created_or_exists (result e))
  /\ (r = Normal tt ->
      Forall (fun e => created_or_exists (result e)) new
      /\ forall p, In p prefixes -> p ∈ createdDirectories d')
  /\ (r = Normal tt \/ exists msg, r = Throw msg).

(** The prefixes among [prefixes] that are not in the set [created]:
    those for which a create-collection request is due. *)
Definition missing (created : gset string) (prefixes : list string) : list string :=
  List.filter (fun p => bool_decide (p ∉ created)) prefixes.

(** The create-collection requests [new] that making sure of the
    [prefixes] has sent from the instance [d], with the completion [r]: they
    go, in their order, to the prefixes that are not in the set; when it
    returns there is one for each of these and all have succeeded; when it
    does not, it throws, and the last request is the first that has not
    succeeded. *)
Definition requested {net : Network} (prefixes : list string) (d : WebDAVDepotManager)
  (r : Completion unit) (new : list Exchange) : Prop :=
  Forall (fun e => method (request e) = MKCOL) new
  /\ ((r = Normal tt
       /\ map target new = missing (createdDirectories d) prefixes
       /\ Forall (fun e => created_or_exists (result e)) new)
      \/ (exists succeeded e later msg,
            r = Throw msg
            /\ new = (succeeded ++ [e])%list
            /\ missing (createdDirectories d) prefixes = (map target new ++ later)%list
            /\ Forall (fun e => created_or_exists (result e)) succeeded
            /\ ~ created_or_exists (result e))).

(** The server has answered the [PUT] with a success status. *)
Definition put_accepted (r : FetchResult) : Prop :=
  exists response, r = Responds response /\ ok response = true.

(** What an upload did, from the instance [d] to the instance [d'] with
    the completion [r]. First it has sent the create-collection requests
    [mkcols]: one for each ancestor prefix of the path that was not in the
    set, in their order, up to the first that has not succeeded. The set has
    grown by the prefixes whose request has succeeded. When every request
    has succeeded, every ancestor prefix is in the set and the upload has
    gone on to send the content, with one [PUT], and it returns exactly when
    the server has accepted it. A request that has not succeeded is fatal:
    the upload throws there and sends no content. *)
Definition uploaded {net : Network} (relativePath content : string)
  (d : WebDAVDepotManager) (r : Completion unit) (d' : WebDAVDepotManager) : Prop :=
  exists mkcols puts,
    exchanges d' = (exchanges d ++ mkcols ++ puts)%list
    /\ Forall (fun e => method (request e) = MKCOL) mkcols
    /\ (forall p, p ∈ createdDirectories d'
                  <-> p ∈ createdDirectories d
                      \/ exists e, In e mkcols /\ target e = p
                                   /\ created_or_exists (result e))
    /\ ((map target mkcols
         = missing (createdDirectories d) (ancestorPrefixes relativePath)
         /\ Forall (fun e => created_or_exists (result e)) mkcols
         /\ (forall p, In p (ancestorPrefixes relativePath) -> p ∈ createdDirectories d')
         /\ exists e, puts = [e]
                      /\ put_of relativePath content e
                      /\ (r = Normal tt <-> put_accepted (result e))
                      /\ (r = Normal tt \/ exists msg, r = Throw msg))
        \/ (exists succeeded e later msg,
              mkcols = (succeeded ++ [e])%list
              /\ missing (createdDirectories d) (ancestorPrefixes relativePath)
                 = (map target mkcols ++ later)%list
              /\ Forall (fun e => created_or_exists (result e)) succeeded
              /\ ~ created_or_exists (result e)
              /\ puts = []
              /\ r = Throw msg)).

(** A segment of a directory path: not empty, and without a slash. *)
Definition segment (part : string) : Prop :=
  part <> "" /\ ~ In "/"%char (list_ascii_of_string part).

(** The path of the directory made of the segments [parts], as the loop
    of [ensureDirectoryExists] builds it. *)
Definition joinSlash (parts : list string) : string :=
  foldr (fun part rest => part +:+ "/" +:+ rest) "" parts.

(** Every path in the set of the instance is made of segments, and the set
    holds its ancestors too. *)
Definition prefix_closed (created : gset string) : Prop :=
  forall p, p ∈ created ->
    exists parts, Forall segment parts /\ p = joinSlash parts
                  /\ forall q, In q (prefixesFrom "" parts) -> q ∈ created.

End Spec.

(** ** A small runtime on which the statements are exercised *)

Module Demo.

Definition join (sep : string) (l : list string) : string :=
  match l with
  | [] => ""
  | x :: l' => fold_left (fun acc y => acc +:+ sep +:+ y) l' x
  end.

(** A compact printer of JSON values (strings are printed bare). *)
Fixpoint stringify (v : JSValue) : string :=
  match v with
  | JNull => "null"
  | JBool b => if b then "true" else "false"
  | JNumber n => pretty n
  | JString s => s
  | JArray items => "[" +:+ join "," (map stringify items) +:+ "]"
  | JObject props =>
      "{" +:+ join "," (map (fun kv => fst kv +:+ ":" +:+ stringify (snd kv)) props) +:+ "}"
  end.

Definition compare_Z (a b : string) : Z :=
  match String.compare a b with Eq => 0 | Lt => -1 | Gt => 1 end.

(** [path.dirname] on the paths that [path_join] below makes: what stands
    before the last slash. *)
Definition dirname (p : string) : string :=
  let i := lastIndexOf "/" p in
  if i <? 0 then "." else if i =? 0 then "/" else substring p 0 i.

(** The descriptor of the listing [a] whose payload is [null], and the
    index document that holds it alone. *)
Definition listing_a : ListingDescriptor :=
  {| name := "a"; last_modified := "2025-01-01T00:00:00.000Z";
     uncompressed := {| url := "a.json"; size := 4; sha256 := "sha256(null)" |};
     brotli := {| url := "a.json.br"; size := 7; sha256 := "sha256(br:null)" |};
     gzip := {| url := "a.json.gz"; size := 7; sha256 := "sha256(gz:null)" |} |}.

Definition index_a : string := stringify (JArray [ListingDescriptor_toJS listing_a]).

(** A runtime in the manner of Node: the global scope binds no [name]. *)
Definition platform : Platform := {|
  sha256_hex := fun b => "sha256(" +:+ b +:+ ")";
  brotliCompress := fun b => "br:" +:+ b;
  gzipCompress := fun b => "gz:" +:+ b;
  JSON_stringify := fun v _ => stringify v;
  JSON_parse_index := fun text =>
    if String.eqb text "[]" then Normal (Some [])
    else if String.eqb text index_a then Normal (Some [listing_a])
    else if String.eqb text "null" then Normal None
    else Throw "SyntaxError";
  path_join := fun a b => a +:+ "/" +:+ b;
  path_dirname := dirname;
  localeCompare := compare_Z;
  FORMAT_OUTPUT := None;
  global_name := None;
|}.

(** The same runtime with a global [name], as a browser window has one. *)
Definition window_platform : Platform := {|
  sha256_hex := sha256_hex (Platform := platform);
  brotliCompress := brotliCompress (Platform := platform);
  gzipCompress := gzipCompress (Platform := platform);
  JSON_stringify := JSON_stringify (Platform := platform);
  JSON_parse_index := JSON_parse_index (Platform := platform);
  path_join := path_join (Platform := platform);
  path_dirname := path_dirname (Platform := platform);
  localeCompare := compare_Z;
  FORMAT_OUTPUT := None;
  global_name := Some "";
|}.

(** The inverses of the two compressors of [platform], and a parser of the
    document [null]. *)
Definition decompress (b : string) : option string :=
  match b with
  | String _ (String _ (String _ rest)) => Some rest
  | _ => None
  end.

Definition parse (text : string) : option JSValue :=
  if String.eqb text "null" then Some JNull else None.

Definition api : MetaApi := {|
  getNeoForgeDetails := fun version =>
    Fulfilled {| release_notes := JString ("notes of " +:+ version) |};
  buildMinecraftVersionsWithNeoForge := fun releasesOnly =>
    Fulfilled (JObject [("versions", JArray [])]);
|}.

(** A server that keeps the collections it has created: [MKCOL] answers
    201 for a new collection and 405 for one that exists, [PUT] answers 201,
    [GET] answers 404. *)
Definition network : Network := {|
  Server := list string;
  serve := fun req collections =>
    match method req with
    | MKCOL =>
        if bool_decide (requestUrl req ∈ collections)
        then (Responds {| status := 405; statusText := "Method Not Allowed";
                          responseBody := "" |}, collections)
        else (Responds {| status := 201; statusText := "Created"; responseBody := "" |},
              requestUrl req :: collections)
    | PUT => (Responds {| status := 201; statusText := "Created"; responseBody := "" |},
              collections)
    | GET => (Responds {| status := 404; statusText := "Not Found"; responseBody := "" |},
              collections)
    end;
  URL_resolve := fun relative base => base +:+ relative;
|}.

Definition builder : ListingsBuilder :=
  {| destinationFolder := "output"; referenceDate := "2025-01-01T00:00:00.000Z" |}.

(** An empty local depot rooted at [depot], and a run that has not started. *)
Definition localDepot : LocalDepotManager := {| basePath := "depot"; disk := ∅ |}.

Definition initial {D} (d : D) : State D :=
  {| listings := []; fs := ∅; console := []; depot := d; uploads := [] |}.

(** A local depot that holds the index [index_a]. *)
Definition depot_with_a : LocalDepotManager :=
  {| basePath := "depot";
     disk := <["depot" := Directory]> {[ "depot/.depot-index.json" := File index_a ]} |}.

(** The descriptor of the listing [b] whose payload is [true]. *)
Definition listing_b : ListingDescriptor :=
  {| name := "b"; last_modified := "2025-01-01T00:00:00.000Z";
     uncompressed := {| url := "b.json"; size := 4; sha256 := "sha256(true)" |};
     brotli := {| url := "b.json.br"; size := 7; sha256 := "sha256(br:true)" |};
     gzip := {| url := "b.json.gz"; size := 7; sha256 := "sha256(gz:true)" |} |}.

(** The runs in which the listing [a] (payload [null]), and then the
    listing [b] (payload [true]), have been registered, over the depot [d]. *)
Definition registered_a {D} (d : D) : State D :=
  (writeListing (rt:=platform) builder "a" (Fulfilled JNull) (initial d)).2.

Definition registered_a_b {D} (d : D) : State D :=
  (writeListing (rt:=platform) builder "b" (Fulfilled (JBool true)) (registered_a d)).2.

(** The whole program on one version, with the full resync flag, against
    the empty local depot. *)
Definition run : Completion unit * State LocalDepotManager :=
  main (rt:=platform) (api:=api) (dm:=Local_DepotManager (rt:=platform))
    "2025-01-01T00:00:00.000Z" ["21.1.72"] true (initial localDepot).

End Demo.

(** ** [lib/meta-api.ts] *)

Module ApiClient.

(** The variables of [process.env] that the module reads. *)
Record Environment : Type := {
  META_API_BASE_URL : option string;
  META_API_API_KEY : option string;
  META_API_TOKEN : option string;
}.

(** [Headers]: the names are compared without regard to case, so a header
    is kept under its name in lower case. *)
Definition lower (c : ascii) : ascii :=
  if Data.in_range "A" "Z" c then ascii_of_nat (nat_of_ascii c + 32) else c.

Fixpoint toLowerCase (s : string) : string :=
  match s with
  | EmptyString => EmptyString
  | String a s' => String (lower a) (toLowerCase s')
  end.

Definition Headers : Type := list (string * string).

(** [headers.set(name, value)] and [headers.get(name)]. *)
Definition Headers_set (name value : string) (h : Headers) : Headers :=
  set_property (toLowerCase name) value h.

Definition Headers_get (name : string) (h : Headers) : option string :=
  get_own (toLowerCase name) h.

Record Request : Type := {
  url : string;
  headers : Headers;
}.

Record Response : Type := {
  status : Z;
  text : string;
}.

(** [fetch(request)], through the limiter of [pLimit(10)]: what the
    promise settles to, and the state of the remote end. *)
Class Transport : Type := {
  Remote : Type;
  fetch : Request -> Remote -> Promise Response * Remote;
}.

(** The body of the module up to the creation of the client, over the
    console: it returns the base URL of the client, or stops the process
    when neither credential is set. *)
Definition load (env : Environment) : M (list LogEntry) string :=
  let META_API_BASE_URL :=
    match META_API_BASE_URL env with
    | Some base => base
    | None => "https://meta-api.neoforged.net/v1/"
    end in
  (if negb (truthy_opt (META_API_TOKEN env)) && negb (truthy_opt (META_API_API_KEY env)) then
     modify (fun c =>
       (c ++ [{| level := LogError;
                 format := "Missing required environment variables: META_API_TOKEN or META_API_API_KEY";
                 arguments := [] |}])%list);;
     process_exit 1
   else mret tt);;
  modify (fun c =>
    (c ++ [{| level := LogInfo; format := "Meta-API Base URL: %s";
              arguments := [META_API_BASE_URL] |}])%list);;
  mret META_API_BASE_URL.

(** The request as [onRequest] hands it to [fetch]. *)
Definition authorized (env : Environment) (request : Request) : Request :=
  if truthy_opt (META_API_API_KEY env) then
    {| url := url request;
       headers := Headers_set "X-API-Key" (default "" (META_API_API_KEY env))
                    (headers request) |}
  else if truthy_opt (META_API_TOKEN env) then
    {| url := url request;
       headers := Headers_set "Authorization"
                    ("Bearer " +:+ default "" (META_API_TOKEN env)) (headers request) |}
  else request.

(** [authMiddleware.onRequest({ request })]. *)
Definition onRequest {transport : Transport} (env : Environment) (request : Request)
  : M Remote (Promise Response) := fun remote =>
  let (response, remote') := fetch (authorized env request) remote in
  (Normal response, remote').

(** [authMiddleware.onResponse({ request, response })]. *)
Definition onResponse (request : Request) (response : Response) : Completion Response :=
  if status response =? 401 then
    Throw ("Authentication against API failed: " +:+ text response)
  else if 400 <=? status response then
    Throw ("Request for " +:+ url request +:+ " failed with status "
           +:+ pretty (status response) +:+ ": " +:+ text response)
  else Normal response.

(** The variable is set to a string that is not empty. *)
Definition set_to (variable : option string) (value : string) : Prop :=
  variable = Some value /\ value <> "".

End ApiClient.

(** ** [lib/versions.ts] *)

Module Versions.

(** The summaries and the details that the version metadata service
    answers with: the fields that the program reads ([version], [type],
    [latest_neoforge_version]; [version], [type], [released]; [version],
    [released], [release_notes]). *)
Record MinecraftVersionSummary : Type := {
  mv_version : string;
  mv_type : string;
  latest_neoforge_version : option string;
}.

Record NeoForgeVersionSummary : Type := {
  nv_version : string;
}.

Record MinecraftVersionDetails : Type := {
  mc_version : string;
  mc_type : string;
  mc_released : JSValue;
}.

Record NeoForgeVersionDetails : Type := {
  nf_version : string;
  nf_released : JSValue;
  nf_release_notes : JSValue;
}.

(** The calls of [client.GET] that the program makes: the two lists, and
    the details of one version of either kind. *)
Inductive Call : Type :=
| MinecraftVersions
| NeoForgeVersions
| MinecraftVersion (versionId : string)
| NeoForgeVersion (versionId : string).

(** The client of [lib/meta-api.ts] and the service behind it: what the
    promise of a call settles to, the [data] of the result (which can be
    missing) or the error that the middleware or the transport throws, and
    the state of the service afterwards. *)
Class Client : Type := {
  Service : Type;
  minecraft_versions : Service -> Promise (option (list MinecraftVersionSummary)) * Service;
  neoforge_versions : Service -> Promise (option (list NeoForgeVersionSummary)) * Service;
  minecraft_version : string -> Service -> Promise (option MinecraftVersionDetails) * Service;
  neoforge_version : string -> Service -> Promise (option NeoForgeVersionDetails) * Service;
}.

(** [class VersionsApi]: the two caches, with the service that the client
    talks to, the calls of [client.GET] made so far, oldest first, and the
    console. *)
Record VersionsApi {client : Client} : Type := {
  minecraftVersionDetailsCache : JSObject (Promise MinecraftVersionDetails);
  neoforgeVersionDetailsCache : JSObject (Promise NeoForgeVersionDetails);
  service : Service;
  calls : list Call;
  console : list LogEntry;
}.

(** [new VersionsApi()]. *)
Definition new_VersionsApi {client : Client} (srv : Service) : VersionsApi := {|
  minecraftVersionDetailsCache := [];
  neoforgeVersionDetailsCache := [];
  service := srv;
  calls := [];
  console := [];
|}.

(** What a cached lookup gives: the details, or, for a version whose name
    every object inherits a property of, that inherited member of
    [Object.prototype], which is no details. *)
Inductive Answer (A : Type) : Type :=
| Details (details : A)
| Member (key : string).
Arguments Details {A} details.
Arguments Member {A} key.

(** The promise of an [async] method that returns the promise [p]. *)
Definition adopted {A} (p : Promise A) : Promise (Answer A) :=
  match p with
  | Fulfilled details => Fulfilled (Details details)
  | Rejected e => Rejected e
  end.

Section Api.
Context {client : Client}.

(** [client.GET(path, init)], recorded in [calls]. *)
Definition GET {A} (call : Call) (answer : Service -> Promise (option A) * Service)
  : M VersionsApi (Promise (option A)) := fun api =>
  let (r, srv) := answer (service api) in
  (Normal r,
   {| minecraftVersionDetailsCache := minecraftVersionDetailsCache api;
      neoforgeVersionDetailsCache := neoforgeVersionDetailsCache api;
      service := srv;
      calls := (calls api ++ [call])%list;
      console := console api |}).

Definition log (l : LogLevel) (fmt : string) (args : list string) : M VersionsApi unit :=
  modify (fun api =>
   {| minecraftVersionDetailsCache := minecraftVersionDetailsCache api;
      neoforgeVersionDetailsCache := neoforgeVersionDetailsCache api;
      service := service api;
      calls := calls api;
      console := (console api ++ [{| level := l; format := fmt; arguments := args |}])%list |}).

(** [this.minecraftVersionDetailsCache[version] = p] and
    [this.neoforgeVersionDetailsCache[version] = p]. *)
Definition set_minecraftVersionDetailsCache (version : string)
  (p : Promise MinecraftVersionDetails) : M VersionsApi unit :=
  modify (fun api =>
   {| minecraftVersionDetailsCache := set_property version p (minecraftVersionDetailsCache api);
      neoforgeVersionDetailsCache := neoforgeVersionDetailsCache api;
      service := service api;
      calls := calls api;
      console := console api |}).

Definition set_neoforgeVersionDetailsCache (version : string)
  (p : Promise NeoForgeVersionDetails) : M VersionsApi unit :=
  modify (fun api =>
   {| minecraftVersionDetailsCache := minecraftVersionDetailsCache api;
      neoforgeVersionDetailsCache := set_property version p (neoforgeVersionDetailsCache api);
      service := service api;
      calls := calls api;
      console := console api |}).

(** [async getMinecraftVersions()]. *)
Definition getMinecraftVersions : M VersionsApi (Promise (list MinecraftVersionSummary)) :=
  async (
    response ← GET MinecraftVersions minecraft_versions;
    minecraftVersions ← await response;
    match minecraftVersions with
    | None => throw "Failed to load Minecraft versions."
    | Some minecraftVersions =>
        log LogInfo "Loaded %d Minecraft versions"
          [pretty (Z.of_nat (List.length minecraftVersions))];;
        mret minecraftVersions
    end).

(** [async getNeoForgeVersions()]. *)
Definition getNeoForgeVersions : M VersionsApi (Promise (list NeoForgeVersionSummary)) :=
  async (
    response ← GET NeoForgeVersions neoforge_versions;
    neoforgeVersion ← await response;
    match neoforgeVersion with
    | None => throw "Failed to load NeoForge versions."
    | Some neoforgeVersion =>
        log LogInfo "Loaded %d NeoForge versions"
          [pretty (Z.of_nat (List.length neoforgeVersion))];;
        mret neoforgeVersion
    end).

(** [async getMinecraftDetails(version)]: the value of
    [this.minecraftVersionDetailsCache[version]] is returned when it is
    truthy, which a promise is and an inherited member is too. *)
Definition getMinecraftDetails (version : string)
  : M VersionsApi (Promise (Answer MinecraftVersionDetails)) :=
  cache ← gets minecraftVersionDetailsCache;
  match get_property version cache with
  | Own p => mret (adopted p)
  | Inherited => mret (Fulfilled (Member version))
  | Undefined =>
      versionPromise ← GET (MinecraftVersion version) (minecraft_version version);
      p ← then_ versionPromise (fun d =>
            match d with
            | None => throw ("Failed to load details for Minecraft " +:+ version)
            | Some data =>
                log LogDebug "Resolved version details for Minecraft %s" [version];;
                mret (Fulfilled data)
            end);
      set_minecraftVersionDetailsCache version p;;
      mret (adopted p)
  end.

(** [async getNeoForgeDetails(version)]. *)
Definition getNeoForgeDetails (version : string)
  : M VersionsApi (Promise (Answer NeoForgeVersionDetails)) :=
  cache ← gets neoforgeVersionDetailsCache;
  match get_property version cache with
  | Own p => mret (adopted p)
  | Inherited => mret (Fulfilled (Member version))
  | Undefined =>
      versionPromise ← GET (NeoForgeVersion version) (neoforge_version version);
      p ← then_ versionPromise (fun d =>
            match d with
            | None => throw ("Failed to load details for NeoForge " +:+ version)
            | Some data =>
                log LogDebug "Resolved version details for NeoForge %s" [version];;
                mret (Fulfilled data)
            end);
      set_neoforgeVersionDetailsCache version p;;
      mret (adopted p)
  end.

End Api.

End Versions.

(** ** The two Minecraft documents ([lib/data.ts]) *)

Module Assembly.
Import Versions.

(** [MinecraftWithNeoForgeVersion]: a property that is [undefined] is
    [None]. *)
Record MinecraftWithNeoForgeVersion : Type := {
  version : option string;
  type : option string;
  released : option JSValue;
  neoforge_version : option string;
  neoforge_released : option JSValue;
}.

(** [MinecraftWithNeoForgeVersionListing]. *)
Record MinecraftWithNeoForgeVersionListing : Type := {
  latestSnapshot : option MinecraftWithNeoForgeVersion;
  versions : list MinecraftWithNeoForgeVersion;
}.

(** [type Details = [MinecraftVersionDetails, NeoForgeVersionDetails]], as
    the values that the two lookups give. *)
Definition Details : Type :=
  Answer MinecraftVersionDetails * Answer NeoForgeVersionDetails.

(** [answer.property] for one of the properties of the details: an
    inherited member of [Object.prototype] has none of them. *)
Definition property {A B} (read : A -> B) (answer : Answer A) : option B :=
  match answer with
  | Versions.Details details => Some (read details)
  | Member _ => None
  end.

(** What [fetchDetails] returns for the two answers. *)
Definition paired (minecraft : Promise (Answer MinecraftVersionDetails))
  (neoforge : Promise (Answer NeoForgeVersionDetails)) : Promise Details :=
  match minecraft with
  | Fulfilled m =>
      match neoforge with
      | Fulfilled n => Fulfilled (m, n)
      | Rejected e => Rejected e
      end
  | Rejected e => Rejected e
  end.

(** Where a call of [fetchDetails] is: at its first [await], with the
    promise of the details of the Minecraft version; at its second, with
    those details and the promise of the details of the NeoForge version;
    or at its end, with the promise that it has returned settled. *)
Inductive Stage : Type :=
| AwaitsMinecraft (p : Promise (Answer MinecraftVersionDetails))
| AwaitsNeoForge (minecraft : Answer MinecraftVersionDetails)
    (p : Promise (Answer NeoForgeVersionDetails))
| Returned (result : Promise Details).

(** The calls that [Promise.all] awaits, each with its summary, and the
    rejection of the first of them that was rejected, if one was. *)
Record Awaited : Type := {
  running : list (MinecraftVersionSummary * Stage);
  rejection : option string;
}.

Section Build.
Context {client : Client}.

(** [async function fetchDetails(mv)]. *)
Definition fetchDetails (mv : MinecraftVersionSummary) : M VersionsApi (Promise Details) :=
  async (
    minecraft ← (p ← getMinecraftDetails (mv_version mv); await p);
    neoforge ← (p ← getNeoForgeDetails (default "undefined" (latest_neoforge_version mv));
                await p);
    mret (minecraft, neoforge)).

(** [function makeVersionEntry([minecraft, neoforge])]. *)
Definition makeVersionEntry (details : Details) : MinecraftWithNeoForgeVersion :=
  let (minecraft, neoforge) := details in
  {| version := property mc_version minecraft;
     type := match property mc_type minecraft with
             | Some t => if String.eqb t "release" then None else Some t
             | None => None
             end;
     released := property mc_released minecraft;
     neoforge_version := property nf_version neoforge;
     neoforge_released := property nf_released neoforge |}.

(** The test of the [filter], and the test of the [find]. *)
Definition listed (releasesOnly : bool) (mv : MinecraftVersionSummary) : bool :=
  (negb releasesOnly || String.eqb (mv_type mv) "release")
  && truthy_opt (latest_neoforge_version mv).

Definition snapshot (v : MinecraftVersionSummary) : bool :=
  String.eqb (mv_type v) "snapshot" && truthy_opt (latest_neoforge_version v).

(** *** The calls of [fetchDetails] that run together

    [filter(...).map(fetchDetails)] calls [fetchDetails] for one summary
    after the other, and each call runs up to its first [await]: the
    details of all the Minecraft versions are asked for before those of any
    NeoForge version. [Promise.all] then awaits the calls together. A call
    goes on when the promise that it awaits is settled: from its first
    [await] to its second, where the details of the NeoForge version are
    asked for, and from its second [await] to its [return]. In which order
    the calls go on is not decided by the program: it is the [schedule], a
    list of indices into the array of calls, each of them one turn of the
    call of that index. [Promise.all] is settled when a call is rejected,
    or when all have returned, and the function goes on from there. *)

(** The call [fetchDetails(mv)] up to its first [await]. *)
Definition start (mv : MinecraftVersionSummary) : M VersionsApi Stage :=
  p ← getMinecraftDetails (mv_version mv);
  mret (AwaitsMinecraft p).

(** One turn of the call [fetchDetails(mv)]: the promise that it awaits is
    settled; a rejection is thrown by the [await] and rejects the promise of
    the call, a value lets the call go on to its next [await] or to its
    [return]. A call that has returned stays as it is. *)
Definition resume (mv : MinecraftVersionSummary) (stage : Stage) : M VersionsApi Stage :=
  match stage with
  | AwaitsMinecraft (Fulfilled minecraft) =>
      p ← getNeoForgeDetails (default "undefined" (latest_neoforge_version mv));
      mret (AwaitsNeoForge minecraft p)
  | AwaitsMinecraft (Rejected e) => mret (Returned (Rejected e))
  | AwaitsNeoForge minecraft (Fulfilled neoforge) =>
      mret (Returned (Fulfilled (minecraft, neoforge)))
  | AwaitsNeoForge _ (Rejected e) => mret (Returned (Rejected e))
  | Returned result => mret (Returned result)
  end.

(** [Promise.all] is rejected by the first of its promises that is
    rejected, first in time. *)
Definition first_rejection (rejection : option string) (stage : Stage) : option string :=
  match rejection, stage with
  | Some e, _ => Some e
  | None, Returned (Rejected e) => Some e
  | None, _ => None
  end.

(** One turn of the schedule. *)
Definition turn (index : nat) (all : Awaited) : M VersionsApi Awaited :=
  match running all !! index with
  | Some (mv, stage) =>
      stage' ← resume mv stage;
      mret {| running := <[index := (mv, stage')]> (running all);
              rejection := first_rejection (rejection all) stage' |}
  | None => mret all
  end.

(** The turns that are taken before the function goes on. Those that
    follow a rejection are turns of calls that were ready to go on when
    [Promise.all] was rejected. *)
Fixpoint turns (schedule : list nat) (all : Awaited) : M VersionsApi Awaited :=
  match schedule with
  | [] => mret all
  | index :: schedule' => all' ← turn index all; turns schedule' all'
  end.

(** A call goes on to its end, alone: all the turns that it still has. *)
Definition finish_call (mv : MinecraftVersionSummary) (stage : Stage)
  : M VersionsApi (Promise Details) :=
  match stage with
  | AwaitsMinecraft (Fulfilled minecraft) =>
      p ← getNeoForgeDetails (default "undefined" (latest_neoforge_version mv));
      mret (paired (Fulfilled minecraft) p)
  | AwaitsMinecraft (Rejected e) => mret (Rejected e)
  | AwaitsNeoForge minecraft p => mret (paired (Fulfilled minecraft) p)
  | Returned result => mret result
  end.

(** When the schedule ends and no call was rejected, [Promise.all] is not
    settled yet: the calls that are on their way go on to their end, one
    after the other in the order of the array, until one is rejected or all
    have returned. *)
Fixpoint run_out (calls : list (MinecraftVersionSummary * Stage))
  : M VersionsApi (Promise (list Details)) :=
  match calls with
  | [] => mret (Fulfilled [])
  | call :: calls' =>
      result ← finish_call call.1 call.2;
      match result with
      | Fulfilled details =>
          rest ← run_out calls';
          mret (match rest with
                | Fulfilled versionDetails => Fulfilled (details :: versionDetails)
                | Rejected e => Rejected e
                end)
      | Rejected e => mret (Rejected e)
      end
  end.

(** [export async function buildMinecraftVersionsWithNeoForge(versions,
    minecraftVersions, releasesOnly)]; the state is that of [versions].
    When [Promise.all] is rejected the function throws, and the calls that
    are on their way stay where they are: what is left for them to do is a
    lookup of the details of a NeoForge version, which is one of the uses
    of the instance. The call of [fetchDetails] for the latest snapshot is
    awaited alone. *)
Definition buildMinecraftVersionsWithNeoForge (schedule : list nat)
  (minecraftVersions : list MinecraftVersionSummary) (releasesOnly : bool)
  : M VersionsApi (Promise MinecraftWithNeoForgeVersionListing) :=
  async (
    started ← Array_map (fun mv => stage ← start mv; mret (mv, stage))
                (List.filter (listed releasesOnly) minecraftVersions);
    all ← turns schedule {| running := started; rejection := None |};
    together ← match rejection all with
               | Some e => mret (Rejected e)
               | None => run_out (running all)
               end;
    versionDetails ← await together;
    let latestSnapshot := List.find snapshot minecraftVersions in
    latest ← match latestSnapshot with
             | Some mv =>
                 p ← fetchDetails mv;
                 details ← await p;
                 mret (Some (makeVersionEntry details))
             | None => mret None
             end;
    mret {| latestSnapshot := latest;
            versions := map makeVersionEntry versionDetails |}).

End Build.

(** *** The uses of a [VersionsApi] *)

(** An instance is constructed and then used any number of times, by the
    methods and by the assembly of a document, under any schedule and
    whatever they return. *)
Inductive Use : Type :=
| UseMinecraftVersions
| UseNeoForgeVersions
| UseMinecraftDetails (version : string)
| UseNeoForgeDetails (version : string)
| UseBuild (schedule : list nat) (minecraftVersions : list MinecraftVersionSummary)
    (releasesOnly : bool).

Definition perform {client : Client} (api : VersionsApi) (use : Use) : VersionsApi :=
  match use with
  | UseMinecraftVersions => (getMinecraftVersions api).2
  | UseNeoForgeVersions => (getNeoForgeVersions api).2
  | UseMinecraftDetails version => (getMinecraftDetails version api).2
  | UseNeoForgeDetails version => (getNeoForgeDetails version api).2
  | UseBuild schedule minecraftVersions releasesOnly =>
      (buildMinecraftVersionsWithNeoForge schedule minecraftVersions releasesOnly api).2
  end.

Definition lifetime {client : Client} (srv : Service) (uses : list Use) : VersionsApi :=
  fold_left perform uses (new_VersionsApi srv).

(** The versions whose details were asked of the service, oldest first. *)
Definition requestedMinecraft (calls : list Call) : list string :=
  omap (fun c => match c with MinecraftVersion v => Some v | _ => None end) calls.

Definition requestedNeoForge (calls : list Call) : list string :=
  omap (fun c => match c with NeoForgeVersion v => Some v | _ => None end) calls.

(** The caches are sound: the entries of each, in the order in which they
    were added, are those of the versions that were asked for, each asked
    for once, and none is the name of an inherited property. *)
Definition sound {client : Client} (api : VersionsApi) : Prop :=
  map fst (minecraftVersionDetailsCache api) = requestedMinecraft (calls api)
  /\ map fst (neoforgeVersionDetailsCache api) = requestedNeoForge (calls api)
  /\ NoDup (requestedMinecraft (calls api))
  /\ NoDup (requestedNeoForge (calls api))
  /\ Forall (fun v => inherited v = false) (requestedMinecraft (calls api))
  /\ Forall (fun v => inherited v = false) (requestedNeoForge (calls api)).

(** From [api] to [api']: what the caches held, they hold. *)
Definition extends {client : Client} (api api' : VersionsApi) : Prop :=
  (forall k p, get_own k (minecraftVersionDetailsCache api) = Some p ->
               get_own k (minecraftVersionDetailsCache api') = Some p)
  /\ (forall k p, get_own k (neoforgeVersionDetailsCache api) = Some p ->
                  get_own k (neoforgeVersionDetailsCache api') = Some p).

(** The answer of a lookup is settled: the cache holds the promise, or the
    version is the name of an inherited property. *)
Definition settled {A} (cache : JSObject (Promise A)) (version : string)
  (answer : Promise (Answer A)) : Prop :=
  (exists p, get_own version cache = Some p /\ answer = adopted p)
  \/ (get_own version cache = None /\ inherited version = true
      /\ answer = Fulfilled (Member version)).

(** The details of a summary are settled: the answer for the Minecraft
    version is, and, if it is fulfilled, the one for the NeoForge version
    too. *)
Definition settledDetails {client : Client} (api : VersionsApi)
  (mv : MinecraftVersionSummary) (answer : Promise Details) : Prop :=
  exists minecraft,
    settled (minecraftVersionDetailsCache api) (mv_version mv) minecraft
    /\ match minecraft with
       | Fulfilled m =>
           exists neoforge,
             settled (neoforgeVersionDetailsCache api)
               (default "undefined" (latest_neoforge_version mv)) neoforge
             /\ answer = paired minecraft neoforge
       | Rejected e => answer = Rejected e
       end.

(** The details of a summary were looked up. *)
Definition known {client : Client} (api : VersionsApi) (mv : MinecraftVersionSummary)
  : Prop :=
  exists answer, settledDetails api mv answer.

(** A call of [fetchDetails] for a summary is on its way to the details of
    the summary: what it awaits, and what it has returned, is settled. *)
Definition on_its_way {client : Client} (api : VersionsApi)
  (mv : MinecraftVersionSummary) (stage : Stage) : Prop :=
  match stage with
  | AwaitsMinecraft p => settled (minecraftVersionDetailsCache api) (mv_version mv) p
  | AwaitsNeoForge minecraft p =>
      settled (minecraftVersionDetailsCache api) (mv_version mv) (Fulfilled minecraft)
      /\ settled (neoforgeVersionDetailsCache api)
           (default "undefined" (latest_neoforge_version mv)) p
  | Returned result => settledDetails api mv result
  end.

(** The calls that are awaited are those for the summaries, each on its
    way, and a rejection is that of the details of one of the summaries. *)
Definition awaiting {client : Client} (api : VersionsApi)
  (mvs : list MinecraftVersionSummary) (all : Awaited) : Prop :=
  Forall2 (fun mv call => call.1 = mv /\ on_its_way api mv call.2) mvs (running all)
  /\ (forall e, rejection all = Some e ->
                exists mv, In mv mvs /\ settledDetails api mv (Rejected e)).

End Assembly.

(** ** [createDepot] ([lib/depot.ts]) *)

Module Factory.

(** The variables of [process.env] that [createDepot] reads. *)
Record Environment : Type := {
  LOCAL_DEPOT_PATH : option string;
  DEPOT_MANAGER_TOKEN : option string;
  DEPOT_MANAGER_BASE_URL : option string;
  DEPOT_BASE_URL : option string;
}.

(** The depot that [createDepot] returns: an instance of one of the two
    variants. *)
Inductive Depot {net : Network} : Type :=
| Local (d : LocalDepotManager)
| Remote (d : WebDAVDepotManager).

(** [export function createDepot()], with the local disk [disk] and the
    server [srv] behind [fetch]. A variable is used where the test of its
    truthiness has passed. *)
Definition createDepot {net : Network} (env : Environment) (disk : Disk)
  (srv : Server) : Completion Depot :=
  if negb (truthy_opt (DEPOT_BASE_URL env)) then
    Throw "Missing environment variable with depot base url: DEPOT_BASE_URL"
  else if truthy_opt (LOCAL_DEPOT_PATH env) then
    Normal (Local {| basePath := default "" (LOCAL_DEPOT_PATH env); disk := disk |})
  else if negb (truthy_opt (DEPOT_MANAGER_TOKEN env)) then
    Throw "Missing environment variable with token for depot manager: DEPOT_MANAGER_TOKEN"
  else if negb (truthy_opt (DEPOT_MANAGER_BASE_URL env)) then
    Throw "Missing environment variable with base URL for depot manager: DEPOT_MANAGER_BASE_URL"
  else
    Normal (Remote (new_WebDAVDepotManager
                      {| config_webdavUrl := default "" (DEPOT_MANAGER_BASE_URL env);
                         config_token := DEPOT_MANAGER_TOKEN env |}
                      srv)).

(** The variable is set to a string that is not empty. *)
Definition set_to (variable : option string) (value : string) : Prop :=
  variable = Some value /\ value <> "".

(** The request goes to the path of the exchange below the base URL of
    the instance, with its authorization. *)
Definition addressed {net : Network} (d : WebDAVDepotManager) (e : Exchange) : Prop :=
  authorization (request e) = authHeader d
  /\ requestUrl (request e) = URL_resolve (target e) (webdavUrl d).

(** From [d] to [d']: the base URL and the authorization are the same,
    and the exchanges made in between are addressed as [d] has it. *)
Definition steady {net : Network} (d d' : WebDAVDepotManager) : Prop :=
  webdavUrl d' = webdavUrl d /\ authHeader d' = authHeader d
  /\ exists new, exchanges d' = (exchanges d ++ new)%list /\ Forall (addressed d) new.

End Factory.

(** ** Runs of the builder *)

Module Runs.

(** The registry holds each name once, and a descriptor under its own
    name. *)
Definition registry_ok (registered : JSObject (Promise ListingDescriptor)) : Prop :=
  NoDup (map fst registered)
  /\ forall k d, In (k, Fulfilled d) registered -> name d = k.

(** The calls of [writeListing] of a run, each with the name and the
    payload it is given, made one after the other whatever they return. *)
Definition register {rt : Platform} {D : Type} {dm : DepotManager D}
  (self : ListingsBuilder) (s : State D) (call : string * Promise JSValue) : State D :=
  (writeListing self call.1 call.2 s).2.

Definition registrations {rt : Platform} {D : Type} {dm : DepotManager D}
  (self : ListingsBuilder) (calls : list (string * Promise JSValue)) (s : State D)
  : State D :=
  fold_left (register self) calls s.

(** What the run leaves alone before the sync: the depot and the calls of
    [depot.upload]. *)
Definition unpublished {D} (s s' : State D) : Prop :=
  depot s' = depot s /\ uploads s' = uploads s.

(** What the registry holds, it keeps. *)
Definition keeps {D} (s s' : State D) : Prop :=
  forall k p, get_own k (listings s) = Some p -> get_own k (listings s') = Some p.

(** The order of the published index. *)
Definition byName {rt : Platform} (a b : ListingDescriptor) : Z :=
  localeCompare (name a) (name b).

(** The names of the three artifacts of the listing [N]. *)
Definition artifactsOf (N : string) : list string :=
  [N +:+ ".json"; N +:+ ".json.br"; N +:+ ".json.gz"].

(** What [path.join] has to do with the artifacts of the listings [names]
    in the destination folder: the path of a compressed artifact is the
    path of the uncompressed one with the extension added, as
    [writeListingAsync] builds it, and two artifacts have two paths. *)
Definition separate {rt : Platform} (self : ListingsBuilder) (names : list string) : Prop :=
  (forall N, In N names ->
     path_join (destinationFolder self) (N +:+ ".json.br")
     = path_join (destinationFolder self) (N +:+ ".json") +:+ ".br"
     /\ path_join (destinationFolder self) (N +:+ ".json.gz")
        = path_join (destinationFolder self) (N +:+ ".json") +:+ ".gz")
  /\ (forall N1 N2 a b,
        In N1 names -> In N2 names -> In a (artifactsOf N1) -> In b (artifactsOf N2) ->
        path_join (destinationFolder self) a = path_join (destinationFolder self) b ->
        a = b).

(** The three artifacts of the descriptor are in the files, with the
    hashes and the sizes that it gives. *)
Definition materialized {rt : Platform} (self : ListingsBuilder)
  (files : gmap string string) (d : ListingDescriptor) : Prop :=
  Spec.describes files (path_join (destinationFolder self) (name d +:+ ".json"))
    (uncompressed d)
  /\ Spec.describes files (path_join (destinationFolder self) (name d +:+ ".json.br"))
       (brotli d)
  /\ Spec.describes files (path_join (destinationFolder self) (name d +:+ ".json.gz"))
       (gzip d).

(** The registry and the destination folder agree: every descriptor of
    the registry is under its name, the names are different, all are among
    [names], and the artifacts are in the folder. *)
Definition consistent {rt : Platform} {D : Type} (self : ListingsBuilder)
  (names : list string) (s : State D) : Prop :=
  registry_ok (listings s)
  /\ (forall k, In k (map fst (listings s)) -> In k names /\ k <> "index")
  /\ forall k d, In (k, Fulfilled d) (listings s) -> materialized self (fs s) d.

(** The call of [depot.upload] carries an artifact of one of the listings
    with the bytes that its descriptor gives the hash and the size of. *)
Definition genuine {rt : Platform} (ls : list ListingDescriptor) (call : string * string)
  : Prop :=
  exists l f,
    In l ls
    /\ ((call.1 = name l +:+ ".json" /\ f = uncompressed l)
        \/ (call.1 = name l +:+ ".json.br" /\ f = brotli l)
        \/ (call.1 = name l +:+ ".json.gz" /\ f = gzip l))
    /\ sha256 f = sha256_hex call.2
    /\ size f = length call.2.

(** From [s] to [s']: the depot is what the calls of [depot.upload] made
    in between have made of it. *)
Definition deposited {D : Type} {dm : DepotManager D} (s s' : State D) : Prop :=
  exists new,
    uploads s' = (uploads s ++ new)%list
    /\ depot s' = fold_left (fun d call => (upload call.1 call.2 d).2) new (depot s).

(** From [s] to [s']: the depot has accepted the calls of [depot.upload]
    made in between, one after the other. *)
Definition delivered {D : Type} {dm : DepotManager D} (s s' : State D) : Prop :=
  exists new,
    uploads s' = (uploads s ++ new)%list
    /\ Spec.deliver new (depot s) = (Normal tt, depot s').

(** The names under which the sync uploads the listings [ls] and the
    index are kept apart by [path.join] in the local depot at [basePath]. *)
Definition apart {rt : Platform} (basePath : string) (ls : list ListingDescriptor) : Prop :=
  forall a b,
    In a (DEPOT_INDEX_PATH :: flat_map Spec.artifactNames ls) ->
    In b (DEPOT_INDEX_PATH :: flat_map Spec.artifactNames ls) ->
    path_join basePath a = path_join basePath b -> a = b.

(** The run up to the sync: the registrations, then [finish]. *)
Definition compiled {rt : Platform} {D : Type} {dm : DepotManager D}
  (self : ListingsBuilder) (calls : list (string * Promise JSValue)) (s : State D)
  : State D :=
  (finish self (registrations self calls s)).2.

(** The exchange is a download of [relativePath]. *)
Definition get_of (relativePath : string) (e : Exchange) : Prop :=
  method (request e) = GET /\ target e = relativePath.

(** The response carries a success status (200 to 299). *)
Definition success (r : FetchResult) : Prop :=
  exists response, r = Responds response /\ 200 <= status response <= 299.

(** The response says that there is no such resource. *)
Definition not_found (r : FetchResult) : Prop :=
  exists response, r = Responds response /\ status response = 404.

End Runs.

(** ** More runs on which the statements are exercised *)

Module Cases.

(** A run in which the listing [a] was registered with a payload that
    could not be built. *)
Definition failed_a {D} (d : D) : State D :=
  (writeListing (rt:=Demo.platform) Demo.builder "a" (Rejected "unavailable")
     (Demo.initial d)).2.

(** A local depot whose index document is [content]. *)
Definition depot_with (content : string) : LocalDepotManager :=
  {| basePath := "depot";
     disk := <["depot" := Directory]> {[ "depot/.depot-index.json" := File content ]} |}.

(** A server that keeps what it is sent: [MKCOL] answers 201, [PUT]
    stores the body under the URL and answers 201, [GET] answers 200 with
    what is stored under the URL, or 404. *)
Definition archive : Network := {|
  Server := gmap string string;
  serve := fun req stored =>
    match method req with
    | MKCOL => (Responds {| status := 201; statusText := "Created"; responseBody := "" |},
                stored)
    | PUT => (Responds {| status := 201; statusText := "Created"; responseBody := "" |},
              <[requestUrl req := default "" (body req)]> stored)
    | GET =>
        match stored !! requestUrl req with
        | Some content =>
            (Responds {| status := 200; statusText := "OK"; responseBody := content |},
             stored)
        | None =>
            (Responds {| status := 404; statusText := "Not Found"; responseBody := "" |},
             stored)
        end
    end;
  URL_resolve := fun relative base => base +:+ relative;
|}.

(** A remote depot on that server, empty, and one that holds the index
    document [content]. *)
Definition remote_config : WebDAVDepotConfig :=
  {| config_webdavUrl := "https://depot.example/dav/"; config_token := Some "secret" |}.

Definition remoteDepot : WebDAVDepotManager (net:=archive) :=
  new_WebDAVDepotManager (net:=archive) remote_config ∅.

Definition remote_with (content : string) : WebDAVDepotManager (net:=archive) :=
  new_WebDAVDepotManager (net:=archive) remote_config
    {[ "https://depot.example/dav/.depot-index.json" := content ]}.

(** A version metadata service that cannot assemble the Minecraft
    documents. *)
Definition failing_api : MetaApi := {|
  getNeoForgeDetails := getNeoForgeDetails (MetaApi := Demo.api);
  buildMinecraftVersionsWithNeoForge := fun releasesOnly => Rejected "unavailable";
|}.

(** An entry of the name [a] that an index holds for another content. *)
Definition changed_a : ListingDescriptor :=
  {| name := "a"; last_modified := "2024-12-31T00:00:00.000Z";
     uncompressed := {| url := "a.json"; size := 5; sha256 := "sha256(false)" |};
     brotli := {| url := "a.json.br"; size := 8; sha256 := "sha256(br:false)" |};
     gzip := {| url := "a.json.gz"; size := 8; sha256 := "sha256(gz:false)" |} |}.

(** An environment that configures the remote depot. *)
Definition remote_environment : Factory.Environment := {|
  Factory.LOCAL_DEPOT_PATH := None;
  Factory.DEPOT_MANAGER_TOKEN := Some "secret";
  Factory.DEPOT_MANAGER_BASE_URL := Some "https://depot.example/dav";
  Factory.DEPOT_BASE_URL := Some "https://depot.example/";
|}.

(** The descriptor of a listing that is registered under the name
    [index] with the payload [null]. *)
Definition listing_index : ListingDescriptor :=
  {| name := "index"; last_modified := "2025-01-01T00:00:00.000Z";
     uncompressed := {| url := "index.json"; size := 4; sha256 := "sha256(null)" |};
     brotli := {| url := "index.json.br"; size := 7; sha256 := "sha256(br:null)" |};
     gzip := {| url := "index.json.gz"; size := 7; sha256 := "sha256(gz:null)" |} |}.

(** A version metadata service that dates its answers by the number of
    the request, so that it never answers twice in the same way, and the
    summaries of two releases, one without a NeoForge version, and of a
    snapshot. *)
Definition client : Versions.Client := {|
  Versions.Service := Z;
  Versions.minecraft_versions := fun n => (Fulfilled None, n + 1);
  Versions.neoforge_versions := fun n => (Fulfilled None, n + 1);
  Versions.minecraft_version := fun v n =>
    (Fulfilled (Some {| Versions.mc_version := v;
                        Versions.mc_type :=
                          if String.eqb v "25w14a" then "snapshot" else "release";
                        Versions.mc_released := JNumber n |}), n + 1);
  Versions.neoforge_version := fun v n =>
    (Fulfilled (Some {| Versions.nf_version := v;
                        Versions.nf_released := JNumber n;
                        Versions.nf_release_notes := JNull |}), n + 1);
|}.

(** A service that has the details of no NeoForge version. *)
Definition unreliable : Versions.Client := {|
  Versions.Service := Z;
  Versions.minecraft_versions := fun n => (Fulfilled None, n + 1);
  Versions.neoforge_versions := fun n => (Fulfilled None, n + 1);
  Versions.minecraft_version := fun v n =>
    (Fulfilled (Some {| Versions.mc_version := v;
                        Versions.mc_type := "release";
                        Versions.mc_released := JNumber n |}), n + 1);
  Versions.neoforge_version := fun v n => (Fulfilled None, n + 1);
|}.

Definition summaries : list Versions.MinecraftVersionSummary :=
  [ {| Versions.mv_version := "25w14a"; Versions.mv_type := "snapshot";
       Versions.latest_neoforge_version := Some "25.14.0-alpha" |};
    {| Versions.mv_version := "1.21.1"; Versions.mv_type := "release";
       Versions.latest_neoforge_version := Some "21.1.72" |};
    {| Versions.mv_version := "1.20"; Versions.mv_type := "release";
       Versions.latest_neoforge_version := None |} ].

(** The entries of the two documents that are assembled from them, the
    releases document first. *)
Definition entry_1_21_1 : Assembly.MinecraftWithNeoForgeVersion :=
  {| Assembly.version := Some "1.21.1"; Assembly.type := None;
     Assembly.released := Some (JNumber 0);
     Assembly.neoforge_version := Some "21.1.72";
     Assembly.neoforge_released := Some (JNumber 1) |}.

Definition entry_25w14a : Assembly.MinecraftWithNeoForgeVersion :=
  {| Assembly.version := Some "25w14a"; Assembly.type := Some "snapshot";
     Assembly.released := Some (JNumber 2);
     Assembly.neoforge_version := Some "25.14.0-alpha";
     Assembly.neoforge_released := Some (JNumber 3) |}.

Definition releases : Assembly.MinecraftWithNeoForgeVersionListing :=
  {| Assembly.latestSnapshot := Some entry_25w14a;
     Assembly.versions := [entry_1_21_1] |}.

Definition all_versions : Assembly.MinecraftWithNeoForgeVersionListing :=
  {| Assembly.latestSnapshot := Some entry_25w14a;
     Assembly.versions := [entry_25w14a; entry_1_21_1] |}.

End Cases.

(** * Properties *)

(** ** Unfolding the monad *)

Ltac unfold_M :=
  unfold mbind, M_bind, mret, M_ret, JS.throw, JS.process_exit, JS.gets,
    JS.modify, JS.await, JS.async, JS.then_, JS.complete in *.

Lemma bind_normal {St A B} (m : M St A) (f : A -> M St B) s a s' :
  m s = (Normal a, s') -> (m ≫= f) s = f a s'.
Proof. intros E. unfold_M. by rewrite E. Qed.

Lemma bind_throw {St A B} (m : M St A) (f : A -> M St B) s e s' :
  m s = (Throw e, s') -> (m ≫= f) s = (Throw e, s').
Proof. intros E. unfold_M. by rewrite E. Qed.

Lemma bind_exit {St A B} (m : M St A) (f : A -> M St B) s c s' :
  m s = (ProcessExit c, s') -> (m ≫= f) s = (ProcessExit c, s').
Proof. intros E. unfold_M. by rewrite E. Qed.

(** ** Path safety ([lib/data.ts]) *)

Section PathSafety.

Lemma safe_class_allowed (c : ascii) : Data.safe_class c = true <-> Spec.allowed c.
Proof.
  unfold Data.safe_class, Data.in_range, Spec.allowed, Spec.alphanumeric.
  rewrite !orb_true_iff, !andb_true_iff, !Nat.leb_le, !Ascii.eqb_eq.
  change (nat_of_ascii "0") with 48%nat. change (nat_of_ascii "9") with 57%nat.
  change (nat_of_ascii "a") with 97%nat. change (nat_of_ascii "z") with 122%nat.
  change (nat_of_ascii "A") with 65%nat. change (nat_of_ascii "Z") with 90%nat.
  cbv zeta. intuition.
Qed.

Lemma match_unsafe_None (s : string) :
  Data.match_unsafe s = None <-> forall c, In c (Spec.characters s) -> Spec.allowed c.
Proof.
  unfold Spec.characters. induction s as [|a s IH]; simpl.
  - split; [intros _ c [] | done].
  - destruct (Data.safe_class a) eqn:E.
    + rewrite IH. split.
      * intros Hs c [<-|Hc]; [by apply safe_class_allowed | by apply Hs].
      * intros Hs c Hc. apply Hs. by right.
    + split; [done |]. intros Hs.
      assert (Data.safe_class a = true) as E' by (apply safe_class_allowed, Hs; by left).
      congruence.
Qed.

Lemma isSafePath_true (s : string) :
  Data.isSafePath s = true <-> Data.match_unsafe s = None.
Proof.
  unfold Data.isSafePath. rewrite negb_true_iff, bool_decide_eq_false.
  destruct (Data.match_unsafe s); split; intros E; try done.
  exfalso. apply E. by eexists.
Qed.

Lemma isSafePath_characters (s : string) :
  Data.isSafePath s = true <-> forall c, In c (Spec.characters s) -> Spec.allowed c.
Proof. rewrite isSafePath_true. apply match_unsafe_None. Qed.

End PathSafety.

(** ** Skipping unsafe versions ([index.ts]) *)

Section NeoForgeListings.
Context {rt : Platform} {api : MetaApi} {D : Type} {dm : DepotManager D}.

Ltac unfold_builder :=
  unfold neoforgeListing, writeListing, writeListingAsync, console_log,
    fs_writeFile, set_console, set_fs, set_listings, compress in *;
  unfold_M.

Lemma same_but_console_refl (s : State D) : Spec.same_but_console s s.
Proof. by repeat split. Qed.

(** The callback never reads the console: from two states that differ in
    the console only it returns the same value and reaches two states that
    differ in the console only. *)
Lemma neoforgeListing_console (b : ListingsBuilder) (v : string) (s1 s2 : State D) :
  Spec.same_but_console s1 s2 ->
  (neoforgeListing b v s1).1 = (neoforgeListing b v s2).1
  /\ Spec.same_but_console (neoforgeListing b v s1).2 (neoforgeListing b v s2).2.
Proof.
  intros (E1 & E2 & E3 & E4).
  destruct s1 as [l1 f1 c1 d1 u1], s2 as [l2 f2 c2 d2 u2]; simpl in *; subst.
  unfold_builder.
  destruct (Data.isSafePath v); simpl; [| by repeat split].
  destruct (buildNeoForgeListing v) as [listing|e]; simpl; [| by repeat split].
  destruct (has_property _ l2); simpl; by repeat split.
Qed.

Lemma Array_map_console (b : ListingsBuilder) (vs : list string) (s1 s2 : State D) :
  Spec.same_but_console s1 s2 ->
  (Array_map (neoforgeListing b) vs s1).1 = (Array_map (neoforgeListing b) vs s2).1
  /\ Spec.same_but_console (Array_map (neoforgeListing b) vs s1).2
                           (Array_map (neoforgeListing b) vs s2).2.
Proof.
  revert s1 s2. induction vs as [|v vs IH]; intros s1 s2 E; simpl.
  - by split.
  - destruct (neoforgeListing b v s1) as [r1 s1'] eqn:E1.
    destruct (neoforgeListing b v s2) as [r2 s2'] eqn:E2.
    pose proof (neoforgeListing_console b v s1 s2 E) as [Er Es].
    rewrite E1, E2 in Er, Es. simpl in Er, Es. subst r2.
    destruct r1 as [y| |].
    + rewrite (bind_normal _ _ _ _ _ E1), (bind_normal _ _ _ _ _ E2).
      destruct (Array_map (neoforgeListing b) vs s1') as [q1 t1] eqn:F1.
      destruct (Array_map (neoforgeListing b) vs s2') as [q2 t2] eqn:F2.
      pose proof (IH s1' s2' Es) as [Er' Es'].
      rewrite F1, F2 in Er', Es'. simpl in Er', Es'. subst q2.
      destruct q1.
      * by rewrite (bind_normal _ _ _ _ _ F1), (bind_normal _ _ _ _ _ F2).
      * by rewrite (bind_throw _ _ _ _ _ F1), (bind_throw _ _ _ _ _ F2).
      * by rewrite (bind_exit _ _ _ _ _ F1), (bind_exit _ _ _ _ _ F2).
    + by rewrite (bind_throw _ _ _ _ _ E1), (bind_throw _ _ _ _ _ E2).
    + by rewrite (bind_exit _ _ _ _ _ E1), (bind_exit _ _ _ _ _ E2).
Qed.

(** A skipped version: the callback returns [undefined] and only logs. *)
Lemma neoforgeListing_unsafe (b : ListingsBuilder) (v : string) (s : State D) :
  Data.isSafePath v = false ->
  neoforgeListing b v s
  = (Normal None, set_console (fun c => (c ++ [Spec.skipped_version v])%list) s).
Proof. intros E. unfold neoforgeListing. rewrite E. reflexivity. Qed.

(** The callback returns: a failure to build one listing is a rejected
    promise in the resulting array. *)
Lemma neoforgeListing_returns (b : ListingsBuilder) (v : string) (s : State D) :
  exists r, (neoforgeListing b v s).1 = Normal r.
Proof.
  destruct s as [l f c d u]. unfold_builder.
  destruct (Data.isSafePath v); simpl; [| by eexists].
  destruct (buildNeoForgeListing v) as [listing|e]; simpl; [| by eexists].
  destruct (has_property _ l); simpl; by eexists.
Qed.

Lemma neoforgeListing_console_grows (b : ListingsBuilder) (v : string) (s : State D) e :
  In e (console s) -> In e (console (neoforgeListing b v s).2).
Proof.
  intros Hin. destruct s as [l f c d u]. unfold_builder. simpl in Hin.
  destruct (Data.isSafePath v); simpl; [| apply in_or_app; by left].
  destruct (buildNeoForgeListing v) as [listing|e']; simpl; [| done].
  destruct (has_property _ l); simpl; done.
Qed.

Lemma Array_map_returns (b : ListingsBuilder) (vs : list string) (s : State D) :
  exists rs, (Array_map (neoforgeListing b) vs s).1 = Normal rs.
Proof.
  revert s. induction vs as [|v vs IH]; intros s; simpl; [by eexists |].
  destruct (neoforgeListing b v s) as [r s'] eqn:E.
  destruct (neoforgeListing_returns b v s) as [y Ey]. rewrite E in Ey. simpl in Ey. subst r.
  rewrite (bind_normal _ _ _ _ _ E).
  destruct (Array_map (neoforgeListing b) vs s') as [q t] eqn:F.
  destruct (IH s') as [ys Eys]. rewrite F in Eys. simpl in Eys. subst q.
  rewrite (bind_normal _ _ _ _ _ F). by eexists.
Qed.

Lemma Array_map_console_grows (b : ListingsBuilder) (vs : list string) (s : State D) e :
  In e (console s) -> In e (console (Array_map (neoforgeListing b) vs s).2).
Proof.
  revert s. induction vs as [|v vs IH]; intros s Hin; simpl; [done |].
  destruct (neoforgeListing b v s) as [r s'] eqn:E.
  pose proof (neoforgeListing_console_grows b v s e Hin) as Hin'. rewrite E in Hin'.
  destruct (neoforgeListing_returns b v s) as [y Ey]. rewrite E in Ey. simpl in Ey. subst r.
  rewrite (bind_normal _ _ _ _ _ E).
  destruct (Array_map (neoforgeListing b) vs s') as [q t] eqn:F.
  pose proof (IH s' Hin') as Hin''. rewrite F in Hin''.
  destruct (Array_map_returns b vs s') as [ys Eys]. rewrite F in Eys. simpl in Eys. subst q.
  by rewrite (bind_normal _ _ _ _ _ F).
Qed.

(** Mapping over the versions with one unsafe version among them gives the
    promises, and the state apart from the console, of mapping over the
    others; the skipped version is logged. *)
Lemma Array_map_skips (b : ListingsBuilder) (v : string) (l2 l1 : list string) (s : State D) :
  Data.isSafePath v = false ->
  exists ra rb,
    (Array_map (neoforgeListing b) (l1 ++ v :: l2) s).1 = Normal ra
    /\ (Array_map (neoforgeListing b) (l1 ++ l2) s).1 = Normal rb
    /\ omap id ra = omap id rb
    /\ Spec.same_but_console (Array_map (neoforgeListing b) (l1 ++ v :: l2) s).2
                             (Array_map (neoforgeListing b) (l1 ++ l2) s).2
    /\ In (Spec.skipped_version v)
          (console (Array_map (neoforgeListing b) (l1 ++ v :: l2) s).2).
Proof.
  intros Hv. revert s. induction l1 as [|x l1 IH]; intros s; simpl.
  - rewrite (bind_normal _ _ _ _ _ (neoforgeListing_unsafe b v s Hv)).
    set (s1 := set_console _ s).
    assert (Spec.same_but_console s1 s) as Es by (by repeat split).
    destruct (Array_map_console b l2 s1 s Es) as [Er Es'].
    destruct (Array_map_returns b l2 s) as [rb Erb].
    assert (In (Spec.skipped_version v) (console s1)) as Hin
      by (apply in_or_app; right; by left).
    pose proof (Array_map_console_grows b l2 s1 _ Hin) as Hin'.
    destruct (Array_map (neoforgeListing b) l2 s1) as [q t] eqn:F.
    simpl in Er, Es', Hin'. rewrite Erb in Er. subst q.
    rewrite (bind_normal _ _ _ _ _ F). simpl.
    exists (None :: rb), rb. repeat (split; [done |]). done.
  - destruct (neoforgeListing b x s) as [r s'] eqn:E.
    destruct (neoforgeListing_returns b x s) as [y Ey]. rewrite E in Ey. simpl in Ey. subst r.
    rewrite !(bind_normal _ _ _ _ _ E).
    destruct (IH s') as (ra & rb & Ea & Eb & Eo & Es & Hin).
    destruct (Array_map (neoforgeListing b) (l1 ++ v :: l2) s') as [qa ta] eqn:Fa.
    destruct (Array_map (neoforgeListing b) (l1 ++ l2) s') as [qb tb] eqn:Fb.
    simpl in Ea, Eb, Es, Hin. subst qa qb.
    rewrite (bind_normal _ _ _ _ _ Fa), (bind_normal _ _ _ _ _ Fb). simpl.
    exists (y :: ra), (y :: rb). do 2 (split; [done |]).
    split; [destruct y; simpl; [f_equal |]; exact Eo |]. by split.
Qed.

End NeoForgeListings.


(** C10. [isSafePath] accepts the empty string, ".." and ". ."; the check
    reads characters only, so a version made of periods is accepted
    whatever its length, and the callback of the run does not skip such a
    version: it goes on to register the listing under "neoforge/" followed by
    the version. *)
Theorem isSafePath_accepts_empty_and_dots {rt : Platform} {api : MetaApi} {D : Type} {dm : DepotManager D} :
  Data.isSafePath "" = true
  /\ Data.isSafePath ".." = true
  /\ Data.isSafePath ". ." = true
  /\ (forall version : string,
        (forall c, In c (Spec.characters version) -> c = "."%char) ->
        Data.isSafePath version = true)
  /\ (forall (b : ListingsBuilder) (version : string) (s : State D),
        In version [""; ".."; ". ."] ->
        neoforgeListing b version s
        = (p ← then_ (buildNeoForgeListing version) (fun listing =>
                 writeListing b ("neoforge/" +:+ version) (Fulfilled listing));
           mret (Some p)) s).
Proof.
  do 3 (split; [reflexivity |]). split.
  - intros version Hdots. apply isSafePath_characters. intros c Hc.
    rewrite (Hdots c Hc). right. right. by left.
  - intros b version s Hin. simpl in Hin.
    destruct Hin as [<-|[<-|[<-|[]]]]; reflexivity.
Qed.

(** ** The listing compiler ([lib/listing.ts]) *)

Section Strings.

Lemma append_nil_r (s : string) : s +:+ "" = s.
Proof.
  induction s as [|a s IH]; [done |].
  change (String a (s +:+ "") = String a s). by rewrite IH.
Qed.

Lemma append_assoc (s t u : string) : (s +:+ t) +:+ u = s +:+ t +:+ u.
Proof.
  induction s as [|a s IH]; [done |].
  change (String a ((s +:+ t) +:+ u) = String a (s +:+ t +:+ u)). by rewrite IH.
Qed.

(** No string is itself followed by a non-empty suffix. *)
Lemma append_ne_self (s t : string) : t <> "" -> s +:+ t <> s.
Proof.
  intros Ht E. apply Ht. apply (inj (String.append s)). by rewrite append_nil_r.
Qed.

Lemma append_ne_suffix (s t u : string) : t <> u -> s +:+ t <> s +:+ u.
Proof. intros Ht E. apply Ht. by apply (inj (String.append s)). Qed.

End Strings.

Section Compiler.
Context {rt : Platform} {D : Type} {dm : DepotManager D}.
Variable self : ListingsBuilder.


(** What [writeListingAsync] returns and writes for a payload that is
    available. *)
Lemma writeListingAsync_fulfilled (name : string) (content : JSValue) (s : State D) :
  let buffer := Buffer_from (JSON_stringify content
                               (if truthy_opt FORMAT_OUTPUT then Some 2 else None)) in
  writeListingAsync self name (Fulfilled content) s
  = (Normal (Fulfilled
       {| name := name;
          last_modified := referenceDate self;
          uncompressed := buildFileDescriptor (name +:+ ".json") buffer;
          brotli := buildFileDescriptor (name +:+ ".json.br") (brotliCompress buffer);
          gzip := buildFileDescriptor (name +:+ ".json.gz") (gzipCompress buffer) |}),
     set_fs (fun m => <[Spec.jsonPath self name +:+ ".gz" := gzipCompress buffer]>
                        (<[Spec.jsonPath self name +:+ ".br" := brotliCompress buffer]>
                           (<[Spec.jsonPath self name := buffer]> m))) s).
Proof. reflexivity. Qed.

Lemma writeListingAsync_rejected (name : string) (e : string) (s : State D) :
  writeListingAsync self name (Rejected e) s = (Normal (Rejected e), s).
Proof. reflexivity. Qed.

(** The three artifacts of a listing are at three different paths. *)
Lemma artifact_paths_distinct (p : string) :
  p +:+ ".br" <> p /\ p +:+ ".gz" <> p /\ p +:+ ".gz" <> p +:+ ".br".
Proof.
  split; [by apply append_ne_self |].
  split; [by apply append_ne_self | by apply append_ne_suffix].
Qed.

Lemma written_files (name : string) (b bb bg : string) (m : gmap string string) :
  let m' := <[Spec.jsonPath self name +:+ ".gz" := bg]>
              (<[Spec.jsonPath self name +:+ ".br" := bb]> (<[Spec.jsonPath self name := b]> m)) in
  m' !! Spec.jsonPath self name = Some b
  /\ m' !! (Spec.jsonPath self name +:+ ".br") = Some bb
  /\ m' !! (Spec.jsonPath self name +:+ ".gz") = Some bg.
Proof.
  destruct (artifact_paths_distinct (Spec.jsonPath self name)) as (N1 & N2 & N3).
  cbv zeta. split; [| split].
  - rewrite lookup_insert_ne by done. rewrite lookup_insert_ne by done.
    apply lookup_insert_eq.
  - rewrite lookup_insert_ne by done. apply lookup_insert_eq.
  - apply lookup_insert_eq.
Qed.


(** C7. Registering a listing under a name that is already registered in
    the run throws at once: nothing is written, and the registry entry and
    the files of the first registration are as they were. *)
Theorem writeListing_rejects_duplicate_name (name : string) (content : Promise JSValue)
  (s : State D) :
  hasOwn name (listings s) = true ->
  exists s' : State D,
    writeListing self name content s
    = (Throw ("Listing " +:+ name +:+ " has already been written."), s')
    /\ s' = s
    /\ get_own name (listings s') = get_own name (listings s)
    /\ fs s' = fs s.
Proof.
  intros Hreg. exists s. unfold writeListing, has_property. unfold_M.
  by rewrite Hreg.
Qed.

(** A name is registered by its first registration, if it is not a
    property that every object inherits. *)
Lemma set_property_hasOwn {V} (k : string) (v : V) (o : JSObject V) :
  hasOwn k (set_property k v o) = true /\ get_own k (set_property k v o) = Some v.
Proof.
  induction o as [|[k' v'] o IH]; simpl.
  - unfold hasOwn. simpl. by rewrite String.eqb_refl.
  - destruct (String.eqb k k') eqn:E; unfold hasOwn in *; simpl.
    + by rewrite String.eqb_refl.
    + rewrite E. simpl. apply IH.
Qed.

Lemma writeListing_registers (name : string) (content : Promise JSValue) (s : State D) :
  has_property name (listings s) = false ->
  exists p, writeListing self name content s
            = (Normal p, set_listings (set_property name p)
                           (writeListingAsync self name content s).2)
            /\ (writeListingAsync self name content s).1 = Normal p.
Proof.
  intros Hnew. unfold writeListing. unfold mbind at 1. unfold M_bind, gets.
  rewrite Hnew. destruct content as [content|e].
  - rewrite (bind_normal _ _ _ _ _ (writeListingAsync_fulfilled name content s)).
    eexists. split; reflexivity.
  - rewrite (bind_normal _ _ _ _ _ (writeListingAsync_rejected name e s)).
    eexists. split; reflexivity.
Qed.

End Compiler.

(** ** Round trip of the artifacts of a listing *)

Section RoundTrip.
Context {rt : Platform} {D : Type} {dm : DepotManager D}.

(** The decompressors of the two schemes ([zlib.brotliDecompress],
    [zlib.gunzip]) and [JSON.parse], with the contract of the libraries:
    both schemes are lossless. *)
Variable brotliDecompress gunzip : string -> option string.
Variable JSON_parse : string -> option JSValue.
Hypothesis brotli_lossless : forall b, brotliDecompress (brotliCompress b) = Some b.
Hypothesis gzip_lossless : forall b, gunzip (gzipCompress b) = Some b.


End RoundTrip.

Section CompilerWitnesses.
#[local] Existing Instance Demo.platform.

Lemma writeListing_rejects_duplicate_name_witness :
  hasOwn "a"
    (listings (writeListing Demo.builder "a" (Fulfilled JNull)
                 (Demo.initial Demo.localDepot)).2) = true
  /\ exists s' : State LocalDepotManager,
       writeListing Demo.builder "a" (Fulfilled (JBool true))
         (writeListing Demo.builder "a" (Fulfilled JNull) (Demo.initial Demo.localDepot)).2
       = (Throw "Listing a has already been written.", s')
       /\ s' = (writeListing Demo.builder "a" (Fulfilled JNull)
                  (Demo.initial Demo.localDepot)).2
       /\ get_own "a" (listings s')
          = get_own "a" (listings (writeListing Demo.builder "a" (Fulfilled JNull)
                                     (Demo.initial Demo.localDepot)).2)
       /\ fs s' = fs (writeListing Demo.builder "a" (Fulfilled JNull)
                        (Demo.initial Demo.localDepot)).2.
Proof.
  split; [reflexivity |].
  apply (writeListing_rejects_duplicate_name Demo.builder "a" (Fulfilled (JBool true))).
  reflexivity.
Defined.


End CompilerWitnesses.

(** ** The sync engine ([syncWithDepot]) *)

Section Sync.
Context {rt : Platform} {D : Type} {dm : DepotManager D}.
Variable self : ListingsBuilder.

Ltac unfold_sync :=
  unfold uploadArtifact, fs_readFile, depot_upload, on_depot, console_log,
    set_console, the_global_name in *;
  unfold_M.

Lemma artifactNames_extensions (l : ListingDescriptor) :
  map (fun extension => name l +:+ "." +:+ extension) extensionsToUpload
  = Spec.artifactNames l.
Proof. reflexivity. Qed.

Lemma preserves_refl (s : State D) : Spec.preserves s s.
Proof. by split. Qed.

Lemma preserves_trans (s1 s2 s3 : State D) :
  Spec.preserves s1 s2 -> Spec.preserves s2 s3 -> Spec.preserves s1 s3.
Proof. intros [A1 A2] [B1 B2]. split; congruence. Qed.

(** *** One artifact *)

(** Whatever happens, uploading one artifact leaves the files and the
    registry alone and calls [depot.upload] at most once, with the file
    read back from the destination folder. *)
Lemma uploadArtifact_calls (l : ListingDescriptor) (extension : string) (s : State D) :
  Spec.preserves s (uploadArtifact self l extension s).2
  /\ (uploads (uploadArtifact self l extension s).2 = uploads s
      \/ exists call,
           Spec.read_back self (fs s) call (name l +:+ "." +:+ extension)
           /\ uploads (uploadArtifact self l extension s).2 = (uploads s ++ [call])%list).
Proof.
  destruct s as [ls f c d u]. unfold_sync. simpl.
  destruct (f !! _) as [content|] eqn:E; simpl; [| split; [by split | by left]].
  destruct (upload _ content d) as [[[]| |] d']; simpl;
    (split; [by split |]); right; exists (name l +:+ "." +:+ extension, content);
    by repeat split.
Qed.

(** A file that is there goes to a depot that accepts it. *)
Lemma uploadArtifact_ok (l : ListingDescriptor) (extension content : string) (s : State D) :
  Spec.accepts_uploads D ->
  fs s !! path_join (destinationFolder self) (name l +:+ "." +:+ extension) = Some content ->
  exists s', uploadArtifact self l extension s = (Normal tt, s')
             /\ Spec.preserves s s'
             /\ uploads s' = (uploads s ++ [(name l +:+ "." +:+ extension, content)])%list.
Proof.
  intros Hacc Hfile. destruct s as [ls f c d u]. unfold_sync. simpl in *.
  rewrite Hfile. simpl.
  pose proof (Hacc (name l +:+ "." +:+ extension) content d) as Hup.
  destruct (upload _ content d) as [r d']. simpl in Hup. subst r. simpl.
  eexists. split; [reflexivity |]. by repeat split.
Qed.

(** *** The artifacts of one listing *)

Lemma uploadArtifacts_calls (l : ListingDescriptor) (extensions : list string) (s : State D) :
  Spec.preserves s (for_of extensions (uploadArtifact self l) s).2
  /\ exists calls,
       uploads (for_of extensions (uploadArtifact self l) s).2 = (uploads s ++ calls)%list
       /\ Forall (fun call => exists extension,
                    In extension extensions
                    /\ Spec.read_back self (fs s) call (name l +:+ "." +:+ extension))
            calls.
Proof.
  revert s. induction extensions as [|x xs IH]; intros s; simpl.
  - split; [apply preserves_refl |]. exists []. by rewrite app_nil_r.
  - destruct (uploadArtifact_calls l x s) as [Hp Hu].
    destruct (uploadArtifact self l x s) as [r s1] eqn:E. simpl in Hp, Hu.
    assert (exists c1, uploads s1 = (uploads s ++ c1)%list
              /\ Forall (fun call => exists extension,
                           In extension (x :: xs)
                           /\ Spec.read_back self (fs s) call (name l +:+ "." +:+ extension))
                   c1) as (c1 & Hc1 & Hf1).
    { destruct Hu as [Hu|(call & Hrb & Hu)].
      - exists []. by rewrite app_nil_r.
      - exists [call]. split; [done |]. constructor; [| done]. exists x. split; [by left | done]. }
    destruct r as [[]| |].
    + rewrite (bind_normal _ _ _ _ _ E).
      destruct (IH s1) as [Hp' (c2 & Hc2 & Hf2)].
      split; [by eapply preserves_trans |].
      exists (c1 ++ c2)%list. split; [by rewrite Hc2, Hc1, app_assoc |].
      apply Forall_app. split; [done |].
      eapply Forall_impl; [exact Hf2 |]. intros call (ext & Hin & Hrb).
      exists ext. split; [by right |]. destruct Hp as [Hfs _]. by rewrite <- Hfs.
    + rewrite (bind_throw _ _ _ _ _ E). simpl. split; [done |]. by exists c1.
    + rewrite (bind_exit _ _ _ _ _ E). simpl. split; [done |]. by exists c1.
Qed.

Lemma uploadArtifacts_ok (l : ListingDescriptor) (extensions : list string) (s : State D) :
  Spec.accepts_uploads D ->
  (forall extension, In extension extensions ->
     is_Some (fs s !! path_join (destinationFolder self) (name l +:+ "." +:+ extension))) ->
  exists s' calls,
    for_of extensions (uploadArtifact self l) s = (Normal tt, s')
    /\ Spec.preserves s s'
    /\ uploads s' = (uploads s ++ calls)%list
    /\ Forall2 (Spec.read_back self (fs s)) calls
         (map (fun extension => name l +:+ "." +:+ extension) extensions).
Proof.
  intros Hacc. revert s. induction extensions as [|x xs IH]; intros s Hfiles; simpl.
  - exists s, []. split; [done |]. split; [apply preserves_refl |].
    split; [by rewrite app_nil_r | constructor].
  - destruct (Hfiles x) as [content Hc]; [by left |].
    destruct (uploadArtifact_ok l x content s Hacc Hc) as (s1 & E & Hp & Hu).
    rewrite (bind_normal _ _ _ _ _ E).
    destruct (IH s1) as (s2 & calls & E2 & Hp2 & Hu2 & Hf2).
    { intros ext Hin. destruct Hp as [-> _]. apply Hfiles. by right. }
    exists s2, ((name l +:+ "." +:+ x, content) :: calls).
    split; [done |]. split; [by eapply preserves_trans |].
    split; [by rewrite Hu2, Hu, <- app_assoc |].
    constructor; [by split |]. destruct Hp as [Hfs _]. by rewrite <- Hfs.
Qed.

(** *** One listing *)

(** Where nothing binds [name], the branch that skips a listing throws
    before it logs. *)
Lemma syncListing_skip_unbound (existing : JSObject ListingDescriptor)
  (l : ListingDescriptor) (s : State D) :
  global_name = None ->
  Spec.skips existing l = true ->
  syncListing self existing l s = (Throw "ReferenceError: name is not defined", s).
Proof.
  unfold Spec.skips. intros Hname Hskip. unfold syncListing. rewrite Hskip.
  unfold_sync. by rewrite Hname.
Qed.

Lemma syncListing_skip_bound (existing : JSObject ListingDescriptor)
  (l : ListingDescriptor) (s : State D) :
  is_Some global_name ->
  Spec.skips existing l = true ->
  exists s', syncListing self existing l s = (Normal tt, s')
             /\ Spec.preserves s s' /\ uploads s' = uploads s.
Proof.
  unfold Spec.skips. intros [v Hname] Hskip. unfold syncListing. rewrite Hskip.
  unfold_sync. rewrite Hname. eexists. split; [reflexivity |]. by repeat split.
Qed.

Lemma syncListing_changed_ok (existing : JSObject ListingDescriptor)
  (l : ListingDescriptor) (s : State D) :
  Spec.accepts_uploads D ->
  Spec.skips existing l = false ->
  (forall filename, In filename (Spec.artifactNames l) ->
     is_Some (fs s !! path_join (destinationFolder self) filename)) ->
  exists s' calls,
    syncListing self existing l s = (Normal tt, s')
    /\ Spec.preserves s s'
    /\ uploads s' = (uploads s ++ calls)%list
    /\ Forall2 (Spec.read_back self (fs s)) calls (Spec.artifactNames l).
Proof.
  unfold Spec.skips. intros Hacc Hskip Hfiles. unfold syncListing. rewrite Hskip.
  rewrite <- artifactNames_extensions. apply uploadArtifacts_ok; [done |].
  intros ext Hin. apply Hfiles. rewrite <- artifactNames_extensions.
  by apply (in_map (fun extension => name l +:+ "." +:+ extension)).
Qed.

(** Whatever happens, every call of [depot.upload] for a listing carries
    one of its artifacts, read back from the destination folder. *)
Lemma syncListing_calls (existing : JSObject ListingDescriptor)
  (l : ListingDescriptor) (s : State D) :
  Spec.preserves s (syncListing self existing l s).2
  /\ exists calls,
       uploads (syncListing self existing l s).2 = (uploads s ++ calls)%list
       /\ Forall (fun call => exists filename,
                    In filename (Spec.artifactNames l)
                    /\ Spec.read_back self (fs s) call filename) calls.
Proof.
  unfold syncListing. destruct (same_content _ l).
  - unfold_sync. destruct global_name; simpl;
      (split; [by split |]); exists []; by rewrite app_nil_r.
  - destruct (uploadArtifacts_calls l extensionsToUpload s) as [Hp (calls & Hu & Hf)].
    split; [done |]. exists calls. split; [done |].
    eapply Forall_impl; [exact Hf |]. intros call (ext & Hin & Hrb).
    exists (name l +:+ "." +:+ ext). split; [| done].
    rewrite <- artifactNames_extensions.
    by apply (in_map (fun extension => name l +:+ "." +:+ extension)).
Qed.

(** *** The loop over the listings *)

(** Where nothing binds [name], the loop stops at the first listing whose
    content the baseline already holds: the listings after it are not
    visited. *)
Lemma syncListings_stop (existing : JSObject ListingDescriptor)
  (l : ListingDescriptor) (rest : list ListingDescriptor) (s : State D) :
  global_name = None ->
  Spec.skips existing l = true ->
  for_of (l :: rest) (syncListing self existing) s
  = (Throw "ReferenceError: name is not defined", s).
Proof.
  intros Hname Hskip. simpl.
  by rewrite (bind_throw _ _ _ _ _ (syncListing_skip_unbound existing l s Hname Hskip)).
Qed.

Lemma syncListings_calls (existing : JSObject ListingDescriptor)
  (ls : list ListingDescriptor) (s : State D) :
  Spec.preserves s (for_of ls (syncListing self existing) s).2
  /\ exists calls,
       uploads (for_of ls (syncListing self existing) s).2 = (uploads s ++ calls)%list
       /\ Forall (Spec.artifact_call self (fs s) ls) calls.
Proof.
  revert s. induction ls as [|l ls IH]; intros s; simpl.
  - split; [apply preserves_refl |]. exists []. by rewrite app_nil_r.
  - destruct (syncListing_calls existing l s) as [Hp (c1 & Hc1 & Hf1)].
    assert (Forall (Spec.artifact_call self (fs s) (l :: ls)) c1) as Hf1'.
    { eapply Forall_impl; [exact Hf1 |]. intros call (f & Hin & Hrb).
      exists l, f. split; [by left | done]. }
    destruct (syncListing self existing l s) as [r s1] eqn:E. simpl in Hp, Hc1.
    destruct r as [[]| |].
    + rewrite (bind_normal _ _ _ _ _ E).
      destruct (IH s1) as [Hp' (c2 & Hc2 & Hf2)].
      split; [by eapply preserves_trans |].
      exists (c1 ++ c2)%list. split; [by rewrite Hc2, Hc1, app_assoc |].
      apply Forall_app. split; [done |].
      eapply Forall_impl; [exact Hf2 |]. intros call (l' & f & Hin & Hin' & Hrb).
      exists l', f. split; [by right |]. split; [done |].
      destruct Hp as [Hfs _]. by rewrite <- Hfs.
    + rewrite (bind_throw _ _ _ _ _ E). simpl. split; [done |]. by exists c1.
    + rewrite (bind_exit _ _ _ _ _ E). simpl. split; [done |]. by exists c1.
Qed.

(** With the artifacts in place and a depot that accepts them, and where
    [name] is bound or no listing is skipped, the loop completes and has
    uploaded, in order, the artifacts of the listings it does not skip. *)
Lemma syncListings_ok (existing : JSObject ListingDescriptor)
  (ls : list ListingDescriptor) (s : State D) :
  Spec.accepts_uploads D ->
  Spec.artifacts_present self (fs s) ls ->
  (is_Some global_name \/ forall l, In l ls -> Spec.skips existing l = false) ->
  exists s' calls,
    for_of ls (syncListing self existing) s = (Normal tt, s')
    /\ Spec.preserves s s'
    /\ uploads s' = (uploads s ++ calls)%list
    /\ Forall2 (Spec.read_back self (fs s)) calls (Spec.artifactsToUpload existing ls).
Proof.
  intros Hacc. revert s. induction ls as [|l ls IH]; intros s Hfiles Hbound; simpl.
  - exists s, []. split; [done |]. split; [apply preserves_refl |].
    split; [by rewrite app_nil_r | constructor].
  - assert (exists s1 c1,
              syncListing self existing l s = (Normal tt, s1)
              /\ Spec.preserves s s1
              /\ uploads s1 = (uploads s ++ c1)%list
              /\ Forall2 (Spec.read_back self (fs s)) c1
                   (if Spec.skips existing l then [] else Spec.artifactNames l))
      as (s1 & c1 & E & Hp & Hu & Hf).
    { destruct (Spec.skips existing l) eqn:Hskip.
      - destruct Hbound as [Hb|Hb]; [| by rewrite Hb in Hskip; [| left]].
        destruct (syncListing_skip_bound existing l s Hb Hskip) as (s1 & E & Hp & Hu).
        exists s1, []. rewrite app_nil_r. repeat (split; [done |]). constructor.
      - apply syncListing_changed_ok; [done | done |].
        intros f Hin. apply (Hfiles l f); [by left | done]. }
    rewrite (bind_normal _ _ _ _ _ E).
    destruct (IH s1) as (s2 & c2 & E2 & Hp2 & Hu2 & Hf2).
    { intros l' f Hin Hin'. destruct Hp as [-> _]. apply (Hfiles l' f); [by right | done]. }
    { destruct Hbound as [Hb|Hb]; [by left | right]. intros l' Hin. apply Hb. by right. }
    exists s2, (c1 ++ c2)%list. split; [done |].
    split; [by eapply preserves_trans |].
    split; [by rewrite Hu2, Hu, app_assoc |].
    apply Forall2_app; [done |]. destruct Hp as [Hfs _]. by rewrite <- Hfs.
Qed.

(** *** The sync against a baseline *)

Lemma syncWithBaseline_fulfilled (baseline ls : list ListingDescriptor) (s : State D) :
  Promise_all (Object_values (listings s)) = Fulfilled ls ->
  syncWithBaseline self baseline s
  = (for_of ls (syncListing self (Spec.indexed baseline));;
     depot_upload DEPOT_INDEX_PATH (Spec.indexDocument ls)) s.
Proof.
  intros Hall. unfold syncWithBaseline. unfold mbind at 1. unfold M_bind, gets.
  unfold mbind at 1. unfold M_bind, await. by rewrite Hall.
Qed.

Lemma syncWithBaseline_rejected (baseline : list ListingDescriptor) (e : string) (s : State D) :
  Promise_all (Object_values (listings s)) = Rejected e ->
  syncWithBaseline self baseline s = (Throw e, s).
Proof.
  intros Hall. unfold syncWithBaseline. unfold mbind at 1. unfold M_bind, gets.
  unfold mbind at 1. unfold M_bind, await. by rewrite Hall.
Qed.

Lemma depot_upload_calls (relativePath content : string) (s : State D) :
  Spec.preserves s (depot_upload relativePath content s).2
  /\ uploads (depot_upload relativePath content s).2
     = (uploads s ++ [(relativePath, content)])%list.
Proof.
  destruct s as [ls f c d u]. unfold_sync. simpl.
  destruct (upload relativePath content d) as [r d']. by repeat split.
Qed.

Lemma depot_upload_ok (relativePath content : string) (s : State D) :
  Spec.accepts_uploads D ->
  exists s', depot_upload relativePath content s = (Normal tt, s')
             /\ Spec.preserves s s'
             /\ uploads s' = (uploads s ++ [(relativePath, content)])%list.
Proof.
  intros Hacc. destruct s as [ls f c d u]. unfold_sync. simpl.
  pose proof (Hacc relativePath content d) as Hup.
  destruct (upload relativePath content d) as [r d']. simpl in Hup. subst r.
  eexists. split; [reflexivity |]. by repeat split.
Qed.

(** The sync completes: the artifacts of the listings it does not skip are
    uploaded, then the index. *)
Lemma syncWithBaseline_ok (baseline ls : list ListingDescriptor) (s : State D) :
  Promise_all (Object_values (listings s)) = Fulfilled ls ->
  Spec.accepts_uploads D ->
  Spec.artifacts_present self (fs s) ls ->
  (is_Some global_name \/ forall l, In l ls -> Spec.skips (Spec.indexed baseline) l = false) ->
  exists s' calls,
    syncWithBaseline self baseline s = (Normal tt, s')
    /\ Spec.preserves s s'
    /\ uploads s'
       = (uploads s ++ calls ++ [(DEPOT_INDEX_PATH, Spec.indexDocument ls)])%list
    /\ Forall2 (Spec.read_back self (fs s)) calls
         (Spec.artifactsToUpload (Spec.indexed baseline) ls).
Proof.
  intros Hall Hacc Hfiles Hbound. rewrite (syncWithBaseline_fulfilled _ _ _ Hall).
  destruct (syncListings_ok (Spec.indexed baseline) ls s Hacc Hfiles Hbound)
    as (s1 & calls & E & Hp & Hu & Hf).
  rewrite (bind_normal _ _ _ _ _ E).
  destruct (depot_upload_ok DEPOT_INDEX_PATH (Spec.indexDocument ls) s1 Hacc)
    as (s2 & E2 & Hp2 & Hu2).
  exists s2, calls. split; [done |]. split; [by eapply preserves_trans |].
  split; [by rewrite Hu2, Hu, <- app_assoc | done].
Qed.

(** Whatever happens, the sync calls [depot.upload] for artifacts of the
    registered listings and then, at most once and last, for the index
    document at the index path; when it completes it has made that last
    call. *)
Lemma syncWithBaseline_calls (baseline ls : list ListingDescriptor) (s : State D) :
  Promise_all (Object_values (listings s)) = Fulfilled ls ->
  Spec.preserves s (syncWithBaseline self baseline s).2
  /\ exists artifacts rest,
       uploads (syncWithBaseline self baseline s).2 = (uploads s ++ artifacts ++ rest)%list
       /\ Forall (Spec.artifact_call self (fs s) ls) artifacts
       /\ (rest = [] \/ rest = [(DEPOT_INDEX_PATH, Spec.indexDocument ls)])
       /\ ((syncWithBaseline self baseline s).1 = Normal tt ->
           rest = [(DEPOT_INDEX_PATH, Spec.indexDocument ls)]).
Proof.
  intros Hall. rewrite (syncWithBaseline_fulfilled _ _ _ Hall).
  destruct (syncListings_calls (Spec.indexed baseline) ls s) as [Hp (calls & Hu & Hf)].
  destruct (for_of ls (syncListing self (Spec.indexed baseline)) s) as [r s1] eqn:E.
  simpl in Hp, Hu. destruct r as [[]| |].
  - rewrite (bind_normal _ _ _ _ _ E).
    destruct (depot_upload_calls DEPOT_INDEX_PATH (Spec.indexDocument ls) s1) as [Hp2 Hu2].
    split; [by eapply preserves_trans |].
    exists calls, [(DEPOT_INDEX_PATH, Spec.indexDocument ls)].
    split; [by rewrite Hu2, Hu, <- app_assoc |]. split; [done |]. split; [by right | done].
  - rewrite (bind_throw _ _ _ _ _ E). simpl. split; [done |].
    exists calls, []. rewrite app_nil_r. split; [done |]. split; [done |]. split; [by left | done].
  - rewrite (bind_exit _ _ _ _ _ E). simpl. split; [done |].
    exists calls, []. rewrite app_nil_r. split; [done |]. split; [done |]. split; [by left | done].
Qed.

(** Where nothing binds [name]: a first listing that the baseline already
    holds stops the sync before anything is uploaded. *)
Lemma syncWithBaseline_stop (baseline : list ListingDescriptor)
  (l : ListingDescriptor) (rest : list ListingDescriptor) (s : State D) :
  global_name = None ->
  Promise_all (Object_values (listings s)) = Fulfilled (l :: rest) ->
  Spec.skips (Spec.indexed baseline) l = true ->
  syncWithBaseline self baseline s = (Throw "ReferenceError: name is not defined", s).
Proof.
  intros Hname Hall Hskip. rewrite (syncWithBaseline_fulfilled _ _ _ Hall).
  by rewrite (bind_throw _ _ _ _ _ (syncListings_stop _ l rest s Hname Hskip)).
Qed.

(** *** The uploads of a sync that skips nothing, however it ends *)

Lemma for_of_app {St A} (l1 l2 : list A) (body : A -> M St unit) (s : St) :
  for_of (l1 ++ l2) body s = (for_of l1 body;; for_of l2 body) s.
Proof.
  revert s. induction l1 as [|x l1 IH]; intros s; simpl; [done |].
  unfold mbind, M_bind in *. destruct (body x s) as [[[]| |] s1]; [apply IH | done | done].
Qed.

Lemma uploaded_nil (s : State D) : Spec.uploaded_artifacts self [] s (Normal tt) s [].
Proof.
  unfold Spec.uploaded_artifacts. rewrite app_nil_r. do 4 (split; [done |]).
  split; [exists [], []; split; [done | constructor] |]. intros _. split; [constructor | done].
Qed.

Lemma uploaded_app (names1 names2 : list string) (s s1 s2 : State D) (r : Completion unit)
  (c1 c2 : list (string * string)) :
  Spec.uploaded_artifacts self names1 s (Normal tt) s1 c1 ->
  Spec.uploaded_artifacts self names2 s1 r s2 c2 ->
  Spec.uploaded_artifacts self (names1 ++ names2) s r s2 (c1 ++ c2).
Proof.
  intros (Hu1 & Hf1 & Hl1 & Hd1 & _ & Hr1) (Hu2 & Hf2 & Hl2 & Hd2 & (done & later & -> & Hdone) & Hr2).
  destruct (Hr1 eq_refl) as [Hall1 Hdel1]. rewrite Hf1 in Hdone, Hr2.
  split; [by rewrite Hu2, Hu1, app_assoc |]. split; [congruence |]. split; [congruence |].
  split; [unfold Spec.after_uploads in *; by rewrite Hd2, Hd1, fold_left_app |].
  split.
  - exists (names1 ++ done)%list, later. split; [by rewrite app_assoc |]. by apply Forall2_app.
  - intros Hr. destruct (Hr2 Hr) as [Hall2 Hdel2]. split; [by apply Forall2_app |].
    unfold Spec.deliver in *. rewrite for_of_app. by rewrite (bind_normal _ _ _ _ _ Hdel1).
Qed.

Lemma uploaded_stop (names1 names2 : list string) (s s1 : State D) (r : Completion unit)
  (c1 : list (string * string)) :
  r <> Normal tt ->
  Spec.uploaded_artifacts self names1 s r s1 c1 ->
  Spec.uploaded_artifacts self (names1 ++ names2) s r s1 c1.
Proof.
  intros Hr (Hu1 & Hf1 & Hl1 & Hd1 & (done & later & -> & Hdone) & _).
  do 4 (split; [done |]). split; [| done].
  exists done, (later ++ names2)%list. split; [by rewrite app_assoc | done].
Qed.

Lemma uploadArtifact_uploaded (l : ListingDescriptor) (extension : string) (s : State D) :
  exists calls,
    Spec.uploaded_artifacts self [name l +:+ "." +:+ extension] s
      (uploadArtifact self l extension s).1 (uploadArtifact self l extension s).2 calls.
Proof.
  destruct s as [ls f c d u]. unfold Spec.uploaded_artifacts, Spec.deliver, Spec.after_uploads.
  unfold_sync. simpl.
  destruct (f !! _) as [content|] eqn:E; simpl.
  - exists [(name l +:+ "." +:+ extension, content)]. simpl.
    assert (Forall2 (Spec.read_back self f) [(name l +:+ "." +:+ extension, content)]
              [name l +:+ "." +:+ extension]) as Hread.
    { repeat constructor. by rewrite E. }
    destruct (upload _ content d) as [[[]| |] d'] eqn:Eup; simpl;
      repeat (split; [done |]);
      (split; [by exists [name l +:+ "." +:+ extension], [] |]);
      try done.
    intros _. split; [done |]. by rewrite (bind_normal _ _ _ _ _ Eup).
  - exists []. rewrite app_nil_r. do 4 (split; [done |]).
    split; [exists [], [name l +:+ "." +:+ extension]; split; [done | constructor] | done].
Qed.

Lemma uploadArtifacts_uploaded (l : ListingDescriptor) (extensions : list string)
  (s : State D) :
  exists calls,
    Spec.uploaded_artifacts self
      (map (fun extension => name l +:+ "." +:+ extension) extensions) s
      (for_of extensions (uploadArtifact self l) s).1
      (for_of extensions (uploadArtifact self l) s).2 calls.
Proof.
  revert s. induction extensions as [|x xs IH]; intros s; simpl.
  - exists []. apply uploaded_nil.
  - destruct (uploadArtifact_uploaded l x s) as [c1 H1].
    destruct (uploadArtifact self l x s) as [r s1] eqn:E. simpl in H1.
    change (?a :: map ?f xs) with ([a] ++ map f xs)%list.
    destruct r as [[]| |].
    + rewrite (bind_normal _ _ _ _ _ E). destruct (IH s1) as [c2 H2].
      exists (c1 ++ c2)%list. by apply (uploaded_app _ _ s s1).
    + rewrite (bind_throw _ _ _ _ _ E). exists c1. by apply uploaded_stop.
    + rewrite (bind_exit _ _ _ _ _ E). exists c1. by apply uploaded_stop.
Qed.

Lemma syncListings_uploaded (existing : JSObject ListingDescriptor)
  (ls : list ListingDescriptor) (s : State D) :
  (forall l, In l ls -> Spec.skips existing l = false) ->
  exists calls,
    Spec.uploaded_artifacts self (flat_map Spec.artifactNames ls) s
      (for_of ls (syncListing self existing) s).1
      (for_of ls (syncListing self existing) s).2 calls.
Proof.
  revert s. induction ls as [|l ls IH]; intros s Hskip; cbn [for_of flat_map].
  - exists []. apply uploaded_nil.
  - assert (exists c1, Spec.uploaded_artifacts self (Spec.artifactNames l) s
                         (syncListing self existing l s).1
                         (syncListing self existing l s).2 c1) as [c1 H1].
    { unfold syncListing. pose proof (Hskip l (or_introl eq_refl)) as Hl.
      unfold Spec.skips in Hl. rewrite Hl. rewrite <- artifactNames_extensions.
      apply uploadArtifacts_uploaded. }
    destruct (syncListing self existing l s) as [r s1] eqn:E. simpl in H1.
    destruct r as [[]| |].
    + rewrite (bind_normal _ _ _ _ _ E).
      destruct (IH s1) as [c2 H2]; [intros l' Hin; apply Hskip; by right |].
      exists (c1 ++ c2)%list. by apply (uploaded_app _ _ s s1).
    + rewrite (bind_throw _ _ _ _ _ E). exists c1. by apply uploaded_stop.
    + rewrite (bind_exit _ _ _ _ _ E). exists c1. by apply uploaded_stop.
Qed.

(** A sync against a baseline that makes it skip nothing: the artifacts
    of the listings are uploaded in their order as long as the files are
    there and the depot accepts them, and then the index. *)
Lemma syncWithBaseline_unskipped (baseline ls : list ListingDescriptor) (s : State D) :
  Promise_all (Object_values (listings s)) = Fulfilled ls ->
  (forall l, In l ls -> Spec.skips (Spec.indexed baseline) l = false) ->
  exists artifacts rest,
    uploads (syncWithBaseline self baseline s).2 = (uploads s ++ artifacts ++ rest)%list
    /\ depot (syncWithBaseline self baseline s).2
       = Spec.after_uploads (artifacts ++ rest) (depot s)
    /\ (exists done later,
          flat_map Spec.artifactNames ls = (done ++ later)%list
          /\ Forall2 (Spec.read_back self (fs s)) artifacts done)
    /\ (rest = []
        \/ (rest = [(DEPOT_INDEX_PATH, Spec.indexDocument ls)]
            /\ Forall2 (Spec.read_back self (fs s)) artifacts
                 (flat_map Spec.artifactNames ls)))
    /\ ((syncWithBaseline self baseline s).1 = Normal tt ->
        rest = [(DEPOT_INDEX_PATH, Spec.indexDocument ls)]
        /\ Forall2 (Spec.read_back self (fs s)) artifacts (flat_map Spec.artifactNames ls)
        /\ Spec.deliver (artifacts ++ rest) (depot s)
           = (Normal tt, depot (syncWithBaseline self baseline s).2)).
Proof.
  intros Hall Hskip. rewrite (syncWithBaseline_fulfilled _ _ _ Hall).
  destruct (syncListings_uploaded (Spec.indexed baseline) ls s Hskip)
    as (artifacts & Hu & Hf & Hl & Hd & Hfirst & Hr).
  destruct (for_of ls (syncListing self (Spec.indexed baseline)) s) as [r s1] eqn:E.
  simpl in Hu, Hf, Hl, Hd, Hr. destruct r as [[]| |].
  - rewrite (bind_normal _ _ _ _ _ E). destruct (Hr eq_refl) as [Hall1 Hdel1].
    exists artifacts, [(DEPOT_INDEX_PATH, Spec.indexDocument ls)].
    destruct s1 as [ls1 f1 c1 d1 u1]. simpl in *. unfold depot_upload, on_depot. unfold_M. simpl.
    destruct (upload DEPOT_INDEX_PATH (Spec.indexDocument ls) d1) as [r2 d2] eqn:Eup. simpl.
    split; [by rewrite Hu, <- app_assoc |].
    split; [unfold Spec.after_uploads; rewrite fold_left_app; simpl;
            unfold Spec.after_uploads in Hd; by rewrite <- Hd, Eup |].
    split; [done |]. split; [by right |].
    intros ->. do 2 (split; [done |]).
    unfold Spec.deliver in *. rewrite for_of_app. rewrite (bind_normal _ _ _ _ _ Hdel1).
    simpl. unfold_M. by rewrite Eup.
  - rewrite (bind_throw _ _ _ _ _ E). simpl. exists artifacts, []. rewrite !app_nil_r.
    do 3 (split; [done |]). split; [by left | done].
  - rewrite (bind_exit _ _ _ _ _ E). simpl. exists artifacts, []. rewrite !app_nil_r.
    do 3 (split; [done |]). split; [by left | done].
Qed.

(** *** Fetching the baseline *)

Lemma syncWithDepot_baseline (fullResync : bool) (baseline : list ListingDescriptor)
  (d' : D) (s : State D) :
  getJSON DEPOT_INDEX_PATH (depot s) = (Normal (Some baseline), d') ->
  syncWithDepot self fullResync s = syncWithBaseline self baseline (Spec.after_download d' s).
Proof.
  intros Hget. unfold syncWithDepot. unfold mbind at 1. unfold M_bind, on_depot.
  rewrite Hget. reflexivity.
Qed.

Lemma getJSON_absent (d d' : D) :
  download DEPOT_INDEX_PATH d = (Normal None, d') ->
  getJSON DEPOT_INDEX_PATH d = (Normal None, d').
Proof. intros Hd. unfold getJSON. by rewrite (bind_normal _ _ _ _ _ Hd). Qed.

Lemma syncWithDepot_absent_resync (d' : D) (s : State D) :
  getJSON DEPOT_INDEX_PATH (depot s) = (Normal None, d') ->
  syncWithDepot self true s = syncWithBaseline self [] (Spec.after_download d' s).
Proof.
  intros Hget. unfold syncWithDepot. unfold mbind at 1. unfold M_bind, on_depot.
  rewrite Hget. reflexivity.
Qed.

Lemma syncWithDepot_absent_exit (d' : D) (s : State D) :
  getJSON DEPOT_INDEX_PATH (depot s) = (Normal None, d') ->
  syncWithDepot self false s
  = (ProcessExit 1,
     set_console (fun c => (c ++ [Spec.resync_instruction])%list)
       (Spec.after_download d' s)).
Proof.
  intros Hget. unfold syncWithDepot. unfold mbind at 1. unfold M_bind, on_depot.
  rewrite Hget. reflexivity.
Qed.

(** Against an empty baseline no listing is skipped. *)
Lemma empty_baseline_skips_nothing (l : ListingDescriptor) :
  Spec.skips (Spec.indexed []) l = false.
Proof.
  unfold Spec.skips, Spec.indexed, get_property. simpl.
  by destruct (inherited (name l)).
Qed.

Lemma artifactsToUpload_all (existing : JSObject ListingDescriptor)
  (ls : list ListingDescriptor) :
  (forall l, In l ls -> Spec.skips existing l = false) ->
  Spec.artifactsToUpload existing ls = flat_map Spec.artifactNames ls.
Proof.
  intros Hno. unfold Spec.artifactsToUpload. induction ls as [|l ls IH]; [done |].
  simpl. rewrite (Hno l) by (by left). unfold Spec.artifactNames at 1. simpl.
  do 3 f_equal. apply IH. intros l' Hin. apply Hno. by right.
Qed.

Lemma on_depot_run {A} (m : M D A) (r : Completion A) (d' : D) (s : State D) :
  m (depot s) = (r, d') -> on_depot m s = (r, Spec.after_download d' s).
Proof. intros E. unfold on_depot. by rewrite E. Qed.

(** Whatever happens, [syncWithDepot] calls [depot.upload] for artifacts of
    the registered listings and then, at most once and last, for the index
    document at the index path; when it completes it has made that call. *)
Lemma syncWithDepot_calls (fullResync : bool) (ls : list ListingDescriptor) (s : State D) :
  Promise_all (Object_values (listings s)) = Fulfilled ls ->
  Spec.preserves s (syncWithDepot self fullResync s).2
  /\ exists artifacts rest,
       uploads (syncWithDepot self fullResync s).2 = (uploads s ++ artifacts ++ rest)%list
       /\ Forall (Spec.artifact_call self (fs s) ls) artifacts
       /\ (rest = [] \/ rest = [(DEPOT_INDEX_PATH, Spec.indexDocument ls)])
       /\ ((syncWithDepot self fullResync s).1 = Normal tt ->
           rest = [(DEPOT_INDEX_PATH, Spec.indexDocument ls)]).
Proof.
  intros Hall.
  assert (forall baseline d',
            Spec.preserves s (syncWithBaseline self baseline (Spec.after_download d' s)).2
            /\ exists artifacts rest,
                 uploads (syncWithBaseline self baseline (Spec.after_download d' s)).2
                 = (uploads s ++ artifacts ++ rest)%list
                 /\ Forall (Spec.artifact_call self (fs s) ls) artifacts
                 /\ (rest = [] \/ rest = [(DEPOT_INDEX_PATH, Spec.indexDocument ls)])
                 /\ ((syncWithBaseline self baseline (Spec.after_download d' s)).1 = Normal tt ->
                     rest = [(DEPOT_INDEX_PATH, Spec.indexDocument ls)])) as Hbase.
  { intros baseline d'.
    apply (syncWithBaseline_calls baseline ls (Spec.after_download d' s) Hall). }
  destruct (getJSON DEPOT_INDEX_PATH (depot s)) as [[[baseline|]| |] d'] eqn:Hget.
  - rewrite (syncWithDepot_baseline fullResync baseline d' s Hget). apply Hbase.
  - destruct fullResync.
    + rewrite (syncWithDepot_absent_resync d' s Hget). apply Hbase.
    + rewrite (syncWithDepot_absent_exit d' s Hget). simpl. split; [by split |].
      exists [], []. rewrite app_nil_r. split; [done |]. split; [constructor |].
      split; [by left | done].
  - unfold syncWithDepot. rewrite (bind_throw _ _ _ _ _ (on_depot_run _ _ _ _ Hget)). simpl.
    split; [by split |]. exists [], []. rewrite app_nil_r.
    split; [done |]. split; [constructor |]. split; [by left | done].
  - unfold syncWithDepot. rewrite (bind_exit _ _ _ _ _ (on_depot_run _ _ _ _ Hget)). simpl.
    split; [by split |]. exists [], []. rewrite app_nil_r.
    split; [done |]. split; [constructor |]. split; [by left | done].
Qed.

(** C2. When the depot holds no index: without the full resync flag the
    sync logs the instruction for the operator and stops the process with
    status 1, having called [depot.upload] for nothing and left the depot as
    the look for the index left it (neither an artifact nor the index is
    written); with the flag it goes on from an empty baseline, so that no
    listing is skipped: the artifacts of the listings are read back and
    uploaded in their order, three for every listing, and then the index,
    the depot being what these uploads make of it. The sync stops early only
    at an artifact that is missing from the destination folder or at an
    upload that the depot refuses; when it returns, every artifact of every
    listing and the index have been uploaded and accepted. *)
Theorem missing_index_guard (d' : D) (s : State D) :
  download DEPOT_INDEX_PATH (depot s) = (Normal None, d') ->
  (exists s', syncWithDepot self false s = (ProcessExit 1, s')
              /\ uploads s' = uploads s
              /\ depot s' = d'
              /\ console s' = (console s ++ [Spec.resync_instruction])%list)
  /\ (forall ls,
        Promise_all (Object_values (listings s)) = Fulfilled ls ->
        exists artifacts rest,
          uploads (syncWithDepot self true s).2 = (uploads s ++ artifacts ++ rest)%list
          /\ depot (syncWithDepot self true s).2 = Spec.after_uploads (artifacts ++ rest) d'
          /\ (exists done later,
                flat_map Spec.artifactNames ls = (done ++ later)%list
                /\ Forall2 (Spec.read_back self (fs s)) artifacts done)
          /\ (rest = []
              \/ (rest = [(DEPOT_INDEX_PATH, Spec.indexDocument ls)]
                  /\ Forall2 (Spec.read_back self (fs s)) artifacts
                       (flat_map Spec.artifactNames ls)))
          /\ ((syncWithDepot self true s).1 = Normal tt ->
              rest = [(DEPOT_INDEX_PATH, Spec.indexDocument ls)]
              /\ Forall2 (Spec.read_back self (fs s)) artifacts
                   (flat_map Spec.artifactNames ls)
              /\ Spec.deliver (artifacts ++ rest) d'
                 = (Normal tt, depot (syncWithDepot self true s).2))
          /\ (Spec.accepts_uploads D -> Spec.artifacts_present self (fs s) ls ->
              (syncWithDepot self true s).1 = Normal tt)).
Proof.
  intros Hd. pose proof (getJSON_absent _ _ Hd) as Hget. split.
  - eexists. split; [apply (syncWithDepot_absent_exit d' s Hget) |]. by repeat split.
  - intros ls Hall. rewrite (syncWithDepot_absent_resync d' s Hget).
    destruct (syncWithBaseline_unskipped [] ls (Spec.after_download d' s) Hall)
      as (artifacts & rest & Hu & Hdepot & Hfirst & Hrest & Hret).
    { intros l _. apply empty_baseline_skips_nothing. }
    exists artifacts, rest. do 5 (split; [done |]).
    intros Hacc Hfiles.
    destruct (syncWithBaseline_ok [] ls (Spec.after_download d' s) Hall Hacc Hfiles)
      as (s' & calls & E & _).
    { right. intros l _. apply empty_baseline_skips_nothing. }
    by rewrite E.
Qed.

(** C1 (what the code does where the claim fails). On a runtime whose
    global scope binds no [name], the loop of the sync throws at a listing
    whose name, hash and size the baseline holds, while it evaluates the
    arguments of the message it is about to log; the listings after it are
    not visited, so none of their artifacts is uploaded, changed or not. *)
Theorem unchanged_listing_stops_the_uploads (existing : JSObject ListingDescriptor)
  (l : ListingDescriptor) (rest : list ListingDescriptor) (s : State D) :
  global_name = None ->
  Spec.skips existing l = true ->
  exists s', for_of (l :: rest) (syncListing self existing) s
             = (Throw "ReferenceError: name is not defined", s')
             /\ uploads s' = uploads s.
Proof.
  intros Hname Hskip. exists s. split; [| done]. by apply syncListings_stop.
Qed.

(** C4 (what the code does where the claim fails). On a runtime whose
    global scope binds no [name], a sync whose first listing is unchanged
    against the index it fetched throws before it reaches the upload of the
    new index: nothing is uploaded to the index path. *)
Theorem unchanged_listing_stops_the_index (fullResync : bool)
  (baseline : list ListingDescriptor) (l : ListingDescriptor)
  (rest : list ListingDescriptor) (d' : D) (s : State D) :
  global_name = None ->
  getJSON DEPOT_INDEX_PATH (depot s) = (Normal (Some baseline), d') ->
  Promise_all (Object_values (listings s)) = Fulfilled (l :: rest) ->
  Spec.skips (Spec.indexed baseline) l = true ->
  exists s', syncWithDepot self fullResync s
             = (Throw "ReferenceError: name is not defined", s')
             /\ uploads s' = uploads s.
Proof.
  intros Hname Hget Hall Hskip.
  rewrite (syncWithDepot_baseline fullResync baseline d' s Hget).
  rewrite (syncWithBaseline_stop baseline l rest (Spec.after_download d' s) Hname Hall Hskip).
  by eexists.
Qed.

End Sync.

Section SyncWitnesses.
#[local] Existing Instance Demo.platform.

Lemma registered_a_b_fulfilled :
  Promise_all (Object_values (listings (Demo.registered_a_b Demo.localDepot)))
  = Fulfilled [Demo.listing_a; Demo.listing_b].
Proof. vm_compute. reflexivity. Qed.

Lemma empty_depot_has_no_index :
  download DEPOT_INDEX_PATH (depot (Demo.registered_a_b Demo.localDepot))
  = (Normal None, Demo.localDepot).
Proof. vm_compute. reflexivity. Qed.

Lemma missing_index_guard_witness :
  (exists s', syncWithDepot Demo.builder false (Demo.registered_a_b Demo.localDepot)
              = (ProcessExit 1, s')
              /\ uploads s' = uploads (Demo.registered_a_b Demo.localDepot)
              /\ depot s' = Demo.localDepot
              /\ console s'
                 = (console (Demo.registered_a_b Demo.localDepot)
                    ++ [Spec.resync_instruction])%list)
  /\ exists artifacts rest,
       uploads (syncWithDepot Demo.builder true (Demo.registered_a_b Demo.localDepot)).2
       = (uploads (Demo.registered_a_b Demo.localDepot) ++ artifacts ++ rest)%list
       /\ depot (syncWithDepot Demo.builder true (Demo.registered_a_b Demo.localDepot)).2
          = Spec.after_uploads (artifacts ++ rest) Demo.localDepot
       /\ (exists done later,
             flat_map Spec.artifactNames [Demo.listing_a; Demo.listing_b]
             = (done ++ later)%list
             /\ Forall2 (Spec.read_back Demo.builder
                           (fs (Demo.registered_a_b Demo.localDepot))) artifacts done)
       /\ (rest = []
           \/ (rest = [(DEPOT_INDEX_PATH,
                        Spec.indexDocument [Demo.listing_a; Demo.listing_b])]
               /\ Forall2 (Spec.read_back Demo.builder
                             (fs (Demo.registered_a_b Demo.localDepot))) artifacts
                    (flat_map Spec.artifactNames [Demo.listing_a; Demo.listing_b])))
       /\ ((syncWithDepot Demo.builder true (Demo.registered_a_b Demo.localDepot)).1
           = Normal tt ->
           rest = [(DEPOT_INDEX_PATH, Spec.indexDocument [Demo.listing_a; Demo.listing_b])]
           /\ Forall2 (Spec.read_back Demo.builder
                         (fs (Demo.registered_a_b Demo.localDepot))) artifacts
                (flat_map Spec.artifactNames [Demo.listing_a; Demo.listing_b])
           /\ Spec.deliver (artifacts ++ rest) Demo.localDepot
              = (Normal tt,
                 depot (syncWithDepot Demo.builder true
                          (Demo.registered_a_b Demo.localDepot)).2))
       /\ (Spec.accepts_uploads LocalDepotManager ->
           Spec.artifacts_present Demo.builder
             (fs (Demo.registered_a_b Demo.localDepot)) [Demo.listing_a; Demo.listing_b] ->
           (syncWithDepot Demo.builder true (Demo.registered_a_b Demo.localDepot)).1
           = Normal tt).
Proof.
  destruct (missing_index_guard Demo.builder Demo.localDepot
              (Demo.registered_a_b Demo.localDepot) empty_depot_has_no_index)
    as [Hexit Hresync].
  split; [exact Hexit |].
  exact (Hresync _ registered_a_b_fulfilled).
Defined.

(** The sync of the listings [a] and [b] with the empty local depot and
    the full resync flag returns; the depot then holds its directory, the
    artifacts and the index. *)
Example full_resync_of_a_and_b :
  (syncWithDepot Demo.builder true (Demo.registered_a_b Demo.localDepot)).1 = Normal tt
  /\ disk (depot (syncWithDepot Demo.builder true (Demo.registered_a_b Demo.localDepot)).2)
     !! "depot" = Some Directory
  /\ files (depot (syncWithDepot Demo.builder true (Demo.registered_a_b Demo.localDepot)).2)
     !! "depot/a.json" = Some "null"
  /\ files (depot (syncWithDepot Demo.builder true (Demo.registered_a_b Demo.localDepot)).2)
     !! "depot/b.json.gz" = Some "gz:true"
  /\ files (depot (syncWithDepot Demo.builder true (Demo.registered_a_b Demo.localDepot)).2)
     !! "depot/.depot-index.json"
     = Some (Spec.indexDocument [Demo.listing_a; Demo.listing_b]).
Proof. vm_compute. by repeat split. Qed.

Lemma unchanged_listing_stops_the_uploads_witness :
  global_name = None
  /\ Spec.skips (Spec.indexed [Demo.listing_a]) Demo.listing_a = true
  /\ Spec.skips (Spec.indexed [Demo.listing_a]) Demo.listing_b = false
  /\ exists s',
       for_of [Demo.listing_a; Demo.listing_b]
         (syncListing Demo.builder (Spec.indexed [Demo.listing_a]))
         (Demo.registered_a_b Demo.depot_with_a)
       = (Throw "ReferenceError: name is not defined", s')
       /\ uploads s' = uploads (Demo.registered_a_b Demo.depot_with_a).
Proof.
  do 3 (split; [reflexivity |]).
  exact (unchanged_listing_stops_the_uploads Demo.builder
           (Spec.indexed [Demo.listing_a]) Demo.listing_a [Demo.listing_b]
           (Demo.registered_a_b Demo.depot_with_a) eq_refl eq_refl).
Defined.

Lemma unchanged_listing_stops_the_index_witness :
  exists s',
    syncWithDepot Demo.builder false (Demo.registered_a Demo.depot_with_a)
    = (Throw "ReferenceError: name is not defined", s')
    /\ uploads s' = uploads (Demo.registered_a Demo.depot_with_a).
Proof.
  apply (unchanged_listing_stops_the_index Demo.builder false [Demo.listing_a]
           Demo.listing_a [] Demo.depot_with_a (Demo.registered_a Demo.depot_with_a)).
  - reflexivity.
  - vm_compute. reflexivity.
  - vm_compute. reflexivity.
  - reflexivity.
Defined.

End SyncWitnesses.

(** ** The index ([finish] and the last upload of the sync) *)

Section Index.
Context {rt : Platform} {D : Type} {dm : DepotManager D}.
Variable self : ListingsBuilder.

(** [finish] writes the listing [index] into the destination folder and
    touches nothing else: the registry is as it was. *)
Lemma finish_fulfilled (files : list ListingDescriptor) (s : State D) :
  Promise_all (Object_values (listings s)) = Fulfilled files ->
  finish self s
  = (Normal tt,
     (writeListingAsync self "index"
        (Fulfilled (JArray (map ListingDescriptor_toJS files))) s).2).
Proof.
  intros Hall. unfold finish. unfold_M. rewrite Hall.
  rewrite writeListingAsync_fulfilled. reflexivity.
Qed.

End Index.

Section IndexWitnesses.
#[local] Existing Instance Demo.platform.

Lemma registered_a_fulfilled :
  Promise_all (Object_values (listings (Demo.registered_a Demo.localDepot)))
  = Fulfilled [Demo.listing_a].
Proof. vm_compute. reflexivity. Qed.


End IndexWitnesses.

(** ** Paths and their segments *)

Section Paths.

Lemma append_cons (a : ascii) (s t : string) : String a s +:+ t = String a (s +:+ t).
Proof. reflexivity. Qed.

Lemma append_nil_l (t : string) : "" +:+ t = t.
Proof. reflexivity. Qed.

Lemma length_append (s t : string) :
  String.length (s +:+ t) = (String.length s + String.length t)%nat.
Proof.
  induction s as [|a s IH]; [done |]. rewrite append_cons. simpl. by rewrite IH.
Qed.

Lemma split_nonempty (c : ascii) (s : string) : split c s <> [].
Proof.
  destruct s as [|a s]; simpl; [done |].
  destruct (Ascii.eqb a c); [done |]. by destruct (split c s).
Qed.

Lemma split_cons_other (c a : ascii) (s : string) :
  a <> c ->
  exists p ps, split c s = p :: ps /\ split c (String a s) = String a p :: ps.
Proof.
  intros Hne. simpl. apply Ascii.eqb_neq in Hne. rewrite Hne.
  destruct (split c s) as [|p ps] eqn:E; [by apply split_nonempty in E |].
  by exists p, ps.
Qed.

(** A part without the separator, followed by the separator, is the first
    element of the split. *)
Lemma split_app_sep (c : ascii) (part rest : string) :
  ~ In c (list_ascii_of_string part) ->
  split c (part +:+ String c rest) = part :: split c rest.
Proof.
  induction part as [|a part IH]; intros Hfree.
  - rewrite append_nil_l. simpl. by rewrite Ascii.eqb_refl.
  - rewrite append_cons. simpl in Hfree.
    assert (a <> c) as Hne by (intros ->; apply Hfree; by left).
    assert (~ In c (list_ascii_of_string part)) as Hfree' by (intros ?; apply Hfree; by right).
    simpl. apply Ascii.eqb_neq in Hne. rewrite Hne. by rewrite (IH Hfree').
Qed.

Lemma split_no_sep (c : ascii) (s : string) :
  ~ In c (list_ascii_of_string s) -> split c s = [s].
Proof.
  induction s as [|a s IH]; intros Hfree; [done |]. simpl in Hfree.
  assert (a <> c) as Hne by (intros ->; apply Hfree; by left).
  simpl. apply Ascii.eqb_neq in Hne. rewrite Hne. rewrite IH; [done |].
  intros ?. apply Hfree. by right.
Qed.

(** No element of a split holds the separator. *)
Lemma split_free (c : ascii) (s : string) :
  Forall (fun p => ~ In c (list_ascii_of_string p)) (split c s).
Proof.
  induction s as [|a s IH]; simpl.
  - constructor; [by intros [] | constructor].
  - destruct (Ascii.eqb a c) eqn:E.
    + constructor; [by intros [] | done].
    + destruct (split c s) as [|p ps]; [constructor; [| constructor] |].
      * simpl. intros [->|[]]. by rewrite Ascii.eqb_refl in E.
      * inversion IH as [|? ? Hp Hps]; subst. constructor; [| done].
        simpl. intros [->|Hin]; [by rewrite Ascii.eqb_refl in E | done].
Qed.

Lemma joinSlash_app (l1 l2 : list string) :
  Spec.joinSlash (l1 ++ l2) = Spec.joinSlash l1 +:+ Spec.joinSlash l2.
Proof.
  induction l1 as [|x l1 IH]; [done |].
  simpl. unfold Spec.joinSlash in *. simpl. rewrite IH.
  by rewrite !append_assoc.
Qed.

Lemma joinSlash_snoc (l : list string) (part : string) :
  Spec.joinSlash (l ++ [part]) = Spec.joinSlash l +:+ part +:+ "/".
Proof. rewrite joinSlash_app. unfold Spec.joinSlash at 2. simpl. by rewrite append_nil_r. Qed.

Lemma split_joinSlash (parts : list string) :
  Forall Spec.segment parts ->
  split "/" (Spec.joinSlash parts) = (parts ++ [""])%list.
Proof.
  induction 1 as [|part parts [Hne Hfree] _ IH]; [done |].
  unfold Spec.joinSlash in *. simpl.
  change (part +:+ "/" +:+ foldr (fun part rest => part +:+ "/" +:+ rest) "" parts)
    with (part +:+ String "/" (foldr (fun part rest => part +:+ "/" +:+ rest) "" parts)).
  rewrite (split_app_sep _ _ _ Hfree). by rewrite IH.
Qed.

Lemma nonempty_length (p : string) : (0 <? length p) = negb (String.eqb p "").
Proof. by destruct p. Qed.

Lemma filter_segments (parts : list string) :
  Forall Spec.segment parts ->
  List.filter (fun p => 0 <? length p) (parts ++ [""]) = parts.
Proof.
  induction 1 as [|part parts [Hne Hfree] _ IH]; [done |].
  simpl. destruct part; [done |]. simpl. by rewrite IH.
Qed.

(** The parts that [ensureDirectoryExists] walks are segments. *)
Lemma filter_split_segments (s : string) :
  Forall Spec.segment (List.filter (fun p => 0 <? length p) (split "/" s)).
Proof.
  pose proof (split_free "/" s) as Hfree.
  induction Hfree as [|p ps Hp _ IH]; simpl; [constructor |].
  destruct p as [|a p]; simpl; [done |]. constructor; [| done]. by split.
Qed.

Lemma prefixesFrom_app (cur : string) (l1 l2 : list string) :
  Spec.prefixesFrom cur (l1 ++ l2)
  = (Spec.prefixesFrom cur l1 ++ Spec.prefixesFrom (cur +:+ Spec.joinSlash l1) l2)%list.
Proof.
  revert cur. induction l1 as [|x l1 IH]; intros cur; simpl.
  - unfold Spec.joinSlash. simpl. by rewrite append_nil_r.
  - rewrite IH. do 3 f_equal. unfold Spec.joinSlash. simpl.
    by rewrite !append_assoc.
Qed.

(** *** The directory part of a relative path *)

Lemma lastIndexOf_range (c : ascii) (s : string) :
  -1 <= lastIndexOf c s < length s.
Proof.
  unfold length. induction s as [|a s IH]; simpl lastIndexOf; cbn [String.length]; [lia |].
  destruct (0 <=? lastIndexOf c s) eqn:E; [lia |].
  destruct (Ascii.eqb a c); lia.
Qed.

Lemma lastIndexOf_absent (c : ascii) (s : string) :
  lastIndexOf c s < 0 -> ~ In c (list_ascii_of_string s).
Proof.
  induction s as [|a s IH]; simpl; [by intros _ [] |].
  destruct (0 <=? lastIndexOf c s) eqn:E.
  - apply Z.leb_le in E. lia.
  - apply Z.leb_gt in E. destruct (Ascii.eqb a c) eqn:Ea; [lia |].
    intros _ [->|Hin]; [by rewrite Ascii.eqb_refl in Ea | by apply IH].
Qed.

(** A string that holds the separator splits in two parts at least. *)
Lemma split_two (c : ascii) (s : string) :
  0 <= lastIndexOf c s -> exists p q qs, split c s = p :: q :: qs.
Proof.
  induction s as [|a s IH]; simpl; [lia |].
  destruct (0 <=? lastIndexOf c s) eqn:E.
  - apply Z.leb_le in E. destruct (IH E) as (p & q & qs & Es). intros _.
    rewrite Es. destruct (Ascii.eqb a c); by eexists _, _, _.
  - apply Z.leb_gt in E. destruct (Ascii.eqb a c) eqn:Ea; [| lia]. intros _.
    rewrite (split_no_sep c s (lastIndexOf_absent c s E)). by eexists _, _, _.
Qed.

Lemma substring_empty (s : string) (k : Z) : k <= 0 -> substring s 0 k = "".
Proof.
  intros Hk. unfold substring.
  replace (Z.to_nat (Z.max 0 (Z.min k (length s)))) with 0%nat by (unfold length; lia).
  replace (Z.to_nat (Z.max 0 (Z.min 0 (length s)))) with 0%nat by (unfold length; lia).
  by destruct s.
Qed.

Lemma substring_cons (a : ascii) (s : string) (r : Z) :
  0 <= r <= length s ->
  substring (String a s) 0 (r + 1) = String a (substring s 0 r).
Proof.
  unfold substring, length. cbn [String.length]. intros Hr.
  replace (Z.to_nat (Z.max 0 (Z.min 0 (Z.of_nat (S (String.length s)))))) with 0%nat by lia.
  replace (Z.to_nat (Z.max 0 (Z.min (r + 1) (Z.of_nat (S (String.length s))))))
    with (S (Z.to_nat r)) by lia.
  replace (Z.to_nat (Z.max 0 (Z.min 0 (Z.of_nat (String.length s))))) with 0%nat by lia.
  replace (Z.to_nat (Z.max 0 (Z.min r (Z.of_nat (String.length s))))) with (Z.to_nat r) by lia.
  simpl. by rewrite !Nat.sub_0_r.
Qed.

(** The directory part that [upload] computes splits into the elements
    of the path but the last. *)
Lemma split_dirname (c : ascii) (s : string) :
  0 <= lastIndexOf c s ->
  split c (substring s 0 (lastIndexOf c s)) = removelast (split c s).
Proof.
  induction s as [|a s IH]; [simpl; lia |].
  pose proof (lastIndexOf_range c s) as Hrange.
  simpl lastIndexOf. destruct (0 <=? lastIndexOf c s) eqn:E.
  - apply Z.leb_le in E. intros _. rewrite substring_cons by lia.
    destruct (split_two c s E) as (p & q & qs & Es).
    simpl split. rewrite (IH E), Es. destruct (Ascii.eqb a c); reflexivity.
  - apply Z.leb_gt in E. destruct (Ascii.eqb a c) eqn:Ea; [| lia]. intros _.
    rewrite substring_empty by lia. simpl split. rewrite Ea.
    by rewrite (split_no_sep c s (lastIndexOf_absent c s E)).
Qed.

(** The parts that [upload] hands to the loop of [ensureDirectoryExists]
    are the directory segments of the path. *)
Lemma upload_parts (relativePath : string) :
  List.filter (fun p => 0 <? length p)
    (split "/" (substring relativePath 0 (lastIndexOf "/" relativePath)))
  = Spec.directorySegments relativePath.
Proof.
  unfold Spec.directorySegments.
  rewrite (List.filter_ext _ _ nonempty_length).
  destruct (Z.le_gt_cases 0 (lastIndexOf "/" relativePath)) as [Hpos|Hneg].
  - by rewrite split_dirname.
  - rewrite substring_empty by lia.
    by rewrite (split_no_sep "/" relativePath (lastIndexOf_absent _ _ Hneg)).
Qed.

End Paths.

(** ** The remote depot ([WebDAVDepotManager]) *)

Section WebDAVProofs.
Context {net : Network}.
Implicit Types d : WebDAVDepotManager.
#[local] Set Warnings "-clear-no-such-hyp".

Lemma fetch_spec (tgt : string) (req : Request) d :
  exists d',
    fetch tgt req d = (Normal (serve req (server d)).1, d')
    /\ webdavUrl d' = webdavUrl d /\ authHeader d' = authHeader d
    /\ createdDirectories d' = createdDirectories d
    /\ exchanges d'
       = (exchanges d
          ++ [{| target := tgt; request := req; result := (serve req (server d)).1 |}])%list.
Proof.
  unfold fetch. destruct (serve req (server d)) as [r srv].
  eexists. split; [reflexivity |]. by repeat split.
Qed.

(** *** One prefix *)

Lemma ensurePrefix_memo (p : string) d :
  p ∈ createdDirectories d -> ensurePrefix p d = (Normal tt, d).
Proof.
  intros Hin. unfold ensurePrefix. unfold_M. by rewrite bool_decide_eq_true_2.
Qed.

(** For a prefix that is not in the set, one create-collection request is
    made; 201 and 405 put the prefix in the set, anything else throws. *)
Lemma ensurePrefix_request (p : string) d :
  p ∉ createdDirectories d ->
  exists e r d',
    ensurePrefix p d = (r, d')
    /\ Spec.mkcol_for p e
    /\ exchanges d' = (exchanges d ++ [e])%list
    /\ ((Spec.created_or_exists (result e) /\ r = Normal tt
         /\ createdDirectories d' = {[p]} ∪ createdDirectories d)
        \/ (~ Spec.created_or_exists (result e) /\ (exists msg, r = Throw msg)
            /\ createdDirectories d' = createdDirectories d)).
Proof.
  intros Hnin. unfold ensurePrefix, createdDirectories_add, fetch. unfold_M.
  rewrite bool_decide_eq_false_2 by done.
  set (req := {| method := MKCOL; requestUrl := URL_resolve p (webdavUrl d);
                 authorization := authHeader d; contentType := None; body := None |}).
  destruct (serve req (server d)) as [res srv] eqn:Es.
  exists {| target := p; request := req; result := res |}.
  destruct res as [response|code msg].
  - destruct ((status response =? 201) || (status response =? 405)) eqn:Est.
    + eexists _, _. split; [reflexivity |]. simpl.
      split; [by split |]. split; [done |]. left. split; [| by split].
      exists response. split; [done |].
      apply orb_true_iff in Est. destruct Est as [E|E]; apply Z.eqb_eq in E; auto.
    + eexists _, _. split; [reflexivity |]. simpl.
      split; [by split |]. split; [done |]. right. split; [| split; [by eexists | done]].
      intros (resp & Heq & Hs). injection Heq as <-.
      apply orb_false_iff in Est. destruct Est as [E1 E2].
      apply Z.eqb_neq in E1, E2. by destruct Hs.
  - eexists _, _. split; [reflexivity |]. simpl.
    split; [by split |]. split; [done |]. right. split; [| split; [by eexists | done]].
    by intros (resp & Heq & _).
Qed.

(** *** The exchanges of an instance *)

(** One more exchange keeps [created_once] when, if it is a
    create-collection request, its prefix was not in the set before and is
    in it afterwards if the request succeeded. *)
Lemma created_once_snoc d d' (e : Exchange) :
  Spec.created_once d ->
  exchanges d' = (exchanges d ++ [e])%list ->
  createdDirectories d ⊆ createdDirectories d' ->
  (forall p, Spec.mkcol_for p e -> p ∉ createdDirectories d) ->
  (forall p, Spec.mkcol_for p e -> Spec.created_or_exists (result e) ->
     p ∈ createdDirectories d') ->
  Spec.created_once d'.
Proof.
  intros Hd He Hsub Hfresh Hmemo l1 e0 l2 p Hdec Hm Hs.
  rewrite He in Hdec.
  destruct l2 as [|x l2 _] using rev_ind.
  - apply app_inj_tail in Hdec as [_ <-]. split; [by apply Hmemo | constructor].
  - rewrite app_comm_cons, app_assoc in Hdec.
    apply app_inj_tail in Hdec as [Hdec <-].
    destruct (Hd l1 e0 l2 p Hdec Hm Hs) as [Hin Hafter].
    split; [by apply Hsub |]. apply Forall_app. split; [done |].
    constructor; [| constructor]. intros Hme. by apply (Hfresh p Hme).
Qed.

Lemma created_once_other d d' (e : Exchange) :
  Spec.created_once d ->
  exchanges d' = (exchanges d ++ [e])%list ->
  createdDirectories d' = createdDirectories d ->
  method (request e) <> MKCOL ->
  Spec.created_once d'.
Proof.
  intros Hd He Hc Hm. apply (created_once_snoc d d' e Hd He).
  - by rewrite Hc.
  - intros p [Hm' _]. done.
  - intros p [Hm' _]. done.
Qed.

(** *** The loop of [ensureDirectoryExists] *)

Lemma ensured_nil d : Spec.ensured [] d (Normal tt) d [].
Proof.
  unfold Spec.ensured. rewrite app_nil_r. split; [done |]. split; [constructor |].
  split; [| split; [| by left]].
  - intros p. split; [by left |]. by intros [Hin|(e & [] & _)].
  - intros _. split; [constructor | by intros p []].
Qed.

(** A prefix already in the set costs nothing. *)
Lemma ensured_memo (p : string) (prefixes : list string) d (r : Completion unit) d'
  (new : list Exchange) :
  p ∈ createdDirectories d ->
  Spec.ensured prefixes d r d' new ->
  Spec.ensured (p :: prefixes) d r d' new.
Proof.
  intros Hin (He & Hf & Hc & Hn & Hr). split; [done |]. split; [| split; [done |]].
  - eapply Forall_impl; [exact Hf |]. intros e (Hm & Ht & Hnin).
    split; [done |]. split; [by right | done].
  - split; [| done]. intros Hnormal. destruct (Hn Hnormal) as [Hok Hall].
    split; [done |]. intros q [<-|Hq]; [| by apply Hall]. apply Hc. by left.
Qed.

(** A prefix whose request succeeded, then the others. *)
Lemma ensured_created (p : string) (prefixes : list string) d d1 (e : Exchange)
  (r : Completion unit) d' (new : list Exchange) :
  p ∉ createdDirectories d ->
  Spec.mkcol_for p e ->
  Spec.created_or_exists (result e) ->
  exchanges d1 = (exchanges d ++ [e])%list ->
  createdDirectories d1 = {[p]} ∪ createdDirectories d ->
  Spec.ensured prefixes d1 r d' new ->
  Spec.ensured (p :: prefixes) d r d' (e :: new).
Proof.
  intros Hnin [Hm Ht] Hok He1 Hc1 (He & Hf & Hc & Hn & Hr).
  split; [by rewrite He, He1, <- app_assoc |]. split; [| split; [| split; [| done]]].
  - constructor; [split; [done |]; split; [by left | by rewrite Ht] |].
    eapply Forall_impl; [exact Hf |]. intros e' (Hm' & Ht' & Hnin').
    split; [done |]. split; [by right |]. rewrite Hc1 in Hnin'. set_solver.
  - intros q. rewrite Hc, Hc1. split.
    + intros [Hq|(e' & Hin & Hte & Hoke)].
      * apply elem_of_union in Hq as [Hq|Hq]; [| by left].
        apply elem_of_singleton in Hq as ->. right. exists e. split; [by left | done].
      * right. exists e'. split; [by right | done].
    + intros [Hq|(e' & [<-|Hin] & Hte & Hoke)].
      * left. set_solver.
      * left. rewrite <- Hte, Ht. set_solver.
      * right. by exists e'.
  - intros Hnormal. destruct (Hn Hnormal) as [Hoks Hall]. split; [by constructor |].
    intros q [<-|Hq]; [| by apply Hall]. apply Hc. left. rewrite Hc1. set_solver.
Qed.

(** A prefix whose request failed: the loop throws there. *)
Lemma ensured_failed (p : string) (prefixes : list string) d d1 (e : Exchange) (msg : string) :
  p ∉ createdDirectories d ->
  Spec.mkcol_for p e ->
  ~ Spec.created_or_exists (result e) ->
  exchanges d1 = (exchanges d ++ [e])%list ->
  createdDirectories d1 = createdDirectories d ->
  Spec.ensured (p :: prefixes) d (Throw msg) d1 [e].
Proof.
  intros Hnin [Hm Ht] Hbad He1 Hc1.
  split; [done |]. split; [| split; [| split; [done | right; by eexists]]].
  - constructor; [| constructor]. split; [done |]. split; [by left | by rewrite Ht].
  - intros q. rewrite Hc1. split; [by left |].
    intros [Hq|(e' & [<-|[]] & _ & Hoke)]; done.
Qed.

Lemma prefix_closed_add (p : string) (done : list string) (part : string)
  (created : gset string) :
  Spec.prefix_closed created ->
  Forall Spec.segment (done ++ [part]) ->
  p = Spec.joinSlash (done ++ [part]) ->
  (forall q, In q (Spec.prefixesFrom "" done) -> q ∈ created) ->
  Spec.prefix_closed ({[p]} ∪ created).
Proof.
  intros Hclosed Hseg Hp Hdone q Hq. apply elem_of_union in Hq as [Hq|Hq].
  - apply elem_of_singleton in Hq as ->. exists (done ++ [part])%list.
    split; [done |]. split; [done |]. intros q Hq.
    rewrite prefixesFrom_app in Hq. apply in_app_or in Hq as [Hq|Hq].
    + apply elem_of_union. right. by apply Hdone.
    + simpl in Hq. destruct Hq as [<-|[]]. apply elem_of_union. left.
      apply elem_of_singleton. by rewrite Hp, joinSlash_snoc.
  - destruct (Hclosed q Hq) as (parts & Hsegs & Hj & Hall). exists parts.
    split; [done |]. split; [done |]. intros q' Hq'. apply elem_of_union. right. by apply Hall.
Qed.

(** The loop from the segments [done], already walked, over [parts]. *)
Lemma ensureParts_spec (parts done : list string) d :
  Spec.created_once d ->
  Spec.prefix_closed (createdDirectories d) ->
  Forall Spec.segment (done ++ parts) ->
  (forall q, In q (Spec.prefixesFrom "" done) -> q ∈ createdDirectories d) ->
  exists r d' new,
    ensureParts parts (Spec.joinSlash done) d = (r, d')
    /\ Spec.ensured (Spec.prefixesFrom (Spec.joinSlash done) parts) d r d' new
    /\ Spec.created_once d'
    /\ Spec.prefix_closed (createdDirectories d').
Proof.
  revert done d. induction parts as [|part parts IH]; intros done d Honce Hclosed Hseg Hdone.
  - exists (Normal tt), d, []. split; [done |]. split; [apply ensured_nil | done].
  - assert (Forall Spec.segment ((done ++ [part]) ++ parts)) as Hseg'
      by (by rewrite <- app_assoc).
    assert (Forall Spec.segment (done ++ [part])) as Hseg1
      by (apply Forall_app in Hseg' as [? _]; done).
    simpl ensureParts. simpl Spec.prefixesFrom.
    rewrite <- (joinSlash_snoc done part).
    set (cur := Spec.joinSlash (done ++ [part])).
    assert (forall created : gset string,
              cur ∈ created ->
              (forall q, In q (Spec.prefixesFrom "" done) -> q ∈ created) ->
              forall q, In q (Spec.prefixesFrom "" (done ++ [part])) -> q ∈ created)
      as Hdone'.
    { intros created Hcur Hd q Hq. rewrite prefixesFrom_app in Hq.
      apply in_app_or in Hq as [Hq|Hq]; [by apply Hd |].
      simpl in Hq. destruct Hq as [<-|[]]. unfold cur in Hcur.
      by rewrite joinSlash_snoc in Hcur. }
    destruct (decide (cur ∈ createdDirectories d)) as [Hin|Hnin].
    + rewrite (bind_normal _ _ _ _ _ (ensurePrefix_memo cur d Hin)).
      destruct (IH (done ++ [part])%list d Honce Hclosed Hseg' (Hdone' _ Hin Hdone))
        as (r & d' & new & E & Hens & Honce' & Hclosed').
      exists r, d', new. split; [done |]. split; [by apply ensured_memo | done].
    + destruct (ensurePrefix_request cur d Hnin) as (e & r1 & d1 & E1 & Hm & He1 & Hcase).
      destruct Hcase as [(Hok & -> & Hc1)|(Hbad & (msg & ->) & Hc1)].
      * rewrite (bind_normal _ _ _ _ _ E1).
        assert (Spec.created_once d1) as Honce1.
        { apply (created_once_snoc d d1 e Honce He1).
          - rewrite Hc1. set_solver.
          - intros p [_ Hp]. destruct Hm as [_ Ht]. by rewrite <- Hp, Ht.
          - intros p [_ Hp] _. destruct Hm as [_ Ht]. rewrite <- Hp, Ht, Hc1. set_solver. }
        assert (Spec.prefix_closed (createdDirectories d1)) as Hclosed1.
        { rewrite Hc1. by apply (prefix_closed_add cur done part). }
        destruct (IH (done ++ [part])%list d1 Honce1 Hclosed1 Hseg') as
          (r & d' & new & E & Hens & Honce' & Hclosed').
        { apply Hdone'; rewrite Hc1; [set_solver |]. intros q Hq.
          apply elem_of_union. right. by apply Hdone. }
        exists r, d', (e :: new). split; [done |].
        split; [by apply (ensured_created cur _ d d1) | done].
      * rewrite (bind_throw _ _ _ _ _ E1).
        exists (Throw msg), d1, [e]. split; [done |].
        split; [by apply ensured_failed |]. split.
        -- apply (created_once_snoc d d1 e Honce He1).
           ++ by rewrite Hc1.
           ++ intros p [_ Hp]. destruct Hm as [_ Ht]. by rewrite <- Hp, Ht.
           ++ intros p _ Hok. done.
        -- by rewrite Hc1.
Qed.

(** *** [ensureDirectoryExists] as [upload] calls it *)

Lemma ensured_all_memo (prefixes : list string) d :
  (forall p, In p prefixes -> p ∈ createdDirectories d) ->
  Spec.ensured prefixes d (Normal tt) d [].
Proof.
  induction prefixes as [|p prefixes IH]; intros Hall; [apply ensured_nil |].
  apply ensured_memo; [apply Hall; by left |]. apply IH. intros q Hq. apply Hall. by right.
Qed.

Lemma truthy_false (s : string) : truthy s = false -> s = "".
Proof. unfold truthy. intros E. apply negb_false_iff in E. by apply String.eqb_eq. Qed.

Lemma ensureDirectory_spec (relativePath : string) d :
  Spec.created_once d ->
  Spec.prefix_closed (createdDirectories d) ->
  exists r d' new,
    (if truthy (substring relativePath 0 (lastIndexOf "/" relativePath))
     then ensureDirectoryExists (substring relativePath 0 (lastIndexOf "/" relativePath))
     else mret tt) d = (r, d')
    /\ Spec.ensured (Spec.ancestorPrefixes relativePath) d r d' new
    /\ Spec.created_once d'
    /\ Spec.prefix_closed (createdDirectories d').
Proof.
  intros Honce Hclosed. unfold Spec.ancestorPrefixes.
  rewrite <- (upload_parts relativePath).
  set (dirname := substring relativePath 0 (lastIndexOf "/" relativePath)).
  destruct (truthy dirname) eqn:Htruthy.
  - unfold ensureDirectoryExists. unfold mbind at 1. unfold M_bind, gets.
    case_bool_decide as Hin.
    + exists (Normal tt), d, []. split; [done |]. split; [| done].
      apply ensured_all_memo. intros p Hp.
      destruct (Hclosed dirname Hin) as (parts & Hsegs & Hj & Hall).
      rewrite Hj, (split_joinSlash parts Hsegs), (filter_segments parts Hsegs) in Hp.
      by apply Hall.
    + apply (ensureParts_spec _ [] d Honce Hclosed).
      * apply filter_split_segments.
      * by intros q [].
  - apply truthy_false in Htruthy. rewrite Htruthy. simpl.
    exists (Normal tt), d, []. split; [done |]. split; [apply ensured_nil | done].
Qed.

(** *** The requests of [ensureDirectoryExists], in their order *)

Lemma prefixesFrom_longer (cur : string) (parts : list string) (q : string) :
  In q (Spec.prefixesFrom cur parts) -> (String.length cur < String.length q)%nat.
Proof.
  revert cur. induction parts as [|part parts IH]; intros cur; simpl; [done |].
  intros [<-|Hin].
  - rewrite !length_append. simpl. lia.
  - apply IH in Hin. rewrite !length_append in Hin. simpl in Hin. lia.
Qed.

Lemma missing_known (p : string) (prefixes : list string) (created : gset string) :
  p ∈ created -> Spec.missing created (p :: prefixes) = Spec.missing created prefixes.
Proof. intros Hin. unfold Spec.missing. simpl. by rewrite bool_decide_eq_false_2 by auto. Qed.

Lemma missing_due (p : string) (prefixes : list string) (created : gset string) :
  p ∉ created ->
  Spec.missing created (p :: prefixes) = p :: Spec.missing created prefixes.
Proof. intros Hnin. unfold Spec.missing. simpl. by rewrite bool_decide_eq_true_2. Qed.

Lemma missing_add (p : string) (prefixes : list string) (created : gset string) :
  ~ In p prefixes ->
  Spec.missing ({[p]} ∪ created) prefixes = Spec.missing created prefixes.
Proof.
  intros Hp. unfold Spec.missing. apply List.filter_ext_in. intros q Hq.
  apply bool_decide_ext. split; [set_solver |]. intros Hnin Hin.
  apply elem_of_union in Hin as [->%elem_of_singleton|Hin]; done.
Qed.

Lemma missing_none (prefixes : list string) (created : gset string) :
  (forall p, In p prefixes -> p ∈ created) -> Spec.missing created prefixes = [].
Proof.
  induction prefixes as [|p prefixes IH]; intros Hall; [done |].
  rewrite missing_known by (apply Hall; by left). apply IH. intros q Hq. apply Hall. by right.
Qed.

Lemma requested_nil d : Spec.requested [] d (Normal tt) [].
Proof. split; [constructor |]. left. by repeat split. Qed.

(** The loop asks for the prefixes that are not in the set, one after
    the other, and stops at the first request that does not succeed. *)
Lemma ensureParts_requested (parts : list string) (cur : string) d :
  exists new,
    exchanges (ensureParts parts cur d).2 = (exchanges d ++ new)%list
    /\ Spec.requested (Spec.prefixesFrom cur parts) d (ensureParts parts cur d).1 new.
Proof.
  revert cur d. induction parts as [|part parts IH]; intros cur d.
  - exists []. simpl. rewrite app_nil_r. split; [done | apply requested_nil].
  - simpl ensureParts. simpl Spec.prefixesFrom.
    set (p := cur +:+ part +:+ "/").
    assert (~ In p (Spec.prefixesFrom p parts)) as Hfresh.
    { intros Hin%prefixesFrom_longer. lia. }
    destruct (decide (p ∈ createdDirectories d)) as [Hin|Hnin].
    + rewrite (bind_normal _ _ _ _ _ (ensurePrefix_memo p d Hin)).
      destruct (IH p d) as (new & He & Hreq). exists new. split; [done |].
      unfold Spec.requested in *. by rewrite missing_known.
    + destruct (ensurePrefix_request p d Hnin) as (e & r1 & d1 & E1 & [Hm Ht] & He1 & Hcase).
      destruct Hcase as [(Hok & -> & Hc1)|(Hbad & (msg & ->) & Hc1)].
      * rewrite (bind_normal _ _ _ _ _ E1).
        destruct (IH p d1) as (new & He & Hmk & Hreq). exists (e :: new).
        split; [by rewrite He, He1, <- app_assoc |]. split; [by constructor |].
        rewrite Hc1, (missing_add p _ _ Hfresh) in Hreq. rewrite (missing_due p _ _ Hnin).
        destruct Hreq as [(Hr & Htargets & Hoks)|(succeeded & e' & later & msg & Hr & Hnew
                                                  & Hmissing & Hoks & Hbad)].
        -- left. split; [done |]. split; [simpl; by rewrite Ht, Htargets | by constructor].
        -- right. exists (e :: succeeded), e', later, msg. split; [done |].
           split; [by rewrite Hnew |]. split; [simpl; by rewrite Ht, Hmissing |].
           split; [by constructor | done].
      * rewrite (bind_throw _ _ _ _ _ E1). exists [e]. split; [done |].
        split; [by repeat constructor |]. right.
        exists [], e, (Spec.missing (createdDirectories d) (Spec.prefixesFrom p parts)), msg.
        split; [done |]. split; [done |]. rewrite (missing_due p _ _ Hnin). simpl.
        rewrite Ht. by repeat split.
Qed.

Lemma ensureDirectory_requested (relativePath : string) d :
  Spec.prefix_closed (createdDirectories d) ->
  exists new,
    exchanges
      ((if truthy (substring relativePath 0 (lastIndexOf "/" relativePath))
        then ensureDirectoryExists (substring relativePath 0 (lastIndexOf "/" relativePath))
        else mret tt) d).2 = (exchanges d ++ new)%list
    /\ Spec.requested (Spec.ancestorPrefixes relativePath) d
         ((if truthy (substring relativePath 0 (lastIndexOf "/" relativePath))
           then ensureDirectoryExists
                  (substring relativePath 0 (lastIndexOf "/" relativePath))
           else mret tt) d).1 new.
Proof.
  intros Hclosed. unfold Spec.ancestorPrefixes.
  rewrite <- (upload_parts relativePath).
  set (dirname := substring relativePath 0 (lastIndexOf "/" relativePath)).
  destruct (truthy dirname) eqn:Htruthy.
  - unfold ensureDirectoryExists. unfold mbind, M_bind, gets.
    case_bool_decide as Hin.
    + exists []. simpl. rewrite app_nil_r. split; [done |]. split; [constructor |]. left.
      split; [done |]. split; [| constructor]. simpl. symmetry. apply missing_none.
      intros p Hp. destruct (Hclosed dirname Hin) as (parts & Hsegs & Hj & Hall).
      rewrite Hj, (split_joinSlash parts Hsegs), (filter_segments parts Hsegs) in Hp.
      by apply Hall.
    + apply ensureParts_requested.
  - apply truthy_false in Htruthy. rewrite Htruthy. simpl.
    exists []. rewrite app_nil_r. split; [done | apply requested_nil].
Qed.

(** *** [upload] and [download] *)

Lemma WebDAV_upload_spec (relativePath content : string) d :
  Spec.created_once d ->
  Spec.prefix_closed (createdDirectories d) ->
  exists r d',
    WebDAV_upload relativePath content d = (r, d')
    /\ Spec.uploaded relativePath content d r d'
    /\ Spec.created_once d'
    /\ Spec.prefix_closed (createdDirectories d').
Proof.
  intros Honce Hclosed.
  destruct (ensureDirectory_spec relativePath d Honce Hclosed)
    as (r1 & d1 & new & E1 & (He & Hf & Hc & Hn & Hr) & Honce1 & Hclosed1).
  destruct (ensureDirectory_requested relativePath d Hclosed) as (new' & He' & Hmk & Hreq).
  rewrite E1 in He', Hreq. simpl in He', Hreq. rewrite He in He'.
  apply app_inv_head in He'. subst new'.
  unfold WebDAV_upload. cbv zeta.
  destruct Hr as [->|(msg & ->)].
  - rewrite (bind_normal _ _ _ _ _ E1).
    destruct (Hn eq_refl) as [Hoks Hall].
    destruct Hreq as [(_ & Htargets & _)|(? & ? & ? & ? & ? & _)]; [| done].
    unfold mbind at 1. unfold M_bind, gets. unfold mbind at 1. unfold M_bind.
    set (req := {| method := PUT; requestUrl := URL_resolve relativePath (webdavUrl d1);
                   authorization := authHeader d1;
                   contentType := Some "application/octet-stream";
                   body := Some content |}).
    destruct (fetch_spec relativePath req d1) as (d2 & E2 & _ & _ & Hc2 & He2).
    rewrite (bind_normal _ _ _ _ _ E2).
    set (e := {| target := relativePath; request := req;
                 result := (serve req (server d1)).1 |}) in *.
    assert (exists r, (match (serve req (server d1)).1 with
                       | Responds response =>
                           if negb (ok response)
                           then throw ("WebDAV PUT failed: " +:+ status_line response)
                           else mret tt
                       | Fails _ message => throw message
                       end) d2 = (r, d2)
                      /\ (r = Normal tt <-> Spec.put_accepted (result e))
                      /\ (r = Normal tt \/ exists msg, r = Throw msg)) as (r & Er & Hacc & Hr).
    { simpl. destruct ((serve req (server d1)).1) as [response|code message].
      - destruct (ok response) eqn:Eok; simpl; eexists; (split; [reflexivity |]); split.
        + split; [by eexists | done].
        + by left.
        + split; [done | intros (resp & [= <-] & Hok); congruence].
        + right. by eexists.
      - eexists. split; [reflexivity |]. split; [| right; by eexists].
        split; [done | by intros (resp & Hresp & _)]. }
    exists r, d2. split; [exact Er |]. split; [| split].
    + exists new, [e]. split; [by rewrite He2, He, <- app_assoc |]. split; [done |].
      split; [intros p; rewrite Hc2; apply Hc |]. left.
      split; [done |]. split; [done |].
      split; [intros p Hp; rewrite Hc2; by apply Hall |].
      exists e. split; [done |]. split; [by repeat split |]. by split.
    + by apply (created_once_other d1 d2 e).
    + by rewrite Hc2.
  - rewrite (bind_throw _ _ _ _ _ E1).
    exists (Throw msg), d1. split; [done |]. split; [| done].
    exists new, []. rewrite app_nil_r. split; [done |]. split; [done |]. split; [done |].
    right. destruct Hreq as [(? & _)|(succeeded & e & later & msg' & [= <-] & Hnew & Hmissing
                                     & Hoks & Hbad)]; [done |].
    exists succeeded, e, later, msg. by repeat split.
Qed.

Lemma WebDAV_download_spec (relativePath : string) d :
  exists r d' e,
    WebDAV_download relativePath d = (r, d')
    /\ exchanges d' = (exchanges d ++ [e])%list
    /\ method (request e) = GET
    /\ createdDirectories d' = createdDirectories d.
Proof.
  unfold WebDAV_download. unfold mbind at 1. unfold M_bind, gets.
  unfold mbind at 1. unfold M_bind.
  set (req := {| method := GET; requestUrl := URL_resolve relativePath (webdavUrl d);
                 authorization := authHeader d; contentType := None; body := None |}).
  destruct (fetch_spec relativePath req d) as (d2 & E2 & _ & _ & Hc2 & He2).
  rewrite (bind_normal _ _ _ _ _ E2).
  destruct ((serve req (server d)).1) as [response|cause message];
    [destruct (status response =? 404); [| destruct (negb (ok response))] |
     case_bool_decide]; eexists _, d2, _; by repeat split.
Qed.

(** *** A server that accepts what it is sent *)

Lemma ensureParts_accepted (parts : list string) (cur : string) d :
  (forall req srv, method req = MKCOL -> Spec.created_or_exists (serve req srv).1) ->
  exists d', ensureParts parts cur d = (Normal tt, d')
             /\ webdavUrl d' = webdavUrl d /\ authHeader d' = authHeader d.
Proof.
  intros Hmkcol. revert cur d. induction parts as [|part parts IH]; intros cur d.
  - by exists d.
  - simpl ensureParts.
    assert (exists d1, ensurePrefix (cur +:+ part +:+ "/") d = (Normal tt, d1)
                       /\ webdavUrl d1 = webdavUrl d /\ authHeader d1 = authHeader d)
      as (d1 & E1 & Hw1 & Ha1).
    { destruct (decide ((cur +:+ part +:+ "/") ∈ createdDirectories d)) as [Hin|Hnin].
      - exists d. by rewrite (ensurePrefix_memo _ d Hin).
      - unfold ensurePrefix, createdDirectories_add, fetch. unfold_M.
        rewrite bool_decide_eq_false_2 by done.
        set (req := {| method := MKCOL;
                       requestUrl := URL_resolve (cur +:+ part +:+ "/") (webdavUrl d);
                       authorization := authHeader d; contentType := None; body := None |}).
        destruct (Hmkcol req (server d) eq_refl) as (response & Er & Hs).
        destruct (serve req (server d)) as [res srv]. simpl in Er. subst res.
        assert ((status response =? 201) || (status response =? 405) = true) as ->.
        { apply orb_true_iff. destruct Hs as [Hs|Hs]; [left | right]; by apply Z.eqb_eq. }
        by eexists. }
    rewrite (bind_normal _ _ _ _ _ E1).
    destruct (IH (cur +:+ part +:+ "/") d1) as (d2 & E2 & Hw2 & Ha2).
    exists d2. split; [done |]. split; congruence.
Qed.

(** The remote depot accepts every upload when the server answers every
    create-collection request with 201 or 405 and every [PUT] with a
    success status. *)
Lemma WebDAV_accepts_uploads :
  (forall req srv, method req = MKCOL -> Spec.created_or_exists (serve req srv).1) ->
  (forall req srv, method req = PUT ->
     exists response, (serve req srv).1 = Responds response /\ ok response = true) ->
  Spec.accepts_uploads WebDAVDepotManager.
Proof.
  intros Hmkcol Hput relativePath content d.
  change (upload relativePath content d) with (WebDAV_upload relativePath content d).
  unfold WebDAV_upload. cbv zeta.
  assert (exists d1,
            (if truthy (substring relativePath 0 (lastIndexOf "/" relativePath))
             then ensureDirectoryExists (substring relativePath 0 (lastIndexOf "/" relativePath))
             else mret tt) d = (Normal tt, d1)) as (d1 & E1).
  { destruct (truthy _); [| by exists d].
    unfold ensureDirectoryExists. unfold mbind at 1. unfold M_bind, gets.
    case_bool_decide; [by exists d |].
    destruct (ensureParts_accepted
                (List.filter (fun p => 0 <? length p)
                   (split "/" (substring relativePath 0 (lastIndexOf "/" relativePath))))
                "" d Hmkcol) as (d1 & E & _).
    by exists d1. }
  rewrite (bind_normal _ _ _ _ _ E1). unfold fetch. unfold_M.
  set (req := {| method := PUT; requestUrl := URL_resolve relativePath (webdavUrl d1);
                 authorization := authHeader d1;
                 contentType := Some "application/octet-stream";
                 body := Some content |}).
  destruct (Hput req (server d1) eq_refl) as (response & Er & Hok).
  destruct (serve req (server d1)) as [res srv]. simpl in Er. subst res. simpl.
  by rewrite Hok.
Qed.

(** *** The life of an instance *)

Lemma perform_invariant d (c : Spec.DepotCall) :
  Spec.created_once d /\ Spec.prefix_closed (createdDirectories d) ->
  Spec.created_once (Spec.perform d c)
  /\ Spec.prefix_closed (createdDirectories (Spec.perform d c)).
Proof.
  intros [Honce Hclosed]. destruct c as [relativePath content|relativePath]; simpl.
  - destruct (WebDAV_upload_spec relativePath content d Honce Hclosed)
      as (r & d' & E & _ & Honce' & Hclosed').
    by rewrite E.
  - destruct (WebDAV_download_spec relativePath d) as (r & d' & e & E & He & Hm & Hc).
    rewrite E. simpl. split; [| by rewrite Hc].
    apply (created_once_other d d' e Honce He Hc). by rewrite Hm.
Qed.

Lemma lifetime_invariant (config : WebDAVDepotConfig) (srv : Server)
  (calls : list Spec.DepotCall) :
  Spec.created_once (Spec.lifetime config srv calls)
  /\ Spec.prefix_closed (createdDirectories (Spec.lifetime config srv calls)).
Proof.
  unfold Spec.lifetime.
  assert (Spec.created_once (new_WebDAVDepotManager config srv)
          /\ Spec.prefix_closed (createdDirectories (new_WebDAVDepotManager config srv)))
    as Hnew.
  { split.
    - intros l1 e l2 p Hdec. simpl in Hdec. by destruct l1.
    - intros p Hp. simpl in Hp. by apply not_elem_of_empty in Hp. }
  revert Hnew. generalize (new_WebDAVDepotManager config srv).
  induction calls as [|c calls IH]; intros d Hd; simpl; [done |].
  apply IH. by apply perform_invariant.
Qed.

End WebDAVProofs.

(** C9. For the remote depot, over the whole life of an instance: an
    upload first makes sure of each ancestor directory prefix of its target
    path, sending a create-collection request for every prefix that is not
    in the set of the instance, in their order; "created" (201) and "already
    exists" (405) both count as success and put the prefix in the set; any
    other outcome is fatal, the upload throws there and does not send the
    content; only when every request has succeeded, and every ancestor
    prefix is in the set, is the content sent, and the upload returns
    exactly when that [PUT] is accepted. No request is made for a prefix in
    the set, and so no create-collection request for a prefix follows one
    that succeeded for it. *)
Theorem remote_upload_creates_each_directory_once {net : Network}
  (config : WebDAVDepotConfig) (srv : Server) (calls : list Spec.DepotCall) :
  Spec.created_once (Spec.lifetime config srv calls)
  /\ forall relativePath content : string,
       Spec.uploaded relativePath content
         (Spec.lifetime config srv calls)
         (WebDAV_upload relativePath content (Spec.lifetime config srv calls)).1
         (WebDAV_upload relativePath content (Spec.lifetime config srv calls)).2.
Proof.
  destruct (lifetime_invariant config srv calls) as [Honce Hclosed].
  split; [done |]. intros relativePath content.
  destruct (WebDAV_upload_spec relativePath content _ Honce Hclosed)
    as (r & d' & E & Hup & _).
  by rewrite E.
Qed.

Section WebDAVExamples.
#[local] Existing Instance Demo.network.

(** Two uploads into the same new directory, then one below it: the
    directory is created once, the deeper one once. *)
Example two_uploads_one_mkcol :
  map (fun e => (method (request e), target e))
    (exchanges
       (Spec.lifetime {| config_webdavUrl := "https://depot.example/dav";
                         config_token := Some "secret" |} []
          [ Spec.CallUpload "neoforge/21.1.72.json" "{}";
            Spec.CallUpload "neoforge/21.1.73.json" "{}";
            Spec.CallUpload "neoforge/beta/1.json" "{}";
            Spec.CallUpload ".depot-index.json" "[]" ]))
  = [ (MKCOL, "neoforge/"); (PUT, "neoforge/21.1.72.json");
      (PUT, "neoforge/21.1.73.json");
      (MKCOL, "neoforge/beta/"); (PUT, "neoforge/beta/1.json");
      (PUT, ".depot-index.json") ].
Proof. vm_compute. reflexivity. Qed.

Example ancestors_of_a_path :
  Spec.ancestorPrefixes "neoforge/beta/1.json" = ["neoforge/"; "neoforge/beta/"].
Proof. reflexivity. Qed.

End WebDAVExamples.

Section Archive.
#[local] Existing Instance Cases.archive.

Lemma archive_accepts_uploads :
  Spec.accepts_uploads (WebDAVDepotManager (net:=Cases.archive)).
Proof.
  apply WebDAV_accepts_uploads.
  - intros req srv Hm. simpl. rewrite Hm. eexists. split; [done | by left].
  - intros req srv Hm. simpl. rewrite Hm. by eexists.
Qed.

End Archive.

(** ** Further properties of the sync *)

Section Objects.
Context {V : Type}.

Lemma get_own_set_property (k k' : string) (v : V) (o : JSObject V) :
  get_own k (set_property k' v o) = if String.eqb k k' then Some v else get_own k o.
Proof.
  induction o as [|[k0 v0] o IH]; simpl; [done |].
  destruct (String.eqb k' k0) eqn:E0; simpl.
  - apply String.eqb_eq in E0 as ->. by destruct (String.eqb k k0).
  - rewrite IH. destruct (String.eqb k k0) eqn:E1; [| done].
    apply String.eqb_eq in E1 as ->. rewrite String.eqb_sym in E0. by rewrite E0.
Qed.

Lemma get_own_app (k : string) (o1 o2 : JSObject V) :
  get_own k (o1 ++ o2)%list
  = match get_own k o1 with Some v => Some v | None => get_own k o2 end.
Proof.
  induction o1 as [|[k0 v0] o1 IH]; simpl; [done |]. by destruct (String.eqb k k0).
Qed.

(** [Object.fromEntries]: the last entry of a key is the one found. *)
Lemma get_own_fromEntries (k : string) (entries : list (string * V)) :
  get_own k (Object_fromEntries entries) = get_own k (rev entries).
Proof.
  unfold Object_fromEntries.
  assert (forall o, get_own k (fold_left (fun o kv => set_property kv.1 kv.2 o) entries o)
                    = match get_own k (rev entries) with
                      | Some v => Some v
                      | None => get_own k o
                      end) as Hacc.
  { induction entries as [|[k0 v0] entries IH]; intros o; simpl; [done |].
    rewrite IH, get_own_app, get_own_set_property. simpl.
    destruct (get_own k (rev entries)); [done |]. by destruct (String.eqb k k0). }
  rewrite Hacc. simpl. by destruct (get_own k (rev entries)).
Qed.

Lemma get_own_In (k : string) (v : V) (o : JSObject V) :
  get_own k o = Some v -> In (k, v) o.
Proof.
  induction o as [|[k0 v0] o IH]; simpl; [done |].
  destruct (String.eqb k k0) eqn:E.
  - apply String.eqb_eq in E as ->. intros [= ->]. by left.
  - intros Hg. right. by apply IH.
Qed.

Lemma get_own_unique (k : string) (v : V) (o : JSObject V) :
  NoDup (map fst o) -> In (k, v) o -> get_own k o = Some v.
Proof.
  induction o as [|[k0 v0] o IH]; simpl; [done |].
  intros Hnd Hin. apply NoDup_cons in Hnd as [Hfresh Hnd].
  destruct Hin as [[= -> ->]|Hin]; [by rewrite String.eqb_refl |].
  destruct (String.eqb k k0) eqn:E; [| by apply IH].
  apply String.eqb_eq in E as ->. exfalso. apply Hfresh.
  apply list_elem_of_In. by apply (in_map fst _ (k0, v)).
Qed.

End Objects.

Section Sorting.
Context {A : Type} (cmp : A -> A -> Z).

Lemma sort_insert_Permutation (x : A) (l : list A) :
  Permutation (sort_insert cmp x l) (x :: l).
Proof.
  induction l as [|y l IH]; simpl; [done |].
  destruct (cmp x y <=? 0); [done |]. rewrite IH. apply perm_swap.
Qed.

Lemma Array_sort_Permutation (l : list A) : Permutation (Array_sort cmp l) l.
Proof.
  unfold Array_sort. induction l as [|x l IH]; simpl; [done |].
  rewrite sort_insert_Permutation. by constructor.
Qed.

(** The comparator never says of two elements that each comes after the
    other. *)
Hypothesis cmp_consistent : forall a b, 0 < cmp a b -> cmp b a <= 0.

Lemma sort_insert_HdRel (y x : A) (l : list A) :
  cmp y x <= 0 -> HdRel (fun a b => cmp a b <= 0) y l ->
  HdRel (fun a b => cmp a b <= 0) y (sort_insert cmp x l).
Proof.
  intros Hyx Hhd. destruct l as [|z l]; simpl; [by constructor |].
  destruct (cmp x z <=? 0); [by constructor |]. inversion Hhd; subst. by constructor.
Qed.

Lemma sort_insert_Sorted (x : A) (l : list A) :
  Sorted (fun a b => cmp a b <= 0) l ->
  Sorted (fun a b => cmp a b <= 0) (sort_insert cmp x l).
Proof.
  induction 1 as [|y l Hs IH Hhd]; simpl; [by repeat constructor |].
  destruct (cmp x y <=? 0) eqn:E.
  - apply Z.leb_le in E. constructor; [by constructor |]. by constructor.
  - apply Z.leb_gt in E. constructor; [done |].
    apply sort_insert_HdRel; [| done]. apply cmp_consistent. lia.
Qed.

Lemma Array_sort_Sorted (l : list A) : Sorted (fun a b => cmp a b <= 0) (Array_sort cmp l).
Proof.
  unfold Array_sort. induction l as [|x l IH]; simpl; [constructor |].
  by apply sort_insert_Sorted.
Qed.

End Sorting.

Section SyncFurther.
Context {rt : Platform} {D : Type} {dm : DepotManager D}.
Variable self : ListingsBuilder.

(** Against a baseline with one entry per name at most, the sync skips a
    listing exactly when the baseline holds an entry of its name, hash and
    size. *)
Lemma skips_unchanged (baseline : list ListingDescriptor) (l : ListingDescriptor) :
  NoDup (map name baseline) ->
  Spec.skips (Spec.indexed baseline) l = true <-> Spec.unchanged baseline l.
Proof.
  intros Hnd. unfold Spec.skips, Spec.indexed, get_property, Spec.unchanged.
  rewrite get_own_fromEntries.
  set (entries := map (fun e => (name e, e)) baseline).
  assert (NoDup (map fst (rev entries))) as Hnd'.
  { rewrite map_rev, <- Permutation_rev. unfold entries. by rewrite map_map. }
  assert (forall e, In (name l, e) (rev entries) <-> In e baseline /\ name e = name l) as Hin.
  { intros e. rewrite <- in_rev. unfold entries. rewrite in_map_iff. split.
    - intros (e' & [= Hn ->] & Hin'). by split.
    - intros [Hin' Hn]. exists e. split; [by rewrite Hn | done]. }
  split.
  - destruct (get_own (name l) (rev entries)) as [e|] eqn:Hg;
      [| by destruct (inherited (name l))].
    simpl. intros Hsame. apply andb_true_iff in Hsame as [Hsha Hsize].
    apply String.eqb_eq in Hsha. apply Z.eqb_eq in Hsize.
    apply get_own_In, Hin in Hg as [Hine Hname]. by exists e.
  - intros (e & Hine & Hname & Hsha & Hsize).
    rewrite (get_own_unique (name l) e (rev entries) Hnd') by (by apply Hin).
    simpl. apply andb_true_iff. split; [by apply String.eqb_eq | by apply Z.eqb_eq].
Qed.


(** X3. A name that every object inherits from [Object.prototype] cannot
    be registered at all: [writeListing] throws for it although no listing
    of that name was registered, and writes nothing. *)
Theorem writeListing_rejects_inherited_names :
  Forall (fun name =>
            forall (content : Promise JSValue) (s : State D),
              writeListing self name content s
              = (Throw ("Listing " +:+ name +:+ " has already been written."), s))
    Object_prototype_keys.
Proof.
  repeat constructor; intros content s; unfold writeListing, has_property; unfold_M;
    by rewrite orb_true_r.
Qed.

Lemma get_own_other_names (k : string) (entries : list ListingDescriptor) :
  Forall (fun e => name e <> k) entries ->
  get_own k (rev (map (fun e => (name e, e)) entries)) = None.
Proof.
  induction 1 as [|e entries Hne _ IH]; [done |].
  simpl. rewrite get_own_app, IH. simpl.
  destruct (String.eqb k (name e)) eqn:E; [| done]. apply String.eqb_eq in E. congruence.
Qed.

(** X4. When the baseline holds several entries of one name, the last one
    decides whether the listing is skipped, wherever it stands in the
    baseline and whatever the entries of that name before it say. *)
Theorem last_baseline_entry_decides (before after : list ListingDescriptor)
  (e l : ListingDescriptor) :
  name e = name l ->
  Forall (fun e' => name e' <> name l) after ->
  Spec.skips (Spec.indexed (before ++ e :: after)) l
  = String.eqb (sha256 (uncompressed e)) (sha256 (uncompressed l))
    && (size (uncompressed e) =? size (uncompressed l)).
Proof.
  intros Hname Hafter. unfold Spec.skips, Spec.indexed, get_property.
  rewrite get_own_fromEntries, map_app, rev_app_distr. simpl.
  rewrite <- app_assoc, get_own_app, (get_own_other_names _ _ Hafter). simpl.
  by rewrite Hname, String.eqb_refl.
Qed.

End SyncFurther.

Section FurtherWitnesses.
#[local] Existing Instance Demo.window_platform.


Lemma last_baseline_entry_decides_witness :
  Spec.skips (Spec.indexed ([Demo.listing_a] ++ Cases.changed_a :: [Demo.listing_b]))
    Demo.listing_a = false
  /\ Spec.skips (Spec.indexed ([Cases.changed_a] ++ Demo.listing_a :: [Demo.listing_b]))
       Demo.listing_a = true.
Proof.
  split.
  - apply (last_baseline_entry_decides [Demo.listing_a] [Demo.listing_b]
             Cases.changed_a Demo.listing_a eq_refl).
    repeat constructor. discriminate.
  - apply (last_baseline_entry_decides [Cases.changed_a] [Demo.listing_b]
             Demo.listing_a Demo.listing_a eq_refl).
    repeat constructor. discriminate.
Defined.

End FurtherWitnesses.

(** ** The local depot ([LocalDepotManager]) *)

Section LocalDepot.
Context {rt : Platform}.

Lemma foldr_insert_other {V : Type} (v : V) (l : list string) (m : gmap string V)
  (k : string) :
  ~ In k l -> foldr (fun a m => <[a := v]> m) m l !! k = m !! k.
Proof.
  induction l as [|a l IH]; intros Hk; simpl; [done |].
  rewrite lookup_insert_ne; [| intros ->; apply Hk; by left].
  apply IH. intros Hin. apply Hk. by right.
Qed.

(** What [readFile] returns is the content of a regular file. *)
Lemma readFile_inr (path content : string) (disk : Disk) :
  readFile path disk = inr content
  <-> is_root path = false /\ disk !! path = Some (File content).
Proof.
  unfold readFile. destruct (is_root path); [split; [done | by intros [? _]] |].
  destruct (disk !! path) as [[c|]|].
  - split; [by intros [= ->] | by intros [_ [= ->]]].
  - split; [done | by intros [_ ?]].
  - destruct (existsb _ _); split; try done; by intros [_ ?].
Qed.

(** A [mkdir] that returns leaves the regular files as they are, and the
    directory is there. *)
Lemma mkdir_recursive_inr (dir : string) (disk made : Disk) :
  mkdir_recursive dir disk = inr made ->
  is_directory made dir = true
  /\ forall path content, disk !! path = Some (File content) ->
                          made !! path = Some (File content).
Proof.
  unfold mkdir_recursive. destruct (is_directory disk dir) eqn:Hdir; [by intros [= <-] |].
  destruct (is_file disk dir) eqn:Hfile; [done |].
  destruct (existsb (is_file disk) (ancestors dir)) eqn:Habove; [done |]. intros [= <-]. split.
  - unfold is_directory. rewrite lookup_insert_eq. by rewrite orb_true_r.
  - intros path content Hpath.
    change (foldr (fun a m => <[a := Directory]> m) disk (dir :: ancestors dir) !! path
            = Some (File content)).
    rewrite foldr_insert_other; [done |]. intros [<-|Hin].
    + unfold is_file in Hfile. by rewrite Hpath in Hfile.
    + assert (existsb (is_file disk) (ancestors dir) = true) as Hex; [| congruence].
      apply existsb_exists. exists path. split; [done |]. unfold is_file. by rewrite Hpath.
Qed.

(** A [writeFile] that returns has put the file in a directory that is
    there, at a path that is no directory. *)
Lemma writeFile_inr (path content : string) (disk written : Disk) :
  writeFile path content disk = inr written ->
  is_directory disk path = false
  /\ is_directory disk (path_dirname path) = true
  /\ written = <[path := File content]> disk.
Proof.
  unfold writeFile. destruct (is_directory disk path); [done |].
  destruct (is_directory disk (path_dirname path)); [by intros [= <-] |].
  by destruct (existsb _ _).
Qed.

Lemma Local_upload_returns (relativePath content : string) (d d' : LocalDepotManager) :
  Local_upload relativePath content d = (Normal tt, d') ->
  exists made,
    mkdir_recursive (path_dirname (path_join (basePath d) relativePath)) (disk d) = inr made
    /\ writeFile (path_join (basePath d) relativePath) content made = inr (disk d')
    /\ basePath d' = basePath d.
Proof.
  unfold Local_upload. cbv zeta.
  destruct (mkdir_recursive _ (disk d)) as [e|made] eqn:Emade; [done |].
  destruct (writeFile _ content made) as [e|written] eqn:Ewritten; [done |].
  intros [= <-]. by exists made.
Qed.

Lemma Local_download_Some (relativePath content : string) (d : LocalDepotManager) :
  Local_download relativePath d = (Normal (Some content), d)
  <-> is_root (path_join (basePath d) relativePath) = false
      /\ disk d !! path_join (basePath d) relativePath = Some (File content).
Proof.
  rewrite <- readFile_inr. unfold Local_download. cbv zeta.
  destruct (readFile _ (disk d)) as [e|c].
  - split; [| done]. by destruct (String.eqb (code e) "ENOENT").
  - split; [by intros [= ->] | by intros [= ->]].
Qed.

(** An upload that returned is read back, and the files that could be
    downloaded before it can be downloaded after it. *)
Lemma Local_upload_kept (relativePath content : string) (d d' : LocalDepotManager) :
  Local_upload relativePath content d = (Normal tt, d') ->
  Local_download relativePath d' = (Normal (Some content), d')
  /\ forall other kept,
       path_join (basePath d) other <> path_join (basePath d) relativePath ->
       Local_download other d = (Normal (Some kept), d) ->
       Local_download other d' = (Normal (Some kept), d').
Proof.
  intros (made & Hmade & Hwritten & Hbase)%Local_upload_returns.
  apply mkdir_recursive_inr in Hmade as [_ Hfiles].
  apply writeFile_inr in Hwritten as (Hnodir & _ & Hdisk). split.
  - apply Local_download_Some. rewrite Hbase, Hdisk, lookup_insert_eq. split; [| done].
    unfold is_directory in Hnodir. by apply orb_false_iff in Hnodir as [? _].
  - intros other kept Hne [Hroot Hfile]%Local_download_Some.
    apply Local_download_Some. rewrite Hbase, Hdisk. split; [done |].
    rewrite lookup_insert_ne by done. by apply Hfiles.
Qed.

(** X5. The local depot gives back what it was given, as far as the disk
    allows. After an upload that returned: the download of its path returns
    the content, and [getJSON] parses that content; a file that could be
    downloaded before, at another path, can be downloaded as before; but the
    directory of the file is a directory from then on, whose download throws
    instead of returning [undefined]; and the file is no directory, so that
    an upload to a path right below it throws and leaves the depot as it
    is. *)
Theorem local_depot_round_trip (d d' : LocalDepotManager) (relativePath content : string) :
  Local_upload relativePath content d = (Normal tt, d') ->
  basePath d' = basePath d
  /\ Local_download relativePath d' = (Normal (Some content), d')
  /\ getJSON relativePath d' = (JSON_parse_index (Buffer_toString content), d')
  /\ (forall other kept,
        path_join (basePath d) other <> path_join (basePath d) relativePath ->
        Local_download other d = (Normal (Some kept), d) ->
        Local_download other d' = (Normal (Some kept), d'))
  /\ (forall directory,
        path_join (basePath d) directory
        = path_dirname (path_join (basePath d) relativePath) ->
        Local_download directory d'
        = (Throw "EISDIR: illegal operation on a directory, read", d'))
  /\ (forall below more,
        path_dirname (path_join (basePath d) below) = path_join (basePath d) relativePath ->
        Local_upload below more d'
        = (Throw ("EEXIST: file already exists, mkdir '"
                  +:+ path_join (basePath d) relativePath +:+ "'"), d')).
Proof.
  intros Hup. destruct (Local_upload_kept _ _ _ _ Hup) as [Hback Hkept].
  destruct (Local_upload_returns _ _ _ _ Hup) as (made & Hmade & Hwritten & Hbase).
  apply mkdir_recursive_inr in Hmade as [Hdir _].
  apply writeFile_inr in Hwritten as (Hnodir & _ & Hdisk).
  unfold is_directory in Hnodir. apply orb_false_iff in Hnodir as [Hroot Hnodir].
  split; [done |]. split; [done |].
  split; [unfold getJSON; by rewrite (bind_normal _ _ _ _ _ Hback) |].
  split; [done |]. split.
  - intros directory Hdirectory. unfold Local_download, readFile. cbv zeta.
    rewrite Hbase, Hdirectory.
    destruct (is_root (path_dirname (path_join (basePath d) relativePath))) eqn:Hr; [done |].
    unfold is_directory in Hdir. rewrite Hr in Hdir. simpl in Hdir.
    rewrite Hdisk, lookup_insert_ne.
    + by destruct (made !! path_dirname (path_join (basePath d) relativePath)) as [[c|]|].
    + intros E. unfold is_root in Hroot. rewrite <- E, String.eqb_refl in Hroot. done.
  - intros below more Hbelow. unfold Local_upload, mkdir_recursive. cbv zeta.
    rewrite Hbase, Hbelow. unfold is_directory, is_file.
    by rewrite Hroot, Hdisk, lookup_insert_eq.
Qed.

End LocalDepot.

Section LocalDepotWitnesses.
#[local] Existing Instance Demo.platform.

Lemma local_depot_round_trip_witness :
  basePath (Local_upload "a/b.json" "[]" Demo.localDepot).2 = "depot"
  /\ Local_download "a/b.json" (Local_upload "a/b.json" "[]" Demo.localDepot).2
     = (Normal (Some "[]"), (Local_upload "a/b.json" "[]" Demo.localDepot).2)
  /\ Local_download "a" (Local_upload "a/b.json" "[]" Demo.localDepot).2
     = (Throw "EISDIR: illegal operation on a directory, read",
        (Local_upload "a/b.json" "[]" Demo.localDepot).2)
  /\ Local_upload "a/b.json/c" "{}" (Local_upload "a/b.json" "[]" Demo.localDepot).2
     = (Throw "EEXIST: file already exists, mkdir 'depot/a/b.json'",
        (Local_upload "a/b.json" "[]" Demo.localDepot).2).
Proof.
  destruct (local_depot_round_trip Demo.localDepot
              (Local_upload "a/b.json" "[]" Demo.localDepot).2 "a/b.json" "[]")
    as (Hbase & Hback & _ & _ & Hdirectory & Hbelow); [vm_compute; reflexivity |].
  split; [exact Hbase |]. split; [exact Hback |].
  split; [exact (Hdirectory "a" eq_refl) | exact (Hbelow "a/b.json/c" "{}" eq_refl)].
Defined.

(** A file and a directory in each other's way: the download of what
    has become a directory throws, the upload below what is a file throws,
    and what is not there is [undefined]. *)
Example local_depot_in_the_way :
  (Local_download "a" (Local_upload "a/b.json" "[]" Demo.localDepot).2).1
  = Throw "EISDIR: illegal operation on a directory, read"
  /\ (Local_upload "a/b.json" "[]" (Local_upload "a" "{}" Demo.localDepot).2).1
     = Throw "EEXIST: file already exists, mkdir 'depot/a'"
  /\ (Local_download "a/c.json" (Local_upload "a/b.json" "[]" Demo.localDepot).2).1
     = Normal None
  /\ (Local_download "a/b.json/c" (Local_upload "a/b.json" "[]" Demo.localDepot).2).1
     = Throw "ENOTDIR: not a directory, open 'depot/a/b.json/c'".
Proof. vm_compute. by repeat split. Qed.

End LocalDepotWitnesses.

(** ** More on the remote depot *)

Section WebDAVFurther.
Context {net : Network}.
Implicit Types d : WebDAVDepotManager.

(** One run of [download]: the request it makes and what it returns for
    the answer. *)
Lemma WebDAV_download_run (relativePath : string) d :
  exists e d2,
    WebDAV_download relativePath d
    = (match result e with
       | Responds response =>
           if status response =? 404 then Normal None
           else if negb (ok response) then
             Throw ("WebDAV GET " +:+ requestUrl (request e) +:+ " failed: "
                    +:+ status_line response)
           else Normal (Some (responseBody response))
       | Fails cause message =>
           Throw (if bool_decide (cause = Some "ENOTFOUND" \/ cause = Some "ECONNREFUSED")
                  then "Cannot connect to WebDAV server: " +:+ webdavUrl d
                  else message)
       end, d2)
    /\ exchanges d2 = (exchanges d ++ [e])%list
    /\ Runs.get_of relativePath e
    /\ authorization (request e) = authHeader d
    /\ requestUrl (request e) = URL_resolve relativePath (webdavUrl d)
    /\ createdDirectories d2 = createdDirectories d
    /\ webdavUrl d2 = webdavUrl d /\ authHeader d2 = authHeader d.
Proof.
  unfold WebDAV_download. unfold mbind at 1. unfold M_bind, gets.
  unfold mbind at 1. unfold M_bind.
  set (req := {| method := GET; requestUrl := URL_resolve relativePath (webdavUrl d);
                 authorization := authHeader d; contentType := None; body := None |}).
  destruct (fetch_spec relativePath req d) as (d2 & E2 & Hw2 & Ha2 & Hc2 & He2).
  rewrite (bind_normal _ _ _ _ _ E2).
  exists {| target := relativePath; request := req; result := (serve req (server d)).1 |}, d2.
  split; [| by repeat split]. simpl.
  destruct ((serve req (server d)).1) as [response|cause message].
  - destruct (status response =? 404); [done |]. by destruct (negb (ok response)).
  - by case_bool_decide.
Qed.

(** X6. A download from the remote depot makes one request, a [GET] for
    the path with the authorization of the instance, and leaves the set of
    created directories alone; it returns nothing exactly for the status
    404, the body exactly for a status from 200 to 299, and throws for every
    other answer; a failure of the transport is thrown, as a connection
    error for the two causes that mean the server cannot be reached. *)
Theorem remote_download_outcomes (relativePath : string) d :
  exists e,
    exchanges (WebDAV_download relativePath d).2 = (exchanges d ++ [e])%list
    /\ Runs.get_of relativePath e
    /\ authorization (request e) = authHeader d
    /\ createdDirectories (WebDAV_download relativePath d).2 = createdDirectories d
    /\ ((WebDAV_download relativePath d).1 = Normal None <-> Runs.not_found (result e))
    /\ (forall content,
          (WebDAV_download relativePath d).1 = Normal (Some content)
          <-> exists response,
                result e = Responds response
                /\ 200 <= status response <= 299
                /\ responseBody response = content)
    /\ (forall response,
          result e = Responds response ->
          status response <> 404 -> ~ (200 <= status response <= 299) ->
          exists msg, (WebDAV_download relativePath d).1 = Throw msg)
    /\ (forall cause message,
          result e = Fails cause message ->
          (WebDAV_download relativePath d).1
          = Throw (if bool_decide (cause = Some "ENOTFOUND" \/ cause = Some "ECONNREFUSED")
                   then "Cannot connect to WebDAV server: " +:+ webdavUrl d
                   else message)).
Proof.
  destruct (WebDAV_download_run relativePath d)
    as (e & d2 & E & He & Hget & Hauth & _ & Hc & _).
  rewrite E. exists e. simpl. do 4 (split; [done |]).
  destruct (result e) as [response|cause message].
  - destruct (status response =? 404) eqn:E404.
    + apply Z.eqb_eq in E404.
      split; [split; [intros _; by exists response | done] |].
      split; [| split; [| done]].
      * intros content. split; [done |]. intros (r & [= <-] & Hs & _). lia.
      * intros r [= <-] Hne. done.
    + apply Z.eqb_neq in E404. unfold ok.
      destruct ((200 <=? status response) && (status response <=? 299)) eqn:Eok; simpl.
      * apply andb_true_iff in Eok as [H1 H2]. apply Z.leb_le in H1, H2.
        split; [split; [done | intros (r & [= <-] & Hs); done] |].
        split; [| split; [| done]].
        -- intros content. split.
           ++ intros [= <-]. exists response. by repeat split.
           ++ intros (r & [= <-] & _ & <-). done.
        -- intros r [= <-] _ Hno. exfalso. apply Hno. lia.
      * split; [split; [done | intros (r & [= <-] & Hs); done] |].
        split; [| split; [| done]].
        -- intros content. split; [done |]. intros (r & [= <-] & [H1 H2] & _).
           apply Z.leb_le in H1, H2. by rewrite H1, H2 in Eok.
        -- intros r _ _ _. by eexists.
  - split; [split; [done | by intros (r & Hr & _)] |].
    split; [| split; [done |]].
    + intros content. split; [done | by intros (r & Hr & _)].
    + by intros c m [= <- <-].
Qed.

(** The loop of [ensureDirectoryExists] over prefixes that are all in the
    set makes no request. *)
Lemma ensureParts_memo (parts : list string) (cur : string) d :
  (forall p, In p (Spec.prefixesFrom cur parts) -> p ∈ createdDirectories d) ->
  ensureParts parts cur d = (Normal tt, d).
Proof.
  revert cur. induction parts as [|part parts IH]; intros cur Hall; [done |].
  simpl ensureParts. simpl Spec.prefixesFrom in Hall.
  rewrite (bind_normal _ _ _ _ _ (ensurePrefix_memo _ d (Hall _ (or_introl eq_refl)))).
  apply IH. intros p Hp. apply Hall. by right.
Qed.

Lemma ensureDirectory_memo (relativePath : string) d :
  (forall p, In p (Spec.ancestorPrefixes relativePath) -> p ∈ createdDirectories d) ->
  (if truthy (substring relativePath 0 (lastIndexOf "/" relativePath))
   then ensureDirectoryExists (substring relativePath 0 (lastIndexOf "/" relativePath))
   else mret tt) d = (Normal tt, d).
Proof.
  intros Hall. unfold Spec.ancestorPrefixes in Hall.
  rewrite <- (upload_parts relativePath) in Hall.
  destruct (truthy _); [| done].
  unfold ensureDirectoryExists. unfold mbind at 1. unfold M_bind, gets.
  case_bool_decide; [done |]. by apply ensureParts_memo.
Qed.

(** The [PUT] of an upload, from the instance [d1] that the directories
    were made sure of in. *)
Lemma upload_put (relativePath content : string) d1 :
  exists e d2,
    (base ← gets webdavUrl;
     auth ← gets authHeader;
     r ← fetch relativePath
           {| method := PUT; requestUrl := URL_resolve relativePath base;
              authorization := auth;
              contentType := Some "application/octet-stream";
              body := Some content |};
     match r with
     | Responds response =>
         if negb (ok response) then throw ("WebDAV PUT failed: " +:+ status_line response)
         else mret tt
     | Fails _ message => throw message
     end) d1
    = (match result e with
       | Responds response =>
           if negb (ok response) then Throw ("WebDAV PUT failed: " +:+ status_line response)
           else Normal tt
       | Fails _ message => Throw message
       end, d2)
    /\ exchanges d2 = (exchanges d1 ++ [e])%list
    /\ Spec.put_of relativePath content e
    /\ authorization (request e) = authHeader d1
    /\ requestUrl (request e) = URL_resolve relativePath (webdavUrl d1)
    /\ createdDirectories d2 = createdDirectories d1
    /\ webdavUrl d2 = webdavUrl d1 /\ authHeader d2 = authHeader d1.
Proof.
  unfold mbind at 1. unfold M_bind, gets. unfold mbind at 1. unfold M_bind.
  set (req := {| method := PUT; requestUrl := URL_resolve relativePath (webdavUrl d1);
                 authorization := authHeader d1;
                 contentType := Some "application/octet-stream";
                 body := Some content |}).
  destruct (fetch_spec relativePath req d1) as (d2 & E2 & Hw2 & Ha2 & Hc2 & He2).
  rewrite (bind_normal _ _ _ _ _ E2).
  exists {| target := relativePath; request := req; result := (serve req (server d1)).1 |}, d2.
  split; [| by repeat split].
  simpl. destruct ((serve req (server d1)).1) as [response|cause message]; [| done].
  by destruct (negb (ok response)).
Qed.

Lemma ok_success (response : Response) :
  ok response = true <-> 200 <= status response <= 299.
Proof. unfold ok. rewrite andb_true_iff, !Z.leb_le. done. Qed.

(** An upload whose ancestor prefixes are all in the set makes one
    request, the [PUT]. *)
Lemma WebDAV_upload_memo (relativePath content : string) d :
  (forall p, In p (Spec.ancestorPrefixes relativePath) -> p ∈ createdDirectories d) ->
  exists e,
    exchanges (WebDAV_upload relativePath content d).2 = (exchanges d ++ [e])%list
    /\ Spec.put_of relativePath content e
    /\ createdDirectories (WebDAV_upload relativePath content d).2 = createdDirectories d
    /\ ((WebDAV_upload relativePath content d).1 = Normal tt <-> Runs.success (result e)).
Proof.
  intros Hall. unfold WebDAV_upload. cbv zeta.
  rewrite (bind_normal _ _ _ _ _ (ensureDirectory_memo relativePath d Hall)).
  destruct (upload_put relativePath content d) as (e & d2 & E & He & Hput & _ & _ & Hc & _).
  rewrite E. exists e. simpl. do 3 (split; [done |]).
  destruct (result e) as [response|cause message].
  - destruct (ok response) eqn:Eok; simpl.
    + split; [| done]. intros _. exists response. split; [done |]. by apply ok_success.
    + split; [done |]. intros (r & [= <-] & Hs). apply ok_success in Hs. congruence.
  - split; [done |]. by intros (r & Hr & _).
Qed.

(** An upload that returns leaves every ancestor prefix of its path in
    the set. *)
Lemma WebDAV_upload_done (relativePath content : string) d :
  Spec.created_once d ->
  Spec.prefix_closed (createdDirectories d) ->
  (WebDAV_upload relativePath content d).1 = Normal tt ->
  forall p, In p (Spec.ancestorPrefixes relativePath) ->
    p ∈ createdDirectories (WebDAV_upload relativePath content d).2.
Proof.
  intros Honce Hclosed.
  destruct (ensureDirectory_spec relativePath d Honce Hclosed)
    as (r1 & d1 & new & E1 & (He & Hf & Hc & Hn & Hr) & _ & _).
  unfold WebDAV_upload. cbv zeta. destruct Hr as [->|(msg & ->)].
  - rewrite (bind_normal _ _ _ _ _ E1).
    destruct (upload_put relativePath content d1) as (e & d2 & E & _ & _ & _ & _ & Hc2 & _).
    rewrite E. simpl. intros _ p Hp. rewrite Hc2. by apply (proj2 (Hn eq_refl)).
  - by rewrite (bind_throw _ _ _ _ _ E1).
Qed.

End WebDAVFurther.

(** X7. Over the life of a remote depot: after an upload that returned,
    an upload to a path whose ancestor directories are among those of the
    first (a file of the same directory, say) makes one request only, the
    [PUT] of its content; no directory is asked for again. *)
Theorem upload_into_a_known_directory_sends_only_the_content {net : Network}
  (config : WebDAVDepotConfig) (srv : Server) (calls : list Spec.DepotCall)
  (first content other content' : string) :
  (WebDAV_upload first content (Spec.lifetime config srv calls)).1 = Normal tt ->
  (forall p, In p (Spec.ancestorPrefixes other) -> In p (Spec.ancestorPrefixes first)) ->
  exists e,
    exchanges
      (WebDAV_upload other content'
         (WebDAV_upload first content (Spec.lifetime config srv calls)).2).2
    = (exchanges (WebDAV_upload first content (Spec.lifetime config srv calls)).2 ++ [e])%list
    /\ Spec.put_of other content' e.
Proof.
  intros Hdone Hsub.
  destruct (lifetime_invariant config srv calls) as [Honce Hclosed].
  destruct (WebDAV_upload_memo other content'
              (WebDAV_upload first content (Spec.lifetime config srv calls)).2)
    as (e & He & Hput & _).
  - intros p Hp. apply (WebDAV_upload_done first content _ Honce Hclosed Hdone). by apply Hsub.
  - by exists e.
Qed.

Section WebDAVFurtherWitnesses.
#[local] Existing Instance Demo.network.

Lemma upload_into_a_known_directory_sends_only_the_content_witness :
  exists e,
    exchanges
      (WebDAV_upload "neoforge/21.1.73.json" "{}"
         (WebDAV_upload "neoforge/21.1.72.json" "{}"
            (Spec.lifetime {| config_webdavUrl := "https://depot.example/dav";
                              config_token := Some "secret" |} [] [])).2).2
    = (exchanges
         (WebDAV_upload "neoforge/21.1.72.json" "{}"
            (Spec.lifetime {| config_webdavUrl := "https://depot.example/dav";
                              config_token := Some "secret" |} [] [])).2 ++ [e])%list
    /\ Spec.put_of "neoforge/21.1.73.json" "{}" e.
Proof.
  apply (upload_into_a_known_directory_sends_only_the_content (net:=Demo.network)
           {| config_webdavUrl := "https://depot.example/dav"; config_token := Some "secret" |}
           [] [] "neoforge/21.1.72.json" "{}" "neoforge/21.1.73.json" "{}").
  - vm_compute. reflexivity.
  - intros p Hp. exact Hp.
Defined.

End WebDAVFurtherWitnesses.

(** ** Promises and the registry *)

Section Promises.
Context {A : Type}.

Lemma Promise_all_fulfilled (ps : list (Promise A)) (l : list A) :
  Promise_all ps = Fulfilled l -> ps = map Fulfilled l.
Proof.
  revert l. induction ps as [|[a|e] ps IH]; intros l; simpl.
  - by intros [= <-].
  - destruct (Promise_all ps) as [l'|e]; [| done]. intros [= <-].
    by rewrite (IH l' eq_refl).
  - done.
Qed.

Lemma Promise_all_values (l : list A) : Promise_all (map Fulfilled l) = Fulfilled l.
Proof. induction l as [|a l IH]; [done |]. simpl. by rewrite IH. Qed.

Lemma Promise_all_rejected (ps : list (Promise A)) (e : string) :
  In (Rejected e) ps -> exists e', Promise_all ps = Rejected e'.
Proof.
  induction ps as [|[a|e0] ps IH]; simpl; [done | |].
  - intros [Hd|Hin]; [done |]. destruct (IH Hin) as [e' ->]. by eexists.
  - intros _. by eexists.
Qed.

Lemma Promise_all_rejection (ps : list (Promise A)) (e : string) :
  Promise_all ps = Rejected e -> In (Rejected e) ps.
Proof.
  induction ps as [|[a|e0] ps IH]; simpl; [done | |].
  - destruct (Promise_all ps) as [l|e1]; [done |]. intros [= ->]. right. by apply IH.
  - intros [= ->]. by left.
Qed.

End Promises.

Section Registry.
Context {V : Type}.

Lemma get_own_hasOwn (k : string) (o : JSObject V) :
  hasOwn k o = true <-> is_Some (get_own k o).
Proof.
  unfold hasOwn. induction o as [|[k' v'] o IH]; simpl.
  - split; [done | by intros [v Hv]].
  - destruct (String.eqb k k'); simpl; [| done]. split; [by eexists | done].
Qed.

Lemma hasOwn_set_property (k n : string) (v : V) (o : JSObject V) :
  hasOwn k (set_property n v o) = String.eqb k n || hasOwn k o.
Proof.
  unfold hasOwn. induction o as [|[k' v'] o IH]; simpl; [done |].
  destruct (String.eqb n k') eqn:E; simpl.
  - apply String.eqb_eq in E as ->. by destruct (String.eqb k k').
  - rewrite IH. destruct (String.eqb k k'), (String.eqb k n); done.
Qed.

(** A new property is added last. *)
Lemma set_property_new (k : string) (v : V) (o : JSObject V) :
  hasOwn k o = false -> set_property k v o = (o ++ [(k, v)])%list.
Proof.
  unfold hasOwn. induction o as [|[k' v'] o IH]; simpl; [done |].
  destruct (String.eqb k k'); simpl; [done |]. intros Hn. by rewrite IH.
Qed.

Lemma hasOwn_keys (k : string) (o : JSObject V) :
  hasOwn k o = true <-> In k (map fst o).
Proof.
  unfold hasOwn. induction o as [|[k' v'] o IH]; simpl; [done |].
  rewrite orb_true_iff, IH, String.eqb_eq. split; intros [H|H]; auto.
Qed.

(** The enumeration of the own properties is a rearrangement of them. *)
Lemma own_properties_Permutation (o : JSObject V) : Permutation (own_properties o) o.
Proof.
  unfold own_properties. rewrite Array_sort_Permutation. unfold JSObject in *.
  assert (forall (f : string * V -> option (Z * (string * V))) x l,
            omap f (x :: l)
            = match f x with Some y => y :: omap f l | None => omap f l end) as Hcons
    by reflexivity.
  induction o as [|[k v] o IH]; [done |].
  rewrite Hcons. cbn [fst]. destruct (array_index k) as [i|] eqn:E.
  - rewrite filter_cons_False by (cbn [fst]; by rewrite E). simpl. by constructor.
  - rewrite filter_cons_True by done. rewrite <- Permutation_middle. by constructor.
Qed.

Lemma Object_values_In (k : string) (v : V) (o : JSObject V) :
  In (k, v) o -> In v (Object_values o).
Proof.
  intros Hin. unfold Object_values.
  apply (in_map snd _ (k, v)).
  by apply (Permutation_in _ (Permutation_sym (own_properties_Permutation o))).
Qed.

End Registry.

(** ** More on the listing compiler and the sync ([lib/listing.ts]) *)

Section ListingFurther.
Context {rt : Platform} {D : Type} {dm : DepotManager D}.
Variable self : ListingsBuilder.

Lemma writeListingAsync_listings (N : string) (content : Promise JSValue) (s : State D) :
  listings (writeListingAsync self N content s).2 = listings s
  /\ Runs.unpublished s (writeListingAsync self N content s).2
  /\ exists p, (writeListingAsync self N content s).1 = Normal p
               /\ (forall d, p = Fulfilled d -> name d = N)
               /\ (forall e, content = Rejected e -> p = Rejected e).
Proof.
  destruct content as [content|e].
  - rewrite writeListingAsync_fulfilled. simpl. split; [done |]. split; [by split |].
    eexists. split; [done |]. split; [by intros d [= <-] | done].
  - rewrite writeListingAsync_rejected. simpl. split; [done |]. split; [by split |].
    eexists. split; [done |]. split; [done | by intros e' [= <-]].
Qed.

(** What a call of [writeListing] does to the registry, and what it leaves
    alone. *)
Lemma writeListing_run (N : string) (content : Promise JSValue) (s : State D) :
  Runs.unpublished s (writeListing self N content s).2
  /\ ((has_property N (listings s) = true
       /\ writeListing self N content s
          = (Throw ("Listing " +:+ N +:+ " has already been written."), s))
      \/ (has_property N (listings s) = false
          /\ exists p,
               (writeListing self N content s).1 = Normal p
               /\ listings (writeListing self N content s).2
                  = (listings s ++ [(N, p)])%list
               /\ (forall d, p = Fulfilled d -> name d = N)
               /\ (forall e, content = Rejected e -> p = Rejected e))).
Proof.
  destruct (has_property N (listings s)) eqn:Hnew.
  - assert (writeListing self N content s
            = (Throw ("Listing " +:+ N +:+ " has already been written."), s)) as E.
    { unfold writeListing. unfold_M. by rewrite Hnew. }
    rewrite E. split; [by split |]. by left.
  - destruct (writeListing_registers self N content s Hnew) as (p & E & Ep).
    destruct (writeListingAsync_listings N content s) as (Hl & Hu & p' & Ep' & Hname & Hrej).
    rewrite Ep in Ep'. injection Ep' as <-.
    rewrite E. simpl. split; [exact Hu |]. right. split; [done |].
    exists p. split; [done |]. split; [| done].
    rewrite Hl. apply set_property_new.
    unfold has_property in Hnew. by apply orb_false_iff in Hnew as [? _].
Qed.

(** X9. A registration whose payload is a rejected promise still takes
    the name: it returns the rejected promise, writes no file, and a later
    registration of the same name throws, whatever its payload. *)
Theorem failed_registration_keeps_the_name (name e : string) (content : Promise JSValue)
  (s : State D) :
  has_property name (listings s) = false ->
  exists s',
    writeListing self name (Rejected e) s = (Normal (Rejected e), s')
    /\ fs s' = fs s
    /\ writeListing self name content s'
       = (Throw ("Listing " +:+ name +:+ " has already been written."), s').
Proof.
  intros Hnew.
  assert (writeListing self name (Rejected e) s
          = (Normal (Rejected e), set_listings (set_property name (Rejected e)) s)) as E.
  { unfold writeListing. unfold mbind at 1. unfold M_bind, gets. rewrite Hnew.
    by rewrite (bind_normal _ _ _ _ _ (writeListingAsync_rejected self name e s)). }
  eexists. split; [exact E |]. split; [done |].
  unfold writeListing. unfold mbind at 1. unfold M_bind, gets. simpl.
  unfold has_property. by rewrite (proj1 (set_property_hasOwn name (Rejected e) (listings s))).
Qed.

Lemma finish_rejected (e : string) (s : State D) :
  Promise_all (Object_values (listings s)) = Rejected e ->
  finish self s = (Throw e, s).
Proof. intros Hall. unfold finish. unfold_M. by rewrite Hall. Qed.

(** X8. When the promise of a registered listing is rejected, [finish]
    throws its error and writes nothing, and the sync does not complete and
    uploads nothing: neither an artifact of the listings that were built nor
    the index. *)
Theorem rejected_listing_stops_finish_and_sync (e : string) (fullResync : bool)
  (s : State D) :
  Promise_all (Object_values (listings s)) = Rejected e ->
  finish self s = (Throw e, s)
  /\ (forall baseline, syncWithBaseline self baseline s = (Throw e, s))
  /\ (syncWithDepot self fullResync s).1 <> Normal tt
  /\ uploads (syncWithDepot self fullResync s).2 = uploads s
  /\ Spec.preserves s (syncWithDepot self fullResync s).2.
Proof.
  intros Hall. split; [by apply finish_rejected |].
  split; [intros baseline; by apply syncWithBaseline_rejected |].
  destruct (getJSON DEPOT_INDEX_PATH (depot s)) as [[[baseline|]| |] d'] eqn:Hget.
  - rewrite (syncWithDepot_baseline self fullResync baseline d' s Hget).
    rewrite (syncWithBaseline_rejected self baseline e (Spec.after_download d' s) Hall).
    by repeat split.
  - destruct fullResync.
    + rewrite (syncWithDepot_absent_resync self d' s Hget).
      rewrite (syncWithBaseline_rejected self [] e (Spec.after_download d' s) Hall).
      by repeat split.
    + rewrite (syncWithDepot_absent_exit self d' s Hget). by repeat split.
  - unfold syncWithDepot. rewrite (bind_throw _ _ _ _ _ (on_depot_run _ _ _ _ Hget)).
    by repeat split.
  - unfold syncWithDepot. rewrite (bind_exit _ _ _ _ _ (on_depot_run _ _ _ _ Hget)).
    by repeat split.
Qed.

(** X10. An index that the depot holds and that is not valid JSON stops
    the sync with the error of the parser, with or without the full resync
    flag, before anything is uploaded. *)
Theorem unreadable_index_stops_the_sync (content e : string) (d' : D)
  (fullResync : bool) (s : State D) :
  download DEPOT_INDEX_PATH (depot s) = (Normal (Some content), d') ->
  JSON_parse_index (Buffer_toString content) = Throw e ->
  syncWithDepot self fullResync s = (Throw e, Spec.after_download d' s)
  /\ uploads (Spec.after_download d' s) = uploads s.
Proof.
  intros Hd Hparse. split; [| done].
  assert (getJSON DEPOT_INDEX_PATH (depot s) = (Throw e, d')) as Hget.
  { unfold getJSON. rewrite (bind_normal _ _ _ _ _ Hd). unfold complete. by rewrite Hparse. }
  unfold syncWithDepot. by rewrite (bind_throw _ _ _ _ _ (on_depot_run _ _ _ _ Hget)).
Qed.

(** X11. An index whose content parses to a falsy value ([null], say) is
    handled as a missing one: without the full resync flag the process stops
    with status 1 after the instruction for the operator, with the flag the
    sync goes on from an empty baseline. *)
Theorem falsy_index_counts_as_missing (content : string) (d' : D) (s : State D) :
  download DEPOT_INDEX_PATH (depot s) = (Normal (Some content), d') ->
  JSON_parse_index (Buffer_toString content) = Normal None ->
  syncWithDepot self false s
  = (ProcessExit 1,
     set_console (fun c => (c ++ [Spec.resync_instruction])%list) (Spec.after_download d' s))
  /\ syncWithDepot self true s = syncWithBaseline self [] (Spec.after_download d' s).
Proof.
  intros Hd Hparse.
  assert (getJSON DEPOT_INDEX_PATH (depot s) = (Normal None, d')) as Hget.
  { unfold getJSON. rewrite (bind_normal _ _ _ _ _ Hd). unfold complete. by rewrite Hparse. }
  split; [by apply syncWithDepot_absent_exit | by apply syncWithDepot_absent_resync].
Qed.

(** *** The registry over a run *)

Lemma register_registry_ok (call : string * Promise JSValue) (s : State D) :
  Runs.registry_ok (listings s) ->
  Runs.registry_ok (listings (Runs.register self s call)).
Proof.
  intros [Hnd Hnames]. unfold Runs.register.
  destruct (writeListing_run call.1 call.2 s) as [_ [[_ E]|(Hnew & p & _ & El & Hname & _)]].
  - rewrite E. by split.
  - rewrite El. split.
    + rewrite map_app. simpl. apply NoDup_app. split; [done |]. split.
      * intros k Hk [<-|[]]%list_elem_of_In. apply list_elem_of_In, hasOwn_keys in Hk.
        unfold has_property in Hnew. apply orb_false_iff in Hnew as [Hnew _]. congruence.
      * apply NoDup_singleton.
    + intros k d Hin. apply in_app_or in Hin as [Hin|[[= <- ->]|[]]];
        [by apply Hnames | by apply Hname].
Qed.

Lemma register_keys (call : string * Promise JSValue) (s : State D) (k : string) :
  In k (map fst (listings (Runs.register self s call))) ->
  In k (map fst (listings s)) \/ k = call.1.
Proof.
  unfold Runs.register.
  destruct (writeListing_run call.1 call.2 s) as [_ [[_ E]|(Hnew & p & _ & El & _)]].
  - rewrite E. by left.
  - rewrite El, map_app. intros [Hin|[<-|[]]]%in_app_or; [by left | by right].
Qed.

Lemma registrations_registry_ok (calls : list (string * Promise JSValue)) (s : State D) :
  Runs.registry_ok (listings s) ->
  Runs.registry_ok (listings (Runs.registrations self calls s))
  /\ forall k, In k (map fst (listings (Runs.registrations self calls s))) ->
               In k (map fst (listings s)) \/ In k (map fst calls).
Proof.
  unfold Runs.registrations. revert s.
  induction calls as [|call calls IH]; intros s Hok; simpl; [split; [done | by left] |].
  destruct (IH _ (register_registry_ok call s Hok)) as [Hok' Hkeys].
  split; [done |]. intros k Hk. destruct (Hkeys k Hk) as [Hin|Hin]; [| by right; right].
  destruct (register_keys call s k Hin) as [Hold|Hnew]; [by left |].
  right. left. by rewrite Hnew.
Qed.

(** The descriptors of a registry in order are under their names. *)
Lemma registry_names (o : JSObject (Promise ListingDescriptor)) (ls : list ListingDescriptor) :
  (forall k d, In (k, Fulfilled d) o -> name d = k) ->
  map snd o = map Fulfilled ls -> map name ls = map fst o.
Proof.
  revert ls. induction o as [|[k p] o IH]; intros ls Hnames Hv; destruct ls as [|l ls];
    try done.
  simpl in *. injection Hv as -> Hv. f_equal.
  - apply Hnames. by left.
  - apply IH; [| done]. intros k' d Hin. apply Hnames. by right.
Qed.

Lemma registry_ok_names (o : JSObject (Promise ListingDescriptor))
  (ls : list ListingDescriptor) :
  Runs.registry_ok o ->
  Promise_all (Object_values o) = Fulfilled ls ->
  NoDup (map name ls) /\ Permutation (map name ls) (map fst o).
Proof.
  intros [Hnd Hnames] Hall. apply Promise_all_fulfilled in Hall.
  pose proof (own_properties_Permutation o) as Hperm.
  assert (map name ls = map fst (own_properties o)) as E.
  { apply registry_names; [| done]. intros k d Hin. apply Hnames.
    by apply (Permutation_in _ Hperm). }
  rewrite E. split; [by rewrite Hperm | by apply Permutation_map].
Qed.

(** X15. Over any run of registrations that starts from an empty
    registry, failed ones included: the descriptors that the sync gets from
    the registry have different names, each the name of a registration, and
    so the index it publishes holds one entry per name at most. *)
Theorem published_index_holds_each_name_once (calls : list (string * Promise JSValue))
  (ls : list ListingDescriptor) (s : State D) :
  listings s = [] ->
  Promise_all (Object_values (listings (Runs.registrations self calls s))) = Fulfilled ls ->
  NoDup (map name ls)
  /\ NoDup (map name (Array_sort Runs.byName ls))
  /\ forall l, In l ls -> In (name l) (map fst calls).
Proof.
  intros Hempty Hall.
  destruct (registrations_registry_ok calls s) as [Hok Hkeys].
  { rewrite Hempty. split; [constructor | by intros k d []]. }
  destruct (registry_ok_names _ ls Hok Hall) as [Hnd Hperm].
  split; [done |]. split.
  - by rewrite (Permutation_map name (Array_sort_Permutation Runs.byName ls)).
  - intros l Hin.
    assert (In (name l) (map fst (listings (Runs.registrations self calls s)))) as Hk.
    { apply (Permutation_in _ Hperm). by apply in_map. }
    destruct (Hkeys _ Hk) as [Hk'|Hk']; [| done]. by rewrite Hempty in Hk'.
Qed.

(** *** A sync against the index of the same listings *)

Lemma syncListings_all_skipped (existing : JSObject ListingDescriptor)
  (ls : list ListingDescriptor) (s : State D) :
  is_Some global_name ->
  (forall l, In l ls -> Spec.skips existing l = true) ->
  exists s', for_of ls (syncListing self existing) s = (Normal tt, s')
             /\ Spec.preserves s s' /\ uploads s' = uploads s.
Proof.
  intros Hname. revert s. induction ls as [|l ls IH]; intros s Hskip; simpl.
  - exists s. by repeat split.
  - destruct (syncListing_skip_bound self existing l s Hname (Hskip l (or_introl eq_refl)))
      as (s1 & E & Hp & Hu).
    rewrite (bind_normal _ _ _ _ _ E).
    destruct (IH s1) as (s2 & E2 & Hp2 & Hu2); [intros l' Hin; apply Hskip; by right |].
    exists s2. split; [done |]. split; [by eapply preserves_trans | by rewrite Hu2].
Qed.


End ListingFurther.

Section ListingFurtherWitnesses.
#[local] Existing Instance Demo.platform.

Lemma failed_a_rejected :
  Promise_all (Object_values (listings (Cases.failed_a Demo.localDepot)))
  = Rejected "unavailable".
Proof. vm_compute. reflexivity. Qed.

Lemma rejected_listing_stops_finish_and_sync_witness :
  finish Demo.builder (Cases.failed_a Demo.localDepot)
  = (Throw "unavailable", Cases.failed_a Demo.localDepot)
  /\ (forall baseline,
        syncWithBaseline Demo.builder baseline (Cases.failed_a Demo.localDepot)
        = (Throw "unavailable", Cases.failed_a Demo.localDepot))
  /\ (syncWithDepot Demo.builder true (Cases.failed_a Demo.localDepot)).1 <> Normal tt
  /\ uploads (syncWithDepot Demo.builder true (Cases.failed_a Demo.localDepot)).2
     = uploads (Cases.failed_a Demo.localDepot)
  /\ Spec.preserves (Cases.failed_a Demo.localDepot)
       (syncWithDepot Demo.builder true (Cases.failed_a Demo.localDepot)).2.
Proof.
  exact (rejected_listing_stops_finish_and_sync Demo.builder "unavailable" true
           (Cases.failed_a Demo.localDepot) failed_a_rejected).
Defined.

Lemma failed_registration_keeps_the_name_witness :
  exists s',
    writeListing Demo.builder "a" (Rejected "unavailable") (Demo.initial Demo.localDepot)
    = (Normal (Rejected "unavailable"), s')
    /\ fs s' = fs (Demo.initial Demo.localDepot)
    /\ writeListing Demo.builder "a" (Fulfilled JNull) s'
       = (Throw ("Listing " +:+ "a" +:+ " has already been written."), s').
Proof.
  exact (failed_registration_keeps_the_name Demo.builder "a" "unavailable" (Fulfilled JNull)
           (Demo.initial Demo.localDepot) eq_refl).
Defined.

Lemma depot_with_download (content : string) :
  download DEPOT_INDEX_PATH (depot (Demo.registered_a (Cases.depot_with content)))
  = (Normal (Some content), Cases.depot_with content).
Proof.
  vm_compute. reflexivity.
Qed.

Lemma unreadable_index_stops_the_sync_witness :
  syncWithDepot Demo.builder true (Demo.registered_a (Cases.depot_with "<html>"))
  = (Throw "SyntaxError",
     Spec.after_download (Cases.depot_with "<html>")
       (Demo.registered_a (Cases.depot_with "<html>")))
  /\ uploads (Spec.after_download (Cases.depot_with "<html>")
                (Demo.registered_a (Cases.depot_with "<html>")))
     = uploads (Demo.registered_a (Cases.depot_with "<html>")).
Proof.
  exact (unreadable_index_stops_the_sync Demo.builder "<html>" "SyntaxError"
           (Cases.depot_with "<html>") true
           (Demo.registered_a (Cases.depot_with "<html>"))
           (depot_with_download "<html>") eq_refl).
Defined.

Lemma falsy_index_counts_as_missing_witness :
  syncWithDepot Demo.builder false (Demo.registered_a (Cases.depot_with "null"))
  = (ProcessExit 1,
     set_console (fun c => (c ++ [Spec.resync_instruction])%list)
       (Spec.after_download (Cases.depot_with "null")
          (Demo.registered_a (Cases.depot_with "null"))))
  /\ syncWithDepot Demo.builder true (Demo.registered_a (Cases.depot_with "null"))
     = syncWithBaseline Demo.builder []
         (Spec.after_download (Cases.depot_with "null")
            (Demo.registered_a (Cases.depot_with "null"))).
Proof.
  exact (falsy_index_counts_as_missing Demo.builder "null" (Cases.depot_with "null")
           (Demo.registered_a (Cases.depot_with "null"))
           (depot_with_download "null") eq_refl).
Defined.

Lemma registrations_a_b_a :
  Promise_all
    (Object_values
       (listings
          (Runs.registrations Demo.builder
             [("a", Fulfilled JNull); ("b", Fulfilled (JBool true));
              ("a", Rejected "unavailable")]
             (Demo.initial Demo.localDepot))))
  = Fulfilled [Demo.listing_a; Demo.listing_b].
Proof. vm_compute. reflexivity. Qed.

Lemma published_index_holds_each_name_once_witness :
  NoDup (map name [Demo.listing_a; Demo.listing_b])
  /\ NoDup (map name (Array_sort Runs.byName [Demo.listing_a; Demo.listing_b]))
  /\ forall l, In l [Demo.listing_a; Demo.listing_b] ->
               In (name l)
                  (map fst [("a", Fulfilled JNull); ("b", Fulfilled (JBool true));
                            ("a", Rejected "unavailable")]).
Proof.
  exact (published_index_holds_each_name_once Demo.builder
           [("a", Fulfilled JNull); ("b", Fulfilled (JBool true));
            ("a", Rejected "unavailable")]
           [Demo.listing_a; Demo.listing_b] (Demo.initial Demo.localDepot)
           eq_refl registrations_a_b_a).
Defined.

End ListingFurtherWitnesses.

Section IdempotenceWitness.
#[local] Existing Instance Demo.window_platform.
#[local] Existing Instance Cases.archive.

Lemma registered_a_with_a_fulfilled :
  Promise_all (Object_values (listings (Demo.registered_a (Cases.remote_with Demo.index_a))))
  = Fulfilled [Demo.listing_a].
Proof. vm_compute. reflexivity. Qed.

Lemma remote_with_a_download :
  download DEPOT_INDEX_PATH (depot (Demo.registered_a (Cases.remote_with Demo.index_a)))
  = (Normal (Some (Spec.indexDocument [Demo.listing_a])),
     (WebDAV_download DEPOT_INDEX_PATH (Cases.remote_with Demo.index_a)).2).
Proof. vm_compute. reflexivity. Qed.


End IdempotenceWitness.

(** ** More on the run ([index.ts]) *)

Section MainFurther.
Context {rt : Platform} {api : MetaApi} {D : Type} {dm : DepotManager D}.

Lemma keeps_hasOwn (s s' : State D) (k : string) :
  Runs.keeps s s' -> hasOwn k (listings s) = true -> hasOwn k (listings s') = true.
Proof.
  intros Hk Hown. apply get_own_hasOwn in Hown as [p Hp]. apply get_own_hasOwn.
  exists p. by apply Hk.
Qed.

Lemma unpublished_trans (s1 s2 s3 : State D) :
  Runs.unpublished s1 s2 -> Runs.unpublished s2 s3 -> Runs.unpublished s1 s3.
Proof. intros [E1 E2] [E3 E4]. split; congruence. Qed.

Lemma writeListing_keeps (b : ListingsBuilder) (N : string) (content : Promise JSValue)
  (s : State D) :
  Runs.keeps s (writeListing b N content s).2.
Proof.
  destruct (writeListing_run b N content s) as [_ [[_ E]|(Hnew & p & _ & El & _)]].
  - rewrite E. by intros k q Hq.
  - intros k q Hq. rewrite El, get_own_app, Hq. done.
Qed.

(** The callback of the run on one version: it returns; it leaves the
    depot alone and keeps the registry; and for a safe version it returns
    a promise that is rejected or has the listing in the registry, rejected
    for sure when the name was in the registry before. *)
Lemma neoforgeListing_run (b : ListingsBuilder) (v : string) (s : State D) :
  exists y s',
    neoforgeListing b v s = (Normal y, s')
    /\ Runs.unpublished s s'
    /\ Runs.keeps s s'
    /\ (Data.isSafePath v = true ->
        exists p, y = Some p
          /\ ((exists e, p = Rejected e)
              \/ hasOwn ("neoforge/" +:+ v) (listings s') = true)
          /\ (hasOwn ("neoforge/" +:+ v) (listings s) = true -> exists e, p = Rejected e)).
Proof.
  unfold neoforgeListing. destruct (Data.isSafePath v) eqn:Hsafe; simpl.
  - unfold mbind at 1. unfold M_bind, then_.
    destruct (buildNeoForgeListing v) as [listing|e].
    + pose proof (writeListing_keeps b ("neoforge/" +:+ v) (Fulfilled listing) s) as Hkeeps.
      destruct (writeListing_run b ("neoforge/" +:+ v) (Fulfilled listing) s)
        as [Hu [[Hreg E]|(Hnew & p & Ep & El & _)]].
      * rewrite E. eexists _, s. split; [reflexivity |]. split; [by split |].
        split; [by intros k q Hq |]. intros _. eexists. split; [reflexivity |].
        split; [left; by eexists | intros _; by eexists].
      * destruct (writeListing b ("neoforge/" +:+ v) (Fulfilled listing) s) as [r s1].
        simpl in *. subst r. eexists _, s1. split; [reflexivity |].
        split; [done |]. split; [done |]. intros _. exists p. split; [done |]. split.
        -- right. apply hasOwn_keys. rewrite El, map_app. apply in_or_app. right. by left.
        -- intros Hown. unfold has_property in Hnew. rewrite Hown in Hnew. done.
    + eexists _, s. split; [reflexivity |]. split; [by split |].
      split; [by intros k q Hq |]. intros _. eexists. split; [reflexivity |].
      split; [left; by eexists | intros _; by eexists].
  - eexists _, _. split; [reflexivity |]. split; [by split |].
    split; [by intros k q Hq | done].
Qed.

Lemma Array_map_run (b : ListingsBuilder) (vs : list string) (s : State D) :
  exists rs s',
    Array_map (neoforgeListing b) vs s = (Normal rs, s')
    /\ Runs.unpublished s s' /\ Runs.keeps s s'.
Proof.
  revert s. induction vs as [|v vs IH]; intros s; simpl.
  - exists [], s. split; [done |]. split; [by split | by intros k q Hq].
  - destruct (neoforgeListing_run b v s) as (y & s1 & E & Hu & Hk & _).
    rewrite (bind_normal _ _ _ _ _ E).
    destruct (IH s1) as (rs & s2 & E2 & Hu2 & Hk2).
    rewrite (bind_normal _ _ _ _ _ E2).
    exists (y :: rs), s2. split; [done |]. split; [by eapply unpublished_trans |].
    intros k q Hq. by apply Hk2, Hk.
Qed.

(** A safe version whose listing is in the registry already gives a
    rejected promise, wherever it stands among the versions. *)
Lemma Array_map_registered (b : ListingsBuilder) (v : string) (vs : list string)
  (s : State D) :
  Data.isSafePath v = true -> In v vs ->
  hasOwn ("neoforge/" +:+ v) (listings s) = true ->
  exists rs s' e,
    Array_map (neoforgeListing b) vs s = (Normal rs, s') /\ In (Some (Rejected e)) rs.
Proof.
  intros Hsafe. revert s. induction vs as [|x vs IH]; intros s Hin Hown; [done |]. simpl.
  destruct (neoforgeListing_run b x s) as (y & s1 & E & _ & Hk & Hy).
  rewrite (bind_normal _ _ _ _ _ E). destruct Hin as [->|Hin].
  - destruct (Hy Hsafe) as (p & -> & _ & Hrej). destruct (Hrej Hown) as [e ->].
    destruct (Array_map_run b vs s1) as (rs & s2 & E2 & _).
    rewrite (bind_normal _ _ _ _ _ E2). exists (Some (Rejected e) :: rs), s2, e.
    split; [done | by left].
  - destruct (IH s1 Hin (keeps_hasOwn s s1 _ Hk Hown)) as (rs & s2 & e & E2 & Hrs).
    rewrite (bind_normal _ _ _ _ _ E2). exists (y :: rs), s2, e. split; [done | by right].
Qed.

(** A safe version that stands twice among the versions gives a rejected
    promise. *)
Lemma Array_map_twice (b : ListingsBuilder) (v : string) (l1 rest : list string)
  (s : State D) :
  Data.isSafePath v = true -> In v rest ->
  exists rs s' e,
    Array_map (neoforgeListing b) (l1 ++ v :: rest) s = (Normal rs, s')
    /\ In (Some (Rejected e)) rs.
Proof.
  intros Hsafe Hin. revert s. induction l1 as [|x l1 IH]; intros s; simpl.
  - destruct (neoforgeListing_run b v s) as (y & s1 & E & _ & _ & Hy).
    rewrite (bind_normal _ _ _ _ _ E).
    destruct (Hy Hsafe) as (p & -> & [[e ->]|Hown] & _).
    + destruct (Array_map_run b rest s1) as (rs & s2 & E2 & _).
      rewrite (bind_normal _ _ _ _ _ E2). exists (Some (Rejected e) :: rs), s2, e.
      split; [done | by left].
    + destruct (Array_map_registered b v rest s1 Hsafe Hin Hown) as (rs & s2 & e & E2 & Hrs).
      rewrite (bind_normal _ _ _ _ _ E2). exists (Some p :: rs), s2, e.
      split; [done | by right].
  - destruct (neoforgeListing_run b x s) as (y & s1 & E & _).
    rewrite (bind_normal _ _ _ _ _ E).
    destruct (IH s1) as (rs & s2 & e & E2 & Hrs).
    rewrite (bind_normal _ _ _ _ _ E2). exists (y :: rs), s2, e. split; [done | by right].
Qed.

Lemma buildNeoForgeListings_run (b : ListingsBuilder) (vs : list string) (s : State D) :
  exists r s',
    buildNeoForgeListings b vs s = (r, s')
    /\ Runs.unpublished s s' /\ Runs.keeps s s'
    /\ (r = Normal tt \/ exists msg, r = Throw msg)
    /\ forall rs, (Array_map (neoforgeListing b) vs s).1 = Normal rs ->
         forall e, In (Some (Rejected e)) rs -> exists msg, r = Throw msg.
Proof.
  unfold buildNeoForgeListings.
  destruct (Array_map_run b vs s) as (rs & s1 & E & Hu & Hk).
  rewrite (bind_normal _ _ _ _ _ E). rewrite E. unfold_M.
  destruct (Promise_all (omap id rs)) as [l|msg] eqn:Hall.
  - exists (Normal tt), s1. do 3 (split; [done |]). split; [by left |].
    intros rs' [= <-] e Hin. exfalso.
    destruct (Promise_all_rejected (omap id rs) e) as [msg Hmsg]; [| congruence].
    apply list_elem_of_In, list_elem_of_omap. exists (Some (Rejected e)).
    split; [by apply list_elem_of_In | done].
  - exists (Throw msg), s1. do 3 (split; [done |]). split; [right; by eexists |].
    intros; by eexists.
Qed.

(** The run up to the listings of the versions: the registry holds the
    promises of the two Minecraft documents. *)
Lemma main_prefix (now : string) (vs : list string) (fullResync : bool) (s : State D) :
  let b := {| destinationFolder := "output"; referenceDate := now |} in
  exists p1 p2 s2,
    main now vs fullResync s
    = (buildNeoForgeListings b vs;; finish b;; syncWithDepot b fullResync) s2
    /\ Runs.unpublished s s2
    /\ listings s2 = [("minecraft-releases-with-neoforge", p1);
                      ("minecraft-versions-with-neoforge", p2)]
    /\ (forall e, buildMinecraftVersionsWithNeoForge true = Rejected e -> p1 = Rejected e)
    /\ (forall e, buildMinecraftVersionsWithNeoForge false = Rejected e -> p2 = Rejected e).
Proof.
  intros b. unfold main. cbv zeta. fold b.
  set (s0 := set_listings (fun _ => []) (set_fs (fun _ => ∅) s)).
  assert (forall k : M (State D) unit,
            (modify (set_fs (fun _ => ∅));; modify (set_listings (fun _ => []));; k) s = k s0)
    as Hinit by reflexivity.
  rewrite Hinit.
  destruct (writeListing_run b "minecraft-releases-with-neoforge"
              (buildMinecraftVersionsWithNeoForge true) s0)
    as [Hu1 [[Hreg _]|(_ & p1 & Ep1 & El1 & _ & Hrej1)]]; [done |].
  destruct (writeListing b "minecraft-releases-with-neoforge"
              (buildMinecraftVersionsWithNeoForge true) s0) as [r1 s1] eqn:E1.
  simpl in Hu1, Ep1, El1. subst r1. rewrite (bind_normal _ _ _ _ _ E1).
  destruct (writeListing_run b "minecraft-versions-with-neoforge"
              (buildMinecraftVersionsWithNeoForge false) s1)
    as [Hu2 [[Hreg _]|(_ & p2 & Ep2 & El2 & _ & Hrej2)]].
  { rewrite El1 in Hreg. done. }
  destruct (writeListing b "minecraft-versions-with-neoforge"
              (buildMinecraftVersionsWithNeoForge false) s1) as [r2 s2] eqn:E2.
  simpl in Hu2, Ep2, El2. subst r2. rewrite (bind_normal _ _ _ _ _ E2).
  exists p1, p2, s2. split; [done |].
  split; [apply (unpublished_trans s s1 s2); [| done]; destruct Hu1; by split |].
  split; [by rewrite El2, El1 | by split].
Qed.

(** X13. When one of the two Minecraft documents cannot be assembled, the
    run throws before the sync: the depot is as it was and nothing has been
    uploaded, although the listings that could be built are in the
    destination folder. *)
Theorem failed_document_aborts_the_run (now : string) (vs : list string)
  (fullResync releasesOnly : bool) (e : string) (s : State D) :
  buildMinecraftVersionsWithNeoForge releasesOnly = Rejected e ->
  exists msg s',
    main now vs fullResync s = (Throw msg, s') /\ Runs.unpublished s s'.
Proof.
  intros Hdoc.
  destruct (main_prefix now vs fullResync s) as (p1 & p2 & s2 & E & Hu & Hl & Hr1 & Hr2).
  rewrite E.
  destruct (buildNeoForgeListings_run {| destinationFolder := "output"; referenceDate := now |}
              vs s2) as (r & s3 & Eb & Hu3 & Hk & Hr & _).
  destruct Hr as [->|[msg ->]].
  - rewrite (bind_normal _ _ _ _ _ Eb).
    assert (exists k, get_own k (listings s2) = Some (Rejected e)) as [k Hk2].
    { rewrite Hl. destruct releasesOnly.
      - exists "minecraft-releases-with-neoforge". by rewrite (Hr1 e Hdoc).
      - exists "minecraft-versions-with-neoforge". by rewrite (Hr2 e Hdoc). }
    apply Hk, get_own_In, Object_values_In in Hk2.
    destruct (Promise_all_rejected _ e Hk2) as [msg Hmsg].
    rewrite (bind_throw _ _ _ _ _ (finish_rejected _ msg s3 Hmsg)).
    exists msg, s3. split; [done |]. by eapply unpublished_trans.
  - rewrite (bind_throw _ _ _ _ _ Eb). exists msg, s3. split; [done |].
    by eapply unpublished_trans.
Qed.

Lemma neoforge_name_not_inherited (v : string) : inherited ("neoforge/" +:+ v) = false.
Proof. reflexivity. Qed.

(** The callback on a safe version whose details are there: the listing
    is in the registry afterwards, and if it was there before, the
    registration is refused and nothing changes. *)
Lemma neoforgeListing_registers (b : ListingsBuilder) (v : string)
  (details : NeoForgeVersionDetails) (s : State D) :
  Data.isSafePath v = true ->
  getNeoForgeDetails v = Fulfilled details ->
  exists p s',
    neoforgeListing b v s = (Normal (Some p), s')
    /\ Runs.unpublished s s' /\ Runs.keeps s s'
    /\ hasOwn ("neoforge/" +:+ v) (listings s') = true
    /\ (hasOwn ("neoforge/" +:+ v) (listings s) = true ->
        p = Rejected ("Listing " +:+ ("neoforge/" +:+ v) +:+ " has already been written.")
        /\ s' = s).
Proof.
  intros Hsafe Hdetails. unfold neoforgeListing. rewrite Hsafe. simpl.
  unfold buildNeoForgeListing. rewrite Hdetails. unfold mbind at 1. unfold M_bind, then_.
  set (listing := JObject [("release_notes", release_notes details)]).
  pose proof (writeListing_keeps b ("neoforge/" +:+ v) (Fulfilled listing) s) as Hkeeps.
  destruct (writeListing_run b ("neoforge/" +:+ v) (Fulfilled listing) s)
    as [Hu [[Hreg E]|(Hnew & p & Ep & El & _)]].
  - rewrite E. eexists _, s. split; [reflexivity |]. split; [by split |].
    split; [by intros k q Hq |]. split; [| done].
    unfold has_property in Hreg. by rewrite neoforge_name_not_inherited, orb_false_r in Hreg.
  - destruct (writeListing b ("neoforge/" +:+ v) (Fulfilled listing) s) as [r s1].
    simpl in *. subst r. exists p, s1. split; [reflexivity |]. do 2 (split; [done |]). split.
    + apply hasOwn_keys. rewrite El, map_app. apply in_or_app. right. by left.
    + intros Hown. unfold has_property in Hnew. by rewrite Hown in Hnew.
Qed.

Lemma Array_map_cons {St A B} (f : A -> M St B) (x : A) (l : list A) (s s1 s2 : St)
  (y : B) (ys : list B) :
  f x s = (Normal y, s1) -> Array_map f l s1 = (Normal ys, s2) ->
  Array_map f (x :: l) s = (Normal (y :: ys), s2).
Proof.
  intros E1 E2. simpl. rewrite (bind_normal _ _ _ _ _ E1). by rewrite (bind_normal _ _ _ _ _ E2).
Qed.

Lemma Array_map_app {St A B} (f : A -> M St B) (l1 l2 : list A) (s s1 s2 : St)
  (ys1 ys2 : list B) :
  Array_map f l1 s = (Normal ys1, s1) -> Array_map f l2 s1 = (Normal ys2, s2) ->
  Array_map f (l1 ++ l2)%list s = (Normal (ys1 ++ ys2)%list, s2)
  /\ List.length ys1 = List.length l1.
Proof.
  revert s ys1. induction l1 as [|x l1 IH]; intros s ys1; simpl.
  - by intros [= <- <-] E2.
  - intros E1 E2. unfold mbind, M_bind, mret, M_ret in E1 |- *.
    destruct (f x s) as [[y| |] sa]; [| done | done].
    destruct (Array_map f l1 sa) as [[ys| |] sb] eqn:El1; [| done | done].
    injection E1 as <- <-. destruct (IH sa ys El1 E2) as [E Hlen]. rewrite E. simpl.
    split; [done | by rewrite Hlen].
Qed.

(** X12. A safe version that the list of versions holds twice, and whose
    details the service has, stops the run. The callback of the second
    entry finds the listing of the version in the registry, where that of
    the first has left it, and its registration is refused; the promise of
    that entry is rejected with the refusal, [Promise.all] rejects, and the
    run throws one of the rejections of the callbacks there, before [finish]
    and the sync: the state is the one that the callbacks have left, with
    the depot as it was and nothing uploaded. *)
Theorem version_listed_twice_aborts_the_run (now : string) (l1 l2 l3 : list string)
  (v : string) (details : NeoForgeVersionDetails) (fullResync : bool) (s : State D) :
  Data.isSafePath v = true ->
  getNeoForgeDetails v = Fulfilled details ->
  let b := {| destinationFolder := "output"; referenceDate := now |} in
  let refusal := "Listing " +:+ ("neoforge/" +:+ v) +:+ " has already been written." in
  exists s2 rs1 first rs2 rs3 msg s',
    Runs.unpublished s s2
    /\ Array_map (neoforgeListing b) (l1 ++ v :: l2 ++ v :: l3)%list s2
       = (Normal (rs1 ++ first :: rs2 ++ Some (Rejected refusal) :: rs3)%list, s')
    /\ List.length rs1 = List.length l1
    /\ List.length rs2 = List.length l2
    /\ main now (l1 ++ v :: l2 ++ v :: l3)%list fullResync s = (Throw msg, s')
    /\ In (Some (Rejected msg))
         (rs1 ++ first :: rs2 ++ Some (Rejected refusal) :: rs3)%list
    /\ Runs.unpublished s s'.
Proof.
  intros Hsafe Hdetails b refusal.
  destruct (main_prefix now (l1 ++ v :: l2 ++ v :: l3)%list fullResync s)
    as (p1 & p2 & s2 & E & Hu & _). fold b in E.
  destruct (Array_map_run b l1 s2) as (rs1 & sa & E1 & Hua & _).
  destruct (neoforgeListing_registers b v details sa Hsafe Hdetails)
    as (first & sb & Eb & Hub & _ & Hown & _).
  destruct (Array_map_run b l2 sb) as (rs2 & sc & E2 & Huc & Hkc).
  destruct (neoforgeListing_registers b v details sc Hsafe Hdetails)
    as (second & sc' & Ec & _ & _ & _ & Hrefused).
  destruct (Hrefused (keeps_hasOwn sb sc _ Hkc Hown)) as [-> ->].
  destruct (Array_map_run b l3 sc) as (rs3 & sd & E3 & Hud & _).
  pose proof (Array_map_cons _ _ _ _ _ _ _ _ Ec E3) as Etail.
  destruct (Array_map_app _ _ _ _ _ _ _ _ E2 Etail) as [Emid Hlen2].
  pose proof (Array_map_cons _ _ _ _ _ _ _ _ Eb Emid) as Efrom.
  destruct (Array_map_app _ _ _ _ _ _ _ _ E1 Efrom) as [Eall Hlen1].
  set (rs := (rs1 ++ Some first :: rs2 ++ Some (Rejected refusal) :: rs3)%list) in *.
  assert (exists msg, Promise_all (omap id rs) = Rejected msg) as [msg Hmsg].
  { apply (Promise_all_rejected _ refusal). apply list_elem_of_In, list_elem_of_omap.
    exists (Some (Rejected refusal)). split; [| done]. apply list_elem_of_In.
    unfold rs. apply in_or_app. right. right. apply in_or_app. right. by left. }
  assert (Runs.unpublished s sd) as Hsd.
  { apply (unpublished_trans s s2); [done |]. apply (unpublished_trans s2 sa); [done |].
    apply (unpublished_trans sa sb); [done |]. by apply (unpublished_trans sb sc). }
  exists s2, rs1, (Some first), rs2, rs3, msg, sd.
  split; [done |]. split; [exact Eall |]. do 2 (split; [done |]). split; [| split; [| done]].
  - assert (buildNeoForgeListings b (l1 ++ v :: l2 ++ v :: l3)%list s2 = (Throw msg, sd))
      as Ethrow.
    { unfold buildNeoForgeListings. rewrite (bind_normal _ _ _ _ _ Eall).
      unfold rs, refusal in Hmsg. unfold mbind, M_bind, await. by rewrite Hmsg. }
    rewrite E. by rewrite (bind_throw _ _ _ _ _ Ethrow).
  - apply Promise_all_rejection, list_elem_of_In, list_elem_of_omap in Hmsg
      as ([p|] & Hin & Hp); [| done]. simpl in Hp. injection Hp as ->.
    by apply list_elem_of_In.
Qed.

End MainFurther.

Section MainFurtherWitnesses.
#[local] Existing Instance Demo.platform.

Lemma failed_document_aborts_the_run_witness :
  exists msg s',
    main (api:=Cases.failing_api) "2025-01-01T00:00:00.000Z" ["21.1.72"] true
      (Demo.initial Demo.localDepot)
    = (Throw msg, s')
    /\ Runs.unpublished (Demo.initial Demo.localDepot) s'.
Proof.
  exact (failed_document_aborts_the_run (api:=Cases.failing_api)
           "2025-01-01T00:00:00.000Z" ["21.1.72"] true true "unavailable"
           (Demo.initial Demo.localDepot) eq_refl).
Defined.

Lemma version_listed_twice_aborts_the_run_witness :
  exists s2 rs1 first rs2 rs3 msg s',
    Runs.unpublished (Demo.initial Demo.localDepot) s2
    /\ Array_map (neoforgeListing (api:=Demo.api) Demo.builder)
         (["21.1.71"] ++ "21.1.72" :: ["21.1.73"] ++ "21.1.72" :: [])%list s2
       = (Normal (rs1 ++ first :: rs2
                  ++ Some (Rejected "Listing neoforge/21.1.72 has already been written.")
                  :: rs3)%list, s')
    /\ List.length rs1 = 1%nat
    /\ List.length rs2 = 1%nat
    /\ main (api:=Demo.api) "2025-01-01T00:00:00.000Z"
         (["21.1.71"] ++ "21.1.72" :: ["21.1.73"] ++ "21.1.72" :: [])%list true
         (Demo.initial Demo.localDepot)
       = (Throw msg, s')
    /\ In (Some (Rejected msg))
         (rs1 ++ first :: rs2
          ++ Some (Rejected "Listing neoforge/21.1.72 has already been written.")
          :: rs3)%list
    /\ Runs.unpublished (Demo.initial Demo.localDepot) s'.
Proof.
  exact (version_listed_twice_aborts_the_run (api:=Demo.api)
           "2025-01-01T00:00:00.000Z" ["21.1.71"] ["21.1.73"] [] "21.1.72"
           {| release_notes := JString ("notes of " +:+ "21.1.72") |} true
           (Demo.initial Demo.localDepot) eq_refl eq_refl).
Defined.

End MainFurtherWitnesses.

(** ** Where the artifacts of a safe version go *)

Section Layout.

Lemma characters_append (s t : string) :
  Spec.characters (s +:+ t) = (Spec.characters s ++ Spec.characters t)%list.
Proof.
  unfold Spec.characters. induction s as [|a s IH]; [done |].
  rewrite append_cons. simpl. by rewrite IH.
Qed.

Lemma slash_is_not_allowed : ~ Spec.allowed "/".
Proof.
  unfold Spec.allowed, Spec.alphanumeric.
  change (nat_of_ascii "/") with 47%nat. cbv zeta.
  intros [[H|[H|H]]|[H|[H|[H|H]]]]; try lia; discriminate H.
Qed.

Lemma safe_without_slash (version : string) :
  Data.isSafePath version = true -> ~ In "/"%char (Spec.characters version).
Proof.
  intros Hsafe Hin. apply slash_is_not_allowed.
  by apply (proj1 (isSafePath_characters version) Hsafe).
Qed.

(** X14. The artifacts of the listing of a safe version lie directly in
    the directory [neoforge]: the path of each splits at the slashes into
    [neoforge] and the name of the file, whose only ancestor directory is
    [neoforge/], and the name of the file is a name proper, not the empty
    string, [.] or [..], also for the versions made of periods that
    [isSafePath] accepts. *)
Theorem safe_version_artifacts_lie_in_one_directory (version extension : string) :
  Data.isSafePath version = true ->
  In extension extensionsToUpload ->
  split "/" ("neoforge/" +:+ version +:+ "." +:+ extension)
  = ["neoforge"; version +:+ "." +:+ extension]
  /\ Spec.ancestorPrefixes ("neoforge/" +:+ version +:+ "." +:+ extension) = ["neoforge/"]
  /\ ~ In (version +:+ "." +:+ extension) [""; "."; ".."].
Proof.
  intros Hsafe Hext.
  change extensionsToUpload with ["json"; "json.br"; "json.gz"] in Hext.
  assert (~ In "/"%char (Spec.characters (version +:+ "." +:+ extension))) as Hfree.
  { rewrite characters_append. intros [Hin|Hin]%in_app_or.
    - by apply (safe_without_slash version Hsafe).
    - simpl in Hext. destruct Hext as [<-|[<-|[<-|[]]]]; simpl in Hin;
        repeat (destruct Hin as [Hin|Hin]; [discriminate Hin |]); done. }
  assert (split "/" ("neoforge/" +:+ version +:+ "." +:+ extension)
          = ["neoforge"; version +:+ "." +:+ extension]) as Hsplit.
  { change ("neoforge/" +:+ version +:+ "." +:+ extension)
      with ("neoforge" +:+ String "/" (version +:+ "." +:+ extension)).
    rewrite split_app_sep by (simpl; intros H; repeat (destruct H as [H|H]; [discriminate H |]); done).
    by rewrite (split_no_sep "/" _ Hfree). }
  split; [done |]. split.
  - unfold Spec.ancestorPrefixes, Spec.directorySegments. by rewrite Hsplit.
  - assert (4 < String.length (version +:+ "." +:+ extension))%nat as Hlen.
    { rewrite !length_append. simpl in Hext.
      destruct Hext as [<-|[<-|[<-|[]]]]; simpl; lia. }
    intros [E|[E|[E|[]]]]; rewrite <- E in Hlen; simpl in Hlen; lia.
Qed.

Lemma safe_version_artifacts_lie_in_one_directory_witness :
  split "/" ("neoforge/" +:+ ".." +:+ "." +:+ "json") = ["neoforge"; ".." +:+ "." +:+ "json"]
  /\ Spec.ancestorPrefixes ("neoforge/" +:+ ".." +:+ "." +:+ "json") = ["neoforge/"]
  /\ ~ In (".." +:+ "." +:+ "json") [""; "."; ".."].
Proof.
  apply (safe_version_artifacts_lie_in_one_directory ".." "json").
  - reflexivity.
  - by left.
Defined.

End Layout.

(** ** The choice of the depot ([createDepot]) *)

Section FactoryProofs.
Context {net : Network}.
Implicit Types d : WebDAVDepotManager.

Lemma truthy_opt_set_to (variable : option string) :
  truthy_opt variable = true <-> exists value, Factory.set_to variable value.
Proof.
  unfold Factory.set_to. destruct variable as [value|]; simpl.
  - unfold truthy. rewrite negb_true_iff, String.eqb_neq. split.
    + intros Hne. by exists value.
    + by intros (v & [= <-] & Hne).
  - split; [done | by intros (v & Hv & _)].
Qed.

Lemma endsWith_append (c : ascii) (s : string) :
  endsWith c (s +:+ String c "") = true.
Proof.
  induction s as [|a s IH]; [simpl; by rewrite Ascii.eqb_refl |].
  rewrite append_cons. simpl.
  destruct (s +:+ String c "") eqn:E; [by destruct s | done].
Qed.

(** What the constructor makes of the configuration: the base URL ends
    with a slash, and is the configured one up to that slash. *)
Lemma new_WebDAVDepotManager_url (config : WebDAVDepotConfig) (srv : Server) :
  endsWith "/" (webdavUrl (new_WebDAVDepotManager config srv)) = true
  /\ (webdavUrl (new_WebDAVDepotManager config srv) = config_webdavUrl config
      \/ (endsWith "/" (config_webdavUrl config) = false
          /\ webdavUrl (new_WebDAVDepotManager config srv) = config_webdavUrl config +:+ "/")).
Proof.
  simpl. destruct (endsWith "/" (config_webdavUrl config)) eqn:E.
  - split; [done | by left].
  - split; [apply endsWith_append | right; by split].
Qed.

(** What [createDepot] has found in the environment when it returns a
    remote depot, and what the instance is made of. *)
Lemma createDepot_remote_inv (env : Factory.Environment) (disk : Disk)
  (srv : Server) d :
  Factory.createDepot env disk srv = Normal (Factory.Remote d) ->
  truthy_opt (Factory.DEPOT_BASE_URL env) = true
  /\ truthy_opt (Factory.LOCAL_DEPOT_PATH env) = false
  /\ exists token url,
       Factory.set_to (Factory.DEPOT_MANAGER_TOKEN env) token
       /\ Factory.set_to (Factory.DEPOT_MANAGER_BASE_URL env) url
       /\ authHeader d = Some ("Bearer " +:+ token)
       /\ endsWith "/" (webdavUrl d) = true
       /\ (webdavUrl d = url
           \/ (endsWith "/" url = false /\ webdavUrl d = url +:+ "/"))
       /\ createdDirectories d = ∅
       /\ exchanges d = []
       /\ server d = srv.
Proof.
  unfold Factory.createDepot.
  destruct (truthy_opt (Factory.DEPOT_BASE_URL env)); [| done]. simpl.
  destruct (truthy_opt (Factory.LOCAL_DEPOT_PATH env)); [done |].
  destruct (truthy_opt (Factory.DEPOT_MANAGER_TOKEN env)) eqn:Et; [| done]. simpl.
  destruct (truthy_opt (Factory.DEPOT_MANAGER_BASE_URL env)) eqn:Eu; [| done]. simpl.
  apply truthy_opt_set_to in Et as [token Ht]. apply truthy_opt_set_to in Eu as [url Hu].
  intros [= <-]. do 2 (split; [done |]). exists token, url. do 2 (split; [done |]).
  destruct (new_WebDAVDepotManager_url
              {| config_webdavUrl := default "" (Factory.DEPOT_MANAGER_BASE_URL env);
                 config_token := Factory.DEPOT_MANAGER_TOKEN env |} srv) as [Hends Hurl].
  destruct Ht as [Ht Hne], Hu as [Hu _]. rewrite Ht, Hu in *. simpl in Hends, Hurl.
  split.
  { simpl. unfold truthy. by rewrite (proj2 (String.eqb_neq token "") Hne). }
  by repeat split.
Qed.

(** X17. [createDepot] returns a remote depot exactly when the public
    base URL, the token and the base URL of the depot manager are set and
    not empty and no local path is; and the instance it returns then sends
    the token as a bearer authorization, has a base URL that ends with a
    slash (the configured one, with a slash added if it had none), and
    starts with no directory known and no request made. *)
Theorem createDepot_remote (env : Factory.Environment) (disk : Disk)
  (srv : Server) :
  ((exists d, Factory.createDepot env disk srv = Normal (Factory.Remote d))
   <-> truthy_opt (Factory.DEPOT_BASE_URL env) = true
       /\ truthy_opt (Factory.LOCAL_DEPOT_PATH env) = false
       /\ truthy_opt (Factory.DEPOT_MANAGER_TOKEN env) = true
       /\ truthy_opt (Factory.DEPOT_MANAGER_BASE_URL env) = true)
  /\ forall d,
       Factory.createDepot env disk srv = Normal (Factory.Remote d) ->
       exists token url,
         Factory.set_to (Factory.DEPOT_MANAGER_TOKEN env) token
         /\ Factory.set_to (Factory.DEPOT_MANAGER_BASE_URL env) url
         /\ authHeader d = Some ("Bearer " +:+ token)
         /\ endsWith "/" (webdavUrl d) = true
         /\ (webdavUrl d = url
             \/ (endsWith "/" url = false /\ webdavUrl d = url +:+ "/"))
         /\ createdDirectories d = ∅
         /\ exchanges d = []
         /\ server d = srv.
Proof.
  split; [| intros d E; by destruct (createDepot_remote_inv env disk srv d E) as (_ & _ & H)].
  split.
  - intros [d E].
    destruct (createDepot_remote_inv env disk srv d E) as (Hb & Hl & token & url & Ht & Hu & _).
    do 2 (split; [done |]). split; apply truthy_opt_set_to; by eexists.
  - intros (Hb & Hl & Ht & Hu). unfold Factory.createDepot.
    rewrite Hb, Hl, Ht, Hu. simpl. by eexists.
Qed.

(** *** The requests of an instance *)

Lemma steady_refl d : Factory.steady d d.
Proof. split; [done |]. split; [done |]. exists []. by rewrite app_nil_r. Qed.

Lemma addressed_steady d d' (e : Exchange) :
  webdavUrl d' = webdavUrl d -> authHeader d' = authHeader d ->
  Factory.addressed d' e -> Factory.addressed d e.
Proof. intros Hw Ha [H1 H2]. split; [by rewrite H1 | by rewrite H2, Hw]. Qed.

Lemma steady_trans d1 d2 d3 :
  Factory.steady d1 d2 -> Factory.steady d2 d3 -> Factory.steady d1 d3.
Proof.
  intros (Hw & Ha & n1 & He & Hf) (Hw' & Ha' & n2 & He' & Hf').
  split; [congruence |]. split; [congruence |]. exists (n1 ++ n2)%list.
  split; [by rewrite He', He, app_assoc |]. apply Forall_app. split; [done |].
  eapply Forall_impl; [exact Hf' |]. intros e. by apply addressed_steady.
Qed.

Lemma steady_one d d' (e : Exchange) :
  webdavUrl d' = webdavUrl d -> authHeader d' = authHeader d ->
  exchanges d' = (exchanges d ++ [e])%list -> Factory.addressed d e ->
  Factory.steady d d'.
Proof.
  intros Hw Ha He Hadd. split; [done |]. split; [done |]. exists [e].
  split; [done |]. by constructor.
Qed.

Lemma ensurePrefix_steady (p : string) d : Factory.steady d (ensurePrefix p d).2.
Proof.
  unfold ensurePrefix. unfold mbind at 1. unfold M_bind, gets.
  case_bool_decide; [apply steady_refl |].
  unfold mbind at 1. unfold M_bind. unfold mbind at 1. unfold M_bind.
  set (req := {| method := MKCOL; requestUrl := URL_resolve p (webdavUrl d);
                 authorization := authHeader d; contentType := None; body := None |}).
  destruct (fetch_spec p req d) as (d2 & E2 & Hw2 & Ha2 & Hc2 & He2).
  rewrite (bind_normal _ _ _ _ _ E2).
  assert (Factory.steady d d2) as Hs by (by apply (steady_one d d2 _ Hw2 Ha2 He2)).
  destruct ((serve req (server d)).1) as [response|cause message]; [| done].
  destruct ((status response =? 201) || (status response =? 405)); [| done].
  unfold createdDirectories_add, modify. simpl.
  destruct Hs as (Hw & Ha & new & He & Hf). split; [done |]. split; [done |]. by exists new.
Qed.

Lemma ensureParts_steady (parts : list string) (cur : string) d :
  Factory.steady d (ensureParts parts cur d).2.
Proof.
  revert cur d. induction parts as [|part parts IH]; intros cur d; [apply steady_refl |].
  simpl ensureParts.
  pose proof (ensurePrefix_steady (cur +:+ part +:+ "/") d) as Hs.
  destruct (ensurePrefix (cur +:+ part +:+ "/") d) as [[[]| |] d1] eqn:E; simpl in Hs.
  - rewrite (bind_normal _ _ _ _ _ E). eapply steady_trans; [exact Hs | apply IH].
  - by rewrite (bind_throw _ _ _ _ _ E).
  - by rewrite (bind_exit _ _ _ _ _ E).
Qed.

Lemma ensureDirectoryExists_steady (dirPath : string) d :
  Factory.steady d (ensureDirectoryExists dirPath d).2.
Proof.
  unfold ensureDirectoryExists. unfold mbind at 1. unfold M_bind, gets.
  case_bool_decide; [apply steady_refl | apply ensureParts_steady].
Qed.

Lemma WebDAV_upload_steady (relativePath content : string) d :
  Factory.steady d (WebDAV_upload relativePath content d).2.
Proof.
  unfold WebDAV_upload. cbv zeta.
  set (dirname := substring relativePath 0 (lastIndexOf "/" relativePath)).
  assert (Factory.steady d
            ((if truthy dirname then ensureDirectoryExists dirname else mret tt) d).2) as Hs.
  { destruct (truthy dirname); [apply ensureDirectoryExists_steady | apply steady_refl]. }
  destruct ((if truthy dirname then ensureDirectoryExists dirname else mret tt) d)
    as [[[]| |] d1] eqn:E; simpl in Hs.
  - rewrite (bind_normal _ _ _ _ _ E).
    destruct (upload_put relativePath content d1)
      as (e & d2 & E2 & He & [_ [Ht _]] & Ha & Hu & _ & Hw2 & Ha2).
    rewrite E2. simpl. eapply steady_trans; [exact Hs |].
    apply (steady_one d1 d2 e Hw2 Ha2 He). split; [done | by rewrite Hu, Ht].
  - by rewrite (bind_throw _ _ _ _ _ E).
  - by rewrite (bind_exit _ _ _ _ _ E).
Qed.

Lemma WebDAV_download_steady (relativePath : string) d :
  Factory.steady d (WebDAV_download relativePath d).2.
Proof.
  destruct (WebDAV_download_run relativePath d)
    as (e & d2 & E & He & [_ Ht] & Ha & Hu & _ & Hw2 & Ha2).
  rewrite E. simpl. apply (steady_one d d2 e Hw2 Ha2 He). split; [done | by rewrite Hu, Ht].
Qed.

Lemma perform_steady d (calls : list Spec.DepotCall) :
  Factory.steady d (fold_left Spec.perform calls d).
Proof.
  revert d. induction calls as [|c calls IH]; intros d; [apply steady_refl |]. simpl.
  eapply steady_trans; [| apply IH].
  destruct c; [apply WebDAV_upload_steady | apply WebDAV_download_steady].
Qed.

(** X18. Every request that a remote depot returned by [createDepot]
    makes, over any sequence of uploads and downloads and whatever they
    return, carries the configured token as its bearer authorization and
    goes to the path it is about, resolved against the one base URL that
    ends with a slash. *)
Theorem every_request_of_a_created_depot_is_authorized (env : Factory.Environment)
  (disk : Disk) (srv : Server) (d : WebDAVDepotManager)
  (calls : list Spec.DepotCall) :
  Factory.createDepot env disk srv = Normal (Factory.Remote d) ->
  exists token base,
    Factory.set_to (Factory.DEPOT_MANAGER_TOKEN env) token
    /\ endsWith "/" base = true
    /\ Forall (fun e => authorization (request e) = Some ("Bearer " +:+ token)
                        /\ requestUrl (request e) = URL_resolve (target e) base)
         (exchanges (fold_left Spec.perform calls d)).
Proof.
  intros E.
  destruct (createDepot_remote_inv env disk srv d E)
    as (_ & _ & token & url & Ht & Hu & Hauth & Hends & _ & _ & Hex & _).
  exists token, (webdavUrl d). do 2 (split; [done |]).
  destruct (perform_steady d calls) as (_ & _ & new & He & Hf).
  rewrite He, Hex. simpl. eapply Forall_impl; [exact Hf |].
  intros e [H1 H2]. split; [by rewrite H1 | done].
Qed.

End FactoryProofs.

Section FactoryWitnesses.
#[local] Existing Instance Demo.network.

Lemma every_request_of_a_created_depot_is_authorized_witness :
  exists token base,
    Factory.set_to (Factory.DEPOT_MANAGER_TOKEN Cases.remote_environment) token
    /\ endsWith "/" base = true
    /\ Forall (fun e => authorization (request e) = Some ("Bearer " +:+ token)
                        /\ requestUrl (request e) = URL_resolve (target e) base)
         (exchanges
            (fold_left Spec.perform
               [Spec.CallDownload ".depot-index.json";
                Spec.CallUpload "neoforge/21.1.72.json" "{}"]
               (new_WebDAVDepotManager
                  {| config_webdavUrl := "https://depot.example/dav";
                     config_token := Some "secret" |} []))).
Proof.
  exact (every_request_of_a_created_depot_is_authorized (net:=Demo.network)
           Cases.remote_environment ∅ []
           (new_WebDAVDepotManager
              {| config_webdavUrl := "https://depot.example/dav";
                 config_token := Some "secret" |} [])
           [Spec.CallDownload ".depot-index.json";
            Spec.CallUpload "neoforge/21.1.72.json" "{}"]
           eq_refl).
Defined.

End FactoryWitnesses.

(** ** The caches of the version metadata ([lib/versions.ts]) *)

Section VersionsProofs.
Import Versions Assembly.
Context {client : Client}.
Implicit Types api : VersionsApi.

Lemma extends_refl api : extends api api.
Proof. by split. Qed.

Lemma extends_trans api1 api2 api3 :
  extends api1 api2 -> extends api2 api3 -> extends api1 api3.
Proof. intros [H1 H2] [H3 H4]. split; intros k p Hp; [by apply H3, H1 | by apply H4, H2]. Qed.

Lemma requestedMinecraft_snoc (cs : list Call) (c : Call) :
  requestedMinecraft (cs ++ [c])
  = (requestedMinecraft cs
     ++ match c with MinecraftVersion v => [v] | _ => [] end)%list.
Proof. unfold requestedMinecraft. rewrite omap_app. by destruct c. Qed.

Lemma requestedNeoForge_snoc (cs : list Call) (c : Call) :
  requestedNeoForge (cs ++ [c])
  = (requestedNeoForge cs
     ++ match c with NeoForgeVersion v => [v] | _ => [] end)%list.
Proof. unfold requestedNeoForge. rewrite omap_app. by destruct c. Qed.

(** One more key, not inherited and not in the list, keeps a list of keys
    without duplicates and without inherited names. *)
Lemma keys_snoc {A} (cache : JSObject (Promise A)) (requested : list string) (v : string)
  (p : Promise A) :
  map fst cache = requested -> NoDup requested ->
  Forall (fun k => inherited k = false) requested ->
  get_property v cache = Undefined ->
  set_property v p cache = (cache ++ [(v, p)])%list
  /\ map fst (cache ++ [(v, p)]) = (requested ++ [v])%list
  /\ NoDup (requested ++ [v])
  /\ Forall (fun k => inherited k = false) (requested ++ [v]).
Proof.
  intros Hkeys Hnd Hinh Hget. unfold get_property in Hget.
  destruct (get_own v cache) as [q|] eqn:Eown; [done |].
  destruct (inherited v) eqn:Ev; [done |].
  assert (hasOwn v cache = false) as Hown.
  { destruct (hasOwn v cache) eqn:E; [| done].
    apply get_own_hasOwn in E as [q Hq]. congruence. }
  split; [by apply set_property_new |]. split; [by rewrite map_app, Hkeys |]. split.
  - apply NoDup_app. split; [done |]. split; [| apply NoDup_singleton].
    intros k Hk [<-|[]]%list_elem_of_In. apply list_elem_of_In in Hk.
    rewrite <- Hkeys in Hk. apply hasOwn_keys in Hk. congruence.
  - apply Forall_app. split; [done |]. by constructor.
Qed.

Lemma get_own_snoc {A} (cache : JSObject A) (k v : string) (p q : A) :
  get_own k cache = Some q -> get_own k (cache ++ [(v, p)])%list = Some q.
Proof. intros Hq. by rewrite get_own_app, Hq. Qed.

Lemma get_own_last {A} (cache : JSObject A) (v : string) (p : A) :
  get_own v cache = None -> get_own v (cache ++ [(v, p)])%list = Some p.
Proof. intros Hq. rewrite get_own_app, Hq. simpl. by rewrite String.eqb_refl. Qed.

Lemma get_property_Undefined {A} (v : string) (cache : JSObject A) :
  get_property v cache = Undefined -> get_own v cache = None /\ inherited v = false.
Proof.
  unfold get_property. destruct (get_own v cache); [done |]. by destruct (inherited v).
Qed.

(** *** One lookup *)

Lemma get_property_Own {A} (v : string) (cache : JSObject A) (p : A) :
  get_property v cache = Own p <-> get_own v cache = Some p.
Proof.
  unfold get_property. destruct (get_own v cache) as [q|].
  - split; by intros [= ->].
  - by destruct (inherited v).
Qed.

Lemma get_property_Inherited {A} (v : string) (cache : JSObject A) :
  get_property v cache = Inherited <-> get_own v cache = None /\ inherited v = true.
Proof.
  unfold get_property. destruct (get_own v cache) as [q|].
  - split; [done | by intros [? _]].
  - destruct (inherited v); split; try done; by intros [_ ?].
Qed.

(** The state after a lookup that asked the service: one more call, and
    one more key in the cache of its kind. *)
Ltac fresh_lookup Hm Hn Hndm Hndn Him Hin Eget :=
  let Es := fresh "Es" in
  let Hrest := fresh "Hrest" in
  eexists _, _; split; [reflexivity |];
  match goal with
  | |- context [set_property ?v ?p ?cache] =>
      first [ destruct (keys_snoc _ _ v p Hm Hndm Him Eget) as [Es Hrest]
            | destruct (keys_snoc _ _ v p Hn Hndn Hin Eget) as [Es Hrest] ];
      destruct Hrest as (? & ? & ?);
      rewrite Es; split; [| split];
      [ unfold sound; simpl; rewrite requestedMinecraft_snoc, requestedNeoForge_snoc;
        by rewrite app_nil_r
      | split; simpl; try done; intros ? ? ?; by apply get_own_snoc
      | left; exists p; simpl; split; [apply get_own_last | done];
        by apply get_property_Undefined in Eget as [? _] ]
  end.

(** A lookup returns a promise and leaves the caches sound; what the
    caches held they hold, and the answer is settled from then on. *)
Lemma getMinecraftDetails_run (v : string) api :
  sound api ->
  exists answer api',
    getMinecraftDetails v api = (Normal answer, api')
    /\ sound api' /\ extends api api'
    /\ settled (minecraftVersionDetailsCache api') v answer.
Proof.
  intros (Hm & Hn & Hndm & Hndn & Him & Hin).
  unfold getMinecraftDetails. unfold mbind at 1. unfold M_bind, gets.
  destruct (get_property v (minecraftVersionDetailsCache api)) as [p| |] eqn:Eget.
  - exists (adopted p), api. split; [done |]. split; [done |]. split; [apply extends_refl |].
    left. exists p. split; [by apply get_property_Own | done].
  - exists (Fulfilled (Member v)), api. split; [done |]. split; [done |].
    split; [apply extends_refl |]. right.
    apply get_property_Inherited in Eget as [? ?]. by repeat split.
  - unfold GET. unfold mbind at 1. unfold M_bind.
    destruct (minecraft_version v (service api)) as [[[data|]|e] srv] eqn:Eserve;
      unfold then_, mbind, M_bind, mret, M_ret, log, modify, throw,
        set_minecraftVersionDetailsCache; simpl;
      fresh_lookup Hm Hn Hndm Hndn Him Hin Eget.
Qed.

Lemma getNeoForgeDetails_run (v : string) api :
  sound api ->
  exists answer api',
    getNeoForgeDetails v api = (Normal answer, api')
    /\ sound api' /\ extends api api'
    /\ settled (neoforgeVersionDetailsCache api') v answer.
Proof.
  intros (Hm & Hn & Hndm & Hndn & Him & Hin).
  unfold getNeoForgeDetails. unfold mbind at 1. unfold M_bind, gets.
  destruct (get_property v (neoforgeVersionDetailsCache api)) as [p| |] eqn:Eget.
  - exists (adopted p), api. split; [done |]. split; [done |]. split; [apply extends_refl |].
    left. exists p. split; [by apply get_property_Own | done].
  - exists (Fulfilled (Member v)), api. split; [done |]. split; [done |].
    split; [apply extends_refl |]. right.
    apply get_property_Inherited in Eget as [? ?]. by repeat split.
  - unfold GET. unfold mbind at 1. unfold M_bind.
    destruct (Versions.neoforge_version v (service api)) as [[[data|]|e] srv] eqn:Eserve;
      unfold then_, mbind, M_bind, mret, M_ret, log, modify, throw,
        set_neoforgeVersionDetailsCache; simpl;
      fresh_lookup Hm Hn Hndm Hndn Him Hin Eget.
Qed.

(** A settled answer is what the lookup returns, without a call of the
    service and without a change of the state. *)
Lemma getMinecraftDetails_settled (v : string) api
  (answer : Promise (Answer MinecraftVersionDetails)) :
  settled (minecraftVersionDetailsCache api) v answer ->
  getMinecraftDetails v api = (Normal answer, api).
Proof.
  unfold getMinecraftDetails. unfold mbind at 1. unfold M_bind, gets.
  intros [(p & Hp & ->)|(Hnone & Hinh & ->)].
  - by rewrite (proj2 (get_property_Own _ _ _) Hp).
  - by rewrite (proj2 (get_property_Inherited _ _) (conj Hnone Hinh)).
Qed.

Lemma getNeoForgeDetails_settled (v : string) api
  (answer : Promise (Answer NeoForgeVersionDetails)) :
  settled (neoforgeVersionDetailsCache api) v answer ->
  getNeoForgeDetails v api = (Normal answer, api).
Proof.
  unfold getNeoForgeDetails. unfold mbind at 1. unfold M_bind, gets.
  intros [(p & Hp & ->)|(Hnone & Hinh & ->)].
  - by rewrite (proj2 (get_property_Own _ _ _) Hp).
  - by rewrite (proj2 (get_property_Inherited _ _) (conj Hnone Hinh)).
Qed.

(** A settled answer stays settled in a cache that has grown, as long as
    no key of it is the name of an inherited property. *)
Lemma settled_extends {A} (cache cache' : JSObject (Promise A)) (v : string)
  (answer : Promise (Answer A)) :
  (forall k p, get_own k cache = Some p -> get_own k cache' = Some p) ->
  Forall (fun k => inherited k = false) (map fst cache') ->
  settled cache v answer -> settled cache' v answer.
Proof.
  intros Hext Hinh [(p & Hp & ->)|(Hnone & Hv & ->)].
  - left. exists p. split; [by apply Hext | done].
  - right. split; [| done]. destruct (get_own v cache') as [q|] eqn:E; [| done].
    exfalso. assert (hasOwn v cache' = true) as Hown by (apply get_own_hasOwn; by eexists).
    apply hasOwn_keys in Hown.
    pose proof (proj1 (List.Forall_forall _ _) Hinh v Hown) as Hf. simpl in Hf. congruence.
Qed.

Lemma settled_functional {A} (cache : JSObject (Promise A)) (v : string)
  (a1 a2 : Promise (Answer A)) :
  settled cache v a1 -> settled cache v a2 -> a1 = a2.
Proof.
  intros [(p & Hp & ->)|(Hnone & _ & ->)] [(q & Hq & ->)|(Hnone' & _ & ->)]; congruence.
Qed.

(** *** The details of a summary *)

Lemma await_run {St A} (m : M St (Promise A)) (s s' : St) (p : Promise A) :
  m s = (Normal p, s') ->
  (p ← m; await p) s
  = (match p with Fulfilled a => Normal a | Rejected e => Throw e end, s').
Proof. intros E. rewrite (bind_normal _ _ _ _ _ E). by destruct p. Qed.

Lemma fetchDetails_run (mv : MinecraftVersionSummary) api :
  sound api ->
  exists answer api',
    fetchDetails mv api = (Normal answer, api')
    /\ sound api' /\ extends api api' /\ settledDetails api' mv answer.
Proof.
  intros Hsound. unfold fetchDetails, async.
  destruct (getMinecraftDetails_run (mv_version mv) api Hsound)
    as (Pm & a1 & E1 & Hs1 & He1 & Hset1).
  destruct Pm as [m|e].
  - rewrite (bind_normal _ _ _ _ _ (await_run _ _ _ _ E1)).
    destruct (getNeoForgeDetails_run (default "undefined" (latest_neoforge_version mv))
                a1 Hs1) as (Pn & a2 & E2 & Hs2 & He2 & Hset2).
    assert (settled (minecraftVersionDetailsCache a2) (mv_version mv) (Fulfilled m)) as Hm2.
    { destruct Hs2 as (Hk & _ & _ & _ & Hi & _). destruct He2 as [He2 _].
      apply (settled_extends _ _ _ _ He2); [by rewrite Hk | done]. }
    destruct Pn as [n|e].
    + rewrite (bind_normal _ _ _ _ _ (await_run _ _ _ _ E2)).
      eexists _, a2. split; [reflexivity |]. split; [done |].
      split; [by eapply extends_trans |].
      exists (Fulfilled m). split; [done |]. exists (Fulfilled n). by split.
    + rewrite (bind_throw _ _ _ _ _ (await_run _ _ _ _ E2)).
      eexists _, a2. split; [reflexivity |]. split; [done |].
      split; [by eapply extends_trans |].
      exists (Fulfilled m). split; [done |]. exists (Rejected e). by split.
  - rewrite (bind_throw _ _ _ _ _ (await_run _ _ _ _ E1)).
    eexists _, a1. split; [reflexivity |]. split; [done |]. split; [done |].
    exists (Rejected e). by split.
Qed.

Lemma fetchDetails_settled (mv : MinecraftVersionSummary) api (answer : Promise Details) :
  settledDetails api mv answer -> fetchDetails mv api = (Normal answer, api).
Proof.
  intros (Pm & Hm & Hrest). unfold fetchDetails, async.
  pose proof (getMinecraftDetails_settled _ _ _ Hm) as E1. destruct Pm as [m|e].
  - destruct Hrest as (Pn & Hn & ->).
    rewrite (bind_normal _ _ _ _ _ (await_run _ _ _ _ E1)).
    pose proof (getNeoForgeDetails_settled _ _ _ Hn) as E2. destruct Pn as [n|e].
    + by rewrite (bind_normal _ _ _ _ _ (await_run _ _ _ _ E2)).
    + by rewrite (bind_throw _ _ _ _ _ (await_run _ _ _ _ E2)).
  - subst answer. by rewrite (bind_throw _ _ _ _ _ (await_run _ _ _ _ E1)).
Qed.

Lemma settledDetails_extends (mv : MinecraftVersionSummary) api api'
  (answer : Promise Details) :
  sound api' -> extends api api' ->
  settledDetails api mv answer -> settledDetails api' mv answer.
Proof.
  intros (Hkm & Hkn & _ & _ & Him & Hin) [Hem Hen] (Pm & Hm & Hrest).
  exists Pm. split; [apply (settled_extends _ _ _ _ Hem); [by rewrite Hkm | done] |].
  destruct Pm as [m|e]; [| done]. destruct Hrest as (Pn & Hn & ->).
  exists Pn. split; [| done]. apply (settled_extends _ _ _ _ Hen); [by rewrite Hkn | done].
Qed.

Lemma settledDetails_functional (mv : MinecraftVersionSummary) api
  (a1 a2 : Promise Details) :
  settledDetails api mv a1 -> settledDetails api mv a2 -> a1 = a2.
Proof.
  intros (Pm & Hm & H1) (Pm' & Hm' & H2).
  pose proof (settled_functional _ _ _ _ Hm Hm') as <-. destruct Pm as [m|e]; [| congruence].
  destruct H1 as (Pn & Hn & ->), H2 as (Pn' & Hn' & ->).
  by rewrite (settled_functional _ _ _ _ Hn Hn').
Qed.

(** *** The details of a list of summaries *)

(** Where the details of some of the summaries are settled, they are the
    answers that [map] gets for them. *)
Lemma settled_sublist api (known all : list MinecraftVersionSummary)
  (knownAnswers answers : list (Promise Details)) :
  sublist known all ->
  Forall2 (settledDetails api) known knownAnswers ->
  Forall2 (settledDetails api) all answers ->
  sublist knownAnswers answers.
Proof.
  intros Hsub. revert knownAnswers answers.
  induction Hsub as [|x l1 l2 Hsub IH|x l1 l2 Hsub IH]; intros ka aa Hk Ha.
  - inversion Hk; subst. apply sublist_nil_l.
  - inversion Hk as [|? a1 ? ka' Hx Hk']; subst. inversion Ha as [|? a2 ? aa' Hx' Ha']; subst.
    rewrite (settledDetails_functional x api a1 a2 Hx Hx'). apply sublist_skip. by apply IH.
  - inversion Ha as [|? a2 ? aa' Hx' Ha']; subst. apply sublist_cons. by apply IH.
Qed.

Lemma Promise_all_sublist {A} (ps qs : list (Promise A)) (l : list A) :
  sublist ps qs -> Promise_all qs = Fulfilled l ->
  exists l', Promise_all ps = Fulfilled l' /\ sublist l' l.
Proof.
  intros Hsub. revert l. induction Hsub as [|p ps qs Hsub IH|q ps qs Hsub IH]; intros l; simpl.
  - intros [= <-]. by exists [].
  - destruct p as [a|e]; [| done]. destruct (Promise_all qs) as [l0|e]; [| done].
    intros [= <-]. destruct (IH l0 eq_refl) as (l' & -> & Hl').
    exists (a :: l'). split; [done | by apply sublist_skip].
  - destruct q as [a|e]; [| done]. destruct (Promise_all qs) as [l0|e]; [| done].
    intros [= <-]. destruct (IH l0 eq_refl) as (l' & -> & Hl').
    exists l'. split; [done | by apply sublist_cons].
Qed.

Lemma filter_sublist {A} (f g : A -> bool) (l : list A) :
  (forall x, f x = true -> g x = true) ->
  sublist (List.filter f l) (List.filter g l).
Proof.
  intros Himp. induction l as [|x l IH]; simpl; [done |].
  destruct (f x) eqn:Ef.
  - rewrite (Himp x Ef). by apply sublist_skip.
  - destruct (g x); [by apply sublist_cons | done].
Qed.

Lemma map_sublist {A B} (f : A -> B) (l1 l2 : list A) :
  sublist l1 l2 -> sublist (map f l1) (map f l2).
Proof.
  induction 1 as [|x l1 l2 _ IH|x l1 l2 _ IH]; simpl;
    [done | by apply sublist_skip | by apply sublist_cons].
Qed.

(** *** The calls of [fetchDetails] that run together *)

Lemma on_its_way_extends (mv : MinecraftVersionSummary) api api' (stage : Stage) :
  sound api' -> extends api api' -> on_its_way api mv stage -> on_its_way api' mv stage.
Proof.
  intros Hs He. destruct stage as [p|m p|r]; simpl.
  - destruct Hs as (Hkm & _ & _ & _ & Him & _), He as [Hem _]. intros H.
    apply (settled_extends _ _ _ _ Hem); [by rewrite Hkm | done].
  - destruct Hs as (Hkm & Hkn & _ & _ & Him & Hin), He as [Hem Hen]. intros [H1 H2]. split.
    + apply (settled_extends _ _ _ _ Hem); [by rewrite Hkm | done].
    + apply (settled_extends _ _ _ _ Hen); [by rewrite Hkn | done].
  - by apply settledDetails_extends.
Qed.

(** A call starts, and takes a turn, with the caches left sound; where the
    details of its summary were looked up before, it asks the service for
    nothing and changes nothing. *)
Lemma start_run (mv : MinecraftVersionSummary) api :
  sound api ->
  exists stage api',
    start mv api = (Normal stage, api')
    /\ sound api' /\ extends api api' /\ on_its_way api' mv stage
    /\ (known api mv -> api' = api).
Proof.
  intros Hsound. unfold start.
  destruct (getMinecraftDetails_run (mv_version mv) api Hsound)
    as (p & a1 & E1 & Hs1 & He1 & Hset1).
  rewrite (bind_normal _ _ _ _ _ E1). exists (AwaitsMinecraft p), a1.
  split; [done |]. do 3 (split; [done |]).
  intros (answer & minecraft & Hm & _).
  rewrite (getMinecraftDetails_settled _ _ _ Hm) in E1. congruence.
Qed.

Lemma resume_run (mv : MinecraftVersionSummary) (stage : Stage) api :
  sound api -> on_its_way api mv stage ->
  exists stage' api',
    resume mv stage api = (Normal stage', api')
    /\ sound api' /\ extends api api' /\ on_its_way api' mv stage'
    /\ (known api mv -> api' = api).
Proof.
  intros Hsound Hway. destruct stage as [[m|e]|m [n|e]|r]; unfold resume; simpl in Hway.
  - destruct (getNeoForgeDetails_run (default "undefined" (latest_neoforge_version mv))
                api Hsound) as (q & a1 & E1 & Hs1 & He1 & Hset1).
    rewrite (bind_normal _ _ _ _ _ E1). exists (AwaitsNeoForge m q), a1.
    split; [done |]. do 2 (split; [done |]). split.
    + simpl. split; [| done].
      destruct Hs1 as (Hkm & _ & _ & _ & Him & _), He1 as [Hem _].
      apply (settled_extends _ _ _ _ Hem); [by rewrite Hkm | done].
    + intros (answer & minecraft & Hm & Hrest).
      pose proof (settled_functional _ _ _ _ Hm Hway) as ->.
      destruct Hrest as (neoforge & Hn & _).
      rewrite (getNeoForgeDetails_settled _ _ _ Hn) in E1. congruence.
  - exists (Returned (Rejected e)), api. split; [done |]. split; [done |].
    split; [apply extends_refl |]. split; [| done].
    simpl. exists (Rejected e). by split.
  - destruct Hway as [Hm Hn].
    exists (Returned (Fulfilled (m, n))), api. split; [done |]. split; [done |].
    split; [apply extends_refl |]. split; [| done].
    simpl. exists (Fulfilled m). split; [done |]. exists (Fulfilled n). by split.
  - destruct Hway as [Hm Hn].
    exists (Returned (Rejected e)), api. split; [done |]. split; [done |].
    split; [apply extends_refl |]. split; [| done].
    simpl. exists (Fulfilled m). split; [done |]. exists (Rejected e). by split.
  - exists (Returned r), api. split; [done |]. split; [done |].
    split; [apply extends_refl |]. by split.
Qed.

Lemma started_run (mvs : list MinecraftVersionSummary) api :
  sound api ->
  exists started api',
    Array_map (fun mv => stage ← start mv; mret (mv, stage)) mvs api = (Normal started, api')
    /\ sound api' /\ extends api api'
    /\ Forall2 (fun mv call => call.1 = mv /\ on_its_way api' mv call.2) mvs started
    /\ (Forall (known api) mvs -> api' = api).
Proof.
  revert api. induction mvs as [|mv mvs IH]; intros api Hsound; cbn [Array_map].
  - exists [], api. split; [done |]. split; [done |]. split; [apply extends_refl |].
    split; [constructor | done].
  - destruct (start_run mv api Hsound) as (stage & a1 & E1 & Hs1 & He1 & Hway1 & Hsame1).
    assert ((stage ← start mv; mret (mv, stage)) api = (Normal (mv, stage), a1)) as E1'
      by (by rewrite (bind_normal _ _ _ _ _ E1)).
    rewrite (bind_normal _ _ _ _ _ E1').
    destruct (IH a1 Hs1) as (started & a2 & E2 & Hs2 & He2 & Hway2 & Hsame2).
    rewrite (bind_normal _ _ _ _ _ E2).
    exists ((mv, stage) :: started), a2. split; [done |]. split; [done |].
    split; [by eapply extends_trans |]. split.
    + constructor; [| done]. split; [done |]. by apply (on_its_way_extends mv a1 a2).
    + intros Hk. inversion Hk as [|? ? Hmv Hrest]; subst.
      pose proof (Hsame1 Hmv) as ->. by apply Hsame2.
Qed.

Lemma turn_run (index : nat) (mvs : list MinecraftVersionSummary) (all : Awaited) api :
  sound api -> awaiting api mvs all ->
  exists all' api',
    turn index all api = (Normal all', api')
    /\ sound api' /\ extends api api' /\ awaiting api' mvs all'
    /\ (Forall (known api) mvs -> api' = api).
Proof.
  intros Hsound [Hcalls Hrej]. unfold turn.
  destruct (running all !! index) as [[mv stage]|] eqn:Hindex.
  - destruct (Forall2_lookup_r _ _ _ _ _ Hcalls Hindex) as (mv' & Hmv & Hfst & Hway).
    simpl in Hfst, Hway. subst mv'.
    destruct (resume_run mv stage api Hsound Hway)
      as (stage' & a1 & E1 & Hs1 & He1 & Hway1 & Hsame1).
    rewrite (bind_normal _ _ _ _ _ E1).
    eexists _, a1. split; [reflexivity |]. split; [done |]. split; [done |].
    split; [split |].
    + cbn [running]. rewrite <- (list_insert_id mvs index mv Hmv).
      apply Forall2_insert; [| done].
      eapply Forall2_impl; [exact Hcalls |]. intros mv0 call [? ?]. split; [done |].
      by apply (on_its_way_extends mv0 api a1).
    + cbn [rejection]. intros e He. unfold first_rejection in He.
      destruct (rejection all) as [e0|] eqn:Hr.
      * injection He as <-. destruct (Hrej e0 eq_refl) as (mv0 & Hin & Hset).
        exists mv0. split; [done |]. by apply (settledDetails_extends mv0 api a1).
      * destruct stage' as [| |[|e1]]; try done. injection He as <-.
        exists mv. split; [| done]. apply list_elem_of_In. by eapply list_elem_of_lookup_2.
    + intros Hk. apply Hsame1. by apply (Forall_lookup_1 _ _ _ _ Hk Hmv).
  - exists all, api. split; [done |]. split; [done |]. split; [apply extends_refl |].
    by split.
Qed.

Lemma turns_run (schedule : list nat) (mvs : list MinecraftVersionSummary)
  (all : Awaited) api :
  sound api -> awaiting api mvs all ->
  exists all' api',
    turns schedule all api = (Normal all', api')
    /\ sound api' /\ extends api api' /\ awaiting api' mvs all'
    /\ (Forall (known api) mvs -> api' = api).
Proof.
  revert all api.
  induction schedule as [|index schedule IH]; intros all api Hsound Hall; cbn [turns].
  - exists all, api. split; [done |]. split; [done |]. split; [apply extends_refl |].
    by split.
  - destruct (turn_run index mvs all api Hsound Hall)
      as (all1 & a1 & E1 & Hs1 & He1 & Hall1 & Hsame1).
    rewrite (bind_normal _ _ _ _ _ E1).
    destruct (IH all1 a1 Hs1 Hall1) as (all2 & a2 & E2 & Hs2 & He2 & Hall2 & Hsame2).
    exists all2, a2. split; [done |]. split; [done |].
    split; [by eapply extends_trans |]. split; [done |].
    intros Hk. pose proof (Hsame1 Hk) as ->. by apply Hsame2.
Qed.

(** A call that goes on to its end returns the details of its summary. *)
Lemma finish_call_run (mv : MinecraftVersionSummary) (stage : Stage) api :
  sound api -> on_its_way api mv stage ->
  exists answer api',
    finish_call mv stage api = (Normal answer, api')
    /\ sound api' /\ extends api api' /\ settledDetails api' mv answer
    /\ (known api mv -> api' = api).
Proof.
  intros Hsound Hway. destruct stage as [[m|e]|m p|r]; unfold finish_call; simpl in Hway.
  - destruct (getNeoForgeDetails_run (default "undefined" (latest_neoforge_version mv))
                api Hsound) as (q & a1 & E1 & Hs1 & He1 & Hset1).
    rewrite (bind_normal _ _ _ _ _ E1). exists (paired (Fulfilled m) q), a1.
    split; [done |]. do 2 (split; [done |]). split.
    + exists (Fulfilled m). split; [| by exists q].
      destruct Hs1 as (Hkm & _ & _ & _ & Him & _), He1 as [Hem _].
      apply (settled_extends _ _ _ _ Hem); [by rewrite Hkm | done].
    + intros (answer & minecraft & Hm & Hrest).
      pose proof (settled_functional _ _ _ _ Hm Hway) as ->.
      destruct Hrest as (neoforge & Hn & _).
      rewrite (getNeoForgeDetails_settled _ _ _ Hn) in E1. congruence.
  - exists (Rejected e), api. split; [done |]. split; [done |].
    split; [apply extends_refl |]. split; [| done]. exists (Rejected e). by split.
  - destruct Hway as [Hm Hp].
    exists (paired (Fulfilled m) p), api. split; [done |]. split; [done |].
    split; [apply extends_refl |]. split; [| done].
    exists (Fulfilled m). split; [done |]. by exists p.
  - exists r, api. split; [done |]. split; [done |]. split; [apply extends_refl |].
    by split.
Qed.

(** The calls that run out give the details of all the summaries, or the
    rejection of the details of one of them. *)
Lemma run_out_run (mvs : list MinecraftVersionSummary)
  (calls : list (MinecraftVersionSummary * Stage)) api :
  sound api ->
  Forall2 (fun mv call => call.1 = mv /\ on_its_way api mv call.2) mvs calls ->
  exists together api',
    run_out calls api = (Normal together, api')
    /\ sound api' /\ extends api api'
    /\ match together with
       | Fulfilled versionDetails =>
           Forall2 (settledDetails api') mvs (map Fulfilled versionDetails)
       | Rejected e => exists mv, In mv mvs /\ settledDetails api' mv (Rejected e)
       end
    /\ (Forall (known api) mvs -> api' = api).
Proof.
  revert calls api. induction mvs as [|mv mvs IH]; intros calls api Hsound Hcalls.
  - apply Forall2_nil_inv_l in Hcalls as ->.
    exists (Fulfilled []), api. split; [done |]. split; [done |].
    split; [apply extends_refl |]. split; [constructor | done].
  - apply Forall2_cons_inv_l in Hcalls as ([mv' stage] & calls' & [Hfst Hway] & Hrest & ->).
    simpl in Hfst, Hway. subst mv'. cbn [run_out fst snd].
    destruct (finish_call_run mv stage api Hsound Hway)
      as (answer & a1 & E1 & Hs1 & He1 & Hset1 & Hsame1).
    rewrite (bind_normal _ _ _ _ _ E1). destruct answer as [details|e].
    + assert (Forall2 (fun mv call => call.1 = mv /\ on_its_way a1 mv call.2) mvs calls')
        as Hrest1.
      { eapply Forall2_impl; [exact Hrest |]. intros mv0 call [? ?]. split; [done |].
        by apply (on_its_way_extends mv0 api a1). }
      destruct (IH calls' a1 Hs1 Hrest1)
        as (together & a2 & E2 & Hs2 & He2 & Hset2 & Hsame2).
      rewrite (bind_normal _ _ _ _ _ E2).
      eexists _, a2. split; [reflexivity |]. split; [done |].
      split; [by eapply extends_trans |]. split.
      * destruct together as [versionDetails|e].
        -- cbn [map]. constructor; [| done]. by apply (settledDetails_extends mv a1 a2).
        -- destruct Hset2 as (mv0 & Hin & Hset0). exists mv0. split; [by right | done].
      * intros Hk. inversion Hk as [|? ? Hmv Hmvs]; subst.
        pose proof (Hsame1 Hmv) as ->. by apply Hsame2.
    + exists (Rejected e), a1. split; [done |]. split; [done |]. split; [done |].
      split; [exists mv; split; [by left | done] |].
      intros Hk. inversion Hk as [|? ? Hmv Hmvs]; subst. by apply Hsame1.
Qed.

(** Called alone, [fetchDetails] is a call that starts and goes on to its
    end. *)
Lemma fetchDetails_alone (mv : MinecraftVersionSummary) api :
  sound api ->
  fetchDetails mv api = (stage ← start mv; finish_call mv stage) api.
Proof.
  intros Hsound.
  destruct (getMinecraftDetails_run (mv_version mv) api Hsound)
    as (p & a1 & E1 & Hs1 & _ & _).
  unfold fetchDetails, async, start, mbind, M_bind, mret, M_ret, await. rewrite E1.
  destruct p as [m|e]; [| done].
  destruct (getNeoForgeDetails_run (default "undefined" (latest_neoforge_version mv))
              a1 Hs1) as (q & a2 & E2 & _).
  unfold finish_call, mbind, M_bind, mret, M_ret. rewrite E2. by destruct q.
Qed.

(** *** The answers for a list of summaries *)

Lemma answer_rejected api (mvs : list MinecraftVersionSummary)
  (answers : list (Promise Details)) (mv : MinecraftVersionSummary) (e : string) :
  Forall2 (settledDetails api) mvs answers ->
  In mv mvs -> settledDetails api mv (Rejected e) ->
  In (Rejected e) answers.
Proof.
  induction 1 as [|mv0 answer mvs answers Hmv _ IH]; simpl; [done |].
  intros [->|Hin] Hset.
  - left. by apply (settledDetails_functional mv api).
  - right. by apply IH.
Qed.

Lemma answers_functional api (mvs : list MinecraftVersionSummary)
  (answers1 answers2 : list (Promise Details)) :
  Forall2 (settledDetails api) mvs answers1 ->
  Forall2 (settledDetails api) mvs answers2 ->
  answers1 = answers2.
Proof.
  intros H1. revert answers2. induction H1 as [|mv answer mvs answers Hmv _ IH];
    intros answers2 H2; inversion H2 as [|? answer2 ? answers2' Hmv2 Hrest]; subst; [done |].
  by rewrite (settledDetails_functional mv api answer answer2 Hmv Hmv2), (IH answers2').
Qed.

(** *** The assembly of a document *)

(** What the assembly does, under any schedule: the details of the
    summaries that are listed are looked up; [Promise.all] gives the
    details of all, or the rejection of the details of one, and then the
    document is rejected too; otherwise the details of the latest snapshot,
    if there is one, are looked up. Where the details were looked up
    before, the service is asked for nothing and nothing changes. *)
Lemma buildMinecraftVersionsWithNeoForge_run (schedule : list nat)
  (mvs : list MinecraftVersionSummary) (releasesOnly : bool) api :
  sound api ->
  exists together a1 document api',
    buildMinecraftVersionsWithNeoForge schedule mvs releasesOnly api = (Normal document, api')
    /\ sound a1 /\ extends api a1
    /\ (Forall (known api) (List.filter (listed releasesOnly) mvs) -> a1 = api)
    /\ sound api' /\ extends a1 api'
    /\ match together with
       | Rejected e =>
           (exists mv, In mv (List.filter (listed releasesOnly) mvs)
                       /\ settledDetails a1 mv (Rejected e))
           /\ document = Rejected e /\ api' = a1
       | Fulfilled versionDetails =>
           Forall2 (settledDetails a1) (List.filter (listed releasesOnly) mvs)
             (map Fulfilled versionDetails)
           /\ match List.find snapshot mvs with
              | None =>
                  api' = a1
                  /\ document
                     = Fulfilled {| latestSnapshot := None;
                                    versions := map makeVersionEntry versionDetails |}
              | Some mv =>
                  exists answer,
                    settledDetails api' mv answer
                    /\ (known a1 mv -> api' = a1)
                    /\ document
                       = match answer with
                         | Fulfilled details =>
                             Fulfilled {| latestSnapshot := Some (makeVersionEntry details);
                                          versions := map makeVersionEntry versionDetails |}
                         | Rejected e => Rejected e
                         end
              end
       end.
Proof.
  intros Hsound. unfold buildMinecraftVersionsWithNeoForge, async.
  destruct (started_run (List.filter (listed releasesOnly) mvs) api Hsound)
    as (started & a0 & E0 & Hs0 & He0 & Hway0 & Hsame0).
  rewrite (bind_normal _ _ _ _ _ E0).
  assert (awaiting a0 (List.filter (listed releasesOnly) mvs)
            {| running := started; rejection := None |}) as Hall0 by (by split).
  destruct (turns_run schedule (List.filter (listed releasesOnly) mvs) _ a0 Hs0 Hall0)
    as (all & a' & Et & Hst & Het & [Hcalls Hrej] & Hsamet).
  rewrite (bind_normal _ _ _ _ _ Et).
  assert (exists together a1,
            match rejection all with
            | Some e => mret (Rejected e)
            | None => run_out (running all)
            end a' = (Normal together, a1)
            /\ sound a1 /\ extends a' a1
            /\ match together with
               | Fulfilled versionDetails =>
                   Forall2 (settledDetails a1) (List.filter (listed releasesOnly) mvs)
                     (map Fulfilled versionDetails)
               | Rejected e =>
                   exists mv, In mv (List.filter (listed releasesOnly) mvs)
                              /\ settledDetails a1 mv (Rejected e)
               end
            /\ (Forall (known a') (List.filter (listed releasesOnly) mvs) -> a1 = a'))
    as (together & a1 & E1 & Hs1 & He1 & Hset1 & Hsame1).
  { destruct (rejection all) as [e|] eqn:Hr.
    - exists (Rejected e), a'. split; [done |]. split; [done |].
      split; [apply extends_refl |]. split; [by apply Hrej | done].
    - by apply run_out_run. }
  rewrite (bind_normal _ _ _ _ _ E1).
  assert (extends api a1) as He
    by (eapply extends_trans; [exact He0 |]; by eapply extends_trans).
  assert (Forall (known api) (List.filter (listed releasesOnly) mvs) -> a1 = api) as Hsame.
  { intros Hk. pose proof (Hsame0 Hk) as ->. pose proof (Hsamet Hk) as ->. by apply Hsame1. }
  unfold mbind at 1. unfold M_bind, await.
  destruct together as [versionDetails|e].
  - destruct (List.find snapshot mvs) as [mv|] eqn:Hfind.
    + destruct (fetchDetails_run mv a1 Hs1) as (P & a2 & E2 & Hs2 & He2 & Hset2).
      assert (known a1 mv -> a2 = a1) as Hsame2.
      { intros [answer Hanswer]. rewrite (fetchDetails_settled mv a1 answer Hanswer) in E2.
        congruence. }
      unfold mbind at 1. unfold M_bind. rewrite (bind_normal _ _ _ _ _ E2).
      destruct P as [details|e]; simpl.
      * exists (Fulfilled versionDetails), a1. eexists _, a2.
        split; [reflexivity |]. do 5 (split; [done |]). split; [done |].
        by exists (Fulfilled details).
      * exists (Fulfilled versionDetails), a1. eexists _, a2.
        split; [reflexivity |]. do 5 (split; [done |]). split; [done |].
        by exists (Rejected e).
    + exists (Fulfilled versionDetails), a1. eexists _, a1.
      split; [reflexivity |]. do 4 (split; [done |]). split; [apply extends_refl |].
      by split.
  - exists (Rejected e), a1. eexists _, a1. split; [reflexivity |].
    do 4 (split; [done |]). split; [apply extends_refl |]. by split.
Qed.

Lemma Forall2_settledDetails_extends (mvs : list MinecraftVersionSummary) api api'
  (answers : list (Promise Details)) :
  sound api' -> extends api api' ->
  Forall2 (settledDetails api) mvs answers -> Forall2 (settledDetails api') mvs answers.
Proof.
  intros Hs He Hf. eapply Forall2_impl; [exact Hf |].
  intros mv answer. by apply settledDetails_extends.
Qed.

(** *** The life of an instance *)

Lemma list_call_sound api api' (c : Call) :
  sound api ->
  minecraftVersionDetailsCache api' = minecraftVersionDetailsCache api ->
  neoforgeVersionDetailsCache api' = neoforgeVersionDetailsCache api ->
  (calls api' = calls api
   \/ calls api' = (calls api ++ [MinecraftVersions])%list
   \/ calls api' = (calls api ++ [NeoForgeVersions])%list) ->
  sound api' /\ extends api api'.
Proof.
  intros Hs Hm Hn Hc. split; [| split; intros k p; by rewrite ?Hm, ?Hn].
  unfold sound. rewrite Hm, Hn.
  destruct Hc as [->|[->| ->]];
    rewrite ?requestedMinecraft_snoc, ?requestedNeoForge_snoc, ?app_nil_r; exact Hs.
Qed.

Lemma getMinecraftVersions_sound api :
  sound api ->
  sound (getMinecraftVersions api).2 /\ extends api (getMinecraftVersions api).2.
Proof.
  intros Hs. unfold getMinecraftVersions, async, GET. unfold_M. unfold log, modify.
  destruct (minecraft_versions (service api)) as [[[vs|]|e] srv]; simpl;
    apply (list_call_sound api _ MinecraftVersions Hs); simpl; auto.
Qed.

Lemma getNeoForgeVersions_sound api :
  sound api ->
  sound (getNeoForgeVersions api).2 /\ extends api (getNeoForgeVersions api).2.
Proof.
  intros Hs. unfold getNeoForgeVersions, async, GET. unfold_M. unfold log, modify.
  destruct (neoforge_versions (service api)) as [[[vs|]|e] srv]; simpl;
    apply (list_call_sound api _ NeoForgeVersions Hs); simpl; auto.
Qed.

Lemma perform_sound api (use : Use) :
  sound api -> sound (perform api use) /\ extends api (perform api use).
Proof.
  intros Hs. destruct use as [| |v|v|schedule mvs releasesOnly]; simpl.
  - by apply getMinecraftVersions_sound.
  - by apply getNeoForgeVersions_sound.
  - destruct (getMinecraftDetails_run v api Hs) as (P & api' & E & Hs' & He & _).
    by rewrite E.
  - destruct (getNeoForgeDetails_run v api Hs) as (P & api' & E & Hs' & He & _).
    by rewrite E.
  - destruct (buildMinecraftVersionsWithNeoForge_run schedule mvs releasesOnly api Hs)
      as (together & a1 & document & api' & E & _ & He1 & _ & Hs' & He' & _).
    rewrite E. simpl. split; [done | by eapply extends_trans].
Qed.

Lemma uses_sound api (uses : list Use) :
  sound api -> sound (fold_left perform uses api) /\ extends api (fold_left perform uses api).
Proof.
  revert api. induction uses as [|use uses IH]; intros api Hs; simpl.
  - split; [done | apply extends_refl].
  - destruct (perform_sound api use Hs) as [Hs1 He1].
    destruct (IH _ Hs1) as [Hs2 He2]. split; [done | by eapply extends_trans].
Qed.

Lemma new_sound (srv : Service) : sound (new_VersionsApi srv).
Proof. unfold sound. simpl. repeat split; constructor. Qed.

Lemma lifetime_sound (srv : Service) (uses : list Use) : sound (lifetime srv uses).
Proof. apply uses_sound, new_sound. Qed.

End VersionsProofs.

(** X19. Over the whole life of a [VersionsApi], through any sequence of
    calls of its methods and assemblies of documents, under any schedule
    and whatever they return: the service is asked for the details of a
    Minecraft version once at most, and for those of a NeoForge version once
    at most; a cache has a promise of its own for a version exactly when the
    service was asked for the details of that version; and no version that
    is the name of a property of [Object.prototype] is ever asked for. *)
Theorem each_version_is_requested_once {client : Versions.Client}
  (srv : Versions.Service) (uses : list Assembly.Use) :
  NoDup (Assembly.requestedMinecraft (Versions.calls (Assembly.lifetime srv uses)))
  /\ NoDup (Assembly.requestedNeoForge (Versions.calls (Assembly.lifetime srv uses)))
  /\ (forall v,
        hasOwn v (Versions.minecraftVersionDetailsCache (Assembly.lifetime srv uses)) = true
        <-> In v (Assembly.requestedMinecraft (Versions.calls (Assembly.lifetime srv uses))))
  /\ (forall v,
        hasOwn v (Versions.neoforgeVersionDetailsCache (Assembly.lifetime srv uses)) = true
        <-> In v (Assembly.requestedNeoForge (Versions.calls (Assembly.lifetime srv uses))))
  /\ Forall (fun v => inherited v = false)
       (Assembly.requestedMinecraft (Versions.calls (Assembly.lifetime srv uses))
        ++ Assembly.requestedNeoForge (Versions.calls (Assembly.lifetime srv uses)))%list.
Proof.
  destruct (lifetime_sound srv uses) as (Hm & Hn & Hndm & Hndn & Him & Hin).
  do 2 (split; [done |]).
  split; [intros v; by rewrite hasOwn_keys, Hm |].
  split; [intros v; by rewrite hasOwn_keys, Hn |].
  apply Forall_app. by split.
Qed.

(** X20. The lookups are memoized, failures included: the promise that
    [getMinecraftDetails] or [getNeoForgeDetails] returns for a version is
    the one that every later call for that version returns, whatever was
    done with the instance in between, and the later call asks the service
    for nothing and changes nothing; a lookup that failed is not tried
    again. *)
Theorem details_are_looked_up_once {client : Versions.Client}
  (srv : Versions.Service) (uses later : list Assembly.Use) (version : string) :
  (exists answer,
     (Versions.getMinecraftDetails version (Assembly.lifetime srv uses)).1 = Normal answer
     /\ Versions.getMinecraftDetails version
          (fold_left Assembly.perform later
             (Versions.getMinecraftDetails version (Assembly.lifetime srv uses)).2)
        = (Normal answer,
           fold_left Assembly.perform later
             (Versions.getMinecraftDetails version (Assembly.lifetime srv uses)).2))
  /\ (exists answer,
        (Versions.getNeoForgeDetails version (Assembly.lifetime srv uses)).1 = Normal answer
        /\ Versions.getNeoForgeDetails version
             (fold_left Assembly.perform later
                (Versions.getNeoForgeDetails version (Assembly.lifetime srv uses)).2)
           = (Normal answer,
              fold_left Assembly.perform later
                (Versions.getNeoForgeDetails version (Assembly.lifetime srv uses)).2)).
Proof.
  pose proof (lifetime_sound srv uses) as Hs. split.
  - destruct (getMinecraftDetails_run version _ Hs) as (answer & api1 & E & Hs1 & _ & Hset).
    rewrite E. simpl. exists answer. split; [done |].
    destruct (uses_sound api1 later Hs1) as [(Hk & _ & _ & _ & Hi & _) [He _]].
    apply getMinecraftDetails_settled.
    apply (settled_extends _ _ _ _ He); [by rewrite Hk | done].
  - destruct (getNeoForgeDetails_run version _ Hs) as (answer & api1 & E & Hs1 & _ & Hset).
    rewrite E. simpl. exists answer. split; [done |].
    destruct (uses_sound api1 later Hs1) as [(_ & Hk & _ & _ & _ & Hi) [_ He]].
    apply getNeoForgeDetails_settled.
    apply (settled_extends _ _ _ _ He); [by rewrite Hk | done].
Qed.

(** ** The documents assembled from the caches ([lib/data.ts]) *)

Section AssemblyProofs.
Import Versions Assembly.
Context {client : Client}.
Implicit Types api : VersionsApi.

Lemma inherited_settled {A} (cache : JSObject (Promise A)) (v : string) :
  Forall (fun k => inherited k = false) (map fst cache) ->
  inherited v = true ->
  settled cache v (Fulfilled (Member v)).
Proof.
  intros Hinh Hv. right. split; [| done].
  destruct (get_own v cache) as [q|] eqn:E; [| done]. exfalso.
  assert (hasOwn v cache = true) as Hown by (apply get_own_hasOwn; by eexists).
  apply hasOwn_keys in Hown.
  pose proof (proj1 (List.Forall_forall _ _) Hinh v Hown) as Hf. simpl in Hf. congruence.
Qed.

Lemma inherited_lookup (v : string) api :
  sound api -> inherited v = true ->
  getMinecraftDetails v api = (Normal (Fulfilled (Member v)), api)
  /\ getNeoForgeDetails v api = (Normal (Fulfilled (Member v)), api).
Proof.
  intros (Hkm & Hkn & _ & _ & Him & Hin) Hv. split.
  - apply getMinecraftDetails_settled, inherited_settled; [by rewrite Hkm | done].
  - apply getNeoForgeDetails_settled, inherited_settled; [by rewrite Hkn | done].
Qed.

(** X21. A version whose name is that of a property of
    [Object.prototype] ([constructor], [toString], [__proto__], ...) passes
    [isSafePath], and yet its details are never looked up: at any time in
    the life of a [VersionsApi] both lookups return, without asking the
    service, a promise of the inherited member, which has none of the
    properties of the details, so that the entry made of it is empty. *)
Theorem inherited_names_are_never_looked_up (srv : Service) (uses : list Use) :
  Forall (fun v =>
            Data.isSafePath v = true
            /\ getMinecraftDetails v (lifetime srv uses)
               = (Normal (Fulfilled (Member v)), lifetime srv uses)
            /\ getNeoForgeDetails v (lifetime srv uses)
               = (Normal (Fulfilled (Member v)), lifetime srv uses)
            /\ property nf_release_notes (Member v) = None
            /\ makeVersionEntry (Member v, Member v)
               = {| version := None; type := None; released := None;
                    neoforge_version := None; neoforge_released := None |})
    Object_prototype_keys.
Proof.
  pose proof (lifetime_sound srv uses) as Hs.
  assert (forall v, inherited v = true -> Data.isSafePath v = true ->
            Data.isSafePath v = true
            /\ getMinecraftDetails v (lifetime srv uses)
               = (Normal (Fulfilled (Member v)), lifetime srv uses)
            /\ getNeoForgeDetails v (lifetime srv uses)
               = (Normal (Fulfilled (Member v)), lifetime srv uses)
            /\ property nf_release_notes (Member v) = None
            /\ makeVersionEntry (Member v, Member v)
               = {| version := None; type := None; released := None;
                    neoforge_version := None; neoforge_released := None |}) as Hone.
  { intros v Hv Hsafe. destruct (inherited_lookup v _ Hs Hv) as [Hm Hn]. by repeat split. }
  unfold Object_prototype_keys. repeat constructor; by apply Hone.
Qed.

(** X22. The two documents agree. When the releases document is
    assembled and then the document of all versions, as the run does, each
    under any schedule, and both are fulfilled: the entries of the releases
    document are entries of the other, in the same order, and the two have
    the same latest snapshot. The caches make it so: the service is not
    asked twice for a version, so it cannot answer differently. *)
Theorem releases_document_is_part_of_the_versions_document (srv : Service)
  (uses : list Use) (first second : list nat)
  (minecraftVersions : list MinecraftVersionSummary)
  (releases all : MinecraftWithNeoForgeVersionListing) :
  (buildMinecraftVersionsWithNeoForge first minecraftVersions true (lifetime srv uses)).1
  = Normal (Fulfilled releases) ->
  (buildMinecraftVersionsWithNeoForge second minecraftVersions false
     (buildMinecraftVersionsWithNeoForge first minecraftVersions true
        (lifetime srv uses)).2).1
  = Normal (Fulfilled all) ->
  sublist (versions releases) (versions all)
  /\ latestSnapshot releases = latestSnapshot all.
Proof.
  pose proof (lifetime_sound srv uses) as Hs.
  destruct (buildMinecraftVersionsWithNeoForge_run first minecraftVersions true _ Hs)
    as (together1 & a1 & doc1 & api1 & E1 & Hsa1 & _ & _ & Hs1 & He1 & Hdoc1).
  rewrite E1. simpl. intros [= ->].
  destruct (buildMinecraftVersionsWithNeoForge_run second minecraftVersions false _ Hs1)
    as (together2 & a2 & doc2 & api2 & E2 & Hsa2 & Hea2 & _ & Hs2 & He2 & Hdoc2).
  rewrite E2. simpl. intros [= ->].
  destruct together1 as [details1|e]; [| by destruct Hdoc1 as (_ & ? & _)].
  destruct together2 as [details2|e]; [| by destruct Hdoc2 as (_ & ? & _)].
  destruct Hdoc1 as [Hset1 Hdoc1], Hdoc2 as [Hset2 Hdoc2].
  assert (sublist details1 details2) as Hsub.
  { assert (sublist (map Fulfilled details1) (map Fulfilled details2)) as Hanswers.
    { apply (settled_sublist a2 (List.filter (listed true) minecraftVersions)
               (List.filter (listed false) minecraftVersions)); [| | done].
      - apply filter_sublist. intros mv. unfold listed. simpl.
        intros [_ ?]%andb_true_iff. done.
      - apply (Forall2_settledDetails_extends _ a1 a2); [done | | done].
        by eapply extends_trans. }
    destruct (Promise_all_sublist _ _ _ Hanswers (Promise_all_values details2))
      as (l' & Hl' & Hsub).
    rewrite Promise_all_values in Hl'. by injection Hl' as <-. }
  destruct (List.find snapshot minecraftVersions) as [mv|].
  - destruct Hdoc1 as (P1 & Hp1 & _ & Hd1), Hdoc2 as (P2 & Hp2 & _ & Hd2).
    assert (P1 = P2) as <-.
    { apply (settledDetails_functional mv api2); [| done].
      apply (settledDetails_extends mv api1 api2); [done | | done].
      by eapply extends_trans. }
    destruct P1 as [details|e]; [| done].
    injection Hd1 as ->. injection Hd2 as ->. simpl. split; [| done].
    by apply map_sublist.
  - destruct Hdoc1 as [_ Hd1], Hdoc2 as [_ Hd2].
    injection Hd1 as ->. injection Hd2 as ->. simpl. split; [| done].
    by apply map_sublist.
Qed.

Lemma answers_known api (mvs : list MinecraftVersionSummary)
  (answers : list (Promise Details)) :
  Forall2 (settledDetails api) mvs answers -> Forall (known api) mvs.
Proof. induction 1 as [|mv answer mvs answers Hmv _ IH]; constructor; [by exists answer | done]. Qed.

(** X23. A document that was assembled is assembled again from the caches
    alone, whatever was done with the instance in between and under
    whatever schedules. Where the first assembly was fulfilled, the second
    asks the service for nothing, changes nothing and is fulfilled with the
    same document. Where the first was rejected, the second is rejected
    too: the lookup that failed is not tried again (the rejection may be
    that of another lookup that failed, which the schedule chooses). *)
Theorem assembling_again_asks_for_nothing (srv : Service) (uses later : list Use)
  (schedule again : list nat)
  (minecraftVersions : list MinecraftVersionSummary) (releasesOnly : bool) :
  exists document,
    (buildMinecraftVersionsWithNeoForge schedule minecraftVersions releasesOnly
       (lifetime srv uses)).1 = Normal document
    /\ match document with
       | Fulfilled listing =>
           buildMinecraftVersionsWithNeoForge again minecraftVersions releasesOnly
             (fold_left perform later
                (buildMinecraftVersionsWithNeoForge schedule minecraftVersions releasesOnly
                   (lifetime srv uses)).2)
           = (Normal (Fulfilled listing),
              fold_left perform later
                (buildMinecraftVersionsWithNeoForge schedule minecraftVersions releasesOnly
                   (lifetime srv uses)).2)
       | Rejected _ =>
           exists e,
             (buildMinecraftVersionsWithNeoForge again minecraftVersions releasesOnly
                (fold_left perform later
                   (buildMinecraftVersionsWithNeoForge schedule minecraftVersions
                      releasesOnly (lifetime srv uses)).2)).1
             = Normal (Rejected e)
       end.
Proof.
  pose proof (lifetime_sound srv uses) as Hs.
  destruct (buildMinecraftVersionsWithNeoForge_run schedule minecraftVersions releasesOnly
              _ Hs)
    as (together1 & a1 & doc1 & api1 & E1 & Hsa1 & _ & _ & Hs1 & He1 & Hdoc1).
  rewrite E1. cbn [fst snd]. exists doc1. split; [done |].
  destruct (uses_sound api1 later Hs1) as [Hs2 He2].
  set (api2 := fold_left perform later api1) in *.
  destruct (buildMinecraftVersionsWithNeoForge_run again minecraftVersions releasesOnly
              api2 Hs2)
    as (together2 & a2 & doc2 & api2' & E2 & Hsa2 & Hea2 & Hsame2 & Hs2' & He2' & Hdoc2).
  rewrite E2.
  assert (extends a1 a2) as He12
    by (eapply extends_trans; [exact He1 |]; by eapply extends_trans).
  destruct together1 as [details1|e1].
  - destruct Hdoc1 as [Hset1 Hdoc1].
    assert (Forall2 (settledDetails api2)
              (List.filter (listed releasesOnly) minecraftVersions)
              (map Fulfilled details1)) as Hset12.
    { apply (Forall2_settledDetails_extends _ a1 api2); [done | | done].
      exact (extends_trans _ _ _ He1 He2). }
    assert (a2 = api2) as -> by (by apply Hsame2, (answers_known api2 _ _ Hset12)).
    assert (together2 = Fulfilled details1) as ->.
    { destruct together2 as [details2|e2].
      - destruct Hdoc2 as [Hset2 _].
        pose proof (answers_functional api2 _ _ _ Hset2 Hset12) as Heq.
        apply (f_equal Promise_all) in Heq. by rewrite !Promise_all_values in Heq.
      - exfalso. destruct Hdoc2 as ((mv & Hin & Hrej) & _).
        pose proof (answer_rejected api2 _ _ mv e2 Hset12 Hin Hrej) as Hin2.
        apply Promise_all_rejected in Hin2 as [e' He']. by rewrite Promise_all_values in He'. }
    destruct Hdoc2 as [_ Hdoc2].
    destruct (List.find snapshot minecraftVersions) as [mv|].
    + destruct Hdoc1 as (P1 & Hp1 & _ & ->), Hdoc2 as (P2 & Hp2 & Hsame & ->).
      assert (settledDetails api2 mv P1) as Hp12
        by (by apply (settledDetails_extends mv api1 api2)).
      assert (api2' = api2) as -> by (apply Hsame; by exists P1).
      pose proof (settledDetails_functional mv api2 P2 P1 Hp2 Hp12) as ->.
      destruct P1; [done | by eexists].
    + destruct Hdoc1 as [_ ->], Hdoc2 as [-> ->]. done.
  - destruct Hdoc1 as ((mv & Hin & Hrej) & -> & _).
    destruct together2 as [details2|e2].
    + exfalso. destruct Hdoc2 as [Hset2 _].
      assert (settledDetails a2 mv (Rejected e1)) as Hrej2
        by (by apply (settledDetails_extends mv a1 a2)).
      pose proof (answer_rejected a2 _ _ mv e1 Hset2 Hin Hrej2) as Hin2.
      apply Promise_all_rejected in Hin2 as [e' He']. by rewrite Promise_all_values in He'.
    + destruct Hdoc2 as (_ & -> & _). by exists e2.
Qed.

End AssemblyProofs.

Section AssemblyWitnesses.
#[local] Existing Instance Cases.client.

Lemma releases_document_is_part_of_the_versions_document_witness :
  sublist (Assembly.versions Cases.releases) (Assembly.versions Cases.all_versions)
  /\ Assembly.latestSnapshot Cases.releases = Assembly.latestSnapshot Cases.all_versions.
Proof.
  apply (releases_document_is_part_of_the_versions_document (client:=Cases.client)
           0 [] [0; 0]%nat [1; 0; 0; 1]%nat Cases.summaries Cases.releases
           Cases.all_versions).
  - vm_compute. reflexivity.
  - vm_compute. reflexivity.
Defined.

(** The calls of [fetchDetails] run together: the details of all the
    Minecraft versions are asked for first, and those of the NeoForge
    versions in the order of the schedule. *)
Example requests_of_an_assembly :
  Versions.calls
    (Assembly.buildMinecraftVersionsWithNeoForge (client:=Cases.client) [1; 0; 0; 1]%nat
       Cases.summaries false (Versions.new_VersionsApi 0)).2
  = [ Versions.MinecraftVersion "25w14a"; Versions.MinecraftVersion "1.21.1";
      Versions.NeoForgeVersion "21.1.72"; Versions.NeoForgeVersion "25.14.0-alpha" ]
  /\ Versions.calls
       (Assembly.buildMinecraftVersionsWithNeoForge (client:=Cases.client) []
          Cases.summaries false (Versions.new_VersionsApi 0)).2
     = [ Versions.MinecraftVersion "25w14a"; Versions.MinecraftVersion "1.21.1";
         Versions.NeoForgeVersion "25.14.0-alpha"; Versions.NeoForgeVersion "21.1.72" ].
Proof. vm_compute. by split. Qed.

(** The document is rejected by the call that is rejected first, which the
    schedule chooses; the function goes on from there, and a call that is
    still at its first [await] has not asked for the details of its
    NeoForge version. *)
Example the_first_rejection_rejects_the_document :
  (Assembly.buildMinecraftVersionsWithNeoForge (client:=Cases.unreliable) [0; 0; 1; 1]%nat
     Cases.summaries false (Versions.new_VersionsApi (client:=Cases.unreliable) 0)).1
  = Normal (Rejected "Failed to load details for NeoForge 25.14.0-alpha")
  /\ (Assembly.buildMinecraftVersionsWithNeoForge (client:=Cases.unreliable)
        [1; 1; 0; 0]%nat
        Cases.summaries false (Versions.new_VersionsApi (client:=Cases.unreliable) 0)).1
     = Normal (Rejected "Failed to load details for NeoForge 21.1.72")
  /\ Assembly.buildMinecraftVersionsWithNeoForge (client:=Cases.unreliable) [1; 1]%nat
       Cases.summaries false (Versions.new_VersionsApi (client:=Cases.unreliable) 0)
     = (Normal (Rejected "Failed to load details for NeoForge 21.1.72"),
        Assembly.lifetime (client:=Cases.unreliable) 0
          [ Assembly.UseMinecraftDetails "25w14a"; Assembly.UseMinecraftDetails "1.21.1";
            Assembly.UseNeoForgeDetails "21.1.72" ]).
Proof. vm_compute. by repeat split. Qed.

End AssemblyWitnesses.

Section DocumentProofs.
Import Versions Assembly.
Context {client : Client}.
Implicit Types api : VersionsApi.

Lemma Forall2_fulfilled api (mvs : list MinecraftVersionSummary)
  (answers : list (Promise Details)) (versionDetails : list Details) :
  Forall2 (settledDetails api) mvs answers ->
  Promise_all answers = Fulfilled versionDetails ->
  Forall2 (fun mv details => settledDetails api mv (Fulfilled details)) mvs versionDetails.
Proof.
  intros Hf Hall. apply Promise_all_fulfilled in Hall. subst answers.
  revert mvs Hf. induction versionDetails as [|d ds IH]; intros mvs Hf;
    inversion Hf; subst; constructor; [done | by apply IH].
Qed.

(** X24. What a document holds, under any schedule. The assembly returns a
    promise, and when it is fulfilled: the entries of the document are, in
    the order of the summaries, those of the summaries that have a NeoForge
    version (and are releases, for the releases document), each made of the
    details that the caches hold for it from then on; and the latest
    snapshot of the document is the entry of the first summary that is a
    snapshot with a NeoForge version, with or without the restriction to
    releases, and is missing exactly when there is no such summary. When it
    is rejected, the error is the rejection of the details of one of the
    listed summaries, or it is that of the details of the latest snapshot
    and the details of all the listed summaries are fulfilled. *)
Theorem document_lists_the_versions_with_neoforge (srv : Service) (uses : list Use)
  (schedule : list nat)
  (minecraftVersions : list MinecraftVersionSummary) (releasesOnly : bool) :
  exists document api',
    buildMinecraftVersionsWithNeoForge schedule minecraftVersions releasesOnly
      (lifetime srv uses)
    = (Normal document, api')
    /\ match document with
       | Fulfilled listing =>
           Forall2 (fun mv entry =>
                      exists details,
                        settledDetails api' mv (Fulfilled details)
                        /\ entry = makeVersionEntry details)
             (List.filter (listed releasesOnly) minecraftVersions) (versions listing)
           /\ match List.find snapshot minecraftVersions with
              | Some mv =>
                  exists details,
                    settledDetails api' mv (Fulfilled details)
                    /\ latestSnapshot listing = Some (makeVersionEntry details)
              | None => latestSnapshot listing = None
              end
       | Rejected e =>
           (exists mv,
              In mv (List.filter (listed releasesOnly) minecraftVersions)
              /\ settledDetails api' mv (Rejected e))
           \/ (exists mv,
                 List.find snapshot minecraftVersions = Some mv
                 /\ settledDetails api' mv (Rejected e)
                 /\ Forall (fun mv' => exists details,
                              settledDetails api' mv' (Fulfilled details))
                      (List.filter (listed releasesOnly) minecraftVersions))
       end.
Proof.
  pose proof (lifetime_sound srv uses) as Hs.
  destruct (buildMinecraftVersionsWithNeoForge_run schedule minecraftVersions releasesOnly
              _ Hs)
    as (together & a1 & doc & api1 & E1 & Hsa1 & _ & _ & Hs1 & He1 & Hdoc).
  exists doc, api1. split; [done |].
  destruct together as [versionDetails|e].
  - destruct Hdoc as [Hset1 Hdoc].
    pose proof (Forall2_settledDetails_extends _ a1 api1 _ Hs1 He1 Hset1) as Hset.
    pose proof (Forall2_fulfilled api1 _ _ _ Hset (Promise_all_values versionDetails))
      as Hful.
    assert (Forall2 (fun mv entry =>
                       exists details,
                         settledDetails api1 mv (Fulfilled details)
                         /\ entry = makeVersionEntry details)
              (List.filter (listed releasesOnly) minecraftVersions)
              (map makeVersionEntry versionDetails)) as Hentries.
    { clear -Hful. induction Hful as [|mv d mvs ds Hd _ IH]; simpl; constructor;
        [by exists d | done]. }
    destruct (List.find snapshot minecraftVersions) as [mv|].
    + destruct Hdoc as ([details|e] & Hp & _ & ->).
      * split; [done |]. by exists details.
      * right. exists mv. split; [done |]. split; [done |].
        clear -Hful. induction Hful as [|mv d mvs ds Hd _ IH]; constructor;
          [by exists d | done].
    + destruct Hdoc as [_ ->]. by split.
  - destruct Hdoc as ((mv & Hin & Hrej) & -> & ->). left. by exists mv.
Qed.

End DocumentProofs.

(** ** The integrity of what is uploaded *)

Section ArtifactNames.

Lemma characters_inj (s t : string) : Spec.characters s = Spec.characters t -> s = t.
Proof.
  unfold Spec.characters. intros E.
  by rewrite <- (string_of_list_ascii_of_string s), <- (string_of_list_ascii_of_string t), E.
Qed.

Lemma append_inv_tail (N1 N2 e : string) : N1 +:+ e = N2 +:+ e -> N1 = N2.
Proof.
  intros E. apply characters_inj. apply (f_equal Spec.characters) in E.
  rewrite !characters_append in E. by apply app_inv_tail in E.
Qed.

Lemma append_last (N1 N2 : string) (c1 c2 : ascii) :
  N1 +:+ String c1 "" = N2 +:+ String c2 "" -> c1 = c2.
Proof.
  intros E. apply (f_equal Spec.characters) in E. rewrite !characters_append in E.
  by apply app_inj_tail in E as [_ E].
Qed.

(** An artifact is an artifact of one listing: the names of the artifacts
    of two listings are different. *)
Lemma artifacts_unambiguous (N1 N2 a : string) :
  In a (Runs.artifactsOf N1) -> In a (Runs.artifactsOf N2) -> N1 = N2.
Proof.
  assert (forall N : string, N +:+ ".json" = (N +:+ ".jso") +:+ String "n" "") as Ejson
    by (intros N; by rewrite append_assoc).
  assert (forall N : string, N +:+ ".json.br" = (N +:+ ".json.b") +:+ String "r" "") as Ebr
    by (intros N; by rewrite append_assoc).
  assert (forall N : string, N +:+ ".json.gz" = (N +:+ ".json.g") +:+ String "z" "") as Egz
    by (intros N; by rewrite append_assoc).
  unfold Runs.artifactsOf. simpl.
  intros [<-|[<-|[<-|[]]]] [E|[E|[E|[]]]];
    try (by apply append_inv_tail in E);
    exfalso; rewrite ?Ejson, ?Ebr, ?Egz in E; apply append_last in E; discriminate E.
Qed.

End ArtifactNames.

Section Integrity.
Context {rt : Platform} {D : Type} {dm : DepotManager D}.
Variable self : ListingsBuilder.

(** The files that [writeListingAsync] writes for the listing [N]. *)
Lemma written_elsewhere (names : list string) (N k a b bb bg : string)
  (files : gmap string string) :
  Runs.separate self names -> In N names -> In k names -> k <> N ->
  In a (Runs.artifactsOf k) ->
  (<[Spec.jsonPath self N +:+ ".gz" := bg]>
     (<[Spec.jsonPath self N +:+ ".br" := bb]> (<[Spec.jsonPath self N := b]> files)))
  !! path_join (destinationFolder self) a
  = files !! path_join (destinationFolder self) a.
Proof.
  intros [Hsuffix Hinj] HN Hk Hne Ha. unfold Spec.jsonPath.
  destruct (Hsuffix N HN) as [<- <-].
  assert (forall c, In c (Runs.artifactsOf N) ->
            path_join (destinationFolder self) c <> path_join (destinationFolder self) a)
    as Hother.
  { intros c Hc E. apply (Hinj N k c a HN Hk Hc Ha) in E. subst c.
    apply Hne. by apply (artifacts_unambiguous k N a). }
  rewrite !lookup_insert_ne; [done | | |]; apply Hother; unfold Runs.artifactsOf; simpl; auto.
Qed.

Lemma materialized_elsewhere (names : list string) (N b bb bg : string)
  (files : gmap string string) (d : ListingDescriptor) :
  Runs.separate self names -> In N names -> In (name d) names -> name d <> N ->
  Runs.materialized self files d ->
  Runs.materialized self
    (<[Spec.jsonPath self N +:+ ".gz" := bg]>
       (<[Spec.jsonPath self N +:+ ".br" := bb]> (<[Spec.jsonPath self N := b]> files))) d.
Proof.
  intros Hsep HN Hk Hne (H1 & H2 & H3). unfold Runs.materialized, Spec.describes.
  rewrite !(written_elsewhere names N (name d) _ b bb bg files Hsep HN Hk Hne);
    [done | | |]; unfold Runs.artifactsOf; simpl; auto.
Qed.

Lemma materialized_written (names : list string) (N : string) (content : JSValue)
  (s : State D) (d : ListingDescriptor) :
  Runs.separate self names -> In N names ->
  (writeListingAsync self N (Fulfilled content) s).1 = Normal (Fulfilled d) ->
  name d = N
  /\ Runs.materialized self (fs (writeListingAsync self N (Fulfilled content) s).2) d.
Proof.
  intros [Hsuffix _] HN. rewrite writeListingAsync_fulfilled. simpl. intros [= <-]. simpl.
  split; [done |]. unfold Runs.materialized. simpl.
  destruct (Hsuffix N HN) as [-> ->].
  set (buffer := Buffer_from _).
  destruct (written_files self N buffer (brotliCompress buffer) (gzipCompress buffer) (fs s))
    as (L1 & L2 & L3).
  unfold Spec.jsonPath in *. split; [| split]; by eexists.
Qed.

Lemma register_consistent (names : list string) (call : string * Promise JSValue)
  (s : State D) :
  Runs.separate self names -> In call.1 names -> call.1 <> "index" ->
  Runs.consistent self names s ->
  Runs.consistent self names (Runs.register self s call).
Proof.
  intros Hsep HN Hindex (Hok & Hkeys & Hmat).
  pose proof (register_registry_ok self call s Hok) as Hok'.
  split; [done |]. split.
  { intros k Hk. destruct (register_keys self call s k Hk) as [Hold| ->]; [by apply Hkeys | done]. }
  destruct call as [N content]. unfold Runs.register in *. cbn [fst snd] in *.
  destruct (has_property N (listings s)) eqn:Hnew.
  { destruct (writeListing_run self N content s) as [_ [[_ E]|(Hnew' & _)]]; [| congruence].
    by rewrite E. }
  destruct (writeListing_registers self N content s Hnew) as (p & E & Ep). rewrite E.
  assert (hasOwn N (listings s) = false) as Hfresh.
  { unfold has_property in Hnew. by apply orb_false_iff in Hnew as [? _]. }
  destruct (writeListingAsync_listings self N content s) as (Hl & _).
  unfold set_listings. cbn [snd listings fs]. rewrite Hl, (set_property_new _ _ _ Hfresh).
  destruct content as [content|e].
  - intros k d [Hold|[[= <- ->]|[]]]%in_app_or.
    + rewrite writeListingAsync_fulfilled. unfold set_fs. cbn [snd fs].
      destruct Hok as [_ Hname]. pose proof (Hname k d Hold) as Hk.
      assert (In k (map fst (listings s))) as Hin by (by apply (in_map fst _ (k, Fulfilled d))).
      apply (materialized_elsewhere names); [done | done | | | by apply (Hmat k)].
      * rewrite Hk. by apply Hkeys.
      * rewrite Hk. intros ->. apply hasOwn_keys in Hin. congruence.
    + by apply (materialized_written names N content s d Hsep HN).
  - rewrite writeListingAsync_rejected in Ep |- *. cbn [fst snd] in Ep |- *.
    injection Ep as <-. intros k d [Hold|[[=]|[]]]%in_app_or. by apply (Hmat k).
Qed.

Lemma registrations_consistent (names : list string)
  (calls : list (string * Promise JSValue)) (s : State D) :
  Runs.separate self names ->
  Forall (fun call => In call.1 names /\ call.1 <> "index") calls ->
  Runs.consistent self names s ->
  Runs.consistent self names (Runs.registrations self calls s).
Proof.
  intros Hsep Hcalls. unfold Runs.registrations. revert s.
  induction Hcalls as [|call calls [HN Hindex] _ IH]; intros s Hs; simpl; [done |].
  apply IH. by apply register_consistent.
Qed.

Lemma finish_consistent (names : list string) (s : State D) :
  Runs.separate self names -> In "index" names ->
  Runs.consistent self names s ->
  Runs.consistent self names (finish self s).2.
Proof.
  intros Hsep Hindex (Hok & Hkeys & Hmat).
  destruct (Promise_all (Object_values (listings s))) as [files|e] eqn:Hall.
  - rewrite (finish_fulfilled self files s Hall). rewrite writeListingAsync_fulfilled. simpl.
    split; [done |]. split; [done |]. intros k d Hin. simpl.
    destruct Hok as [_ Hname]. pose proof (Hname k d Hin) as Hk.
    assert (In k (map fst (listings s))) as Hin' by (by apply (in_map fst _ (k, Fulfilled d))).
    destruct (Hkeys k Hin') as [Hkn Hki].
    apply (materialized_elsewhere names); [done | done | by rewrite Hk | by rewrite Hk |].
    by apply (Hmat k).
  - by rewrite (finish_rejected self e s Hall).
Qed.

Lemma values_in_registry (o : JSObject (Promise ListingDescriptor))
  (ls : list ListingDescriptor) (l : ListingDescriptor) :
  Runs.registry_ok o ->
  Promise_all (Object_values o) = Fulfilled ls ->
  In l ls -> In (name l, Fulfilled l) o.
Proof.
  intros [_ Hname] Hall Hin. apply Promise_all_fulfilled in Hall.
  assert (In (Fulfilled l) (Object_values o)) as Hv by (rewrite Hall; by apply in_map).
  unfold Object_values in Hv. apply in_map_iff in Hv as ([k p] & Hp & Hkp). simpl in Hp.
  subst p. apply (Permutation_in _ (own_properties_Permutation o)) in Hkp.
  by rewrite (Hname k l Hkp).
Qed.

(** X26. The integrity of the uploads. For a run that registers listings
    under names other than [index], starting from an empty registry, and
    then calls [finish], on a file system where two artifacts have two
    paths: every artifact that the sync uploads is an artifact of a listing
    of the run, and its bytes are those that the descriptor of that listing
    gives the hash and the size of. *)
Theorem uploaded_artifacts_are_those_described (calls : list (string * Promise JSValue))
  (fullResync : bool) (ls : list ListingDescriptor) (s : State D) :
  listings s = [] ->
  Forall (fun call => call.1 <> "index") calls ->
  Runs.separate self ("index" :: map fst calls) ->
  Promise_all (Object_values (listings (Runs.compiled self calls s))) = Fulfilled ls ->
  exists artifacts rest,
    uploads (syncWithDepot self fullResync (Runs.compiled self calls s)).2
    = (uploads (Runs.compiled self calls s) ++ artifacts ++ rest)%list
    /\ Forall (Runs.genuine ls) artifacts
    /\ (rest = [] \/ rest = [(DEPOT_INDEX_PATH, Spec.indexDocument ls)]).
Proof.
  intros Hempty Hcalls Hsep Hall.
  assert (Runs.consistent self ("index" :: map fst calls) (Runs.compiled self calls s))
    as (Hok & _ & Hmat).
  { apply finish_consistent; [done | by left |].
    apply registrations_consistent; [done | |].
    - apply List.Forall_forall. intros call Hin. split.
      + right. by apply in_map.
      + by apply (proj1 (List.Forall_forall _ _) Hcalls).
    - unfold Runs.consistent. rewrite Hempty.
      split; [split; [constructor | by intros k d []] |].
      split; [by intros k [] | by intros k d []]. }
  destruct (syncWithDepot_calls self fullResync ls _ Hall) as [_ (artifacts & rest & Hu & Hf & Hrest & _)].
  exists artifacts, rest. split; [done |]. split; [| done].
  eapply Forall_impl; [exact Hf |].
  intros call (l & filename & Hl & Hfile & Hname & Hread).
  pose proof (Hmat _ l (values_in_registry _ ls l Hok Hall Hl)) as (H1 & H2 & H3).
  unfold Spec.artifactNames in Hfile. simpl in Hfile.
  destruct Hfile as [<-|[<-|[<-|[]]]].
  - destruct H1 as (bytes & Hb & Hsha & Hsize). rewrite Hread in Hb. injection Hb as <-.
    exists l, (uncompressed l). split; [done |]. split; [by left | done].
  - destruct H2 as (bytes & Hb & Hsha & Hsize). rewrite Hread in Hb. injection Hb as <-.
    exists l, (brotli l). split; [done |]. split; [right; by left | done].
  - destruct H3 as (bytes & Hb & Hsha & Hsize). rewrite Hread in Hb. injection Hb as <-.
    exists l, (gzip l). split; [done |]. split; [right; by right | done].
Qed.

End Integrity.

Section IndexName.
Context {rt : Platform} {D : Type} {dm : DepotManager D}.
Variable self : ListingsBuilder.

(** X27. The name [index] is not reserved. A listing can be registered
    under it, and [finish] then writes the listing of the descriptors over
    its files: the registry still holds the descriptor with the hash of the
    payload that was registered, which the sync will upload the artifacts
    of, while the file in the destination folder holds the list of the
    descriptors. *)
Theorem listing_named_index_is_overwritten (content : JSValue)
  (files : list ListingDescriptor) (s : State D) :
  has_property "index" (listings s) = false ->
  Promise_all (Object_values (listings (writeListing self "index" (Fulfilled content) s).2))
  = Fulfilled files ->
  let indent := if truthy_opt FORMAT_OUTPUT then Some 2 else None in
  exists d s',
    (writeListing self "index" (Fulfilled content) s).1 = Normal (Fulfilled d)
    /\ In d files
    /\ name d = "index"
    /\ sha256 (uncompressed d) = sha256_hex (Buffer_from (JSON_stringify content indent))
    /\ fs (writeListing self "index" (Fulfilled content) s).2 !! Spec.jsonPath self "index"
       = Some (Buffer_from (JSON_stringify content indent))
    /\ finish self (writeListing self "index" (Fulfilled content) s).2 = (Normal tt, s')
    /\ listings s' = listings (writeListing self "index" (Fulfilled content) s).2
    /\ fs s' !! Spec.jsonPath self "index"
       = Some (Buffer_from
                 (JSON_stringify (JArray (map ListingDescriptor_toJS files)) indent)).
Proof.
  intros Hnew Hall indent.
  destruct (writeListing_registers self "index" (Fulfilled content) s Hnew) as (p & E & Ep).
  rewrite writeListingAsync_fulfilled in E, Ep. cbn [fst snd] in E, Ep. injection Ep as <-.
  rewrite E in *. cbn [fst snd] in *.
  set (buffer := Buffer_from (JSON_stringify content indent)) in *.
  set (d := {| name := "index"; last_modified := referenceDate self;
               uncompressed := buildFileDescriptor ("index" +:+ ".json") buffer;
               brotli := buildFileDescriptor ("index" +:+ ".json.br") (brotliCompress buffer);
               gzip := buildFileDescriptor ("index" +:+ ".json.gz") (gzipCompress buffer) |})
    in *.
  eexists d, _. split; [done |]. split.
  { pose proof (Promise_all_fulfilled _ _ Hall) as Hvalues.
    assert (In (Fulfilled d) (map Fulfilled files)) as Hin.
    { rewrite <- Hvalues. apply (Object_values_In "index"). unfold set_listings.
      cbn [listings]. apply get_own_In. apply set_property_hasOwn. }
    apply in_map_iff in Hin as (d' & [= ->] & Hd'). done. }
  do 2 (split; [done |]). split.
  { unfold set_listings, set_fs. cbn [fs].
    apply (written_files self "index" buffer (brotliCompress buffer) (gzipCompress buffer)
             (fs s)). }
  split; [apply (finish_fulfilled self files _ Hall) |].
  rewrite writeListingAsync_fulfilled. unfold set_listings, set_fs. cbn [snd listings fs].
  split; [done |].
  apply (written_files self "index").
Qed.

End IndexName.

Section IntegrityWitnesses.
#[local] Existing Instance Demo.platform.

Lemma demo_separate (names : list string) : Runs.separate Demo.builder names.
Proof.
  split.
  - intros N _. change (path_join (destinationFolder Demo.builder))
      with (fun b : string => "output" +:+ "/" +:+ b). cbv beta.
    split.
    + change (N +:+ ".json.br") with (N +:+ ".json" +:+ ".br").
      by rewrite <- !append_assoc.
    + change (N +:+ ".json.gz") with (N +:+ ".json" +:+ ".gz").
      by rewrite <- !append_assoc.
  - intros N1 N2 a b _ _ _ _ E.
    change (path_join (destinationFolder Demo.builder))
      with (fun b : string => "output" +:+ "/" +:+ b) in E. cbv beta in E.
    by apply (inj (String.append "output")), (inj (String.append "/")) in E.
Qed.

Lemma compiled_a_b :
  Promise_all
    (Object_values
       (listings
          (Runs.compiled Demo.builder
             [("a", Fulfilled JNull); ("b", Fulfilled (JBool true))]
             (Demo.initial Demo.localDepot))))
  = Fulfilled [Demo.listing_a; Demo.listing_b].
Proof. vm_compute. reflexivity. Qed.

Lemma uploaded_artifacts_are_those_described_witness :
  exists artifacts rest,
    uploads
      (syncWithDepot Demo.builder true
         (Runs.compiled Demo.builder
            [("a", Fulfilled JNull); ("b", Fulfilled (JBool true))]
            (Demo.initial Demo.localDepot))).2
    = (uploads
         (Runs.compiled Demo.builder
            [("a", Fulfilled JNull); ("b", Fulfilled (JBool true))]
            (Demo.initial Demo.localDepot)) ++ artifacts ++ rest)%list
    /\ Forall (Runs.genuine [Demo.listing_a; Demo.listing_b]) artifacts
    /\ (rest = []
        \/ rest = [(DEPOT_INDEX_PATH, Spec.indexDocument [Demo.listing_a; Demo.listing_b])]).
Proof.
  apply (uploaded_artifacts_are_those_described Demo.builder
           [("a", Fulfilled JNull); ("b", Fulfilled (JBool true))] true
           [Demo.listing_a; Demo.listing_b] (Demo.initial Demo.localDepot)).
  - reflexivity.
  - repeat constructor; discriminate.
  - apply demo_separate.
  - exact compiled_a_b.
Defined.

Lemma registered_index_fulfilled :
  Promise_all
    (Object_values
       (listings
          (writeListing Demo.builder "index" (Fulfilled JNull)
             (Demo.initial Demo.localDepot)).2))
  = Fulfilled [Cases.listing_index].
Proof. vm_compute. reflexivity. Qed.

Lemma listing_named_index_is_overwritten_witness :
  exists d s',
    (writeListing Demo.builder "index" (Fulfilled JNull) (Demo.initial Demo.localDepot)).1
    = Normal (Fulfilled d)
    /\ In d [Cases.listing_index]
    /\ name d = "index"
    /\ sha256 (uncompressed d) = sha256_hex (Buffer_from (JSON_stringify JNull None))
    /\ fs (writeListing Demo.builder "index" (Fulfilled JNull)
             (Demo.initial Demo.localDepot)).2 !! Spec.jsonPath Demo.builder "index"
       = Some (Buffer_from (JSON_stringify JNull None))
    /\ finish Demo.builder
         (writeListing Demo.builder "index" (Fulfilled JNull)
            (Demo.initial Demo.localDepot)).2
       = (Normal tt, s')
    /\ listings s'
       = listings (writeListing Demo.builder "index" (Fulfilled JNull)
                     (Demo.initial Demo.localDepot)).2
    /\ fs s' !! Spec.jsonPath Demo.builder "index"
       = Some (Buffer_from
                 (JSON_stringify
                    (JArray (map ListingDescriptor_toJS [Cases.listing_index])) None)).
Proof.
  exact (listing_named_index_is_overwritten Demo.builder JNull [Cases.listing_index]
           (Demo.initial Demo.localDepot) eq_refl registered_index_fulfilled).
Defined.

End IntegrityWitnesses.

(** ** The credentials of the version metadata client ([lib/meta-api.ts]) *)

Section ApiClientProofs.
Import ApiClient.

Lemma truthy_opt_configured (variable : option string) :
  truthy_opt variable = true <-> exists value, set_to variable value.
Proof.
  unfold set_to. destruct variable as [value|]; simpl.
  - unfold truthy. rewrite negb_true_iff, String.eqb_neq. split.
    + intros Hne. by exists value.
    + by intros (v & [= <-] & Hne).
  - split; [done | by intros (v & Hv & _)].
Qed.

(** X25. A client whose module has loaded sends no request without a
    credential. When the body of the module returns, one of the two
    credentials is set; the request that [onRequest] hands to [fetch] goes to
    the same URL and carries the API key as [X-API-Key] if there is one, in
    which case no authorization is added even if a token is set too, and
    the token as bearer [Authorization] otherwise; the other headers are as
    they were. When neither is set the process stops with status 1 before
    there is a client. *)
Theorem loaded_client_sends_a_credential {transport : Transport} (env : Environment)
  (console : list LogEntry) (request : Request) (remote : Remote) :
  (truthy_opt (META_API_API_KEY env) = false ->
   truthy_opt (META_API_TOKEN env) = false ->
   exists console', load env console = (ProcessExit 1, console'))
  /\ forall base console',
       load env console = (Normal base, console') ->
       (onRequest env request remote).1 = Normal (fetch (authorized env request) remote).1
       /\ url (authorized env request) = url request
       /\ ((exists key,
              set_to (META_API_API_KEY env) key
              /\ Headers_get "X-API-Key" (headers (authorized env request)) = Some key
              /\ forall name, toLowerCase name <> "x-api-key" ->
                   Headers_get name (headers (authorized env request))
                   = Headers_get name (headers request))
           \/ (truthy_opt (META_API_API_KEY env) = false
               /\ exists token,
                    set_to (META_API_TOKEN env) token
                    /\ Headers_get "Authorization" (headers (authorized env request))
                       = Some ("Bearer " +:+ token)
                    /\ forall name, toLowerCase name <> "authorization" ->
                         Headers_get name (headers (authorized env request))
                         = Headers_get name (headers request))).
Proof.
  split.
  - intros Hk Ht. unfold load. rewrite Hk, Ht. simpl. by eexists.
  - intros base console' Hload. split.
    { unfold onRequest. by destruct (fetch (authorized env request) remote). }
    unfold authorized, Headers_get, Headers_set.
    change (toLowerCase "X-API-Key") with "x-api-key".
    change (toLowerCase "Authorization") with "authorization".
    destruct (truthy_opt (META_API_API_KEY env)) eqn:Hk.
    + split; [done |]. left. apply truthy_opt_configured in Hk as [key Hkey].
      exists key. split; [done |]. destruct Hkey as [-> _]. simpl.
      split; [by rewrite get_own_set_property, String.eqb_refl |].
      intros name Hname. rewrite get_own_set_property.
      by rewrite (proj2 (String.eqb_neq _ _) Hname).
    + destruct (truthy_opt (META_API_TOKEN env)) eqn:Ht.
      * split; [done |]. right. split; [done |].
        apply truthy_opt_configured in Ht as [token Htoken].
        exists token. split; [done |]. destruct Htoken as [-> _]. simpl.
        split; [by rewrite get_own_set_property, String.eqb_refl |].
        intros name Hname. rewrite get_own_set_property.
        by rewrite (proj2 (String.eqb_neq _ _) Hname).
      * unfold load in Hload. rewrite Hk, Ht in Hload. simpl in Hload. done.
Qed.

End ApiClientProofs.

(** ** What the depot holds after a sync *)

Section Related.
Context {St : Type} (R : St -> St -> Prop).
Hypothesis R_refl : forall s, R s s.
Hypothesis R_trans : forall s1 s2 s3, R s1 s2 -> R s2 s3 -> R s1 s3.

(** A relation between the states that every step keeps is kept by a
    sequence and by a loop, however they end. *)
Lemma bind_related {A B} (m : M St A) (k : A -> M St B) (s : St) :
  R s (m s).2 -> (forall a s1, R s1 (k a s1).2) -> R s ((m ≫= k) s).2.
Proof.
  intros Hm Hk. unfold mbind, M_bind. destruct (m s) as [[a| |] s1]; simpl in *; [| done | done].
  by apply (R_trans _ s1).
Qed.

Lemma for_of_related {A} (l : list A) (body : A -> M St unit) (s : St) :
  (forall x s1, R s1 (body x s1).2) -> R s (for_of l body s).2.
Proof.
  intros Hbody. revert s. induction l as [|x l IH]; intros s; simpl; [apply R_refl |].
  apply bind_related; [apply Hbody | intros _ s1; apply IH].
Qed.

End Related.

Section Deposited.
Context {rt : Platform} {D : Type} {dm : DepotManager D}.
Variable self : ListingsBuilder.

Lemma deposited_refl (s : State D) : Runs.deposited s s.
Proof. exists []. by rewrite app_nil_r. Qed.

Lemma deposited_trans (s1 s2 s3 : State D) :
  Runs.deposited s1 s2 -> Runs.deposited s2 s3 -> Runs.deposited s1 s3.
Proof.
  intros (n1 & Hu1 & Hd1) (n2 & Hu2 & Hd2). exists (n1 ++ n2)%list.
  split; [by rewrite Hu2, Hu1, app_assoc |]. by rewrite Hd2, Hd1, fold_left_app.
Qed.

Lemma deposited_same (s s' : State D) :
  uploads s' = uploads s -> depot s' = depot s -> Runs.deposited s s'.
Proof. intros Hu Hd. exists []. by rewrite app_nil_r. Qed.

Lemma depot_upload_deposited (relativePath content : string) (s : State D) :
  Runs.deposited s (depot_upload relativePath content s).2.
Proof.
  exists [(relativePath, content)]. unfold depot_upload, on_depot. unfold_M. simpl.
  by destruct (upload relativePath content (depot s)).
Qed.

Lemma uploadArtifact_deposited (l : ListingDescriptor) (extension : string) (s : State D) :
  Runs.deposited s (uploadArtifact self l extension s).2.
Proof.
  unfold uploadArtifact.
  apply (bind_related Runs.deposited deposited_trans).
  - unfold fs_readFile. unfold_M. destruct (fs s !! _); apply deposited_refl.
  - intros content s1. apply (bind_related Runs.deposited deposited_trans).
    + apply depot_upload_deposited.
    + intros _ s2. by apply deposited_same.
Qed.

Lemma syncListing_deposited (existing : JSObject ListingDescriptor) (l : ListingDescriptor)
  (s : State D) :
  Runs.deposited s (syncListing self existing l s).2.
Proof.
  unfold syncListing. destruct (same_content _ l).
  - unfold the_global_name, console_log. unfold_M.
    destruct global_name; simpl; by apply deposited_same.
  - apply (for_of_related Runs.deposited deposited_refl deposited_trans).
    intros extension s1. apply uploadArtifact_deposited.
Qed.

Lemma syncWithBaseline_deposited (baseline : list ListingDescriptor) (s : State D) :
  Runs.deposited s (syncWithBaseline self baseline s).2.
Proof.
  destruct (Promise_all (Object_values (listings s))) as [ls|e] eqn:Hall.
  - rewrite (syncWithBaseline_fulfilled self baseline ls s Hall).
    apply (bind_related Runs.deposited deposited_trans).
    + apply (for_of_related Runs.deposited deposited_refl deposited_trans).
      intros l s1. apply syncListing_deposited.
    + intros _ s1. apply depot_upload_deposited.
  - rewrite (syncWithBaseline_rejected self baseline e s Hall). apply deposited_refl.
Qed.

(** Whatever the sync does, the depot after it is the depot after the
    look for the index with the calls of [depot.upload] made on it in their
    order. *)
Lemma syncWithDepot_deposited (fullResync : bool) (s : State D) :
  Runs.deposited (Spec.after_download (getJSON DEPOT_INDEX_PATH (depot s)).2 s)
    (syncWithDepot self fullResync s).2.
Proof.
  destruct (getJSON DEPOT_INDEX_PATH (depot s)) as [[[baseline|]| |] d'] eqn:Hget; simpl.
  - rewrite (syncWithDepot_baseline self fullResync baseline d' s Hget).
    apply syncWithBaseline_deposited.
  - destruct fullResync.
    + rewrite (syncWithDepot_absent_resync self d' s Hget). apply syncWithBaseline_deposited.
    + rewrite (syncWithDepot_absent_exit self d' s Hget). by apply deposited_same.
  - unfold syncWithDepot. rewrite (bind_throw _ _ _ _ _ (on_depot_run _ _ _ _ Hget)).
    apply deposited_refl.
  - unfold syncWithDepot. rewrite (bind_exit _ _ _ _ _ (on_depot_run _ _ _ _ Hget)).
    apply deposited_refl.
Qed.

End Deposited.

Section IndexPublication.
Context {rt : Platform} {D : Type} {dm : DepotManager D}.
Variable self : ListingsBuilder.

Lemma artifact_of_another_listing (files : gmap string string)
  (ls : list ListingDescriptor) (call : string * string) (N : string) :
  Forall (fun l => name l <> N) ls ->
  Spec.artifact_call self files ls call ->
  ~ In call.1 (Runs.artifactsOf N).
Proof.
  intros Hnames (l & filename & Hl & Hfile & Hcall & _) Hin. rewrite Hcall in Hin.
  apply (proj1 (List.Forall_forall _ _) Hnames l Hl).
  by apply (artifacts_unambiguous (name l) N filename).
Qed.


End IndexPublication.

Section IndexPublicationWitness.
#[local] Existing Instance Demo.platform.


End IndexPublicationWitness.

Section Returns.
Context {St : Type} (R : St -> St -> Prop).
Hypothesis R_refl : forall s, R s s.
Hypothesis R_trans : forall s1 s2 s3, R s1 s2 -> R s2 s3 -> R s1 s3.

(** A relation between the states that every step that returns keeps is
    kept by a sequence and by a loop that return. *)
Lemma bind_returns {A B} (m : M St A) (k : A -> M St B) (s s' : St) (b : B) :
  (m ≫= k) s = (Normal b, s') ->
  (forall a s1, m s = (Normal a, s1) -> R s s1) ->
  (forall a s1, k a s1 = (Normal b, s') -> R s1 s') ->
  R s s'.
Proof.
  unfold mbind, M_bind. destruct (m s) as [[a| |] s1] eqn:E; [| done | done].
  intros Hk Hm Hk'. apply (R_trans _ s1); [by apply (Hm a) | by apply (Hk' a)].
Qed.

Lemma for_of_returns {A} (l : list A) (body : A -> M St unit) (s s' : St) :
  for_of l body s = (Normal tt, s') ->
  (forall x s1 s2, body x s1 = (Normal tt, s2) -> R s1 s2) ->
  R s s'.
Proof.
  intros Hrun Hbody. revert s Hrun. induction l as [|x l IH]; intros s; simpl.
  - intros [= <-]. apply R_refl.
  - intros Hrun. apply (bind_returns _ _ _ _ _ Hrun).
    + intros [] s1 E. by apply (Hbody x).
    + intros [] s1 E. by apply IH.
Qed.

End Returns.

Section Delivered.
Context {rt : Platform} {D : Type} {dm : DepotManager D}.
Variable self : ListingsBuilder.

Lemma delivered_refl (s : State D) : Runs.delivered s s.
Proof. exists []. by rewrite app_nil_r. Qed.

Lemma delivered_trans (s1 s2 s3 : State D) :
  Runs.delivered s1 s2 -> Runs.delivered s2 s3 -> Runs.delivered s1 s3.
Proof.
  intros (n1 & Hu1 & Hd1) (n2 & Hu2 & Hd2). exists (n1 ++ n2)%list.
  split; [by rewrite Hu2, Hu1, app_assoc |].
  unfold Spec.deliver in *. rewrite for_of_app. by rewrite (bind_normal _ _ _ _ _ Hd1).
Qed.

Lemma delivered_same (s s' : State D) :
  uploads s' = uploads s -> depot s' = depot s -> Runs.delivered s s'.
Proof. intros Hu Hd. exists []. rewrite app_nil_r, Hd. by split. Qed.

Lemma depot_upload_delivered (relativePath content : string) (s s' : State D) :
  depot_upload relativePath content s = (Normal tt, s') -> Runs.delivered s s'.
Proof.
  unfold depot_upload, on_depot. unfold_M. simpl.
  destruct (upload relativePath content (depot s)) as [[[]| |] d1] eqn:E; [| done | done].
  intros [= <-]. exists [(relativePath, content)]. split; [done |]. simpl.
  unfold Spec.deliver. simpl. by rewrite (bind_normal _ _ _ _ _ E).
Qed.

Lemma uploadArtifact_delivered (l : ListingDescriptor) (extension : string)
  (s s' : State D) :
  uploadArtifact self l extension s = (Normal tt, s') -> Runs.delivered s s'.
Proof.
  unfold uploadArtifact. intros Hrun.
  apply (bind_returns Runs.delivered delivered_trans _ _ _ _ _ Hrun).
  - intros content s1. unfold fs_readFile. unfold_M. destruct (fs s !! _); [| done].
    intros [= _ <-]. apply delivered_refl.
  - intros content s1 Hrest.
    apply (bind_returns Runs.delivered delivered_trans _ _ _ _ _ Hrest).
    + intros [] s2. apply depot_upload_delivered.
    + intros [] s2. unfold console_log, set_console. unfold_M. intros [= <-].
      by apply delivered_same.
Qed.

Lemma syncListing_delivered (existing : JSObject ListingDescriptor) (l : ListingDescriptor)
  (s s' : State D) :
  syncListing self existing l s = (Normal tt, s') -> Runs.delivered s s'.
Proof.
  unfold syncListing. destruct (same_content _ l).
  - unfold the_global_name, console_log, set_console. unfold_M.
    destruct global_name; [| done]. intros [= <-]. by apply delivered_same.
  - intros Hrun. apply (for_of_returns Runs.delivered delivered_refl delivered_trans _ _ _ _ Hrun).
    intros extension s1 s2. apply uploadArtifact_delivered.
Qed.

Lemma syncWithBaseline_delivered (baseline : list ListingDescriptor) (s s' : State D) :
  syncWithBaseline self baseline s = (Normal tt, s') -> Runs.delivered s s'.
Proof.
  destruct (Promise_all (Object_values (listings s))) as [ls|e] eqn:Hall.
  - rewrite (syncWithBaseline_fulfilled self baseline ls s Hall). intros Hrun.
    apply (bind_returns Runs.delivered delivered_trans _ _ _ _ _ Hrun).
    + intros [] s1 Hloop.
      apply (for_of_returns Runs.delivered delivered_refl delivered_trans _ _ _ _ Hloop).
      intros l s2 s3. apply syncListing_delivered.
    + intros [] s1. apply depot_upload_delivered.
  - by rewrite (syncWithBaseline_rejected self baseline e s Hall).
Qed.

(** When the sync returns, the depot has accepted every call of
    [depot.upload] that it made, in their order, from the depot that the
    look for the index left. *)
Lemma syncWithDepot_delivered (fullResync : bool) (s s' : State D) :
  syncWithDepot self fullResync s = (Normal tt, s') ->
  Runs.delivered (Spec.after_download (getJSON DEPOT_INDEX_PATH (depot s)).2 s) s'.
Proof.
  destruct (getJSON DEPOT_INDEX_PATH (depot s)) as [[[baseline|]| |] d'] eqn:Hget; simpl.
  - rewrite (syncWithDepot_baseline self fullResync baseline d' s Hget).
    apply syncWithBaseline_delivered.
  - destruct fullResync.
    + rewrite (syncWithDepot_absent_resync self d' s Hget). apply syncWithBaseline_delivered.
    + by rewrite (syncWithDepot_absent_exit self d' s Hget).
  - unfold syncWithDepot. by rewrite (bind_throw _ _ _ _ _ (on_depot_run _ _ _ _ Hget)).
  - unfold syncWithDepot. by rewrite (bind_exit _ _ _ _ _ (on_depot_run _ _ _ _ Hget)).
Qed.

Lemma deliver_snoc (calls : list (string * string))
  (call : string * string) (d d' : D) :
  Spec.deliver (calls ++ [call]) d = (Normal tt, d') ->
  exists d1, Spec.deliver calls d = (Normal tt, d1)
             /\ upload call.1 call.2 d1 = (Normal tt, d').
Proof.
  unfold Spec.deliver. rewrite for_of_app. unfold mbind at 1. unfold M_bind.
  destruct (for_of calls _ d) as [[[]| |] d1]; [| done | done].
  simpl. unfold mbind, M_bind.
  destruct (upload call.1 call.2 d1) as [[[]| |] d2] eqn:Eup; [| done | done].
  intros [= <-]. by exists d1.
Qed.

(** X2. The index that a sync publishes. When a sync returns, whatever
    the depot held and whether or not a full resync was asked for, the last
    call of [depot.upload] that it made went to [.depot-index.json], the
    depot accepted it and is what that call left; and the document uploaded
    is the serialization, without indentation, of a permutation of the
    descriptors of this run, nothing of the baseline among them and none of
    them missing, which is sorted by name under a collation that never puts
    each of two names after the other. *)
Theorem index_document_is_a_sorted_permutation (fullResync : bool)
  (ls : list ListingDescriptor) (s s' : State D) :
  Promise_all (Object_values (listings s)) = Fulfilled ls ->
  syncWithDepot self fullResync s = (Normal tt, s') ->
  exists artifacts sorted before,
    uploads s'
    = (uploads s ++ artifacts
       ++ [(DEPOT_INDEX_PATH,
            Buffer_from (JSON_stringify (JArray (map ListingDescriptor_toJS sorted)) None))])%list
    /\ upload DEPOT_INDEX_PATH
         (Buffer_from (JSON_stringify (JArray (map ListingDescriptor_toJS sorted)) None))
         before
       = (Normal tt, depot s')
    /\ Permutation sorted ls
    /\ ((forall a b : string, 0 < localeCompare a b -> localeCompare b a <= 0) ->
        Sorted Spec.name_le sorted).
Proof.
  intros Hall Hsync.
  destruct (syncWithDepot_calls self fullResync ls s Hall)
    as [_ (artifacts & rest & Hu & _ & _ & Hrest)].
  rewrite Hsync in Hu, Hrest. simpl in Hu, Hrest. specialize (Hrest eq_refl). subst rest.
  destruct (syncWithDepot_delivered fullResync s s' Hsync) as (new & Hu' & Hd').
  simpl in Hu', Hd'. rewrite Hu in Hu'. apply app_inv_head in Hu'. subst new.
  destruct (deliver_snoc _ _ _ _ Hd') as (before & _ & Hlast).
  exists artifacts, (Array_sort (fun a b => localeCompare (name a) (name b)) ls), before.
  split; [done |]. split; [done |]. split; [apply Array_sort_Permutation |].
  intros Hcmp. apply (Array_sort_Sorted (fun a b => localeCompare (name a) (name b))).
  intros a b. apply Hcmp.
Qed.

End Delivered.

Section Published.
Context {rt : Platform}.
Variable self : ListingsBuilder.

(** Uploads that the local depot has accepted, and that agree on the
    content wherever they agree on the file, can all be downloaded
    afterwards. *)
Lemma uploads_kept (new : list (string * string)) (d d' : LocalDepotManager) :
  Spec.deliver new d = (Normal tt, d') ->
  (forall c1 c2, In c1 new -> In c2 new ->
     path_join (basePath d) c1.1 = path_join (basePath d) c2.1 -> c1.2 = c2.2) ->
  basePath d' = basePath d
  /\ forall call, In call new ->
       Local_download call.1 d' = (Normal (Some call.2), d').
Proof.
  revert d'. induction new as [|x new IH] using rev_ind; intros d' Hrun Hagree.
  - injection Hrun as <-. by split.
  - apply deliver_snoc in Hrun as (d1 & Hrun & Hup).
    destruct (IH d1 Hrun) as [Hbase Hread].
    { intros c1 c2 H1 H2. apply Hagree; apply in_or_app; by left. }
    change (upload x.1 x.2 d1) with (Local_upload x.1 x.2 d1) in Hup.
    destruct (Local_upload_kept _ _ _ _ Hup) as [Hback Hkept].
    destruct (Local_upload_returns _ _ _ _ Hup) as (_ & _ & _ & Hbase').
    split; [congruence |]. intros call [Hin|[<-|[]]]%in_app_or; [| done].
    destruct (decide (path_join (basePath d1) call.1 = path_join (basePath d1) x.1))
      as [E|Hne].
    + assert (call.2 = x.2) as ->.
      { apply Hagree; [apply in_or_app; by left | apply in_or_app; right; by left |].
        by rewrite <- Hbase. }
      apply Local_download_Some. apply Local_download_Some in Hback.
      by rewrite Hbase', E, <- Hbase'.
    + by apply Hkept, Hread.
Qed.

Lemma index_path_is_no_artifact (l : ListingDescriptor) :
  name l <> ".depot-index" -> ~ In DEPOT_INDEX_PATH (Spec.artifactNames l).
Proof.
  intros Hname Hin.
  assert (In DEPOT_INDEX_PATH (Runs.artifactsOf ".depot-index")) as Hindex by (by left).
  apply Hname. by apply (artifacts_unambiguous _ _ DEPOT_INDEX_PATH).
Qed.

(** X28. What is published can be downloaded. When a sync with a local
    depot completes, for listings none of which is named [.depot-index] and
    whose artifacts [path.join] keeps apart in the depot: every call of
    [depot.upload] that the sync made can be read back, the download of its
    path returns its content; and the download of the index path returns
    the new index. *)
Theorem published_listings_can_be_downloaded (fullResync : bool)
  (ls : list ListingDescriptor) (s s' : State LocalDepotManager) :
  Promise_all (Object_values (listings s)) = Fulfilled ls ->
  syncWithDepot self fullResync s = (Normal tt, s') ->
  Forall (fun l => name l <> ".depot-index") ls ->
  Runs.apart (basePath (depot s)) ls ->
  exists new,
    uploads s' = (uploads s ++ new)%list
    /\ Local_download DEPOT_INDEX_PATH (depot s')
       = (Normal (Some (Spec.indexDocument ls)), depot s')
    /\ forall call, In call new ->
         Local_download call.1 (depot s') = (Normal (Some call.2), depot s').
Proof.
  intros Hall Hsync Hnames Hapart.
  destruct (syncWithDepot_calls self fullResync ls s Hall)
    as [[Hfs _] (artifacts & rest & Hu & Hf & _ & Hrest)].
  rewrite Hsync in Hu, Hrest, Hfs. simpl in Hu, Hrest, Hfs. specialize (Hrest eq_refl).
  subst rest.
  destruct (syncWithDepot_delivered self fullResync s s' Hsync) as (new & Hu' & Hd').
  assert ((getJSON DEPOT_INDEX_PATH (depot s)).2 = depot s) as Hsame.
  { unfold getJSON, download, Local_DepotManager, Local_download. unfold_M.
    destruct (readFile _ _) as [e|content]; [by destruct (String.eqb _ _) | done]. }
  rewrite Hsame in Hu', Hd'. simpl in Hu', Hd'.
  rewrite Hu in Hu'. apply app_inv_head in Hu'. subst new.
  assert (forall call, In call artifacts ->
            exists l, In l ls /\ In call.1 (Spec.artifactNames l)
                      /\ fs s !! path_join (destinationFolder self) call.1 = Some call.2)
    as Hartifact.
  { intros call Hin.
    destruct (proj1 (List.Forall_forall _ _) Hf call Hin) as (l & f & Hl & Hfl & Hname & Hread).
    exists l. rewrite Hname. by repeat split. }
  assert (forall call, In call (artifacts ++ [(DEPOT_INDEX_PATH, Spec.indexDocument ls)]) ->
            In call.1 (DEPOT_INDEX_PATH :: flat_map Spec.artifactNames ls)) as Hnamed.
  { intros call [Hin|[<-|[]]]%in_app_or; [| by left].
    destruct (Hartifact call Hin) as (l & Hl & Hfl & _). right.
    apply in_flat_map. by exists l. }
  destruct (uploads_kept _ _ _ Hd') as [Hbase Hkept].
  { intros c1 c2 H1 H2 Epath.
    pose proof (Hapart _ _ (Hnamed c1 H1) (Hnamed c2 H2) Epath) as Ename.
    apply in_app_or in H1 as [H1|[<-|[]]]; apply in_app_or in H2 as [H2|[<-|[]]].
    - destruct (Hartifact c1 H1) as (_ & _ & _ & R1).
      destruct (Hartifact c2 H2) as (_ & _ & _ & R2). rewrite Ename in R1. congruence.
    - destruct (Hartifact c1 H1) as (l & Hl & Hfl & _). exfalso. simpl in Ename.
      rewrite Ename in Hfl. revert Hfl. apply index_path_is_no_artifact.
      by apply (proj1 (List.Forall_forall _ _) Hnames).
    - destruct (Hartifact c2 H2) as (l & Hl & Hfl & _). exfalso. simpl in Ename.
      rewrite <- Ename in Hfl. revert Hfl. apply index_path_is_no_artifact.
      by apply (proj1 (List.Forall_forall _ _) Hnames).
    - done. }
  exists (artifacts ++ [(DEPOT_INDEX_PATH, Spec.indexDocument ls)])%list.
  split; [done |]. split; [| done].
  apply (Hkept (DEPOT_INDEX_PATH, Spec.indexDocument ls)). apply in_or_app. right. by left.
Qed.

End Published.

Section PublishedWitnesses.
#[local] Existing Instance Demo.platform.

Lemma demo_apart (base : string) (ls : list ListingDescriptor) : Runs.apart base ls.
Proof.
  intros a b _ _ E.
  change (path_join base) with (fun b : string => base +:+ "/" +:+ b) in E. cbv beta in E.
  by apply (inj (String.append base)), (inj (String.append "/")) in E.
Qed.

Lemma sync_a_b_completes :
  syncWithDepot Demo.builder true (Demo.registered_a_b Demo.localDepot)
  = (Normal tt, (syncWithDepot Demo.builder true (Demo.registered_a_b Demo.localDepot)).2).
Proof.
  assert ((syncWithDepot Demo.builder true (Demo.registered_a_b Demo.localDepot)).1
          = Normal tt) as E by (vm_compute; reflexivity).
  rewrite <- E. apply surjective_pairing.
Qed.

Lemma index_document_is_a_sorted_permutation_witness :
  exists artifacts sorted before,
    uploads (syncWithDepot Demo.builder true (Demo.registered_a_b Demo.localDepot)).2
    = (uploads (Demo.registered_a_b Demo.localDepot) ++ artifacts
       ++ [(DEPOT_INDEX_PATH,
            Buffer_from (JSON_stringify (JArray (map ListingDescriptor_toJS sorted)) None))])%list
    /\ upload DEPOT_INDEX_PATH
         (Buffer_from (JSON_stringify (JArray (map ListingDescriptor_toJS sorted)) None))
         before
       = (Normal tt,
          depot (syncWithDepot Demo.builder true (Demo.registered_a_b Demo.localDepot)).2)
    /\ Permutation sorted [Demo.listing_a; Demo.listing_b]
    /\ ((forall a b : string, 0 < localeCompare a b -> localeCompare b a <= 0) ->
        Sorted Spec.name_le sorted).
Proof.
  apply (index_document_is_a_sorted_permutation Demo.builder true
           [Demo.listing_a; Demo.listing_b] (Demo.registered_a_b Demo.localDepot)).
  - exact registered_a_b_fulfilled.
  - exact sync_a_b_completes.
Defined.

Lemma published_listings_can_be_downloaded_witness :
  exists new,
    uploads (syncWithDepot Demo.builder true (Demo.registered_a_b Demo.localDepot)).2
    = (uploads (Demo.registered_a_b Demo.localDepot) ++ new)%list
    /\ Local_download DEPOT_INDEX_PATH
         (depot (syncWithDepot Demo.builder true (Demo.registered_a_b Demo.localDepot)).2)
       = (Normal (Some (Spec.indexDocument [Demo.listing_a; Demo.listing_b])),
          depot (syncWithDepot Demo.builder true (Demo.registered_a_b Demo.localDepot)).2)
    /\ forall call, In call new ->
         Local_download call.1
           (depot (syncWithDepot Demo.builder true (Demo.registered_a_b Demo.localDepot)).2)
         = (Normal (Some call.2),
            depot (syncWithDepot Demo.builder true (Demo.registered_a_b Demo.localDepot)).2).
Proof.
  apply (published_listings_can_be_downloaded Demo.builder true
           [Demo.listing_a; Demo.listing_b] (Demo.registered_a_b Demo.localDepot)).
  - exact registered_a_b_fulfilled.
  - exact sync_a_b_completes.
  - repeat constructor; discriminate.
  - apply demo_apart.
Defined.

End PublishedWitnesses.
